(** * Animatronic sequencer: a shallow embedding of [sequencer.py]

    The development follows the Python module function by function:
    [get_address_info], [check_torque_status], [execute_sync_move],
    [wait_for_move_completion], [process_sequence] and [run_animation].

    - Python integers are [Z]; Python floats are IEEE binary64 values,
      computed with the reference operations of [SpecFloat].
    - Python dictionaries are insertion-ordered association lists.
    - The serial driver (dynamixel_sdk) and the files on disk are the
      environment: a [Driver] answers every transaction as a function of
      the history so far, a [FileSystem] gives the parsed content of files.
    - Effects are a trace of [Event]s threaded through a state monad whose
      outcomes are a value, a raised exception, or fuel exhaustion (the
      polling loop and the script recursion have no bound in the source). *)

From Stdlib Require Import ZArith List String Ascii Bool Lia DecimalString.
From Stdlib Require Import Floats.SpecFloat.
From Stdlib Require Import Sorting.Permutation Sorting.Sorted.
Import ListNotations.
Local Open Scope string_scope.
Local Open Scope list_scope.
Local Open Scope Z_scope.

(* ================================================================== *)
(** ** Python runtime: exceptions and outcomes *)

Inductive exn : Type :=
| KeyError
| TypeError
| AttributeError
| OverflowError
| ValueError
| ZeroDivisionError
| OSError.

Inductive Outcome (A : Type) : Type :=
| Ret (a : A)
| Raise (e : exn)
| OutOfFuel.
Arguments Ret {A} a.
Arguments Raise {A} e.
Arguments OutOfFuel {A}.

(* ================================================================== *)
(** ** Python floats (binary64) *)

Module PyFloat.

Definition prec : Z := 53.
Definition emax : Z := 1024.

Definition float : Type := spec_float.

Definition fmul : float -> float -> float := SFmul prec emax.
Definition fdiv : float -> float -> float := SFdiv prec emax.

(** An integer as an exact (not normalised) mantissa with exponent 0. *)
Definition of_int_exact (z : Z) : float :=
  match z with
  | Z0 => S754_zero false
  | Zpos p => S754_finite false p 0
  | Zneg p => S754_finite true p 0
  end.

(** [float(z)]: the nearest double, [OverflowError] beyond the range. *)
Definition float_of_int (z : Z) : Outcome float :=
  match binary_normalize prec emax z 0 false with
  | S754_infinity _ => Raise OverflowError
  | f => Ret f
  end.

(** [a / b] on two integers: the correctly rounded quotient. *)
Definition int_truediv (a b : Z) : Outcome float :=
  if b =? 0 then Raise ZeroDivisionError
  else match fdiv (of_int_exact a) (of_int_exact b) with
       | S754_infinity _ => Raise OverflowError
       | f => Ret f
       end.

(** [x * z] with [x] a float and [z] an integer: [z] is converted first. *)
Definition mul_float_int (x : float) (z : Z) : Outcome float :=
  match float_of_int z with
  | Ret f => Ret (fmul x f)
  | Raise e => Raise e
  | OutOfFuel => OutOfFuel
  end.

(** [z * x], same conversion. *)
Definition mul_int_float (z : Z) (x : float) : Outcome float :=
  match float_of_int z with
  | Ret f => Ret (fmul f x)
  | Raise e => Raise e
  | OutOfFuel => OutOfFuel
  end.

(** [z / x] with [z] an integer and [x] a float. *)
Definition div_int_float (z : Z) (x : float) : Outcome float :=
  match float_of_int z with
  | Ret f =>
      match x with
      | S754_zero _ => Raise ZeroDivisionError
      | _ => Ret (fdiv f x)
      end
  | Raise e => Raise e
  | OutOfFuel => OutOfFuel
  end.

Definition signed (s : bool) (m : positive) : Z :=
  if s then Zneg m else Zpos m.

(** [x > n] for a float [x] and an integer [n]; Python compares the exact
    values. *)
Definition gt_int (x : float) (n : Z) : bool :=
  match x with
  | S754_nan => false
  | S754_infinity s => negb s
  | S754_zero _ => n <? 0
  | S754_finite s m e =>
      if 0 <=? e then n <? signed s m * 2 ^ e
      else n * 2 ^ (- e) <? signed s m
  end.

(** [x < n] on the exact values. *)
Definition lt_int (x : float) (n : Z) : bool :=
  match x with
  | S754_nan => false
  | S754_infinity s => s
  | S754_zero _ => 0 <? n
  | S754_finite s m e =>
      if 0 <=? e then signed s m * 2 ^ e <? n
      else signed s m <? n * 2 ^ (- e)
  end.

(** [int(x)]: truncation toward zero. *)
Definition trunc (x : float) : Outcome Z :=
  match x with
  | S754_nan => Raise ValueError
  | S754_infinity _ => Raise OverflowError
  | S754_zero _ => Ret 0
  | S754_finite s m e =>
      if 0 <=? e then Ret (signed s m * 2 ^ e)
      else Ret (cond_Zopp s (Zpos m / 2 ^ (- e)))
  end.

Definition one : float := S754_finite false 4503599627370496 (-52).
Definition hundred : float := S754_finite false 7036874417766400 (-46).
Definition thousand : float := S754_finite false 8796093022208000 (-43).
(** [0.5] and [0.25] *)
Definition half : float := S754_finite false 4503599627370496 (-53).
Definition quarter : float := S754_finite false 4503599627370496 (-54).
(** the literal [0.02] *)
Definition poll_interval : float := S754_finite false 5764607523034235 (-58).
(** [1e9], nanoseconds per second *)
Definition billion : float := S754_finite false 8388608000000000 (-23).

End PyFloat.

(** A Python number as [max(1, x)] can return it: the int or the float. *)
Inductive num : Type :=
| NInt (z : Z)
| NFloat (x : PyFloat.float).

(** [max(1, x)]: the first argument is kept unless the second is larger. *)
Definition py_max_1 (x : PyFloat.float) : num :=
  if PyFloat.gt_int x 1 then NFloat x else NInt 1.

Definition py_int (n : num) : Outcome Z :=
  match n with
  | NInt z => Ret z
  | NFloat x => PyFloat.trunc x
  end.

(* ================================================================== *)
(** ** Python strings and paths *)

Definition lower_ascii (c : ascii) : ascii :=
  let n := nat_of_ascii c in
  if (Nat.leb 65 n && Nat.leb n 90)%bool then ascii_of_nat (n + 32) else c.

Fixpoint lower (s : string) : string :=
  match s with
  | EmptyString => EmptyString
  | String c s' => String (lower_ascii c) (lower s')
  end.

Definition endswith (s suffix : string) : bool :=
  let n := String.length s in
  let k := String.length suffix in
  (Nat.leb k n && String.eqb (substring (n - k) k s) suffix)%bool.

(** [os.path.join(dir, name)] on POSIX, for a relative [dir] without a
    trailing separator. *)
Definition path_join (dir name : string) : string :=
  if prefix "/" name then name else (dir ++ "/" ++ name)%string.

(* ================================================================== *)
(** ** Python dictionaries: insertion-ordered association lists *)

Section Dict.
Context {K V : Type}.
Variable eqb : K -> K -> bool.

Definition dict : Type := list (K * V).

Fixpoint dict_get (k : K) (d : dict) : option V :=
  match d with
  | [] => None
  | (k', v) :: d' => if eqb k k' then Some v else dict_get k d'
  end.

Definition dict_mem (k : K) (d : dict) : bool :=
  match dict_get k d with Some _ => true | None => false end.

(** [d[k] = v]: an existing key keeps its place, a new one goes last. *)
Fixpoint dict_set (k : K) (v : V) (d : dict) : dict :=
  match d with
  | [] => [(k, v)]
  | (k', v') :: d' =>
      if eqb k k' then (k', v) :: d' else (k', v') :: dict_set k v d'
  end.

Definition dict_keys (d : dict) : list K := map fst d.
Definition dict_values (d : dict) : list V := map snd d.
End Dict.
Arguments dict K V : clear implicits.

Definition mem_Z (x : Z) (l : list Z) : bool := existsb (Z.eqb x) l.
Definition mem_string (x : string) (l : list string) : bool :=
  existsb (String.eqb x) l.

(** [[...][:n]] *)
Definition slice_to {A} (n : Z) (l : list A) : list A :=
  if 0 <=? n then firstn (Z.to_nat n) l
  else firstn (List.length l - Z.to_nat (- n)) l.

(* ================================================================== *)
(** ** Configuration model *)

(** One record of [config/session_servos.json], as the scanner writes it. *)
Record Servo : Type := {
  id : Z;
  com_port : string;
  baud_rate : Z;
  motor_type : Z
}.

(** One block of [config/address.json]: register offsets and widths. *)
Record AddressInfo : Type := {
  torque_enable : Z;       len_torque_enable : Z;
  present_position : Z;    len_present_position : Z;
  goal_position : Z;       len_goal_position : Z;
  profile_velocity : Z;    len_profile_velocity : Z;
  moving : Z;              len_moving : Z
}.

Definition Manifest : Type := dict Z Servo.
Definition AddressMap : Type := dict string AddressInfo.
Definition GoalSet : Type := dict Z Z.

(** A value of a TOML table, as far as the interpreter tells kinds apart:
    an integer, a float or a string. *)
Inductive TomlValue : Type :=
| TInt (z : Z)
| TFloat (x : PyFloat.float)
| TStr (s : string).

Record Step : Type := {
  position_file : option TomlValue;
  velocity : option TomlValue;
  speed : option TomlValue;
  delay_ms : option TomlValue
}.

Record Script : Type := {
  base_velocity : option TomlValue;
  sequence : list Step
}.

(** What loading each file yields; [None] is a file that cannot be opened
    or parsed. *)
Record FileSystem : Type := {
  manifest_file : option (list Servo);
  address_file : option AddressMap;
  json_load : string -> option (list (Z * Z));
  toml_load : string -> option Script
}.

Definition DEFAULT_BASE_VELOCITY : Z := 150.

(* ================================================================== *)
(** ** Events, the driver and the effect monad *)

Inductive Message : Type :=
| MsgPreflight
| MsgTorqueDisabled (dxl_id : Z)
| MsgTorqueOk
| MsgWaiting
| MsgMovementComplete
| MsgTomlError (filepath : string)
| MsgProcessing (filepath : string) (speed_multiplier : PyFloat.float)
| MsgStep (i n : nat) (file : TomlValue)
| MsgJsonError (filepath : string)
| MsgDelay (seconds : PyFloat.float)
| MsgSequenceComplete (filepath : string)
| MsgFatal
| MsgOpenFailed (port : string)
| MsgAborted
| MsgPoseError
| MsgFinished (filename : string).

Record ReadReq : Type := { rq_id : Z; rq_addr : Z; rq_len : Z }.
Record WriteParam : Type :=
  { wp_id : Z; wp_addr : Z; wp_len : Z; wp_data : list Z }.

Inductive Event : Type :=
| EvOpenPort (port : string) (r : option bool)
| EvSetBaudRate (port : string) (baud : Z) (r : option bool)
| EvClosePort (port : string)
| EvBulkRead (port : string) (reqs : list ReadReq) (ok : bool)
| EvBulkWrite (port : string) (params : list WriteParam)
| EvSleep (seconds : PyFloat.float)
| EvQueuePut (m : Message).

Definition Trace : Type := list Event.

(** The answer to one grouped read: [txRxPacket() == COMM_SUCCESS], then
    [isAvailable] and [getData] per (id, address, length). *)
Record ReadResult : Type := {
  comm_success : bool;
  isAvailable : Z -> Z -> Z -> bool;
  getData : Z -> Z -> Z -> Z
}.

(** The driver decides each call from the history; [None] is a raised
    exception. *)
Record Driver : Type := {
  openPort : Trace -> string -> option bool;
  setBaudRate : Trace -> string -> Z -> option bool;
  txRxPacket : Trace -> string -> list ReadReq -> ReadResult
}.

Definition M (A : Type) : Type := Trace -> Outcome A * Trace.

Definition ret {A} (a : A) : M A := fun t => (Ret a, t).
Definition raise {A} (e : exn) : M A := fun t => (Raise e, t).
Definition out_of_fuel {A} : M A := fun t => (OutOfFuel, t).

Definition bind {A B} (m : M A) (k : A -> M B) : M B :=
  fun t =>
    match m t with
    | (Ret a, t') => k a t'
    | (Raise e, t') => (Raise e, t')
    | (OutOfFuel, t') => (OutOfFuel, t')
    end.

Notation "x <- m ;; k" := (bind m (fun x => k))
  (at level 100, m at next level, right associativity).
Notation "m ;;; k" := (bind m (fun _ => k))
  (at level 100, right associativity).

(** [try: body except Exception: handler] *)
Definition try_except {A} (body : M A) (handler : exn -> M A) : M A :=
  fun t =>
    match body t with
    | (Raise e, t') => handler e t'
    | r => r
    end.

Definition lift {A} (o : Outcome A) : M A := fun t => (o, t).
Definition emit (e : Event) : M unit := fun t => (Ret tt, t ++ [e]).
Definition queue_put (m : Message) : M unit := emit (EvQueuePut m).

(** [time.sleep(secs)].  CPython converts the length to a 64-bit count of
    nanoseconds first: ValueError for a NaN, OverflowError when the count
    does not fit, ValueError for a negative length. *)
Definition sleep (secs : PyFloat.float) : M unit :=
  match secs with
  | S754_nan => raise ValueError
  | _ =>
      let ns := PyFloat.fmul secs PyFloat.billion in
      if (PyFloat.lt_int ns (- 9223372036854775808)
          || negb (PyFloat.lt_int ns 9223372036854775808))%bool
      then raise OverflowError
      else if PyFloat.lt_int secs 0 then raise ValueError
      else emit (EvSleep secs)
  end.

Definition bulk_read (drv : Driver) (port : string) (reqs : list ReadReq)
  : M ReadResult :=
  fun t =>
    let res := txRxPacket drv t port reqs in
    (Ret res, t ++ [EvBulkRead port reqs (comm_success res)]).

Definition bulk_write (port : string) (params : list WriteParam) : M unit :=
  emit (EvBulkWrite port params).

Definition close_port (port : string) : M unit := emit (EvClosePort port).

Fixpoint mapM {A B} (f : A -> M B) (l : list A) : M (list B) :=
  match l with
  | [] => ret []
  | a :: l' => b <- f a ;; bs <- mapM f l' ;; ret (b :: bs)
  end.

Fixpoint foldM {A S} (f : S -> A -> M S) (l : list A) (s : S) : M S :=
  match l with
  | [] => ret s
  | a :: l' => s' <- f s a ;; foldM f l' s'
  end.

Fixpoint for_each {A} (f : A -> M unit) (l : list A) : M unit :=
  match l with
  | [] => ret tt
  | a :: l' => f a ;;; for_each f l'
  end.

(* ================================================================== *)
(** ** dynamixel_sdk byte macros *)

(** [DXL_LOWORD], [DXL_HIWORD], [DXL_LOBYTE], [DXL_HIBYTE] of the SDK. *)
Definition DXL_LOWORD (l : Z) : Z := Z.land l 65535.
Definition DXL_HIWORD (l : Z) : Z := Z.land (Z.shiftr l 16) 65535.
Definition DXL_LOBYTE (w : Z) : Z := Z.land w 255.
Definition DXL_HIBYTE (w : Z) : Z := Z.land (Z.shiftr w 8) 255.

Definition dxl_bytes (v : Z) : list Z :=
  [DXL_LOBYTE (DXL_LOWORD v); DXL_HIBYTE (DXL_LOWORD v);
   DXL_LOBYTE (DXL_HIWORD v); DXL_HIBYTE (DXL_HIWORD v)].

(* ================================================================== *)
(** ** sequencer.py *)

Definition str (z : Z) : string := NilZero.string_of_int (Z.to_int z).

(** [address_map.get(str(motor_type), address_map["default"])]: the default
    is looked up first, as an argument of [get]. *)
Definition get_address_info (motor_type : Z) (address_map : AddressMap)
  : Outcome AddressInfo :=
  match dict_get String.eqb "default" address_map with
  | None => Raise KeyError
  | Some dflt =>
      match dict_get String.eqb (str motor_type) address_map with
      | Some a => Ret a
      | None => Ret dflt
      end
  end.

(** [servo_manifest[dxl_id]] *)
Definition manifest_lookup (servo_manifest : Manifest) (dxl_id : Z)
  : Outcome Servo :=
  match dict_get Z.eqb dxl_id servo_manifest with
  | Some s => Ret s
  | None => Raise KeyError
  end.

(** [get_address_info(servo_manifest[dxl_id]['motor_type'], address_map)] *)
Definition address_of (servo_manifest : Manifest) (address_map : AddressMap)
    (dxl_id : Z) : M AddressInfo :=
  servo <- lift (manifest_lookup servo_manifest dxl_id) ;;
  lift (get_address_info (motor_type servo) address_map).

(** *** check_torque_status *)

Definition servos_on_port (servo_manifest : Manifest) (port_name : string)
  : list Servo :=
  filter (fun s => String.eqb (com_port s) port_name)
         (dict_values servo_manifest).

Definition torque_request (address_map : AddressMap) (servo : Servo)
  : M ReadReq :=
  addr <- lift (get_address_info (motor_type servo) address_map) ;;
  ret {| rq_id := id servo; rq_addr := torque_enable addr;
         rq_len := len_torque_enable addr |}.

(** The second inner loop; [false] is the early [return False]. *)
Fixpoint check_servos (res : ReadResult) (address_map : AddressMap)
    (servos : list Servo) : M bool :=
  match servos with
  | [] => ret true
  | servo :: rest =>
      addr <- lift (get_address_info (motor_type servo) address_map) ;;
      if (negb (isAvailable res (id servo) (torque_enable addr)
                            (len_torque_enable addr))
          || negb (getData res (id servo) (torque_enable addr)
                           (len_torque_enable addr) =? 1))%bool
      then queue_put (MsgTorqueDisabled (id servo)) ;;; ret false
      else check_servos res address_map rest
  end.

(** The loop over [port_handlers]. *)
Fixpoint check_ports (drv : Driver) (servo_manifest : Manifest)
    (address_map : AddressMap) (ports : list string) : M bool :=
  match ports with
  | [] => ret true
  | port_name :: rest =>
      let servos := servos_on_port servo_manifest port_name in
      reqs <- mapM (torque_request address_map) servos ;;
      res <- bulk_read drv port_name reqs ;;
      if negb (comm_success res) then ret false
      else
        ok <- check_servos res address_map servos ;;
        if ok then check_ports drv servo_manifest address_map rest
        else ret false
  end.

Definition check_torque_status (drv : Driver) (servo_manifest : Manifest)
    (port_handlers : list string) (address_map : AddressMap) : M bool :=
  queue_put MsgPreflight ;;;
  ok <- check_ports drv servo_manifest address_map port_handlers ;;
  if ok then queue_put MsgTorqueOk ;;; ret true else ret false.

(** *** execute_sync_move *)

(** The first loop: [moves_by_port[port]['goals'][dxl_id] = goal_pos]. *)
Definition moves_by_port_of (servo_manifest : Manifest) (servo_goals : GoalSet)
  : dict string GoalSet :=
  fold_left
    (fun (moves_by_port : dict string GoalSet) '(dxl_id, goal_pos) =>
       match dict_get Z.eqb dxl_id servo_manifest with
       | None => moves_by_port
       | Some servo =>
           let port_name := com_port servo in
           let goals :=
             match dict_get String.eqb port_name moves_by_port with
             | Some g => g
             | None => []
             end in
           dict_set String.eqb port_name
                    (dict_set Z.eqb dxl_id goal_pos goals) moves_by_port
       end)
    servo_goals [].

(** [int(max(1, (travel / max_travel) * base_velocity))] *)
Definition sync_velocity (travel max_travel base_velocity : Z) : Outcome Z :=
  match PyFloat.int_truediv travel max_travel with
  | Ret q =>
      match PyFloat.mul_float_int q base_velocity with
      | Ret x => py_int (py_max_1 x)
      | Raise e => Raise e
      | OutOfFuel => OutOfFuel
      end
  | Raise e => Raise e
  | OutOfFuel => OutOfFuel
  end.

Definition position_request (servo_manifest : Manifest)
    (address_map : AddressMap) (goal : Z * Z) : M ReadReq :=
  addr <- address_of servo_manifest address_map (fst goal) ;;
  ret {| rq_id := fst goal; rq_addr := present_position addr;
         rq_len := len_present_position addr |}.

(** One pass of the travel loop: [servo_travel_data[dxl_id] = travel]. *)
Definition travel_of (servo_manifest : Manifest) (address_map : AddressMap)
    (res : ReadResult) (goal : Z * Z) : M (Z * Z) :=
  addr <- address_of servo_manifest address_map (fst goal) ;;
  let present_pos :=
    getData res (fst goal) (present_position addr)
            (len_present_position addr) in
  ret (fst goal, Z.abs (snd goal - present_pos)).

(** [max_travel] after the loop: the running maximum, starting from 0. *)
Definition max_travel_of (servo_travel_data : dict Z Z) : Z :=
  fold_left (fun max_travel '(_, travel) =>
               if max_travel <? travel then travel else max_travel)
            servo_travel_data 0.

(** One pass of the write-preparation loop: the velocity and the goal
    parameter of one actuator. *)
Definition move_params (servo_manifest : Manifest) (address_map : AddressMap)
    (servo_travel_data : dict Z Z) (max_travel base_velocity : Z)
    (goal : Z * Z) : M (WriteParam * WriteParam) :=
  let '(dxl_id, goal_pos) := goal in
  addr <- address_of servo_manifest address_map dxl_id ;;
  travel <- lift (match dict_get Z.eqb dxl_id servo_travel_data with
                  | Some t => Ret t
                  | None => Raise KeyError
                  end) ;;
  velocity <- lift (sync_velocity travel max_travel base_velocity) ;;
  ret ({| wp_id := dxl_id; wp_addr := profile_velocity addr;
          wp_len := len_profile_velocity addr;
          wp_data := slice_to (len_profile_velocity addr)
                              (dxl_bytes velocity) |},
       {| wp_id := dxl_id; wp_addr := goal_position addr;
          wp_len := len_goal_position addr;
          wp_data := slice_to (len_goal_position addr)
                              (dxl_bytes goal_pos) |}).

(** The body of the loop over [moves_by_port.items()]. *)
Definition sync_move_port (drv : Driver) (base_velocity : Z)
    (servo_manifest : Manifest) (port_handlers : list string)
    (address_map : AddressMap) (port_move : string * GoalSet) : M unit :=
  let '(port_name, goals) := port_move in
  if negb (mem_string port_name port_handlers) then ret tt
  else
    reqs <- mapM (position_request servo_manifest address_map) goals ;;
    res <- bulk_read drv port_name reqs ;;
    if negb (comm_success res) then ret tt
    else
      servo_travel_data <-
        mapM (travel_of servo_manifest address_map res) goals ;;
      let max_travel := max_travel_of servo_travel_data in
      if 0 <? max_travel then
        params <- mapM (move_params servo_manifest address_map
                                    servo_travel_data max_travel
                                    base_velocity) goals ;;
        bulk_write port_name (map fst params) ;;;
        bulk_write port_name (map snd params)
      else ret tt.

Definition execute_sync_move (drv : Driver) (servo_goals : GoalSet)
    (base_velocity : Z) (servo_manifest : Manifest)
    (port_handlers : list string) (address_map : AddressMap) : M bool :=
  for_each (sync_move_port drv base_velocity servo_manifest port_handlers
                           address_map)
           (moves_by_port_of servo_manifest servo_goals) ;;;
  ret true.

(** *** wait_for_move_completion *)

(** [set(servo_goals.keys())]; the set is kept as a duplicate-free list and
    iterated in list order. *)
Definition servos_to_check_of (servo_goals : GoalSet) : list Z :=
  nodup Z.eq_dec (dict_keys servo_goals).

(** The grouping loop: [servos_by_port[port_name].append(dxl_id)]. *)
Definition servos_by_port_of (servo_manifest : Manifest)
    (servos_to_check : list Z) : dict string (list Z) :=
  fold_left
    (fun (servos_by_port : dict string (list Z)) dxl_id =>
       match dict_get Z.eqb dxl_id servo_manifest with
       | None => servos_by_port
       | Some servo =>
           let port_name := com_port servo in
           let ids :=
             match dict_get String.eqb port_name servos_by_port with
             | Some l => l
             | None => []
             end in
           dict_set String.eqb port_name (ids ++ [dxl_id]) servos_by_port
       end)
    servos_to_check [].

(** [servos_to_check.remove(dxl_id)] *)
Definition set_remove (dxl_id : Z) (servos_to_check : list Z)
  : Outcome (list Z) :=
  if mem_Z dxl_id servos_to_check
  then Ret (filter (fun x => negb (x =? dxl_id)) servos_to_check)
  else Raise KeyError.

Definition moving_request (servo_manifest : Manifest)
    (address_map : AddressMap) (dxl_id : Z) : M ReadReq :=
  addr <- address_of servo_manifest address_map dxl_id ;;
  ret {| rq_id := dxl_id; rq_addr := moving addr; rq_len := len_moving addr |}.

(** One pass of the last inner loop. *)
Definition poll_servo (res : ReadResult) (servo_manifest : Manifest)
    (address_map : AddressMap) (servos_to_check : list Z) (dxl_id : Z)
  : M (list Z) :=
  addr <- address_of servo_manifest address_map dxl_id ;;
  if (isAvailable res dxl_id (moving addr) (len_moving addr)
      && (getData res dxl_id (moving addr) (len_moving addr) =? 0))%bool
  then lift (set_remove dxl_id servos_to_check)
  else ret servos_to_check.

(** The body of the loop over [servos_by_port.items()]. *)
Definition poll_port (drv : Driver) (servo_manifest : Manifest)
    (port_handlers : list string) (address_map : AddressMap)
    (servos_to_check : list Z) (entry : string * list Z) : M (list Z) :=
  let '(port_name, all_ids_on_port) := entry in
  let ids_to_poll :=
    filter (fun x => mem_Z x all_ids_on_port) servos_to_check in
  match ids_to_poll with
  | [] => ret servos_to_check
  | _ :: _ =>
      if negb (mem_string port_name port_handlers) then ret servos_to_check
      else
        reqs <- mapM (moving_request servo_manifest address_map)
                     ids_to_poll ;;
        res <- bulk_read drv port_name reqs ;;
        if negb (comm_success res) then ret servos_to_check
        else foldM (poll_servo res servo_manifest address_map)
                   ids_to_poll servos_to_check
  end.

(** One iteration of the [while] body. *)
Definition poll_cycle (drv : Driver) (servo_manifest : Manifest)
    (port_handlers : list string) (address_map : AddressMap)
    (servos_by_port : dict string (list Z)) (servos_to_check : list Z)
  : M (list Z) :=
  remaining <- foldM (poll_port drv servo_manifest port_handlers address_map)
                     servos_by_port servos_to_check ;;
  match remaining with
  | [] => ret remaining
  | _ :: _ => sleep PyFloat.poll_interval ;;; ret remaining
  end.

(** [while servos_to_check: ...], at most [polls] iterations. *)
Fixpoint poll_loop (polls : nat) (drv : Driver) (servo_manifest : Manifest)
    (port_handlers : list string) (address_map : AddressMap)
    (servos_by_port : dict string (list Z)) (servos_to_check : list Z)
  : M unit :=
  match servos_to_check with
  | [] => ret tt
  | _ :: _ =>
      match polls with
      | O => out_of_fuel
      | S polls' =>
          remaining <- poll_cycle drv servo_manifest port_handlers
                                  address_map servos_by_port
                                  servos_to_check ;;
          poll_loop polls' drv servo_manifest port_handlers address_map
                    servos_by_port remaining
      end
  end.

Definition wait_for_move_completion (polls : nat) (drv : Driver)
    (servo_goals : GoalSet) (servo_manifest : Manifest)
    (port_handlers : list string) (address_map : AddressMap) : M unit :=
  let servos_to_check := servos_to_check_of servo_goals in
  let servos_by_port := servos_by_port_of servo_manifest servos_to_check in
  queue_put MsgWaiting ;;;
  poll_loop polls drv servo_manifest port_handlers address_map
            servos_by_port servos_to_check ;;;
  queue_put MsgMovementComplete.

(** *** process_sequence *)

(** Truth value of a TOML value, for [if not position_file]. *)
Definition truthy (v : TomlValue) : bool :=
  match v with
  | TInt z => negb (z =? 0)
  | TFloat x => match x with S754_zero _ => false | _ => true end
  | TStr s => negb (String.eqb s "")
  end.

(** [v / d] for a TOML value [v] and a non-zero float literal [d]. *)
Definition div_by_literal (v : TomlValue) (d : PyFloat.float)
  : Outcome PyFloat.float :=
  match v with
  | TInt p => PyFloat.div_int_float p d
  | TFloat x => Ret (PyFloat.fdiv x d)
  | TStr _ => Raise TypeError
  end.

(** [step.get('speed', 100) / 100.0] *)
Definition nested_speed_of (step : Step) : Outcome PyFloat.float :=
  match speed step with
  | None => div_by_literal (TInt 100) PyFloat.hundred
  | Some p => div_by_literal p PyFloat.hundred
  end.

(** [step_velocity * speed_multiplier] *)
Definition velocity_product (step_velocity : TomlValue)
    (speed_multiplier : PyFloat.float) : Outcome PyFloat.float :=
  match step_velocity with
  | TInt v => PyFloat.mul_int_float v speed_multiplier
  | TFloat x => Ret (PyFloat.fmul x speed_multiplier)
  | TStr _ => Raise TypeError
  end.

(** [int(step_velocity * speed_multiplier)] *)
Definition final_velocity_of (step_velocity : TomlValue)
    (speed_multiplier : PyFloat.float) : Outcome Z :=
  match velocity_product step_velocity speed_multiplier with
  | Ret x => PyFloat.trunc x
  | Raise e => Raise e
  | OutOfFuel => OutOfFuel
  end.

(** [step.get('delay_ms', 0) / 1000.0] *)
Definition delay_of (step : Step) : Outcome PyFloat.float :=
  match delay_ms step with
  | None => div_by_literal (TInt 0) PyFloat.thousand
  | Some d => div_by_literal d PyFloat.thousand
  end.

(** [{item['ID']: item['position'] for item in json.load(f)}] *)
Definition load_goals (fs : FileSystem) (filepath : string)
  : Outcome GoalSet :=
  match json_load fs filepath with
  | None => Raise OSError
  | Some items =>
      Ret (fold_left (fun d '(k, v) => dict_set Z.eqb k v d) items [])
  end.

(** The leaf move: executor, then poller when the executor returns True. *)
Definition move_and_wait (polls : nat) (drv : Driver) (goals : GoalSet)
    (base_velocity : Z) (servo_manifest : Manifest)
    (port_handlers : list string) (address_map : AddressMap) : M unit :=
  ok <- execute_sync_move drv goals base_velocity servo_manifest
                          port_handlers address_map ;;
  if ok then wait_for_move_completion polls drv goals servo_manifest
                                      port_handlers address_map
  else ret tt.

(** The end of the loop body: the optional pause after the step. *)
Definition step_delay (step : Step) : M unit :=
  delay <- lift (delay_of step) ;;
  if PyFloat.gt_int delay 0
  then queue_put (MsgDelay delay) ;;; sleep delay
  else ret tt.

(** The body of the loop over [enumerate(steps)]; [recurse] is the
    recursive call of [process_sequence]. *)
Definition process_step (polls : nat)
    (recurse : string -> PyFloat.float -> M unit)
    (drv : Driver) (fs : FileSystem) (servo_manifest : Manifest)
    (port_handlers : list string) (address_map : AddressMap)
    (base_velocity : TomlValue) (speed_multiplier : PyFloat.float)
    (n : nat) (istep : nat * Step) : M unit :=
  let '(i, step) := istep in
  match position_file step with
  | None => ret tt
  | Some pf =>
      if negb (truthy pf) then ret tt
      else
        queue_put (MsgStep (i + 1) n pf) ;;;
        match pf with
        | TInt _ | TFloat _ => raise AttributeError
        | TStr name =>
            (if endswith (lower name) ".toml" then
               nested_speed <- lift (nested_speed_of step) ;;
               recurse (path_join "animation" name)
                       (PyFloat.fmul speed_multiplier nested_speed)
             else if endswith (lower name) ".json" then
               let json_filepath := path_join "position" name in
               try_except
                 (step_goals <- lift (load_goals fs json_filepath) ;;
                  let step_velocity :=
                    match velocity step with
                    | Some v => v
                    | None => base_velocity
                    end in
                  final_velocity <-
                    lift (final_velocity_of step_velocity
                                            speed_multiplier) ;;
                  move_and_wait polls drv step_goals final_velocity
                                servo_manifest port_handlers address_map)
                 (fun _ => queue_put (MsgJsonError json_filepath))
             else ret tt) ;;;
            step_delay step
        end
  end.

Fixpoint enumerate_from {A} (i : nat) (l : list A) : list (nat * A) :=
  match l with
  | [] => []
  | a :: l' => (i, a) :: enumerate_from (S i) l'
  end.

(** [depth] bounds the nesting of scripts, which the source does not. *)
Fixpoint process_sequence (depth polls : nat) (drv : Driver)
    (fs : FileSystem) (filepath : string)
    (speed_multiplier : PyFloat.float) (servo_manifest : Manifest)
    (port_handlers : list string) (address_map : AddressMap) {struct depth}
  : M unit :=
  match depth with
  | O => out_of_fuel
  | S depth' =>
      match toml_load fs filepath with
      | None => queue_put (MsgTomlError filepath)
      | Some sequence_data =>
          let base_velocity :=
            match base_velocity sequence_data with
            | Some v => v
            | None => TInt DEFAULT_BASE_VELOCITY
            end in
          let steps := sequence sequence_data in
          queue_put (MsgProcessing filepath speed_multiplier) ;;;
          for_each
            (process_step polls
               (fun path mult =>
                  process_sequence depth' polls drv fs path mult
                                   servo_manifest port_handlers address_map)
               drv fs servo_manifest port_handlers address_map
               base_velocity speed_multiplier (List.length steps))
            (enumerate_from 0 steps) ;;;
          queue_put (MsgSequenceComplete filepath)
      end
  end.

(** *** run_animation *)

Definition manifest_of (items : list Servo) : Manifest :=
  fold_left (fun d s => dict_set Z.eqb (id s) s d) items [].

(** [{s['com_port']: s['baud_rate'] for s in servo_manifest.values()}] *)
Definition unique_ports_of (servo_manifest : Manifest) : dict string Z :=
  fold_left (fun d s => dict_set String.eqb (com_port s) (baud_rate s) d)
            (dict_values servo_manifest) [].

Definition drv_open (drv : Driver) (port : string) : M (option bool) :=
  fun t => let r := openPort drv t port in (Ret r, t ++ [EvOpenPort port r]).

Definition drv_set_baud (drv : Driver) (port : string) (baud : Z)
  : M (option bool) :=
  fun t => let r := setBaudRate drv t port baud in
           (Ret r, t ++ [EvSetBaudRate port baud r]).

(** [port_handlers[port_name] = port_handler] *)
Definition handlers_add (port_name : string) (port_handlers : list string)
  : list string :=
  if mem_string port_name port_handlers then port_handlers
  else port_handlers ++ [port_name].

(** The body of the loop over [unique_ports.items()], with its [try]. *)
Definition open_connection (drv : Driver) (port_handlers : list string)
    (pb : string * Z) : M (list string) :=
  let '(port_name, baud) := pb in
  opened <- drv_open drv port_name ;;
  match opened with
  | Some true =>
      configured <- drv_set_baud drv port_name baud ;;
      match configured with
      | Some true => ret (handlers_add port_name port_handlers)
      | _ => queue_put (MsgOpenFailed port_name) ;;; ret port_handlers
      end
  | _ => queue_put (MsgOpenFailed port_name) ;;; ret port_handlers
  end.

Definition close_all (port_handlers : list string) : M unit :=
  for_each close_port port_handlers.

Definition run_animation (depth polls : nat) (drv : Driver)
    (fs : FileSystem) (filename : string) : M unit :=
  match manifest_file fs, address_file fs with
  | Some items, Some address_map =>
      let servo_manifest := manifest_of items in
      let unique_ports := unique_ports_of servo_manifest in
      port_handlers <- foldM (open_connection drv) unique_ports [] ;;
      if negb (Nat.eqb (List.length port_handlers)
                       (List.length unique_ports))
      then close_all port_handlers
      else
        ok <- check_torque_status drv servo_manifest port_handlers
                                  address_map ;;
        if negb ok
        then close_all port_handlers ;;; queue_put MsgAborted
        else
          (if endswith (lower filename) ".toml" then
             process_sequence depth polls drv fs
                              (path_join "animation" filename) PyFloat.one
                              servo_manifest port_handlers address_map
           else if endswith (lower filename) ".json" then
             try_except
               (servo_goals <-
                  lift (load_goals fs (path_join "position" filename)) ;;
                move_and_wait polls drv servo_goals DEFAULT_BASE_VELOCITY
                              servo_manifest port_handlers address_map)
               (fun _ => queue_put MsgPoseError)
           else ret tt) ;;;
          close_all port_handlers ;;;
          queue_put (MsgFinished filename)
  | _, _ => queue_put MsgFatal
  end.

(* ================================================================== *)
(** ** Observations on traces *)

Definition is_write (e : Event) : bool :=
  match e with EvBulkWrite _ _ => true | _ => false end.

(** A grouped read or a grouped write. *)
Definition is_transaction (e : Event) : bool :=
  match e with
  | EvBulkRead _ _ _ | EvBulkWrite _ _ => true
  | _ => false
  end.

(** An attempt to open a bus or to set its link speed that did not
    succeed. *)
Definition is_failed_acquisition (e : Event) : bool :=
  match e with
  | EvOpenPort _ (Some true) | EvSetBaudRate _ _ (Some true) => false
  | EvOpenPort _ _ | EvSetBaudRate _ _ _ => true
  | _ => false
  end.

(** A grouped read or a message. *)
Definition is_read_or_message (e : Event) : bool :=
  match e with
  | EvBulkRead _ _ _ | EvQueuePut _ => true
  | _ => false
  end.

(** An event of a move: transactions, sleeps and messages. *)
Definition is_motion_event (e : Event) : bool :=
  match e with
  | EvBulkRead _ _ _ | EvBulkWrite _ _ | EvSleep _ | EvQueuePut _ => true
  | _ => false
  end.

(** An event of the poller: a grouped read, a sleep, or one of its two
    messages. *)
Definition is_poll_event (e : Event) : bool :=
  match e with
  | EvBulkRead _ _ _ | EvSleep _
  | EvQueuePut MsgWaiting | EvQueuePut MsgMovementComplete => true
  | _ => false
  end.

Definition is_processing_message (e : Event) : bool :=
  match e with EvQueuePut (MsgProcessing _ _) => true | _ => false end.

Definition is_close (e : Event) : bool :=
  match e with EvClosePort _ => true | _ => false end.

Definition remove_port (p : string) (l : list string) : list string :=
  filter (fun q => negb (String.eqb q p)) l.

(** The connections a trace leaves open, starting from [open]: a bus is
    connected once its port is opened and its link speed set, until it is
    closed. *)
Fixpoint connections (evs : Trace) (open : list string) : list string :=
  match evs with
  | [] => open
  | EvSetBaudRate p _ (Some true) :: evs' =>
      connections evs' (handlers_add p open)
  | EvClosePort p :: evs' => connections evs' (remove_port p open)
  | _ :: evs' => connections evs' open
  end.

(** The ports a trace leaves open, starting from [open]: a port is open
    from a successful [openPort] until [closePort], its link speed set or
    not. *)
Fixpoint open_ports (evs : Trace) (open : list string) : list string :=
  match evs with
  | [] => open
  | EvOpenPort p (Some true) :: evs' => open_ports evs' (handlers_add p open)
  | EvClosePort p :: evs' => open_ports evs' (remove_port p open)
  | _ :: evs' => open_ports evs' open
  end.

(** The trace records an attempt to set the link speed of [port] that did
    not succeed. *)
Definition link_speed_failed (port : string) (evs : Trace) : Prop :=
  exists baud r, In (EvSetBaudRate port baud r) evs /\ r <> Some true.

(** The action only appends events, all of which satisfy [P]. *)
Definition only {A} (P : Event -> Prop) (m : M A) : Prop :=
  forall t, exists evs, snd (m t) = t ++ evs /\ Forall P evs.

(** The dispatch of [run_animation] on the kind of file, by name. *)
Definition play_file (depth polls : nat) (drv : Driver) (fs : FileSystem)
    (filename : string) (servo_manifest : Manifest)
    (port_handlers : list string) (address_map : AddressMap) : M unit :=
  if endswith (lower filename) ".toml" then
    process_sequence depth polls drv fs
                     (path_join "animation" filename) PyFloat.one
                     servo_manifest port_handlers address_map
  else if endswith (lower filename) ".json" then
    try_except
      (servo_goals <-
         lift (load_goals fs (path_join "position" filename)) ;;
       move_and_wait polls drv servo_goals DEFAULT_BASE_VELOCITY
                     servo_manifest port_handlers address_map)
      (fun _ => queue_put MsgPoseError)
  else ret tt.

(** The rest of [run_animation] once the acquisition loop has returned
    its handlers. *)
Definition after_acquisition (depth polls : nat) (drv : Driver)
    (fs : FileSystem) (filename : string) (servo_manifest : Manifest)
    (address_map : AddressMap) (port_handlers : list string) : M unit :=
  if negb (Nat.eqb (List.length port_handlers)
                   (List.length (unique_ports_of servo_manifest)))
  then close_all port_handlers
  else
    ok <- check_torque_status drv servo_manifest port_handlers
                              address_map ;;
    if negb ok
    then close_all port_handlers ;;; queue_put MsgAborted
    else
      play_file depth polls drv fs filename servo_manifest port_handlers
                address_map ;;;
      close_all port_handlers ;;;
      queue_put (MsgFinished filename).

(** An event of the acquisition loop. *)
Definition is_acquisition_event (e : Event) : bool :=
  match e with
  | EvOpenPort _ _ | EvSetBaudRate _ _ _ | EvQueuePut (MsgOpenFailed _) => true
  | _ => false
  end.

(** The pending set after [n] iterations of the polling loop (or at its
    exit, when that comes first). *)
Fixpoint poll_cycles (n : nat) (drv : Driver) (servo_manifest : Manifest)
    (port_handlers : list string) (address_map : AddressMap)
    (servos_by_port : dict string (list Z)) (servos_to_check : list Z)
  : M (list Z) :=
  match n with
  | O => ret servos_to_check
  | S n' =>
      match servos_to_check with
      | [] => ret []
      | _ :: _ =>
          remaining <- poll_cycle drv servo_manifest port_handlers
                                  address_map servos_by_port
                                  servos_to_check ;;
          poll_cycles n' drv servo_manifest port_handlers address_map
                      servos_by_port remaining
      end
  end.

(** What a grouped read says of one actuator's motion-enable register when
    the gate rejects it: the transaction failed, the register is not
    available, or it does not hold 1. *)
Definition torque_rejected (res : ReadResult) (servo : Servo)
    (addr : AddressInfo) : Prop :=
  comm_success res = false
  \/ isAvailable res (id servo) (torque_enable addr)
                 (len_torque_enable addr) = false
  \/ getData res (id servo) (torque_enable addr)
             (len_torque_enable addr) <> 1.

(** The scripts a run of [root] at multiplier [m0] can enter, each with
    the multiplier it is entered at: the root itself, and every script
    named by a nested step of a script already entered, at that script's
    multiplier times the step's speed. *)
Inductive runs_at (fs : FileSystem) (root : string) (m0 : PyFloat.float)
  : string -> PyFloat.float -> Prop :=
| runs_root : runs_at fs root m0 root m0
| runs_nested filepath m script step name q :
    runs_at fs root m0 filepath m ->
    toml_load fs filepath = Some script ->
    In step (sequence script) ->
    position_file step = Some (TStr name) ->
    endswith (lower name) ".toml" = true ->
    nested_speed_of step = Ret q ->
    runs_at fs root m0 (path_join "animation" name) (PyFloat.fmul m q).

(** Rounding to the nearest integer, ties upward, of an exact float. *)
Definition round_half_up (x : PyFloat.float) : Outcome Z :=
  match x with
  | S754_nan => Raise ValueError
  | S754_infinity _ => Raise OverflowError
  | S754_zero _ => Ret 0
  | S754_finite s m e =>
      if 0 <=? e then Ret (PyFloat.signed s m * 2 ^ e)
      else Ret ((2 * PyFloat.signed s m + 2 ^ (- e)) / 2 ^ (1 - e))
  end.

(** The final velocity in the words of the specification:
    [round(step_velocity * speed_multiplier)]. *)
Definition spec_final_velocity (step_velocity : Z)
    (speed_multiplier : PyFloat.float) : Outcome Z :=
  match PyFloat.mul_int_float step_velocity speed_multiplier with
  | Ret x => round_half_up x
  | Raise e => Raise e
  | OutOfFuel => OutOfFuel
  end.

(** The synchronised velocity in the words of the specification:
    [max(1, round(travel / max_travel * base_velocity))]. *)
Definition spec_sync_velocity (travel max_travel base_velocity : Z)
  : Outcome Z :=
  match PyFloat.int_truediv travel max_travel with
  | Ret q =>
      match PyFloat.mul_float_int q base_velocity with
      | Ret x =>
          match round_half_up x with
          | Ret r => Ret (Z.max 1 r)
          | Raise e => Raise e
          | OutOfFuel => OutOfFuel
          end
      | Raise e => Raise e
      | OutOfFuel => OutOfFuel
      end
  | Raise e => Raise e
  | OutOfFuel => OutOfFuel
  end.

(* ================================================================== *)
(** ** A small rig, for concrete runs *)

(** Register layout of the X series, the only block of the address map. *)
Definition demo_addr : AddressInfo :=
  {| torque_enable := 64;      len_torque_enable := 1;
     present_position := 132;  len_present_position := 4;
     goal_position := 116;     len_goal_position := 4;
     profile_velocity := 112;  len_profile_velocity := 4;
     moving := 122;            len_moving := 1 |}.

Definition demo_address_map : AddressMap := [("default", demo_addr)].

Definition demo_servo (i : Z) (port : string) : Servo :=
  {| id := i; com_port := port; baud_rate := 57600; motor_type := 1060 |}.

(** Actuators 1, 2, 3 on one bus. *)
Definition demo_items : list Servo :=
  [demo_servo 1 "COM1"; demo_servo 2 "COM1"; demo_servo 3 "COM1"].

Definition demo_manifest : Manifest := manifest_of demo_items.

(** Every register answers: torque enabled, position 0, not moving. *)
Definition demo_result (ok : bool) : ReadResult :=
  {| comm_success := ok;
     isAvailable := fun _ _ _ => true;
     getData := fun _ addr _ => if addr =? 64 then 1 else 0 |}.

(** A driver on which every call succeeds. *)
Definition demo_driver : Driver :=
  {| openPort := fun _ _ => Some true;
     setBaudRate := fun _ _ _ => Some true;
     txRxPacket := fun _ _ _ => demo_result true |}.

(** A driver whose first grouped read fails and whose later ones succeed. *)
Definition flaky_driver : Driver :=
  {| openPort := fun _ _ => Some true;
     setBaudRate := fun _ _ _ => Some true;
     txRxPacket := fun t _ _ =>
       demo_result (existsb is_transaction t) |}.

(** A driver that accepts the link speed 57600 only, as the SDK accepts the
    rates of its table only. *)
Definition picky_driver : Driver :=
  {| openPort := fun _ _ => Some true;
     setBaudRate := fun _ _ baud => Some (baud =? 57600);
     txRxPacket := fun _ _ _ => demo_result true |}.

(** A driver on which actuator 2 reports its torque disabled. *)
Definition limp_driver : Driver :=
  {| openPort := fun _ _ => Some true;
     setBaudRate := fun _ _ _ => Some true;
     txRxPacket := fun _ _ _ =>
       {| comm_success := true;
          isAvailable := fun _ _ _ => true;
          getData := fun i addr _ =>
            if addr =? 64 then (if i =? 2 then 0 else 1) else 0 |} |}.

(** Travels 100, 50 and 25 from position 0. *)
Definition demo_goals : GoalSet := [(1, 100); (2, 50); (3, 25)].

(** A goal file that still names the retired actuator 99. *)
Definition stale_goals : GoalSet := [(99, 0)].

Definition leaf_step (file : string) : Step :=
  {| position_file := Some (TStr file); velocity := None;
     speed := None; delay_ms := None |}.

Definition nested_step (file : string) (percent : TomlValue) : Step :=
  {| position_file := Some (TStr file); velocity := None;
     speed := Some percent; delay_ms := None |}.

(** [inner.toml] moves to [pose.json] at base velocity 7; [mid.toml] runs
    it at 50 %, [top.toml] runs [mid.toml] at 50 %; [broken.toml] gives
    its nested step a speed that is not a number; [rehearsal.toml] names a
    goal file that does not exist. *)
Definition demo_toml (filepath : string) : option Script :=
  if String.eqb filepath "animation/inner.toml" then
    Some {| base_velocity := Some (TInt 7);
            sequence := [leaf_step "pose.json"] |}
  else if String.eqb filepath "animation/mid.toml" then
    Some {| base_velocity := None;
            sequence := [nested_step "inner.toml" (TInt 50)] |}
  else if String.eqb filepath "animation/top.toml" then
    Some {| base_velocity := None;
            sequence := [nested_step "mid.toml" (TInt 50)] |}
  else if String.eqb filepath "animation/broken.toml" then
    Some {| base_velocity := None;
            sequence := [nested_step "inner.toml" (TStr "fast")] |}
  else if String.eqb filepath "animation/rehearsal.toml" then
    Some {| base_velocity := None;
            sequence := [leaf_step "missing.json"] |}
  else None.

Definition demo_fs : FileSystem :=
  {| manifest_file := Some demo_items;
     address_file := Some demo_address_map;
     json_load := fun filepath =>
       if String.eqb filepath "position/pose.json" then Some demo_goals
       else if String.eqb filepath "position/stale.json" then Some stale_goals
       else None;
     toml_load := demo_toml |}.

(** A second rig: actuator 1 on [COM1], actuator 2 on [COM2] whose manifest
    entry carries a link speed the driver does not support. *)
Definition two_bus_items : list Servo :=
  [demo_servo 1 "COM1";
   {| id := 2; com_port := "COM2"; baud_rate := 123456;
      motor_type := 1060 |}].

Definition two_bus_fs : FileSystem :=
  {| manifest_file := Some two_bus_items;
     address_file := Some demo_address_map;
     json_load := json_load demo_fs;
     toml_load := demo_toml |}.

(** A driver on which every grouped read fails. *)
Definition silent_driver : Driver :=
  {| openPort := fun _ _ => Some true;
     setBaudRate := fun _ _ _ => Some true;
     txRxPacket := fun _ _ _ => demo_result false |}.

(** An address map with a block for the rig's motor type and no
    ["default"] block. *)
Definition typed_address_map : AddressMap := [("1060", demo_addr)].

(* ================================================================== *)
(** ** Classes of floats used by the proofs *)

(** A float that is zero or finite. *)
Definition finite_float (x : PyFloat.float) : Prop :=
  match x with
  | S754_zero _ | S754_finite _ _ _ => True
  | _ => False
  end.

(** A non-negative float of value at most 1: [mx * 2^ex <= 1]. *)
Definition at_most_one (x : PyFloat.float) : Prop :=
  match x with
  | S754_zero _ => True
  | S754_finite false mx ex => ex <= 0 /\ Zpos mx <= 2 ^ (- ex)
  | _ => False
  end.

(** A zero or finite float in the range of a double: mantissa below
    [2^53], exponent at most 971. *)
Definition in_range (x : PyFloat.float) : Prop :=
  match x with
  | S754_zero _ => True
  | S754_finite _ mx ex => Zpos mx < 2 ^ 53 /\ ex <= 971
  | _ => False
  end.

(* ================================================================== *)
(** ** The effect-free parts of the executor, as plain functions *)

Definition obind {A B} (o : Outcome A) (k : A -> Outcome B) : Outcome B :=
  match o with
  | Ret a => k a
  | Raise e => Raise e
  | OutOfFuel => OutOfFuel
  end.

Fixpoint mapO {A B} (f : A -> Outcome B) (l : list A) : Outcome (list B) :=
  match l with
  | [] => Ret []
  | a :: l' =>
      obind (f a) (fun b => obind (mapO f l') (fun bs => Ret (b :: bs)))
  end.

(** The outcome of [address_of], which does not depend on the trace. *)
Definition address_outcome (servo_manifest : Manifest)
    (address_map : AddressMap) (dxl_id : Z) : Outcome AddressInfo :=
  obind (manifest_lookup servo_manifest dxl_id)
        (fun servo => get_address_info (motor_type servo) address_map).

(** The requests of the present-position read of one bus. *)
Definition position_requests (servo_manifest : Manifest)
    (address_map : AddressMap) (goals : GoalSet) : Outcome (list ReadReq) :=
  mapO (fun goal =>
          obind (address_outcome servo_manifest address_map (fst goal))
                (fun addr =>
                   Ret {| rq_id := fst goal;
                          rq_addr := present_position addr;
                          rq_len := len_present_position addr |}))
       goals.

(** [servo_travel_data] of one bus, from the answer to its read. *)
Definition travels_of (servo_manifest : Manifest) (address_map : AddressMap)
    (res : ReadResult) (goals : GoalSet) : Outcome (dict Z Z) :=
  mapO (fun goal =>
          obind (address_outcome servo_manifest address_map (fst goal))
                (fun addr =>
                   Ret (fst goal,
                        Z.abs (snd goal
                               - getData res (fst goal)
                                         (present_position addr)
                                         (len_present_position addr)))))
       goals.

(** The velocity and goal parameters of one actuator. *)
Definition move_params_outcome (servo_manifest : Manifest)
    (address_map : AddressMap) (servo_travel_data : dict Z Z)
    (max_travel base_velocity : Z) (goal : Z * Z)
  : Outcome (WriteParam * WriteParam) :=
  obind (address_outcome servo_manifest address_map (fst goal))
    (fun addr =>
       obind (match dict_get Z.eqb (fst goal) servo_travel_data with
              | Some t => Ret t
              | None => Raise KeyError
              end)
         (fun travel =>
            obind (sync_velocity travel max_travel base_velocity)
              (fun velocity =>
                 Ret ({| wp_id := fst goal;
                         wp_addr := profile_velocity addr;
                         wp_len := len_profile_velocity addr;
                         wp_data := slice_to (len_profile_velocity addr)
                                             (dxl_bytes velocity) |},
                      {| wp_id := fst goal;
                         wp_addr := goal_position addr;
                         wp_len := len_goal_position addr;
                         wp_data := slice_to (len_goal_position addr)
                                             (dxl_bytes (snd goal)) |})))).

(** The address map has its fallback block. *)
Definition has_default (address_map : AddressMap) : Prop :=
  dict_mem String.eqb "default" address_map = true.

(** What one bus pass of the executor does, read off its code: the
    outcome and the events appended. *)
Definition bus_pass (drv : Driver) (base_velocity : Z)
    (servo_manifest : Manifest) (port_handlers : list string)
    (address_map : AddressMap) (port_name : string) (goals : GoalSet)
    (t : Trace) : Outcome unit * Trace :=
  if negb (mem_string port_name port_handlers) then (Ret tt, t)
  else
    match position_requests servo_manifest address_map goals with
    | Ret reqs =>
        let res := txRxPacket drv t port_name reqs in
        let t1 := t ++ [EvBulkRead port_name reqs (comm_success res)] in
        if negb (comm_success res) then (Ret tt, t1)
        else
          match travels_of servo_manifest address_map res goals with
          | Ret servo_travel_data =>
              let max_travel := max_travel_of servo_travel_data in
              if 0 <? max_travel then
                match mapO (move_params_outcome servo_manifest address_map
                              servo_travel_data max_travel base_velocity)
                           goals with
                | Ret params =>
                    (Ret tt, t1 ++ [EvBulkWrite port_name (map fst params);
                                    EvBulkWrite port_name (map snd params)])
                | Raise e => (Raise e, t1)
                | OutOfFuel => (OutOfFuel, t1)
                end
              else (Ret tt, t1)
          | Raise e => (Raise e, t1)
          | OutOfFuel => (OutOfFuel, t1)
          end
    | Raise e => (Raise e, t)
    | OutOfFuel => (OutOfFuel, t)
    end.

(** The action leaves the trace as it found it. *)
Definition pure {A} (m : M A) : Prop := forall t, snd (m t) = t.


(** The action has the same outcome on every trace and no effect. *)
Definition constant {A} (m : M A) (o : Outcome A) : Prop :=
  forall t, m t = (o, t).


(** The grouping of the poller: keys are distinct, and every id filed
    under a port is a manifest actuator of that port. *)
Definition grouped_by_port (servo_manifest : Manifest)
    (servos_by_port : dict string (list Z)) : Prop :=
  NoDup (dict_keys servos_by_port) /\
  forall port ids x, In (port, ids) servos_by_port -> In x ids ->
    exists servo, dict_get Z.eqb x servo_manifest = Some servo
                  /\ com_port servo = port.


(** Every actuator filed under a bus is known to the manifest. *)
Definition partition_known (servo_manifest : Manifest)
    (moves_by_port : dict string GoalSet) : Prop :=
  forall port goals g, In (port, goals) moves_by_port -> In g goals ->
    exists servo, dict_get Z.eqb (fst g) servo_manifest = Some servo.

(** [y] is filed under some bus of the grouping. *)
Definition listed (servos_by_port : dict string (list Z)) (y : Z) : bool :=
  existsb (fun entry => mem_Z y (snd entry)) servos_by_port.

(** The grouped reads of a driver always succeed and report every register
    available with value 0: every actuator polled has stopped. *)
Definition all_stopped (drv : Driver) : Prop :=
  forall tr port reqs i a l,
    comm_success (txRxPacket drv tr port reqs) = true
    /\ isAvailable (txRxPacket drv tr port reqs) i a l = true
    /\ getData (txRxPacket drv tr port reqs) i a l = 0.

(** The actuator is in the manifest and its bus has a handler. *)
Definition ready (servo_manifest : Manifest) (port_handlers : list string)
    (dxl_id : Z) : Prop :=
  exists servo, dict_get Z.eqb dxl_id servo_manifest = Some servo
                /\ In (com_port servo) port_handlers.

(** One pass of the grouping loop of the poller. *)
Definition file_id (servo_manifest : Manifest)
    (servos_by_port : dict string (list Z)) (dxl_id : Z)
  : dict string (list Z) :=
  match dict_get Z.eqb dxl_id servo_manifest with
  | None => servos_by_port
  | Some servo =>
      let port_name := com_port servo in
      let ids :=
        match dict_get String.eqb port_name servos_by_port with
        | Some l => l
        | None => []
        end in
      dict_set String.eqb port_name (ids ++ [dxl_id]) servos_by_port
  end.

(* ================================================================== *)
(** ** Further observations on the sequencer *)

(** The value of a little-endian byte string. *)
Fixpoint le_value (bytes : list Z) : Z :=
  match bytes with
  | [] => 0
  | b :: rest => b + 256 * le_value rest
  end.

(** The ports a trace asks to open, and the ports it closes, in order. *)
Fixpoint opens_of (evs : Trace) : list string :=
  match evs with
  | [] => []
  | EvOpenPort p _ :: evs' => p :: opens_of evs'
  | _ :: evs' => opens_of evs'
  end.

Fixpoint closes_of (evs : Trace) : list string :=
  match evs with
  | [] => []
  | EvClosePort p :: evs' => p :: closes_of evs'
  | _ :: evs' => closes_of evs'
  end.

(** The entries of a goal set whose id the manifest knows. *)
Definition known_goals (servo_manifest : Manifest) (servo_goals : GoalSet)
  : GoalSet :=
  filter (fun goal => dict_mem Z.eqb (fst goal) servo_manifest) servo_goals.

(** A step that the interpreter skips: no [position_file], or a falsy
    one. *)
Definition skipped (step : Step) : Prop :=
  match position_file step with
  | None => True
  | Some pf => truthy pf = false
  end.

(** A request of the poller: the [moving] register of a goal-set actuator
    that the manifest files under [port]. *)
Definition moving_request_of (servo_manifest : Manifest)
    (address_map : AddressMap) (servo_goals : GoalSet) (port : string)
    (r : ReadReq) : Prop :=
  exists servo addr,
    In (rq_id r) (dict_keys servo_goals)
    /\ dict_get Z.eqb (rq_id r) servo_manifest = Some servo
    /\ com_port servo = port
    /\ get_address_info (motor_type servo) address_map = Ret addr
    /\ rq_addr r = moving addr
    /\ rq_len r = len_moving addr.

(** An event of the poller, in full. *)
Definition poller_event (servo_manifest : Manifest)
    (port_handlers : list string) (address_map : AddressMap)
    (servo_goals : GoalSet) (e : Event) : Prop :=
  e = EvQueuePut MsgWaiting
  \/ e = EvQueuePut MsgMovementComplete
  \/ e = EvSleep PyFloat.poll_interval
  \/ exists port reqs ok,
       e = EvBulkRead port reqs ok
       /\ In port port_handlers
       /\ reqs <> []
       /\ Forall (moving_request_of servo_manifest address_map servo_goals
                                    port) reqs.

(** A script of two steps that name no file: a five-second pause, and a
    step whose pause is not even a number. *)
Definition pause_only_fs : FileSystem :=
  {| manifest_file := Some demo_items;
     address_file := Some demo_address_map;
     json_load := fun _ => None;
     toml_load := fun filepath =>
       if String.eqb filepath "animation/pause.toml"
       then Some {| base_velocity := None;
                    sequence :=
                      [{| position_file := None; velocity := None;
                          speed := None; delay_ms := Some (TInt 5000) |};
                       {| position_file := Some (TStr "");
                          velocity := None; speed := None;
                          delay_ms := Some (TStr "long") |}] |}
       else None |}.

(** A configuration whose address map has a block for the only motor type
    in use, and no ["default"] block. *)
Definition no_default_fs : FileSystem :=
  {| manifest_file := Some demo_items;
     address_file := Some [("1060", demo_addr)];
     json_load := json_load demo_fs;
     toml_load := demo_toml |}.

(* ================================================================== *)
(** * The maintenance tools

    [torque_control.py], [position_saver.py] and [scanner.py] talk to the
    same buses and write the files that the sequencer reads.  They have a
    trace of their own: single-register reads, pings and file writes do
    not occur in the sequencer.

    The tools read the two configuration files through [load_json], which
    prints its error on the console (not on the queue) and returns
    [None]; [if not manifest or not address_map: return] then leaves the
    tool on a file that did not load and on an empty one alike.  The
    texts put on the queue are the constructors of [ToolMessage], with
    the values that the text interpolates. *)

Definition upper_ascii (c : ascii) : ascii :=
  let n := nat_of_ascii c in
  if (Nat.leb 97 n && Nat.leb n 122)%bool then ascii_of_nat (n - 32) else c.

Fixpoint upper (s : string) : string :=
  match s with
  | EmptyString => EmptyString
  | String c s' => String (upper_ascii c) (upper s')
  end.

Inductive ToolMessage : Type :=
| TmInvalidState (state : string)
| TmTorqueStart (enabling : bool)
| TmSending (port : string)
| TmCommandSent (enabling : bool)
| TmCommandFailed (port : string)
| TmPortFailed (port : string)
| TmTorqueFinished (state_upper : string)
| TmConnectFailed (port : string)
| TmReading (port : string)
| TmUnsupportedLength (len dxl_id : Z)
| TmRead (dxl_id pos : Z)
| TmReadFailed (dxl_id : Z)
| TmNothingRead
| TmSaving (n : nat)
| TmSaved (filepath : string)
| TmWriteFailed
| TmRule
| TmScanTitle
| TmNoPorts
| TmScanning (port : string) (baud : Z)
| TmFound (dxl_id : Z)
| TmNoServos
| TmScanComplete (n : nat)
| TmSavingManifest
| TmManifestSaved
| TmManifestFailed
| TmText (message : string).

Inductive ToolEvent : Type :=
| TvOpenPort (port : string) (r : option bool)
| TvSetBaudRate (port : string) (baud : Z) (r : option bool)
| TvClosePort (port : string)
| TvBulkWrite (port : string) (params : list WriteParam) (ok : bool)
| TvRead (port : string) (len dxl_id addr : Z) (pos : Z) (ok : bool)
         (err : Z)
| TvPing (port : string) (dxl_id : Z) (model : Z) (ok : bool) (err : Z)
| TvMakeDirs (path : string) (ok : bool)
| TvSavePositions (filepath : string) (content : list (Z * Z)) (ok : bool)
| TvSaveManifest (content : list Servo) (ok : bool)
| TvPut (m : ToolMessage).

Definition ToolTrace : Type := list ToolEvent.

(** The bench the tools run on: every call is answered from the history;
    [None] is a raised exception, a [bool] among the results of a
    transaction is [== COMM_SUCCESS]. *)
Record Bench : Type := {
  bench_openPort : ToolTrace -> string -> option bool;
  bench_setBaudRate : ToolTrace -> string -> Z -> option bool;
  bench_txPacket : ToolTrace -> string -> list WriteParam -> bool;
  bench_read : ToolTrace -> string -> Z -> Z -> Z -> Z * bool * Z;
  bench_ping : ToolTrace -> string -> Z -> Z * bool * Z;
  bench_comports : list string;
  bench_makedirs : string -> bool;
  bench_write : ToolTrace -> string -> bool
}.

Definition T (A : Type) : Type := ToolTrace -> Outcome A * ToolTrace.

Definition tret {A} (a : A) : T A := fun t => (Ret a, t).
Definition tlift {A} (o : Outcome A) : T A := fun t => (o, t).

Definition tbind {A B} (m : T A) (k : A -> T B) : T B :=
  fun t =>
    match m t with
    | (Ret a, t') => k a t'
    | (Raise e, t') => (Raise e, t')
    | (OutOfFuel, t') => (OutOfFuel, t')
    end.

Notation "x <~ m ;; k" := (tbind m (fun x => k))
  (at level 100, m at next level, right associativity).
Notation "m ;;~ k" := (tbind m (fun _ => k))
  (at level 100, right associativity).

Definition temit (e : ToolEvent) : T unit := fun t => (Ret tt, t ++ [e]).
Definition tput (m : ToolMessage) : T unit := temit (TvPut m).

Fixpoint tmapM {A B} (f : A -> T B) (l : list A) : T (list B) :=
  match l with
  | [] => tret []
  | a :: l' => b <~ f a ;; bs <~ tmapM f l' ;; tret (b :: bs)
  end.

Fixpoint tfoldM {A S} (f : S -> A -> T S) (l : list A) (s : S) : T S :=
  match l with
  | [] => tret s
  | a :: l' => s' <~ f s a ;; tfoldM f l' s'
  end.

Fixpoint tfor_each {A} (f : A -> T unit) (l : list A) : T unit :=
  match l with
  | [] => tret tt
  | a :: l' => f a ;;~ tfor_each f l'
  end.

(** [portHandler.openPort()] and [portHandler.setBaudRate(baud)] outside
    any [try]: an exception of the driver leaves the tool. *)
Definition tool_open (bench : Bench) (port : string) : T bool :=
  fun t =>
    let r := bench_openPort bench t port in
    match r with
    | Some b => (Ret b, t ++ [TvOpenPort port r])
    | None => (Raise OSError, t ++ [TvOpenPort port r])
    end.

Definition tool_set_baud (bench : Bench) (port : string) (baud : Z)
  : T bool :=
  fun t =>
    let r := bench_setBaudRate bench t port baud in
    match r with
    | Some b => (Ret b, t ++ [TvSetBaudRate port baud r])
    | None => (Raise OSError, t ++ [TvSetBaudRate port baud r])
    end.

Definition tool_close (port : string) : T unit := temit (TvClosePort port).

(** [sorted(l, key=...)]: the stable sort, here by insertion behind the
    entries whose key is not larger. *)
Fixpoint insert_sorted {A} (key : A -> Z) (x : A) (l : list A) : list A :=
  match l with
  | [] => [x]
  | y :: l' =>
      if key x <? key y then x :: y :: l' else y :: insert_sorted key x l'
  end.

Definition sorted_by {A} (key : A -> Z) (l : list A) : list A :=
  fold_left (fun acc x => insert_sorted key x acc) l [].

(** The grouping loop of [torque_control.py] and [position_saver.py]: the
    first manifest entry of a bus creates its record, with its link
    speed; every entry is appended to the record of its bus. *)
Definition tool_servos_by_port (manifest : list Servo)
  : dict string (Z * list Servo) :=
  fold_left
    (fun (servos_by_port : dict string (Z * list Servo)) servo =>
       let port := com_port servo in
       let servos_by_port' :=
         if dict_mem String.eqb port servos_by_port then servos_by_port
         else dict_set String.eqb port (baud_rate servo, []) servos_by_port in
       match dict_get String.eqb port servos_by_port' with
       | Some (baud, servos) =>
           dict_set String.eqb port (baud, servos ++ [servo]) servos_by_port'
       | None => servos_by_port'
       end)
    manifest [].

(** ** torque_control.py *)

Definition TORQUE_ENABLE_VAL : Z := 1.
Definition TORQUE_DISABLE_VAL : Z := 0.

(** One pass of the inner loop: the parameter added for one servo. *)
Definition torque_param (address_map : AddressMap) (torque_value : Z)
    (servo : Servo) : T WriteParam :=
  addr <~ tlift (get_address_info (motor_type servo) address_map) ;;
  let addr_torque := torque_enable addr in
  let len_torque := len_torque_enable addr in
  let param_torque :=
    slice_to len_torque [DXL_LOBYTE torque_value; DXL_HIBYTE torque_value] in
  tret {| wp_id := id servo; wp_addr := addr_torque; wp_len := len_torque;
          wp_data := param_torque |}.

(** The body of the loop over [servos_by_port.items()]. *)
Definition torque_port (bench : Bench) (address_map : AddressMap)
    (enabling : bool) (torque_value : Z)
    (entry : string * (Z * list Servo)) : T unit :=
  let '(port_name, (baud, servos)) := entry in
  opened <~ tool_open bench port_name ;;
  if opened then
    configured <~ tool_set_baud bench port_name baud ;;
    if configured then
      tput (TmSending port_name) ;;~
      params <~ tmapM (torque_param address_map torque_value) servos ;;
      ok <~ (fun t => let ok := bench_txPacket bench t port_name params in
                      (Ret ok, t ++ [TvBulkWrite port_name params ok])) ;;
      (if ok then tput (TmCommandSent enabling)
       else tput (TmCommandFailed port_name)) ;;~
      tool_close port_name
    else tput (TmPortFailed port_name)
  else tput (TmPortFailed port_name).

Definition set_torque (bench : Bench) (fs : FileSystem) (state : string)
  : T unit :=
  if negb (String.eqb state "on" || String.eqb state "off")%bool
  then tput (TmInvalidState state)
  else
    let enabling := String.eqb state "on" in
    let torque_value :=
      if enabling then TORQUE_ENABLE_VAL else TORQUE_DISABLE_VAL in
    tput (TmTorqueStart enabling) ;;~
    match manifest_file fs, address_file fs with
    | Some ((_ :: _) as manifest), Some ((_ :: _) as address_map) =>
        tfor_each (torque_port bench address_map enabling torque_value)
                  (tool_servos_by_port manifest) ;;~
        tput (TmTorqueFinished (upper state))
    | _, _ => tret tt
    end.

(** ** position_saver.py *)

(** One pass of the loop over the servos of a bus. *)
Definition read_position (bench : Bench) (address_map : AddressMap)
    (port_name : string) (found_servos_data : list (Z * Z)) (servo : Servo)
  : T (list (Z * Z)) :=
  let dxl_id := id servo in
  addr <~ tlift (get_address_info (motor_type servo) address_map) ;;
  let addr_pos := present_position addr in
  let len_pos := len_present_position addr in
  if negb ((len_pos =? 1) || (len_pos =? 2) || (len_pos =? 4))%bool
  then tput (TmUnsupportedLength len_pos dxl_id) ;;~ tret found_servos_data
  else
    r <~ (fun t =>
            let '(pos, ok, err) :=
              bench_read bench t port_name len_pos dxl_id addr_pos in
            (Ret (pos, ok, err),
             t ++ [TvRead port_name len_pos dxl_id addr_pos pos ok err])) ;;
    let '(pos, ok, err) := r in
    if (ok && (err =? 0))%bool
    then tput (TmRead dxl_id pos) ;;~
         tret (found_servos_data ++ [(dxl_id, pos)])
    else tput (TmReadFailed dxl_id) ;;~ tret found_servos_data.

(** The body of the loop over [servos_by_port.items()]. *)
Definition save_port (bench : Bench) (address_map : AddressMap)
    (found_servos_data : list (Z * Z)) (entry : string * (Z * list Servo))
  : T (list (Z * Z)) :=
  let '(port_name, (baud, servos)) := entry in
  opened <~ tool_open bench port_name ;;
  if negb opened
  then tput (TmConnectFailed port_name) ;;~ tret found_servos_data
  else
    configured <~ tool_set_baud bench port_name baud ;;
    if negb configured
    then tput (TmConnectFailed port_name) ;;~ tret found_servos_data
    else
      tput (TmReading port_name) ;;~
      found <~ tfoldM (read_position bench address_map port_name) servos
                      found_servos_data ;;
      tool_close port_name ;;~
      tret found.

(** The [try] at the end: sort, open, dump. *)
Definition write_positions (bench : Bench) (output_filepath : string)
    (found_servos_data : list (Z * Z)) : T unit :=
  let sorted_data := sorted_by fst found_servos_data in
  ok <~ (fun t => let ok := bench_write bench t output_filepath in
                  (Ret ok,
                   t ++ [TvSavePositions output_filepath sorted_data ok])) ;;
  if ok then tput (TmSaved output_filepath) else tput TmWriteFailed.

Definition save_current_positions (bench : Bench) (fs : FileSystem)
    (output_filepath : string) : T unit :=
  match manifest_file fs, address_file fs with
  | Some ((_ :: _) as manifest), Some ((_ :: _) as address_map) =>
      found_servos_data <~
        tfoldM (save_port bench address_map)
               (tool_servos_by_port manifest) [] ;;
      match found_servos_data with
      | [] => tput TmNothingRead
      | _ :: _ =>
          tput (TmSaving (List.length found_servos_data)) ;;~
          write_positions bench output_filepath found_servos_data
      end
  | _, _ => tret tt
  end.

(** ** scanner.py *)

Definition DXL_ID_RANGE : list Z := map Z.of_nat (seq 0 101).
Definition BAUDRATES : list Z := [57600; 115200; 1000000; 2000000; 4000000].
Definition OUTPUT_DIR : string := "config".
Definition OUTPUT_FILENAME : string :=
  path_join OUTPUT_DIR "session_servos.json".

(** One pass of the innermost loop: one ping. *)
Definition scan_id (bench : Bench) (port_name : string) (baudrate : Z)
    (all_found_servos : list Servo) (dxl_id : Z) : T (list Servo) :=
  r <~ (fun t =>
          let '(dxl_model, ok, dxl_error) :=
            bench_ping bench t port_name dxl_id in
          (Ret (dxl_model, ok, dxl_error),
           t ++ [TvPing port_name dxl_id dxl_model ok dxl_error])) ;;
  let '(dxl_model, ok, dxl_error) := r in
  if (ok && (dxl_error =? 0))%bool
  then
    let servo_info :=
      {| id := dxl_id; com_port := port_name; baud_rate := baudrate;
         motor_type := dxl_model |} in
    tput (TmFound dxl_id) ;;~ tret (all_found_servos ++ [servo_info])
  else tret all_found_servos.

(** One pass of the loop over [BAUDRATES]. *)
Definition scan_baud (bench : Bench) (port_name : string)
    (all_found_servos : list Servo) (baudrate : Z) : T (list Servo) :=
  configured <~ tool_set_baud bench port_name baudrate ;;
  if negb configured then tret all_found_servos
  else
    tput (TmScanning port_name baudrate) ;;~
    tfoldM (scan_id bench port_name baudrate) DXL_ID_RANGE all_found_servos.

(** One pass of the loop over the available ports. *)
Definition scan_port (bench : Bench) (all_found_servos : list Servo)
    (port_name : string) : T (list Servo) :=
  opened <~ tool_open bench port_name ;;
  if negb opened then tret all_found_servos
  else
    found <~ tfoldM (scan_baud bench port_name) BAUDRATES all_found_servos ;;
    tool_close port_name ;;~
    tret found.

Definition run_scan (bench : Bench) (success_message : string) : T unit :=
  tput TmRule ;;~
  tput TmScanTitle ;;~
  tput TmRule ;;~
  (fun t => let ok := bench_makedirs bench OUTPUT_DIR in
            ((if ok then Ret tt else Raise OSError),
             t ++ [TvMakeDirs OUTPUT_DIR ok])) ;;~
  match bench_comports bench with
  | [] => tput TmNoPorts
  | (_ :: _) as available_ports =>
      all_found_servos <~ tfoldM (scan_port bench) available_ports [] ;;
      match all_found_servos with
      | [] => tput TmNoServos
      | _ :: _ =>
          tput (TmScanComplete (List.length all_found_servos)) ;;~
          tput TmSavingManifest ;;~
          ok <~ (fun t =>
                   let sorted_servos := sorted_by id all_found_servos in
                   let ok := bench_write bench t OUTPUT_FILENAME in
                   (Ret ok, t ++ [TvSaveManifest sorted_servos ok])) ;;
          (if ok then tput TmManifestSaved else tput TmManifestFailed) ;;~
          tput (TmText success_message)
      end
  end.

(** ** Observations on the tools' traces *)

(** The positions that the reads of a trace delivered, in order. *)
Definition successful_reads (evs : ToolTrace) : list (Z * Z) :=
  flat_map
    (fun e =>
       match e with
       | TvRead _ _ dxl_id _ pos ok err =>
           if (ok && (err =? 0))%bool then [(dxl_id, pos)] else []
       | _ => []
       end) evs.

(** The pings of a trace that were answered: port, id and model number. *)
Definition answered_pings (evs : ToolTrace) : list (string * Z * Z) :=
  flat_map
    (fun e =>
       match e with
       | TvPing port dxl_id model ok err =>
           if (ok && (err =? 0))%bool then [(port, dxl_id, model)] else []
       | _ => []
       end) evs.

(** The ports a tool's trace leaves open, starting from [open]. *)
Fixpoint tool_open_ports (evs : ToolTrace) (open : list string)
  : list string :=
  match evs with
  | [] => open
  | TvOpenPort p (Some true) :: evs' =>
      tool_open_ports evs' (handlers_add p open)
  | TvClosePort p :: evs' => tool_open_ports evs' (remove_port p open)
  | _ :: evs' => tool_open_ports evs' open
  end.

(** The trace records that the link speed of [port] was refused. *)
Definition refused (evs : ToolTrace) (port : string) : bool :=
  existsb
    (fun e =>
       match e with
       | TvSetBaudRate p _ (Some false) => String.eqb p port
       | _ => false
       end) evs.

(** The parameter that [set_torque] adds for one servo. *)
Definition torque_param_of (address_map : AddressMap) (torque_value : Z)
    (servo : Servo) (w : WriteParam) : Prop :=
  exists addr,
    get_address_info (motor_type servo) address_map = Ret addr /\
    w = {| wp_id := id servo;
           wp_addr := torque_enable addr;
           wp_len := len_torque_enable addr;
           wp_data :=
             slice_to (len_torque_enable addr) [torque_value; 0] |}.

(** [m] extends the list [acc0] by entries that [R] relates to its
    events. *)
Definition tracks {A} (R : ToolTrace -> list A -> Prop)
    (P : ToolEvent -> Prop) (acc0 : list A) (m : T (list A)) : Prop :=
  forall t, exists o evs,
    m t = (o, t ++ evs) /\ Forall P evs /\
    forall acc, o = Ret acc -> exists new, acc = acc0 ++ new /\ R evs new.

Definition on_port (port : string) (servo : Servo) : bool :=
  String.eqb (com_port servo) port.

(** What [set_torque] may do while it handles the bus [port] with the
    servos [servos]. *)
Definition torque_event (address_map : AddressMap) (torque_value : Z)
    (port : string) (servos : list Servo) (e : ToolEvent) : Prop :=
  match e with
  | TvOpenPort q _ | TvSetBaudRate q _ _ | TvClosePort q => q = port
  | TvBulkWrite q params _ =>
      q = port /\ Forall2 (torque_param_of address_map torque_value)
                          servos params
  | TvPut _ => True
  | _ => False
  end.

(** The port calls of an event, if any, go to one of [ports]. *)
Definition on_ports (ports : list string) (e : ToolEvent) : Prop :=
  match e with
  | TvOpenPort q _ | TvSetBaudRate q _ _ | TvClosePort q => In q ports
  | _ => True
  end.

(** The trace has written the torque of [servos] on [port], or reported
    that the port failed. *)
Definition torque_covered (address_map : AddressMap) (torque_value : Z)
    (port : string) (servos : list Servo) (evs : ToolTrace) : Prop :=
  (exists params ok,
      In (TvBulkWrite port params ok) evs /\
      Forall2 (torque_param_of address_map torque_value) servos params)
  \/ In (TvPut (TmPortFailed port)) evs.

(** A read of the present position of [servo] on [port], at a width the
    SDK has a read function for. *)
Definition position_read_of (address_map : AddressMap) (port : string)
    (servo : Servo) (q : string) (len dxl_id addr : Z) : Prop :=
  q = port /\ dxl_id = id servo /\ (len = 1 \/ len = 2 \/ len = 4) /\
  exists a,
    get_address_info (motor_type servo) address_map = Ret a /\
    addr = present_position a /\ len = len_present_position a.

(** What [save_current_positions] may do while it handles the bus [port]
    with the servos [servos]. *)
Definition save_event (address_map : AddressMap) (port : string)
    (servos : list Servo) (e : ToolEvent) : Prop :=
  match e with
  | TvOpenPort q _ | TvSetBaudRate q _ _ | TvClosePort q => q = port
  | TvRead q len dxl_id addr _ _ _ =>
      exists servo,
        In servo servos /\
        position_read_of address_map port servo q len dxl_id addr
  | TvPut _ => True
  | _ => False
  end.

Definition is_save (e : ToolEvent) : bool :=
  match e with
  | TvSavePositions _ _ _ | TvSaveManifest _ _ => true
  | _ => false
  end.

(** What identifies a record of the scanner: port, id and model number. *)
Definition servo_key (s : Servo) : string * Z * Z :=
  (com_port s, id s, motor_type s).

(** What [run_scan] may do on the ports [ports]. *)
Definition scan_event (ports : list string) (e : ToolEvent) : Prop :=
  match e with
  | TvOpenPort q _ | TvClosePort q => In q ports
  | TvSetBaudRate q b _ => In q ports /\ In b BAUDRATES
  | TvPing q dxl_id _ _ _ => In q ports /\ In dxl_id DXL_ID_RANGE
  | TvPut _ => True
  | _ => False
  end.

(** The records [new] are those of the answered pings of [evs], each with
    a port of [ports], an id of the scanned range and a link speed of the
    table that the port accepted. *)
Definition scanned (ports : list string) (evs : ToolTrace)
    (new : list Servo) : Prop :=
  map servo_key new = answered_pings evs /\
  Forall (fun s =>
            In (com_port s) ports /\ In (baud_rate s) BAUDRATES /\
            In (id s) DXL_ID_RANGE /\
            In (TvSetBaudRate (com_port s) (baud_rate s) (Some true)) evs)
         new.

(** ** A bench for concrete runs of the tools *)

(** Every call succeeds; actuator [i] reports the position [2000 + i];
    the ids 1 and 2 answer a ping, as model 1060. *)
Definition demo_bench : Bench :=
  {| bench_openPort := fun _ _ => Some true;
     bench_setBaudRate := fun _ _ _ => Some true;
     bench_txPacket := fun _ _ _ => true;
     bench_read := fun _ _ _ dxl_id _ => (2000 + dxl_id, true, 0);
     bench_ping := fun _ _ dxl_id =>
       (1060, ((dxl_id =? 1) || (dxl_id =? 2))%bool, 0);
     bench_comports := ["COM1"];
     bench_makedirs := fun _ => true;
     bench_write := fun _ _ => true |}.

(** The same bench with ports that accept the link speed 57600 only. *)
Definition picky_bench : Bench :=
  {| bench_openPort := fun _ _ => Some true;
     bench_setBaudRate := fun _ _ baud => Some (baud =? 57600);
     bench_txPacket := fun _ _ _ => true;
     bench_read := fun _ _ _ dxl_id _ => (2000 + dxl_id, true, 0);
     bench_ping := fun _ _ dxl_id =>
       (1060, ((dxl_id =? 1) || (dxl_id =? 2))%bool, 0);
     bench_comports := ["COM1"];
     bench_makedirs := fun _ => true;
     bench_write := fun _ _ => true |}.

(** Two manifest entries on [COM1] that disagree on the link speed. *)
Definition mixed_speed_items : list Servo :=
  [demo_servo 1 "COM1";
   {| id := 2; com_port := "COM1"; baud_rate := 115200;
      motor_type := 1060 |}].

(** The rig's files, with the position file [filepath] holding
    [content]. *)
Definition fs_with_positions (filepath : string) (content : list (Z * Z))
  : FileSystem :=
  {| manifest_file := manifest_file demo_fs;
     address_file := address_file demo_fs;
     json_load := fun p => if String.eqb p filepath then Some content
                           else json_load demo_fs p;
     toml_load := toml_load demo_fs |}.

(** A manifest that is not sorted by id, over two buses. *)
Definition shuffled_items : list Servo :=
  [demo_servo 3 "COM1"; demo_servo 1 "COM2"; demo_servo 2 "COM1"].

Definition shuffled_fs : FileSystem :=
  {| manifest_file := Some shuffled_items;
     address_file := Some demo_address_map;
     json_load := json_load demo_fs;
     toml_load := demo_toml |}.
(* ================================================================== *)
(** ** Laws of the effect monad *)

Lemma bind_Ret {A B} (m : M A) (k : A -> M B) t a t' :
  m t = (Ret a, t') -> bind m k t = k a t'.
Proof. unfold bind; intros ->; reflexivity. Qed.

Lemma bind_Raise {A B} (m : M A) (k : A -> M B) t e t' :
  m t = (Raise e, t') -> bind m k t = (Raise e, t').
Proof. unfold bind; intros ->; reflexivity. Qed.

Lemma bind_OutOfFuel {A B} (m : M A) (k : A -> M B) t t' :
  m t = (OutOfFuel, t') -> bind m k t = (OutOfFuel, t').
Proof. unfold bind; intros ->; reflexivity. Qed.

Lemma bind_assoc {A B C} (m : M A) (k : A -> M B) (k' : B -> M C) t :
  bind (bind m k) k' t = bind m (fun a => bind (k a) k') t.
Proof. unfold bind. destruct (m t) as [[a|e|] t1]; reflexivity. Qed.

Lemma bind_ext {A B} (m : M A) (k k' : A -> M B) t :
  (forall a t1, k a t1 = k' a t1) -> bind m k t = bind m k' t.
Proof. intros H. unfold bind. destruct (m t) as [[a|e|] t1]; auto. Qed.

Lemma bind_inv_Ret {A B} (m : M A) (k : A -> M B) t b t2 :
  bind m k t = (Ret b, t2) ->
  exists a t1, m t = (Ret a, t1) /\ k a t1 = (Ret b, t2).
Proof.
  unfold bind; destruct (m t) as [[a|e|] t1]; intros H; try discriminate.
  exists a, t1; auto.
Qed.

Lemma only_ret {A} P (a : A) : only P (ret a).
Proof. intros t; exists []; cbn; rewrite app_nil_r; auto. Qed.

Lemma only_raise {A} P e : only P (@raise A e).
Proof. intros t; exists []; cbn; rewrite app_nil_r; auto. Qed.

Lemma only_out_of_fuel {A} P : only P (@out_of_fuel A).
Proof. intros t; exists []; cbn; rewrite app_nil_r; auto. Qed.

Lemma only_lift {A} P (o : Outcome A) : only P (lift o).
Proof. intros t; exists []; cbn; rewrite app_nil_r; auto. Qed.

Lemma only_emit (P : Event -> Prop) e : P e -> only P (emit e).
Proof. intros H t; exists [e]; cbn; auto. Qed.

Lemma only_sleep (P : Event -> Prop) secs :
  P (EvSleep secs) -> only P (sleep secs).
Proof.
  intros H. unfold sleep.
  destruct secs; try apply only_raise;
    (destruct (_ || _)%bool; [apply only_raise|]);
    (destruct (PyFloat.lt_int _ 0); [apply only_raise|apply only_emit; auto]).
Qed.

Lemma only_bind {A B} P (m : M A) (k : A -> M B) :
  only P m -> (forall a, only P (k a)) -> only P (bind m k).
Proof.
  intros Hm Hk t. unfold bind.
  destruct (Hm t) as (e1 & E1 & F1).
  destruct (m t) as [[a|e|] t1]; cbn in E1; subst t1.
  - destruct (Hk a (t ++ e1)) as (e2 & E2 & F2).
    exists (e1 ++ e2). rewrite E2, app_assoc. split; auto.
    apply Forall_app; auto.
  - exists e1; auto.
  - exists e1; auto.
Qed.

Lemma only_try_except {A} P (body : M A) handler :
  only P body -> (forall e, only P (handler e)) ->
  only P (try_except body handler).
Proof.
  intros Hb Hh t. unfold try_except.
  destruct (Hb t) as (e1 & E1 & F1).
  destruct (body t) as [[a|e|] t1]; cbn in E1; subst t1.
  - exists e1; auto.
  - destruct (Hh e (t ++ e1)) as (e2 & E2 & F2).
    exists (e1 ++ e2). rewrite E2, app_assoc. split; auto.
    apply Forall_app; auto.
  - exists e1; auto.
Qed.

Lemma only_weaken {A} (P Q : Event -> Prop) (m : M A) :
  (forall e, P e -> Q e) -> only P m -> only Q m.
Proof.
  intros HPQ Hm t. destruct (Hm t) as (evs & E & F).
  exists evs; split; auto. eapply Forall_impl; eauto.
Qed.

Lemma only_mapM {A B} P (f : A -> M B) l :
  (forall a, only P (f a)) -> only P (mapM f l).
Proof.
  intros Hf; induction l as [|a l IH]; cbn.
  - apply only_ret.
  - apply only_bind; auto. intros b. apply only_bind; auto.
    intros bs. apply only_ret.
Qed.

Lemma only_foldM {A S} P (f : S -> A -> M S) l :
  (forall s a, only P (f s a)) -> forall s, only P (foldM f l s).
Proof.
  intros Hf; induction l as [|a l IH]; intros s; cbn.
  - apply only_ret.
  - apply only_bind; auto.
Qed.

Lemma only_for_each {A} P (f : A -> M unit) l :
  (forall a, only P (f a)) -> only P (for_each f l).
Proof.
  intros Hf; induction l as [|a l IH]; cbn.
  - apply only_ret.
  - apply only_bind; auto.
Qed.

Lemma only_bulk_read P drv port reqs :
  (forall ok, P (EvBulkRead port reqs ok)) -> only P (bulk_read drv port reqs).
Proof. intros H t; eexists [_]; cbn; split; [reflexivity|auto]. Qed.

Lemma only_eq {A} P (m : M A) t o evs :
  only P m -> m t = (o, t ++ evs) -> Forall P evs.
Proof.
  intros H E. destruct (H t) as (evs0 & E0 & F). rewrite E in E0. cbn in E0.
  apply app_inv_head in E0. subst. auto.
Qed.

Lemma only_foldM_In {A S} P (f : S -> A -> M S) l :
  (forall s a, In a l -> only P (f s a)) -> forall s, only P (foldM f l s).
Proof.
  induction l as [|a l IH]; intros Hf s; cbn.
  - apply only_ret.
  - apply only_bind; [apply Hf; left; auto|].
    intros s'. apply IH. intros; apply Hf; right; auto.
Qed.

Lemma only_for_each_In {A} P (f : A -> M unit) l :
  (forall a, In a l -> only P (f a)) -> only P (for_each f l).
Proof.
  induction l as [|a l IH]; intros Hf; cbn.
  - apply only_ret.
  - apply only_bind; [apply Hf; left; auto|].
    intros _. apply IH. intros; apply Hf; right; auto.
Qed.

(* ================================================================== *)
(** ** Facts on dictionaries and sets *)

Lemma mem_Z_In x l : mem_Z x l = true <-> In x l.
Proof.
  unfold mem_Z. rewrite existsb_exists. split.
  - intros (y & Hy & E). apply Z.eqb_eq in E. subst; auto.
  - intros H. exists x. split; auto. apply Z.eqb_refl.
Qed.

Lemma mem_string_In x l : mem_string x l = true <-> In x l.
Proof.
  unfold mem_string. rewrite existsb_exists. split.
  - intros (y & Hy & E). apply String.eqb_eq in E. subst; auto.
  - intros H. exists x. split; auto. apply String.eqb_refl.
Qed.

Section DictFacts.
Context {K V : Type}.
Variable eqb : K -> K -> bool.
Hypothesis eqb_spec : forall a b, eqb a b = true <-> a = b.

Lemma eqb_false_neq a b : eqb a b = false <-> a <> b.
Proof.
  split.
  - intros H E. apply eqb_spec in E. congruence.
  - intros H. destruct (eqb a b) eqn:E; auto.
    apply eqb_spec in E. contradiction.
Qed.

Lemma dict_get_In k (v : V) d : dict_get eqb k d = Some v -> In (k, v) d.
Proof.
  induction d as [|[k' v'] d IH]; cbn; [discriminate|].
  destruct (eqb k k') eqn:E.
  - apply eqb_spec in E. intros [= ->]. subst. auto.
  - auto.
Qed.

Lemma dict_get_None k (d : dict K V) :
  dict_get eqb k d = None <-> ~ In k (dict_keys d).
Proof.
  induction d as [|[k' v'] d IH]; cbn.
  - split; auto.
  - destruct (eqb k k') eqn:E.
    + apply eqb_spec in E. subst. split; [discriminate|].
      intros H; exfalso; apply H; auto.
    + apply eqb_false_neq in E. rewrite IH. split.
      * intros H [H1|H1]; [congruence|auto].
      * intros H H1; apply H; auto.
Qed.

Lemma dict_keys_set k (v : V) d :
  dict_keys (dict_set eqb k v d)
  = if dict_mem eqb k d then dict_keys d else dict_keys d ++ [k].
Proof.
  unfold dict_mem, dict_keys. induction d as [|[k' v'] d IH]; cbn; auto.
  destruct (eqb k k') eqn:E; cbn; auto.
  rewrite IH. destruct (dict_get eqb k d); auto.
Qed.

Lemma dict_set_NoDup k (v : V) d :
  NoDup (dict_keys d) -> NoDup (dict_keys (dict_set eqb k v d)).
Proof.
  intros H. rewrite dict_keys_set. unfold dict_mem.
  destruct (dict_get eqb k d) eqn:E; auto.
  apply dict_get_None in E.
  apply NoDup_app; [auto | constructor; [intros []|constructor] | ].
  intros x Hx [<-|[]]. auto.
Qed.

Lemma dict_set_In k (v : V) d k' v' :
  In (k', v') (dict_set eqb k v d) ->
  (k' = k /\ v' = v) \/ In (k', v') d.
Proof.
  induction d as [|[k0 v0] d IH]; cbn.
  - intros [[= <- <-]|[]]; auto.
  - destruct (eqb k k0) eqn:E.
    + apply eqb_spec in E; subst.
      intros [[= <- <-]|H]; auto.
    + intros [H|H]; auto. destruct (IH H); auto.
Qed.

Lemma dict_get_set_same k (v : V) d :
  dict_get eqb k (dict_set eqb k v d) = Some v.
Proof.
  assert (R : eqb k k = true) by (apply eqb_spec; auto).
  induction d as [|[k0 v0] d IH]; cbn.
  - rewrite R; auto.
  - destruct (eqb k k0) eqn:E; cbn; rewrite E; auto.
Qed.

Lemma dict_get_set_other k k' (v : V) d :
  k' <> k -> dict_get eqb k' (dict_set eqb k v d) = dict_get eqb k' d.
Proof.
  intros N. apply eqb_false_neq in N.
  induction d as [|[k0 v0] d IH]; cbn.
  - rewrite N; auto.
  - destruct (eqb k k0) eqn:E; cbn.
    + apply eqb_spec in E; subst. rewrite N; auto.
    + rewrite IH; auto.
Qed.
End DictFacts.

Lemma Zeqb_spec a b : Z.eqb a b = true <-> a = b.
Proof. apply Z.eqb_eq. Qed.

Lemma Seqb_spec a b : String.eqb a b = true <-> a = b.
Proof. apply String.eqb_eq. Qed.

Lemma servos_by_port_of_grouped servo_manifest servos_to_check :
  grouped_by_port servo_manifest
                  (servos_by_port_of servo_manifest servos_to_check).
Proof.
  unfold servos_by_port_of.
  assert (G : grouped_by_port servo_manifest []).
  { split; [constructor|intros ? ? ? []]. }
  revert G. generalize (@nil (string * list Z)) as acc.
  induction servos_to_check as [|x l IH]; intros acc G; cbn; auto.
  apply IH. destruct (dict_get Z.eqb x servo_manifest) as [servo|] eqn:E; auto.
  destruct G as [N G]. split.
  - apply dict_set_NoDup; auto. apply Seqb_spec.
  - intros port ids y Hin Hy.
    apply (dict_set_In _ Seqb_spec) in Hin. destruct Hin as [[-> ->]|Hin].
    + apply in_app_or in Hy. destruct Hy as [Hy|[<-|[]]].
      * destruct (dict_get String.eqb (com_port servo) acc) as [l0|] eqn:E0;
          [|destruct Hy].
        apply (dict_get_In _ Seqb_spec) in E0. eauto.
      * eauto.
    + eauto.
Qed.

Lemma has_default_resolves address_map :
  has_default address_map ->
  forall motor_type, exists addr,
    get_address_info motor_type address_map = Ret addr.
Proof.
  unfold has_default, dict_mem, get_address_info. intros H mt.
  destruct (dict_get String.eqb "default" address_map); [|discriminate].
  destruct (dict_get String.eqb (str mt) address_map); eauto.
Qed.

(* ================================================================== *)
(** ** Binary64 arithmetic: digits, shifts and rounding *)

Lemma fexp_eq e :
  fexp PyFloat.prec PyFloat.emax e = Z.max (e - 53) (-1074).
Proof. reflexivity. Qed.

Lemma digits2_size p : digits2_pos p = Pos.size p.
Proof. induction p; cbn; congruence. Qed.

Lemma Zdigits2_nonneg m : 0 <= Zdigits2 m.
Proof. destruct m; cbn; lia. Qed.

Lemma Zdigits2_pos_bounds p :
  2 ^ (Zdigits2 (Zpos p) - 1) <= Zpos p < 2 ^ Zdigits2 (Zpos p).
Proof.
  cbn [Zdigits2]. rewrite digits2_size.
  pose proof (Pos.size_gt p) as G. pose proof (Pos.size_le p) as L.
  apply Pos2Z.pos_lt_pos in G. apply Pos2Z.pos_le_pos in L.
  rewrite Pos2Z.inj_pow in G, L.
  split; [|exact G].
  replace (Zpos (Pos.size p)) with (Zpos (Pos.size p) - 1 + 1) in L by lia.
  rewrite Z.pow_add_r in L by lia. change (Zpos p~0) with (2 * Zpos p) in L.
  lia.
Qed.

Lemma Zdigits2_lt_pow m : 0 <= m -> m < 2 ^ Zdigits2 m.
Proof.
  destruct m as [|p|p]; intros H; [cbn; lia| |lia].
  apply Zdigits2_pos_bounds.
Qed.

Lemma Zdigits2_le m k : 0 <= m -> 0 <= k -> m < 2 ^ k -> Zdigits2 m <= k.
Proof.
  destruct m as [|p|p]; intros H Hk Hm; [cbn; lia| |lia].
  pose proof (Zdigits2_pos_bounds p) as (L & _).
  destruct (Z.le_gt_cases (Zdigits2 (Zpos p)) k) as [|G]; auto.
  assert (2 ^ k <= 2 ^ (Zdigits2 (Zpos p) - 1))
    by (apply Z.pow_le_mono_r; lia).
  lia.
Qed.

(** [a < 2^d] shifted right by [k] bits is below [2^j] when [d - k <= j]. *)
Lemma div_pow2_lt a d k j :
  0 <= a < 2 ^ d -> 0 <= k -> 0 <= j -> d - k <= j -> a / 2 ^ k < 2 ^ j.
Proof.
  intros (Ha & Hd) Hk Hj Hdk.
  apply Z.div_lt_upper_bound; [apply Z.pow_pos_nonneg; lia|].
  rewrite <- Z.pow_add_r by lia.
  destruct (Z.le_gt_cases 0 d) as [D|D].
  - eapply Z.lt_le_trans; [exact Hd|]. apply Z.pow_le_mono_r; lia.
  - rewrite Z.pow_neg_r in Hd by lia. lia.
Qed.

Lemma shr_1_m mrs : 0 <= shr_m mrs -> shr_m (shr_1 mrs) = shr_m mrs / 2.
Proof.
  destruct mrs as [m r s]. cbn [shr_m]. intros H.
  destruct m as [|[p|p|]|p]; cbn [shr_1 shr_m]; try lia;
    rewrite <- Z.div2_div; reflexivity.
Qed.

Lemma iter_shr_m p :
  forall mrs, 0 <= shr_m mrs ->
              shr_m (iter_pos shr_1 p mrs) = shr_m mrs / 2 ^ Zpos p.
Proof.
  assert (P2 : forall q, 0 < 2 ^ Zpos q) by (intros; apply Z.pow_pos_nonneg; lia).
  induction p as [p IH|p IH|]; intros mrs H; cbn [iter_pos].
  - assert (H1 : 0 <= shr_m (shr_1 mrs))
      by (rewrite shr_1_m by auto; apply Z.div_pos; lia).
    assert (H2 : 0 <= shr_m (iter_pos shr_1 p (shr_1 mrs)))
      by (rewrite IH by auto; apply Z.div_pos; auto).
    rewrite IH, IH, shr_1_m by auto.
    rewrite !Z.div_div by (auto; lia).
    f_equal. replace (Zpos p~1) with (Zpos p + Zpos p + 1) by lia.
    rewrite !Z.pow_add_r by lia. lia.
  - assert (H2 : 0 <= shr_m (iter_pos shr_1 p mrs))
      by (rewrite IH by auto; apply Z.div_pos; auto).
    rewrite IH, IH by auto. rewrite Z.div_div by (auto; lia).
    f_equal. replace (Zpos p~0) with (Zpos p + Zpos p) by lia.
    rewrite Z.pow_add_r by lia. reflexivity.
  - rewrite shr_1_m by auto. reflexivity.
Qed.

Lemma shr_1_double k :
  0 <= k ->
  shr_1 {| shr_m := 2 * k; shr_r := false; shr_s := false |}
  = {| shr_m := k; shr_r := false; shr_s := false |}.
Proof. destruct k; try lia; reflexivity. Qed.

(** Shifting out bits that are all zero leaves an exact record. *)
Lemma iter_shr_exact p :
  forall c, 0 <= c ->
    iter_pos shr_1 p
             {| shr_m := c * 2 ^ Zpos p; shr_r := false; shr_s := false |}
    = {| shr_m := c; shr_r := false; shr_s := false |}.
Proof.
  induction p as [p IH|p IH|]; intros c Hc; cbn [iter_pos].
  - replace (c * 2 ^ Zpos p~1) with (2 * (c * 2 ^ Zpos p * 2 ^ Zpos p)).
    + rewrite shr_1_double by (apply Z.mul_nonneg_nonneg;
                               [apply Z.mul_nonneg_nonneg|]; lia).
      rewrite IH by (apply Z.mul_nonneg_nonneg; lia). apply IH; auto.
    + replace (Zpos p~1) with (Zpos p + Zpos p + 1) by lia.
      rewrite !Z.pow_add_r by lia. lia.
  - replace (c * 2 ^ Zpos p~0) with (c * 2 ^ Zpos p * 2 ^ Zpos p).
    + rewrite IH by (apply Z.mul_nonneg_nonneg; lia). apply IH; auto.
    + replace (Zpos p~0) with (Zpos p + Zpos p) by lia.
      rewrite Z.pow_add_r by lia. lia.
  - replace (c * 2 ^ 1) with (2 * c) by lia. apply shr_1_double; auto.
Qed.

Lemma round_nearest_even_bounds m l :
  m <= round_nearest_even m l <= m + 1.
Proof.
  destruct l as [|[| |]]; cbn; try lia. destruct (Z.even m); lia.
Qed.

(** What [shr_fexp] returns on a non-negative mantissa; when the mantissa
    is exact and its shifted-out bits are zero, so is the result. *)
Lemma shr_fexp_spec m e l mrs e' :
  0 <= m ->
  shr_fexp PyFloat.prec PyFloat.emax m e l = (mrs, e') ->
  e' = Z.max e (fexp PyFloat.prec PyFloat.emax (Zdigits2 m + e))
  /\ shr_m mrs = m / 2 ^ (e' - e)
  /\ (l = loc_Exact -> (exists c, 0 <= c /\ m = c * 2 ^ (e' - e)) ->
      loc_of_shr_record mrs = loc_Exact).
Proof.
  intros Hm. unfold shr_fexp, shr.
  set (f := fexp PyFloat.prec PyFloat.emax (Zdigits2 m + e)).
  assert (Hrec : shr_m (shr_record_of_loc m l) = m)
    by (destruct l as [|[| |]]; reflexivity).
  clearbody f.
  destruct (f - e) as [|n|n] eqn:En; intros [= <- <-].
  - replace (Z.max e f) with e by lia. rewrite Z.sub_diag, Z.pow_0_r, Z.div_1_r.
    repeat split; auto. intros -> _. reflexivity.
  - replace (Z.max e f) with f by lia.
    replace (e + Zpos n) with f by lia.
    split; [reflexivity|]. split.
    + rewrite En, iter_shr_m by lia. rewrite Hrec. reflexivity.
    + intros -> (c & Hc & ->). rewrite En. cbn [shr_record_of_loc].
      rewrite iter_shr_exact by auto. reflexivity.
  - replace (Z.max e f) with e by lia. rewrite Z.sub_diag, Z.pow_0_r, Z.div_1_r.
    repeat split; auto. intros -> _. reflexivity.
Qed.

(** The anatomy of [binary_round_aux] on a non-negative mantissa: a first
    shift to exponent [e1], the rounding [m1] of the shifted mantissa, a
    second shift to [e2], and the class of the result. *)
Lemma binary_round_aux_spec s m e l :
  0 <= m ->
  exists e1 m1 e2 m2,
    e1 = Z.max e (fexp PyFloat.prec PyFloat.emax (Zdigits2 m + e))
    /\ m / 2 ^ (e1 - e) <= m1 <= m / 2 ^ (e1 - e) + 1
    /\ (l = loc_Exact -> (exists c, 0 <= c /\ m = c * 2 ^ (e1 - e)) ->
        m1 = m / 2 ^ (e1 - e))
    /\ e2 = Z.max e1 (fexp PyFloat.prec PyFloat.emax (Zdigits2 m1 + e1))
    /\ m2 = m1 / 2 ^ (e2 - e1)
    /\ binary_round_aux PyFloat.prec PyFloat.emax s m e l
       = match m2 with
         | Z0 => S754_zero s
         | Zpos mz => if e2 <=? 971 then S754_finite s mz e2
                      else S754_infinity s
         | Zneg _ => S754_nan
         end.
Proof.
  intros Hm. unfold binary_round_aux.
  destruct (shr_fexp PyFloat.prec PyFloat.emax m e l) as [mrs1 e1] eqn:E1.
  destruct (shr_fexp_spec _ _ _ _ _ Hm E1) as (He1 & Hm1 & Hx1).
  set (m1 := round_nearest_even (shr_m mrs1) (loc_of_shr_record mrs1)).
  assert (Hm1' : 0 <= shr_m mrs1).
  { rewrite Hm1. apply Z.div_pos; auto. apply Z.pow_pos_nonneg; lia. }
  pose proof (round_nearest_even_bounds (shr_m mrs1)
                (loc_of_shr_record mrs1)) as Hr. fold m1 in Hr.
  destruct (shr_fexp PyFloat.prec PyFloat.emax m1 e1 loc_Exact)
    as [mrs2 e2] eqn:E2.
  assert (H1 : 0 <= m1) by lia.
  destruct (shr_fexp_spec _ _ _ _ _ H1 E2) as (He2 & Hm2 & _).
  exists e1, m1, e2, (shr_m mrs2).
  split; [exact He1|]. split; [rewrite <- Hm1; exact Hr|].
  split.
  { intros Hl Hc. unfold m1. rewrite (Hx1 Hl Hc). cbn. exact Hm1. }
  split; [exact He2|]. split; [exact Hm2|]. reflexivity.
Qed.

(** A finite result of the rounding has a mantissa below [2^53] and an
    exponent of at most 971. *)
Lemma binary_round_aux_finite s m e l s' mz ez :
  0 <= m ->
  binary_round_aux PyFloat.prec PyFloat.emax s m e l = S754_finite s' mz ez ->
  Zpos mz < 2 ^ 53 /\ ez <= 971.
Proof.
  intros Hm H.
  destruct (binary_round_aux_spec s m e l Hm)
    as (e1 & m1 & e2 & m2 & He1 & Hm1 & _ & He2 & Hm2 & Hr).
  rewrite Hr in H. destruct m2 as [|p|p]; try discriminate.
  destruct (e2 <=? 971) eqn:Ee; try discriminate.
  injection H as <- <- <-. apply Z.leb_le in Ee. split; auto.
  rewrite Hm2. rewrite fexp_eq in He2.
  assert (0 <= m1).
  { assert (0 <= m / 2 ^ (e1 - e)); [|lia].
    apply Z.div_pos; auto. apply Z.pow_pos_nonneg; lia. }
  apply div_pow2_lt with (d := Zdigits2 m1); try lia.
  split; auto. apply Zdigits2_lt_pow; auto.
Qed.

(* ================================================================== *)
(** ** The velocity expression *)

(** C1, lower bound: whatever it computes, [int(max(1, x))] is at least
    1. *)
Lemma py_int_max_1_ge_1 x v : py_int (py_max_1 x) = Ret v -> 1 <= v.
Proof.
  unfold py_max_1. destruct (PyFloat.gt_int x 1) eqn:G; cbn [py_int].
  2:{ intros [= <-]. lia. }
  destruct x as [s|s| |s m e]; unfold PyFloat.gt_int in G;
    unfold PyFloat.trunc; try discriminate.
  destruct (0 <=? e) eqn:Ee.
  - apply Z.ltb_lt in G. intros [= <-]. lia.
  - apply Z.ltb_lt in G. apply Z.leb_gt in Ee. intros [= <-].
    assert (P : 0 < 2 ^ (- e)) by (apply Z.pow_pos_nonneg; lia).
    destruct s; cbn [PyFloat.signed] in G; [lia|]. cbn [cond_Zopp].
    apply Z.div_le_lower_bound; lia.
Qed.

Lemma sync_velocity_ge_1 travel max_travel base_velocity v :
  sync_velocity travel max_travel base_velocity = Ret v -> 1 <= v.
Proof.
  unfold sync_velocity.
  destruct (PyFloat.int_truediv travel max_travel) as [q|e|];
    try discriminate.
  destruct (PyFloat.mul_float_int q base_velocity) as [x|e|];
    try discriminate.
  apply py_int_max_1_ge_1.
Qed.

Lemma div_eucl_div a b : Z.div_eucl a b = (a / b, a mod b).
Proof.
  unfold Z.div, Z.modulo. destruct (Z.div_eucl a b); reflexivity.
Qed.

Lemma new_location_0 m : new_location m 0 = loc_Exact.
Proof.
  unfold new_location, new_location_even, new_location_odd.
  destruct (Z.even m); reflexivity.
Qed.

(** [m / m] is exactly [1.0]. *)
Lemma int_truediv_same p :
  PyFloat.int_truediv (Zpos p) (Zpos p) = Ret PyFloat.one.
Proof.
  unfold PyFloat.int_truediv. cbn [Z.eqb PyFloat.of_int_exact].
  unfold PyFloat.fdiv, SFdiv, SFdiv_core_binary.
  replace (Zdigits2 (Zpos p) + 0 - (Zdigits2 (Zpos p) + 0)) with 0 by lia.
  change (Z.min (fexp PyFloat.prec PyFloat.emax 0) (0 - 0)) with (-53).
  change (0 - 0 - -53) with 53.
  rewrite Z.shiftl_mul_pow2 by lia. rewrite div_eucl_div.
  rewrite Z.mul_comm, Z.div_mul, Z.mod_mul by lia.
  rewrite new_location_0. reflexivity.
Qed.

Lemma Zdigits2_unique m d :
  2 ^ (d - 1) <= m < 2 ^ d -> 0 < m -> Zdigits2 m = d.
Proof.
  intros (L & U) Hm.
  assert (Hd : 0 < d).
  { destruct (Z.le_gt_cases d 0) as [D|D]; auto.
    destruct (Z.eq_dec d 0) as [->|N]; [cbn in U; lia|].
    rewrite Z.pow_neg_r in U by lia. lia. }
  apply Z.le_antisymm.
  - apply Zdigits2_le; lia.
  - destruct m as [|p|p]; try lia.
    pose proof (Zdigits2_pos_bounds p) as (_ & U').
    destruct (Z.le_gt_cases d (Zdigits2 (Zpos p))) as [|G]; auto.
    assert (2 ^ Zdigits2 (Zpos p) <= 2 ^ (d - 1))
      by (apply Z.pow_le_mono_r; lia).
    lia.
Qed.

(** Rounding a mantissa of exactly 53 bits changes nothing. *)
Lemma binary_round_aux_canonical s mz ez :
  Zdigits2 (Zpos mz) = 53 -> -1074 <= ez <= 971 ->
  binary_round_aux PyFloat.prec PyFloat.emax s (Zpos mz) ez loc_Exact
  = S754_finite s mz ez.
Proof.
  intros Hd He.
  destruct (binary_round_aux_spec s (Zpos mz) ez loc_Exact)
    as (e1 & m1 & e2 & m2 & He1 & Hm1 & Hx & He2 & Hm2 & Hr); [lia|].
  rewrite fexp_eq, Hd in He1.
  assert (E1 : e1 = ez) by lia. clear He1. subst e1.
  rewrite Z.sub_diag, Z.pow_0_r, Z.div_1_r in Hx, Hm1.
  assert (m1 = Zpos mz).
  { apply Hx; auto. exists (Zpos mz). lia. }
  subst m1. rewrite fexp_eq, Hd in He2.
  assert (E2 : e2 = ez) by lia. clear He2. subst e2.
  rewrite Z.sub_diag, Z.pow_0_r, Z.div_1_r in Hm2. subst m2.
  rewrite Hr. destruct (Z.leb_spec ez 971); [reflexivity|lia].
Qed.

(** Multiplying a double of 53-bit mantissa by [1.0] changes nothing. *)
Lemma fmul_one_canonical s mz ez :
  Zdigits2 (Zpos mz) = 53 -> -1022 <= ez <= 971 ->
  PyFloat.fmul PyFloat.one (S754_finite s mz ez) = S754_finite s mz ez.
Proof.
  intros Hd He. unfold PyFloat.fmul, PyFloat.one, SFmul. cbn [xorb].
  pose proof (Zdigits2_pos_bounds mz) as (L & U). rewrite Hd in L, U.
  change (2 ^ (53 - 1)) with 4503599627370496 in L.
  change (2 ^ 53) with 9007199254740992 in U.
  rewrite Pos2Z.inj_mul.
  set (m := 4503599627370496 * Zpos mz).
  assert (Dm : Zdigits2 m = 105).
  { apply Zdigits2_unique; [|lia].
    change (2 ^ (105 - 1)) with (4503599627370496 * 4503599627370496).
    change (2 ^ 105) with (4503599627370496 * 9007199254740992).
    unfold m. nia. }
  destruct (binary_round_aux_spec s m (-52 + ez) loc_Exact)
    as (e1 & m1 & e2 & m2 & He1 & Hm1 & Hx & He2 & Hm2 & Hr); [lia|].
  rewrite fexp_eq, Dm in He1.
  assert (E1 : e1 = ez) by lia. clear He1. subst e1.
  replace (ez - (-52 + ez)) with 52 in Hx, Hm1 by lia.
  change (2 ^ 52) with 4503599627370496 in Hx, Hm1.
  assert (m1 = Zpos mz).
  { rewrite Hx; auto.
    - unfold m. rewrite Z.mul_comm, Z.div_mul; lia.
    - exists (Zpos mz). unfold m. lia. }
  subst m1. rewrite fexp_eq, Hd in He2.
  assert (E2 : e2 = ez) by lia. clear He2. subst e2.
  rewrite Z.sub_diag, Z.pow_0_r, Z.div_1_r in Hm2. subst m2.
  rewrite Hr. destruct (Z.leb_spec ez 971); [reflexivity|lia].
Qed.

Lemma iter_xO_spec d : forall p,
  Zpos (Pos.iter xO p d) = Zpos p * 2 ^ Zpos d.
Proof.
  induction d as [|d IH] using Pos.peano_ind; intros p.
  - cbn [Pos.iter]. lia.
  - rewrite Pos.iter_succ, Pos2Z.inj_succ, Z.pow_succ_r by lia.
    change (Zpos (Pos.iter xO p d)~0) with (2 * Zpos (Pos.iter xO p d)).
    rewrite IH. lia.
Qed.

(** [float(b)] for an integer of at most 53 bits: [b] itself, with its
    mantissa shifted to 53 bits. *)
Lemma float_of_int_small b :
  1 <= b < 2 ^ 53 ->
  exists mz k,
    PyFloat.float_of_int b = Ret (S754_finite false mz (- k))
    /\ 0 <= k <= 52
    /\ Zpos mz = b * 2 ^ k
    /\ Zdigits2 (Zpos mz) = 53.
Proof.
  intros (L & U). destruct b as [|p|p]; try lia.
  pose proof (Zdigits2_pos_bounds p) as (Lp & Up).
  pose proof (Zdigits2_nonneg (Zpos p)) as Dn.
  assert (Dp : 1 <= Zdigits2 (Zpos p) <= 53).
  { split.
    - destruct (Z.le_gt_cases 1 (Zdigits2 (Zpos p))); auto.
      assert (Zdigits2 (Zpos p) = 0) by lia.
      rewrite H0 in Up. cbn in Up. lia.
    - apply Zdigits2_le; lia. }
  unfold PyFloat.float_of_int, binary_normalize, binary_round.
  change (Zpos (digits2_pos p)) with (Zdigits2 (Zpos p)).
  rewrite fexp_eq. rewrite Z.add_0_r.
  replace (Z.max (Zdigits2 (Zpos p) - 53) (-1074))
    with (Zdigits2 (Zpos p) - 53) by lia.
  unfold shl_align. rewrite Z.sub_0_r.
  destruct (Zdigits2 (Zpos p) - 53) as [|n|n] eqn:En; try lia.
  - exists p, 0. rewrite binary_round_aux_canonical by lia.
    repeat split; try lia.
  - assert (Hn : Zpos n <= 52) by lia.
    assert (Em : Zpos (Pos.iter xO p n) = Zpos p * 2 ^ Zpos n)
      by apply iter_xO_spec.
    assert (Dm : Zdigits2 (Zpos (Pos.iter xO p n)) = 53).
    { apply Zdigits2_unique; [|lia]. rewrite Em.
      assert (0 < 2 ^ Zpos n) by (apply Z.pow_pos_nonneg; lia).
      replace (2 ^ (53 - 1))
        with (2 ^ (Zdigits2 (Zpos p) - 1) * 2 ^ Zpos n)
        by (rewrite <- Z.pow_add_r by lia; f_equal; lia).
      replace (2 ^ 53) with (2 ^ Zdigits2 (Zpos p) * 2 ^ Zpos n)
        by (rewrite <- Z.pow_add_r by lia; f_equal; lia).
      split.
      - apply Z.mul_le_mono_nonneg_r; lia.
      - apply Z.mul_lt_mono_pos_r; lia. }
    exists (Pos.iter xO p n), (Zpos n).
    rewrite binary_round_aux_canonical by (auto; lia).
    repeat split; auto; lia.
Qed.

(** With a base velocity of 1 to [2^53 - 1], the actuator whose travel is
    the maximum gets the base velocity itself. *)
Lemma sync_velocity_max max_travel base_velocity :
  0 < max_travel -> 1 <= base_velocity < 2 ^ 53 ->
  sync_velocity max_travel max_travel base_velocity = Ret base_velocity.
Proof.
  intros Hm Hb. destruct max_travel as [|p|p]; try lia.
  unfold sync_velocity. rewrite int_truediv_same.
  destruct (float_of_int_small base_velocity Hb)
    as (mz & k & Ef & Hk & Em & Dm).
  unfold PyFloat.mul_float_int. rewrite Ef.
  rewrite fmul_one_canonical by (auto; lia).
  assert (P : 0 < 2 ^ k) by (apply Z.pow_pos_nonneg; lia).
  unfold py_max_1, PyFloat.gt_int, PyFloat.trunc. cbn [PyFloat.signed].
  destruct (Z.leb_spec 0 (- k)) as [K|K].
  - assert (k = 0) by lia. subst k. rewrite Z.pow_0_r in *.
    destruct (Z.ltb_spec 1 (Zpos mz * 1)) as [G|G]; cbn [py_int].
    + unfold PyFloat.trunc. cbn. f_equal. lia.
    + f_equal. lia.
  - rewrite Z.opp_involutive.
    destruct (Z.ltb_spec (1 * 2 ^ k) (Zpos mz)) as [G|G]; cbn [py_int].
    + unfold PyFloat.trunc.
      destruct (Z.leb_spec 0 (- k)); [lia|]. cbn [cond_Zopp].
      rewrite Z.opp_involutive, Em, Z.div_mul by lia. reflexivity.
    + f_equal. nia.
Qed.

Lemma binary_round_aux_class s m e l :
  0 <= m ->
  match binary_round_aux PyFloat.prec PyFloat.emax s m e l with
  | S754_nan => False
  | _ => True
  end.
Proof.
  intros Hm.
  destruct (binary_round_aux_spec s m e l Hm)
    as (e1 & m1 & e2 & m2 & He1 & Hm1 & _ & He2 & Hm2 & Hr).
  rewrite Hr.
  assert (0 <= m / 2 ^ (e1 - e))
    by (apply Z.div_pos; auto; apply Z.pow_pos_nonneg; lia).
  assert (0 <= m2)
    by (rewrite Hm2; apply Z.div_pos; [lia|apply Z.pow_pos_nonneg; lia]).
  destruct m2; try lia; auto. destruct (e2 <=? 971); auto.
Qed.

(** A quotient below 1, scaled by [2^(-e)], rounds to a double of value
    at most 1. *)
Lemma binary_round_aux_at_most_one m e l :
  0 <= m < 2 ^ (- e) -> -1074 <= e <= -53 ->
  at_most_one (binary_round_aux PyFloat.prec PyFloat.emax false m e l).
Proof.
  intros (Hm & Um) He.
  destruct (binary_round_aux_spec false m e l Hm)
    as (e1 & m1 & e2 & m2 & He1 & Hm1 & _ & He2 & Hm2 & Hr).
  rewrite fexp_eq in He1, He2.
  pose proof (Zdigits2_nonneg m) as Dn.
  assert (Dm : Zdigits2 m <= - e) by (apply Zdigits2_le; lia).
  assert (B1 : m / 2 ^ (e1 - e) < 2 ^ (- e1)).
  { apply div_pow2_lt with (d := - e); lia. }
  assert (C1 : m / 2 ^ (e1 - e) < 2 ^ 53).
  { apply div_pow2_lt with (d := Zdigits2 m); try lia.
    split; auto. apply Zdigits2_lt_pow; auto. }
  assert (P1 : 0 <= m / 2 ^ (e1 - e))
    by (apply Z.div_pos; auto; apply Z.pow_pos_nonneg; lia).
  assert (D1 : Zdigits2 m1 <= 54).
  { apply Zdigits2_le; lia. }
  pose proof (Zdigits2_nonneg m1) as Dn1.
  assert (E2 : e2 = e1 \/ e2 = e1 + 1) by lia.
  assert (B2 : 0 <= m2 <= 2 ^ (- e2)).
  { rewrite Hm2. destruct E2 as [->| ->].
    - rewrite Z.sub_diag, Z.pow_0_r, Z.div_1_r. lia.
    - replace (e1 + 1 - e1) with 1 by lia. rewrite Z.pow_1_r.
      replace (- e1) with (1 + (- (e1 + 1))) in B1 by lia.
      rewrite Z.pow_add_r, Z.pow_1_r in B1 by lia.
      split; [apply Z.div_pos; lia|].
      apply Z.div_le_upper_bound; lia. }
  rewrite Hr. destruct m2 as [|mz|mz]; try lia; cbn; auto.
  destruct (Z.leb_spec e2 971); [|lia]. cbn. lia.
Qed.

(** [travel / max_travel] is a double of value at most 1. *)
Lemma int_truediv_at_most_one travel max_travel :
  0 <= travel <= max_travel -> 0 < max_travel ->
  exists q, PyFloat.int_truediv travel max_travel = Ret q /\ at_most_one q.
Proof.
  intros (Ht & Htm) Hm.
  destruct max_travel as [|pm|pm]; try lia.
  destruct travel as [|pt|pt]; try lia.
  { eexists. split; [reflexivity|exact I]. }
  destruct (Z.eq_dec (Zpos pt) (Zpos pm)) as [E|N].
  { injection E as ->. rewrite int_truediv_same. eexists. split; eauto.
    cbn. lia. }
  unfold PyFloat.int_truediv. cbn [Z.eqb PyFloat.of_int_exact].
  unfold PyFloat.fdiv, SFdiv, SFdiv_core_binary. cbn [xorb].
  pose proof (Zdigits2_nonneg (Zpos pt)) as D1.
  assert (D12 : Zdigits2 (Zpos pt) <= Zdigits2 (Zpos pm)).
  { apply Zdigits2_le; try lia. apply Zdigits2_nonneg.
    pose proof (Zdigits2_pos_bounds pm). lia. }
  rewrite fexp_eq.
  set (e' := Z.min (Z.max (Zdigits2 (Zpos pt) + 0
                           - (Zdigits2 (Zpos pm) + 0) - 53) (-1074))
                   (0 - 0)).
  assert (He' : -1074 <= e' <= -53) by (unfold e'; lia).
  clearbody e'.
  destruct (0 - 0 - e') as [|s|s] eqn:Es; try lia.
  rewrite Z.shiftl_mul_pow2 by lia. rewrite div_eucl_div.
  assert (P : 0 < 2 ^ Zpos s) by (apply Z.pow_pos_nonneg; lia).
  assert (Q : 0 <= Zpos pt * 2 ^ Zpos s / Zpos pm < 2 ^ (- e')).
  { replace (- e') with (Zpos s) by lia. split.
    - apply Z.div_pos; lia.
    - apply Z.div_lt_upper_bound; [lia|]. nia. }
  pose proof (binary_round_aux_at_most_one _ _
                (new_location (Zpos pm)
                   ((Zpos pt * 2 ^ Zpos s) mod Zpos pm)) Q He') as A.
  destruct (binary_round_aux _ _ _ _ _ _) as [z|z| |sz mz ez] eqn:Er;
    cbn in A; try contradiction; eexists; split; eauto.
Qed.

(** A double of value at most 1 times a double in range is finite. *)
Lemma fmul_at_most_one x y :
  at_most_one x -> in_range y -> finite_float (PyFloat.fmul x y).
Proof.
  intros Hx Hy.
  destruct x as [sx|sx| |sx mx ex]; cbn in Hx; try contradiction;
    destruct y as [sy|sy| |sy my ey]; cbn in Hy; try contradiction;
    try exact I.
  destruct sx; [contradiction|]. destruct Hx as (Ex & Mx).
  destruct Hy as (My & Ey).
  unfold PyFloat.fmul, SFmul. rewrite Pos2Z.inj_mul.
  set (m := Zpos mx * Zpos my).
  set (A := 2 ^ (- ex)) in *.
  assert (PA : 0 < A) by (apply Z.pow_pos_nonneg; lia).
  change (2 ^ 53) with 9007199254740992 in My.
  assert (Hm : 0 < m) by (unfold m; lia).
  assert (Um : m <= A * 9007199254740991) by (unfold m; nia).
  assert (Dm : Zdigits2 m <= 53 - ex).
  { apply Zdigits2_le; try lia.
    replace (53 - ex) with (- ex + 53) by lia. rewrite Z.pow_add_r by lia.
    fold A. change (2 ^ 53) with 9007199254740992. lia. }
  pose proof (Zdigits2_nonneg m) as Dn.
  destruct (binary_round_aux_spec (xorb false sy) m (ex + ey) loc_Exact)
    as (e1 & m1 & e2 & m2 & He1 & Hm1 & Hexact & He2 & Hm2 & Hr); [lia|].
  rewrite fexp_eq in He1, He2.
  assert (P1 : 0 <= m / 2 ^ (e1 - (ex + ey)))
    by (apply Z.div_pos; [lia|apply Z.pow_pos_nonneg; lia]).
  assert (C1 : m / 2 ^ (e1 - (ex + ey)) < 2 ^ 53).
  { apply div_pow2_lt with (d := Zdigits2 m); try lia.
    split; [lia|]. apply Zdigits2_lt_pow; lia. }
  change (2 ^ 53) with 9007199254740992 in C1.
  assert (Key : e1 <= 970 \/ m1 <= 9007199254740991).
  { destruct (Z.le_gt_cases e1 970) as [|G]; auto. right.
    destruct (Z.le_gt_cases m1 9007199254740991) as [|G1]; auto.
    exfalso.
    assert (Hne : m1 <> m / 2 ^ (e1 - (ex + ey))) by lia.
    apply Hne, Hexact; auto.
    destruct (Z.eq_dec e1 (ex + ey)) as [E|N].
    - exists m. rewrite E, Z.sub_diag, Z.pow_0_r. lia.
    - assert (E1 : e1 - (ex + ey) = - ex) by lia.
      rewrite E1 in *. fold A in Hm1, P1, C1 |- *.
      exists 9007199254740991. split; [lia|].
      pose proof (Z.mul_div_le m A PA). nia. }
  assert (D1 : Zdigits2 m1 <= 54).
  { apply Zdigits2_le; lia. }
  assert (D1' : m1 <= 9007199254740991 -> Zdigits2 m1 <= 53).
  { intros. apply Zdigits2_le; lia. }
  pose proof (Zdigits2_nonneg m1) as Dn1.
  assert (E2 : e2 <= 971) by (destruct Key; lia).
  assert (0 <= m2).
  { rewrite Hm2. apply Z.div_pos; [lia|apply Z.pow_pos_nonneg; lia]. }
  rewrite Hr. destruct m2 as [|mz|mz]; try lia; cbn; auto.
  destruct (Z.leb_spec e2 971); [exact I|lia].
Qed.

(** A successful [float(b)] is a double in range. *)
Lemma float_of_int_in_range b f :
  PyFloat.float_of_int b = Ret f -> in_range f.
Proof.
  unfold PyFloat.float_of_int, binary_normalize.
  destruct b as [|p|p].
  - intros [= <-]. exact I.
  - unfold binary_round. destruct (shl_align _ _ _) as [mz ez].
    pose proof (binary_round_aux_class false (Zpos mz) ez loc_Exact) as C.
    destruct (binary_round_aux _ _ _ _ _ _) as [z|z| |sz m e] eqn:Er;
      try discriminate; intros [= <-]; cbn; auto.
    + apply C; lia.
    + eapply binary_round_aux_finite; [|exact Er]. lia.
  - unfold binary_round. destruct (shl_align _ _ _) as [mz ez].
    pose proof (binary_round_aux_class true (Zpos mz) ez loc_Exact) as C.
    destruct (binary_round_aux _ _ _ _ _ _) as [z|z| |sz m e] eqn:Er;
      try discriminate; intros [= <-]; cbn; auto.
    + apply C; lia.
    + eapply binary_round_aux_finite; [|exact Er]. lia.
Qed.

Lemma py_int_max_1_finite x :
  finite_float x -> exists v, py_int (py_max_1 x) = Ret v.
Proof.
  intros Hx. unfold py_max_1.
  destruct (PyFloat.gt_int x 1); [|eexists; reflexivity].
  destruct x as [s|s| |s m e]; cbn in Hx; try contradiction; cbn.
  - eexists; reflexivity.
  - destruct (0 <=? e); eexists; reflexivity.
Qed.

(** The velocity expression returns for every travel within the maximum
    and every base velocity that converts to a double. *)
Lemma sync_velocity_returns travel max_travel base_velocity f :
  0 <= travel <= max_travel -> 0 < max_travel ->
  PyFloat.float_of_int base_velocity = Ret f ->
  exists v, sync_velocity travel max_travel base_velocity = Ret v.
Proof.
  intros Ht Hm Hf.
  destruct (int_truediv_at_most_one travel max_travel Ht Hm) as (q & Eq & Aq).
  unfold sync_velocity, PyFloat.mul_float_int. rewrite Eq, Hf.
  apply py_int_max_1_finite, fmul_at_most_one; auto.
  eapply float_of_int_in_range; eauto.
Qed.

(* ================================================================== *)
(** ** Truncated products convert back *)

(** An integer of at most 53 significant bits below [2^1024] rounds to
    itself: the conversion does not overflow. *)
Lemma binary_round_exact s p c k :
  Zpos p = c * 2 ^ k -> 0 < c < 2 ^ 53 -> 0 <= k <= 971 ->
  finite_float (binary_round PyFloat.prec PyFloat.emax s p 0).
Proof.
  intros Ep (Lc & Uc) (Lk & Uk).
  pose proof (Zdigits2_pos_bounds p) as (Lp & Up).
  pose proof (Zdigits2_nonneg (Zpos p)) as Dn.
  assert (P2 : 0 < 2 ^ k) by (apply Z.pow_pos_nonneg; lia).
  assert (Dp : 1 <= Zdigits2 (Zpos p) <= 53 + k).
  { split.
    - destruct (Z.le_gt_cases 1 (Zdigits2 (Zpos p))); auto.
      assert (E0 : Zdigits2 (Zpos p) = 0) by lia.
      rewrite E0 in Up. cbn in Up. lia.
    - apply Zdigits2_le; try lia.
      rewrite Z.pow_add_r, Ep by lia.
      apply Z.mul_lt_mono_pos_r; lia. }
  unfold binary_round.
  change (Zpos (digits2_pos p)) with (Zdigits2 (Zpos p)).
  rewrite fexp_eq, Z.add_0_r.
  replace (Z.max (Zdigits2 (Zpos p) - 53) (-1074))
    with (Zdigits2 (Zpos p) - 53) by lia.
  unfold shl_align. rewrite Z.sub_0_r.
  destruct (Zdigits2 (Zpos p) - 53) as [|n|n] eqn:En.
  - rewrite binary_round_aux_canonical by lia. exact I.
  - destruct (binary_round_aux_spec s (Zpos p) 0 loc_Exact)
      as (e1 & m1 & e2 & m2 & He1 & _ & Hexact & He2 & Hm2 & Hr); [lia|].
    rewrite fexp_eq, Z.add_0_r in He1.
    assert (E1 : e1 = Zpos n) by lia. clear He1. subst e1.
    rewrite Z.sub_0_r in Hexact.
    assert (Hm1 : m1 = Zpos p / 2 ^ Zpos n).
    { apply Hexact; auto. exists (c * 2 ^ (k - Zpos n)).
      assert (0 < 2 ^ (k - Zpos n)) by (apply Z.pow_pos_nonneg; lia).
      split; [lia|].
      rewrite <- Z.mul_assoc, <- Z.pow_add_r by lia.
      rewrite Ep. do 2 f_equal. lia. }
    assert (L1 : 0 <= m1).
    { rewrite Hm1. apply Z.div_pos; [lia|apply Z.pow_pos_nonneg; lia]. }
    assert (U1 : m1 < 2 ^ 53).
    { rewrite Hm1. apply div_pow2_lt with (d := Zdigits2 (Zpos p)); lia. }
    assert (D1 : Zdigits2 m1 <= 53) by (apply Zdigits2_le; lia).
    pose proof (Zdigits2_nonneg m1) as Dn1.
    rewrite fexp_eq in He2.
    assert (E2 : e2 = Zpos n) by lia. clear He2. subst e2.
    rewrite Z.sub_diag, Z.pow_0_r, Z.div_1_r in Hm2. subst m2.
    rewrite Hr. destruct m1 as [|mz|mz]; try lia; cbn; auto.
    destruct (Z.leb_spec (Zpos n) 971); [exact I|lia].
  - assert (Hn : Zpos n <= 52) by lia.
    assert (Em : Zpos (Pos.iter xO p n) = Zpos p * 2 ^ Zpos n)
      by apply iter_xO_spec.
    assert (Dm : Zdigits2 (Zpos (Pos.iter xO p n)) = 53).
    { apply Zdigits2_unique; [|lia]. rewrite Em.
      assert (0 < 2 ^ Zpos n) by (apply Z.pow_pos_nonneg; lia).
      replace (2 ^ (53 - 1))
        with (2 ^ (Zdigits2 (Zpos p) - 1) * 2 ^ Zpos n)
        by (rewrite <- Z.pow_add_r by lia; f_equal; lia).
      replace (2 ^ 53) with (2 ^ Zdigits2 (Zpos p) * 2 ^ Zpos n)
        by (rewrite <- Z.pow_add_r by lia; f_equal; lia).
      split.
      - apply Z.mul_le_mono_nonneg_r; lia.
      - apply Z.mul_lt_mono_pos_r; lia. }
    rewrite binary_round_aux_canonical by (auto; lia). exact I.
Qed.

Lemma float_of_int_exact s c k :
  0 <= c < 2 ^ 53 -> 0 <= k <= 971 ->
  exists f, PyFloat.float_of_int (cond_Zopp s (c * 2 ^ k)) = Ret f.
Proof.
  intros (Lc & Uc) Hk.
  assert (P2 : 0 < 2 ^ k) by (apply Z.pow_pos_nonneg; lia).
  destruct (Z.eq_dec c 0) as [->|Nc].
  { rewrite Z.mul_0_l. destruct s; eexists; reflexivity. }
  destruct (c * 2 ^ k) as [|p|p] eqn:Ep; try lia.
  unfold PyFloat.float_of_int, binary_normalize.
  destruct s; cbn [cond_Zopp Z.opp].
  - pose proof (binary_round_exact true p c k (eq_sym Ep)) as F.
    destruct (binary_round _ _ _ _ _); eauto.
    exfalso. apply F; lia.
  - pose proof (binary_round_exact false p c k (eq_sym Ep)) as F.
    destruct (binary_round _ _ _ _ _); eauto.
    exfalso. apply F; lia.
Qed.

(** Whatever [int(x)] returns for a double in range converts back to a
    double. *)
Lemma trunc_converts x z :
  in_range x -> PyFloat.trunc x = Ret z ->
  exists f, PyFloat.float_of_int z = Ret f.
Proof.
  destruct x as [s|s| |s m e]; cbn [in_range PyFloat.trunc];
    try contradiction.
  - intros _ [= <-]. eexists; reflexivity.
  - intros (Um & Ue). destruct (Z.leb_spec 0 e) as [He|He]; intros [= <-].
    + replace (PyFloat.signed s m * 2 ^ e)
        with (cond_Zopp s (Zpos m * 2 ^ e))
        by (destruct s; unfold PyFloat.signed, cond_Zopp; lia).
      apply float_of_int_exact; lia.
    + assert (P2 : 0 < 2 ^ (- e)) by (apply Z.pow_pos_nonneg; lia).
      replace (Zpos m / 2 ^ (- e))
        with (Zpos m / 2 ^ (- e) * 2 ^ 0) by (rewrite Z.pow_0_r; lia).
      apply float_of_int_exact; [|lia]. split.
      * apply Z.div_pos; lia.
      * apply Z.le_lt_trans with (Zpos m); auto.
        apply Z.div_le_upper_bound; nia.
Qed.

(** A product of doubles is a NaN, an infinity, or a double in range. *)
Lemma fmul_finite_in_range x y :
  finite_float (PyFloat.fmul x y) -> in_range (PyFloat.fmul x y).
Proof.
  destruct x as [sx|sx| |sx mx ex], y as [sy|sy| |sy my ey]; cbn; auto.
  destruct (binary_round_aux _ _ _ _ _ _) as [z|z| |sz mz ez] eqn:Er;
    cbn; auto.
  intros _. eapply binary_round_aux_finite; [|exact Er]. lia.
Qed.

(** The velocity a leaf passes to the executor,
    [int(step_velocity * speed_multiplier)], converts back to a double
    whenever the expression returns. *)
Lemma final_velocity_converts step_velocity speed_multiplier v :
  final_velocity_of step_velocity speed_multiplier = Ret v ->
  exists f, PyFloat.float_of_int v = Ret f.
Proof.
  assert (P : forall x, PyFloat.trunc (PyFloat.fmul x speed_multiplier)
                        = Ret v ->
                        exists f, PyFloat.float_of_int v = Ret f).
  { intros x H. apply trunc_converts with (PyFloat.fmul x speed_multiplier);
      auto.
    apply fmul_finite_in_range.
    destruct (PyFloat.fmul x speed_multiplier); try discriminate; exact I. }
  unfold final_velocity_of, velocity_product, PyFloat.mul_int_float.
  destruct step_velocity as [sv|x|]; [|apply P|discriminate].
  destruct (PyFloat.float_of_int sv) as [f0| |]; try discriminate.
  apply P.
Qed.

(* ================================================================== *)
(** ** Actions without effects *)

Lemma pure_ret {A} (a : A) : pure (ret a).
Proof. intros t; reflexivity. Qed.

Lemma pure_lift {A} (o : Outcome A) : pure (lift o).
Proof. intros t; reflexivity. Qed.

Lemma pure_bind {A B} (m : M A) (k : A -> M B) :
  pure m -> (forall a, pure (k a)) -> pure (bind m k).
Proof.
  intros Hm Hk t. unfold bind. specialize (Hm t).
  destruct (m t) as [[a|e|] t1]; cbn in Hm; subst; auto. apply Hk.
Qed.

Lemma pure_mapM {A B} (f : A -> M B) l :
  (forall a, pure (f a)) -> pure (mapM f l).
Proof.
  intros Hf; induction l as [|a l IH]; cbn.
  - apply pure_ret.
  - apply pure_bind; auto. intros b. apply pure_bind; auto.
    intros bs. apply pure_ret.
Qed.

Lemma pure_foldM {A S} (f : S -> A -> M S) l :
  (forall s a, pure (f s a)) -> forall s, pure (foldM f l s).
Proof.
  intros Hf; induction l as [|a l IH]; intros s; cbn.
  - apply pure_ret.
  - apply pure_bind; auto.
Qed.

Lemma only_of_pure {A} P (m : M A) : pure m -> only P m.
Proof. intros H t. exists []. rewrite app_nil_r. split; auto. Qed.

Lemma pure_eq {A} (m : M A) t o t' : pure m -> m t = (o, t') -> t' = t.
Proof. intros H E. specialize (H t). rewrite E in H. auto. Qed.

Lemma pure_address_of servo_manifest address_map dxl_id :
  pure (address_of servo_manifest address_map dxl_id).
Proof. apply pure_bind; [apply pure_lift|intros; apply pure_lift]. Qed.

Lemma pure_moving_request servo_manifest address_map dxl_id :
  pure (moving_request servo_manifest address_map dxl_id).
Proof.
  apply pure_bind; [apply pure_address_of|intros; apply pure_ret].
Qed.

Lemma pure_poll_servo res servo_manifest address_map s x :
  pure (poll_servo res servo_manifest address_map s x).
Proof.
  apply pure_bind; [apply pure_address_of|intros addr].
  destruct (_ && _)%bool; [apply pure_lift|apply pure_ret].
Qed.

(* ================================================================== *)
(** ** The completion poller *)

Lemma set_remove_spec x s s' :
  set_remove x s = Ret s' ->
  incl s' s /\ (forall y, In y s -> y <> x -> In y s').
Proof.
  unfold set_remove. destruct (mem_Z x s); [|discriminate].
  intros [= <-]. split.
  - intros y Hy. apply filter_In in Hy. tauto.
  - intros y Hy N. apply filter_In. split; auto.
    apply Z.eqb_neq in N. rewrite N. reflexivity.
Qed.

Lemma poll_servo_spec res servo_manifest address_map s x t s' t' :
  poll_servo res servo_manifest address_map s x t = (Ret s', t') ->
  t' = t /\ incl s' s /\ (forall y, In y s -> y <> x -> In y s').
Proof.
  intros H. split.
  { eapply pure_eq; [apply pure_poll_servo|eauto]. }
  unfold poll_servo in H. apply bind_inv_Ret in H.
  destruct H as (addr & t1 & _ & H).
  destruct (_ && _)%bool.
  - unfold lift in H. injection H as H _. apply set_remove_spec; auto.
  - injection H as <- _. split; [apply incl_refl|auto].
Qed.

Lemma poll_servos_spec res servo_manifest address_map ids :
  forall s t s' t',
    foldM (poll_servo res servo_manifest address_map) ids s t = (Ret s', t') ->
    t' = t /\ incl s' s /\ (forall y, In y s -> ~ In y ids -> In y s').
Proof.
  induction ids as [|x ids IH]; intros s t s' t' H; cbn in H.
  - injection H as <- <-. repeat split; auto. apply incl_refl.
  - apply bind_inv_Ret in H. destruct H as (s1 & t1 & H1 & H2).
    apply poll_servo_spec in H1. destruct H1 as (-> & I1 & K1).
    apply IH in H2. destruct H2 as (-> & I2 & K2).
    repeat split; auto.
    + eapply incl_tran; eauto.
    + intros y Hy N. apply K2.
      * apply K1; auto. intros ->. apply N; left; auto.
      * intros Hin. apply N; right; auto.
Qed.

(** One bus in one cycle: at most one grouped read, on that bus; the
    pending set can only lose ids filed under the bus, and loses none when
    the read fails. *)
Lemma poll_port_spec drv servo_manifest port_handlers address_map
    s port ids t s' t' :
  poll_port drv servo_manifest port_handlers address_map s (port, ids) t
  = (Ret s', t') ->
  incl s' s /\ (forall y, In y s -> ~ In y ids -> In y s') /\
  ((t' = t /\ s' = s) \/
   exists reqs ok, t' = t ++ [EvBulkRead port reqs ok]
                   /\ (ok = false -> s' = s)).
Proof.
  unfold poll_port.
  set (ids_to_poll := filter (fun x => mem_Z x ids) s).
  assert (Hsub : forall y, In y ids_to_poll -> In y ids).
  { intros y Hy. apply filter_In in Hy. apply mem_Z_In. tauto. }
  destruct ids_to_poll as [|i0 rest] eqn:Eids.
  { intros [= <- <-]. repeat split; auto. apply incl_refl. }
  rewrite <- Eids in *. clear Eids.
  destruct (negb (mem_string port port_handlers)).
  { intros [= <- <-]. repeat split; auto. apply incl_refl. }
  intros H. apply bind_inv_Ret in H. destruct H as (reqs & t1 & H1 & H).
  assert (t1 = t).
  { eapply pure_eq; [|eauto]. apply pure_mapM.
    intros; apply pure_moving_request. }
  subst t1. clear H1.
  apply bind_inv_Ret in H. destruct H as (res & t2 & H2 & H).
  unfold bulk_read in H2. injection H2 as <- <-.
  destruct (comm_success (txRxPacket drv t port reqs)) eqn:Ec; cbn in H.
  - apply poll_servos_spec in H. destruct H as (-> & I & Kp).
    repeat split; auto.
    right. exists reqs, true. split; auto. discriminate.
  - injection H as <- <-. repeat split; auto; [apply incl_refl|].
    right. exists reqs, false. auto.
Qed.

(** A full pass over the buses never adds an id to the pending set and
    keeps every id that no bus lists. *)
Lemma poll_ports_shrink drv servo_manifest port_handlers address_map
    servos_by_port :
  forall s t s' t',
    foldM (poll_port drv servo_manifest port_handlers address_map)
          servos_by_port s t = (Ret s', t') ->
    incl s' s /\
    (forall y, In y s ->
       (forall port ids, In (port, ids) servos_by_port -> ~ In y ids) ->
       In y s').
Proof.
  induction servos_by_port as [|[port ids] l IH]; intros s t s' t' H;
    cbn in H.
  - injection H as <- <-. split; auto. apply incl_refl.
  - apply bind_inv_Ret in H. destruct H as (s1 & t1 & H1 & H2).
    apply poll_port_spec in H1. destruct H1 as (I1 & K1 & _).
    apply IH in H2. destruct H2 as (I2 & K2). split.
    + eapply incl_tran; eauto.
    + intros y Hy N. apply K2.
      * apply K1; auto. apply (N port); left; auto.
      * intros p i Hin. apply (N p). right; auto.
Qed.

(** One bus in one cycle issues only grouped reads on that bus. *)
Lemma poll_port_only drv servo_manifest port_handlers address_map s port ids :
  only (fun e => exists reqs ok, e = EvBulkRead port reqs ok)
       (poll_port drv servo_manifest port_handlers address_map s (port, ids)).
Proof.
  unfold poll_port.
  destruct (filter _ s) as [|i0 rest]; [apply only_ret|].
  destruct (negb _); [apply only_ret|].
  apply only_bind.
  { apply only_of_pure, pure_mapM. intros; apply pure_moving_request. }
  intros reqs. apply only_bind.
  { apply only_bulk_read. eauto. }
  intros res. destruct (negb _); [apply only_ret|].
  apply only_of_pure, pure_foldM. intros; apply pure_poll_servo.
Qed.

Lemma poll_ports_only drv servo_manifest port_handlers address_map
    servos_by_port s :
  only (fun e => exists port reqs ok,
                   e = EvBulkRead port reqs ok
                   /\ In port (dict_keys servos_by_port))
       (foldM (poll_port drv servo_manifest port_handlers address_map)
              servos_by_port s).
Proof.
  apply only_foldM_In. intros s0 [port ids] Hin.
  eapply only_weaken; [|apply poll_port_only].
  intros e (reqs & ok & ->). exists port, reqs, ok. split; auto.
  apply (in_map fst) in Hin. exact Hin.
Qed.

(** A failed read on a bus keeps that bus's actuators pending through the
    whole pass. *)
Lemma poll_ports_failed_read drv servo_manifest port_handlers address_map
    servos_by_port :
  NoDup (dict_keys servos_by_port) ->
  forall s t s' evs port reqs y,
    foldM (poll_port drv servo_manifest port_handlers address_map)
          servos_by_port s t = (Ret s', t ++ evs) ->
    In (EvBulkRead port reqs false) evs ->
    (forall q ids, In (q, ids) servos_by_port -> In y ids -> q = port) ->
    In y s -> In y s'.
Proof.
  induction servos_by_port as [|[q ids] l IH];
    intros ND s t s' evs port reqs y H Hev Hq Hy; cbn in H.
  - injection H as <- _. auto.
  - cbn in ND. inversion ND as [|? ? Hnotin ND']; subst.
    apply bind_inv_Ret in H. destruct H as (s1 & t1 & H1 & H2).
    pose proof (poll_port_spec _ _ _ _ _ _ _ _ _ _ H1) as (I1 & K1 & C1).
    assert (Hrest : forall q' ids', In (q', ids') l -> In y ids' ->
                                    q' = port).
    { intros q' ids' Hin. apply Hq. right; auto. }
    destruct C1 as [[-> ->]|(reqs0 & ok & -> & Hok)].
    + eapply IH; eauto.
    + destruct (poll_ports_only drv servo_manifest port_handlers address_map
                                l s1 (t ++ [EvBulkRead q reqs0 ok]))
        as (evs2 & E2 & F2).
      rewrite H2 in E2. cbn in E2. rewrite <- app_assoc in E2.
      apply app_inv_head in E2. subst evs.
      destruct Hev as [Hev|Hev].
      * injection Hev as -> -> ->. rewrite (Hok eq_refl) in *.
        apply poll_ports_shrink in H2. destruct H2 as (_ & K2).
        apply K2; auto. intros p i Hin Hyi.
        apply Hnotin. rewrite <- (Hrest _ _ Hin Hyi).
        apply (in_map fst) in Hin. exact Hin.
      * rewrite app_assoc in H2. eapply IH; eauto.
        apply K1; auto. intros Hyi.
        rewrite Forall_forall in F2.
        destruct (F2 _ Hev) as (p & r & o & [= <- <- <-] & Hp).
        apply Hnotin. rewrite (Hq q ids (or_introl eq_refl) Hyi). auto.
Qed.

Lemma poll_cycle_inv drv servo_manifest port_handlers address_map
    servos_by_port s t s' t' :
  poll_cycle drv servo_manifest port_handlers address_map servos_by_port s t
  = (Ret s', t') ->
  exists t1,
    foldM (poll_port drv servo_manifest port_handlers address_map)
          servos_by_port s t = (Ret s', t1)
    /\ (t' = t1 \/ t' = t1 ++ [EvSleep PyFloat.poll_interval]).
Proof.
  unfold poll_cycle. intros H. apply bind_inv_Ret in H.
  destruct H as (r & t1 & H1 & H2). destruct r as [|x r].
  - injection H2 as <- <-. eauto.
  - cbn in H2. injection H2 as <- <-. eauto.
Qed.

Lemma poll_cycle_shrink drv servo_manifest port_handlers address_map
    servos_by_port s t s' t' :
  poll_cycle drv servo_manifest port_handlers address_map servos_by_port s t
  = (Ret s', t') ->
  incl s' s /\
  (forall y, In y s ->
     (forall port ids, In (port, ids) servos_by_port -> ~ In y ids) ->
     In y s').
Proof.
  intros H. apply poll_cycle_inv in H. destruct H as (t1 & H & _).
  eapply poll_ports_shrink; eauto.
Qed.

Lemma poll_loop_cycles polls drv servo_manifest port_handlers address_map
    servos_by_port :
  forall s t,
    poll_loop polls drv servo_manifest port_handlers address_map
              servos_by_port s t
    = bind (poll_cycles polls drv servo_manifest port_handlers address_map
                        servos_by_port s)
           (fun remaining =>
              match remaining with
              | [] => ret tt
              | _ :: _ => out_of_fuel
              end) t.
Proof.
  induction polls as [|n IH]; intros s t; cbn.
  - destruct s; reflexivity.
  - destruct s as [|x s]; [reflexivity|].
    rewrite bind_assoc. apply bind_ext. intros r t1. apply IH.
Qed.

Lemma poll_cycles_shrink drv servo_manifest port_handlers address_map
    servos_by_port n :
  forall s t s' t',
    poll_cycles n drv servo_manifest port_handlers address_map
                servos_by_port s t = (Ret s', t') ->
    incl s' s.
Proof.
  induction n as [|n IH]; intros s t s' t' H; cbn in H.
  - injection H as <- _. apply incl_refl.
  - destruct s as [|x s]; [injection H as <- _; apply incl_refl|].
    apply bind_inv_Ret in H. destruct H as (s1 & t1 & H1 & H2).
    apply poll_cycle_shrink in H1. apply IH in H2.
    eapply incl_tran; eauto. apply H1.
Qed.

Lemma poll_cycles_add drv servo_manifest port_handlers address_map
    servos_by_port n k :
  forall s t,
    poll_cycles (n + k) drv servo_manifest port_handlers address_map
                servos_by_port s t
    = bind (poll_cycles n drv servo_manifest port_handlers address_map
                        servos_by_port s)
           (poll_cycles k drv servo_manifest port_handlers address_map
                        servos_by_port) t.
Proof.
  induction n as [|n IH]; intros s t; cbn.
  - reflexivity.
  - destruct s as [|x s].
    + cbn. destruct k; reflexivity.
    + rewrite bind_assoc. apply bind_ext. intros r t1. apply IH.
Qed.

(** C8. Across polling cycles the pending set only shrinks: the state of
    the loop after [n + k] iterations is included in its state after [n],
    so an id that has left the set is never back in it; and within a
    cycle, a failed grouped read on a bus leaves the membership of every
    actuator of that bus as it was. *)
Theorem pending_set_only_shrinks drv servo_manifest port_handlers
    address_map servo_goals :
  let servos_by_port :=
    servos_by_port_of servo_manifest (servos_to_check_of servo_goals) in
  (forall polls s t,
     poll_loop polls drv servo_manifest port_handlers address_map
               servos_by_port s t
     = bind (poll_cycles polls drv servo_manifest port_handlers address_map
                         servos_by_port s)
            (fun remaining =>
               match remaining with [] => ret tt | _ :: _ => out_of_fuel end)
            t) /\
  (forall n k s t s1 t1 s2 t2,
     poll_cycles n drv servo_manifest port_handlers address_map
                 servos_by_port s t = (Ret s1, t1) ->
     poll_cycles k drv servo_manifest port_handlers address_map
                 servos_by_port s1 t1 = (Ret s2, t2) ->
     poll_cycles (n + k) drv servo_manifest port_handlers address_map
                 servos_by_port s t = (Ret s2, t2)
     /\ incl s2 s1
     /\ (forall dxl_id, ~ In dxl_id s1 -> ~ In dxl_id s2)) /\
  (forall s t s' evs port reqs dxl_id servo,
     poll_cycle drv servo_manifest port_handlers address_map
                servos_by_port s t = (Ret s', t ++ evs) ->
     In (EvBulkRead port reqs false) evs ->
     dict_get Z.eqb dxl_id servo_manifest = Some servo ->
     com_port servo = port ->
     (In dxl_id s <-> In dxl_id s')).
Proof.
  intros servos_by_port. split; [|split].
  - intros. apply poll_loop_cycles.
  - intros n k s t s1 t1 s2 t2 H1 H2.
    rewrite poll_cycles_add. rewrite (bind_Ret _ _ _ _ _ H1).
    pose proof (poll_cycles_shrink _ _ _ _ _ _ _ _ _ _ H2) as I.
    repeat split; auto.
  - intros s t s' evs port reqs dxl_id servo H Hev Hm Hp.
    pose proof (poll_cycle_shrink _ _ _ _ _ _ _ _ _ H) as (I & _).
    split; [|apply I].
    apply poll_cycle_inv in H. destruct H as (t1 & H & Ht).
    destruct (servos_by_port_of_grouped servo_manifest
                (servos_to_check_of servo_goals)) as (ND & G).
    fold servos_by_port in ND, G.
    destruct (poll_ports_only drv servo_manifest port_handlers address_map
                              servos_by_port s t) as (evs1 & E1 & F1).
    rewrite H in E1. cbn in E1. subst t1.
    assert (Hev1 : In (EvBulkRead port reqs false) evs1).
    { destruct Ht as [Ht|Ht].
      - apply app_inv_head in Ht. subst; auto.
      - rewrite <- app_assoc in Ht. apply app_inv_head in Ht. subst evs.
        apply in_app_or in Hev. destruct Hev as [?|[?|[]]]; auto.
        discriminate. }
    eapply poll_ports_failed_read; eauto.
    intros q ids Hin Hy. destruct (G _ _ _ Hin Hy) as (sv & Hsv & <-).
    congruence.
Qed.

Lemma pending_set_only_shrinks_witness :
  incl [] [1; 2; 3] /\ (In 2 [1; 2; 3] <-> In 2 [1; 2; 3]).
Proof.
  destruct (pending_set_only_shrinks flaky_driver demo_manifest ["COM1"]
              demo_address_map demo_goals) as (_ & H2 & H3).
  split.
  - refine (proj1 (proj2 (H2 1%nat 1%nat [1; 2; 3] [] [1; 2; 3] _ [] _ _ _))).
    + vm_compute. reflexivity.
    + vm_compute. reflexivity.
  - refine (H3 [1; 2; 3] [] [1; 2; 3] _ "COM1" _ 2
               (demo_servo 2 "COM1") _ _ _ _).
    + vm_compute. reflexivity.
    + vm_compute. left. reflexivity.
    + vm_compute. reflexivity.
    + reflexivity.
Defined.
(* ================================================================== *)
(** ** When the poller returns *)

Lemma filter_all {A} (f : A -> bool) l :
  (forall x, In x l -> f x = true) -> filter f l = l.
Proof.
  induction l as [|a l IH]; intros H; cbn; auto.
  rewrite (H a) by (left; auto). f_equal. apply IH.
  intros x Hx. apply H. right; auto.
Qed.

Lemma filter_none {A} (f : A -> bool) l :
  (forall x, In x l -> f x = false) -> filter f l = [].
Proof.
  induction l as [|a l IH]; intros H; cbn; auto.
  rewrite (H a) by (left; auto). apply IH.
  intros x Hx. apply H. right; auto.
Qed.

Lemma filter_filter {A} (f g : A -> bool) l :
  filter f (filter g l) = filter (fun x => g x && f x)%bool l.
Proof.
  induction l as [|a l IH]; cbn; auto.
  destruct (g a); cbn; [destruct (f a)|]; rewrite IH; auto.
Qed.

Lemma listed_In servos_by_port y :
  listed servos_by_port y = true
  <-> exists port ids, In (port, ids) servos_by_port /\ In y ids.
Proof.
  unfold listed. rewrite existsb_exists. split.
  - intros ([port ids] & Hin & Hy). apply mem_Z_In in Hy. eauto.
  - intros (port & ids & Hin & Hy). exists (port, ids). split; auto.
    apply mem_Z_In; auto.
Qed.

(** A stopped actuator of the pending set is removed from it. *)
Lemma poll_servo_removes res servo_manifest address_map s x servo t :
  has_default address_map ->
  dict_get Z.eqb x servo_manifest = Some servo ->
  In x s ->
  (forall a l, isAvailable res x a l = true /\ getData res x a l = 0) ->
  poll_servo res servo_manifest address_map s x t
  = (Ret (filter (fun y => negb (y =? x)) s), t).
Proof.
  intros Hd Hk Hin Hs.
  unfold poll_servo, address_of, manifest_lookup, bind, lift. rewrite Hk.
  destruct (has_default_resolves _ Hd (motor_type servo)) as (addr & ->).
  destruct (Hs (moving addr) (len_moving addr)) as (-> & ->). cbn.
  unfold set_remove. rewrite (proj2 (mem_Z_In x s) Hin). reflexivity.
Qed.

Lemma poll_servos_remove res servo_manifest address_map :
  has_default address_map ->
  (forall x a l, isAvailable res x a l = true /\ getData res x a l = 0) ->
  forall ids s t,
    NoDup ids ->
    (forall x, In x ids ->
       In x s /\ exists servo, dict_get Z.eqb x servo_manifest = Some servo) ->
    foldM (poll_servo res servo_manifest address_map) ids s t
    = (Ret (filter (fun y => negb (mem_Z y ids)) s), t).
Proof.
  intros Hd Hs. induction ids as [|x ids IH]; intros s t ND H; cbn [foldM].
  - unfold ret. f_equal. f_equal. symmetry. apply filter_all. auto.
  - inversion ND as [|? ? Hx ND']; subst.
    destruct (H x (or_introl eq_refl)) as (Hin & servo & Hk).
    rewrite (bind_Ret _ _ _ _ _
               (poll_servo_removes res servo_manifest address_map s x servo t
                                   Hd Hk Hin (Hs x))).
    rewrite IH; auto.
    + rewrite filter_filter. f_equal. f_equal.
      apply filter_ext. intros y. unfold mem_Z. cbn [existsb].
      rewrite negb_orb. reflexivity.
    + intros y Hy. destruct (H y (or_intror Hy)) as (Hys & Ky).
      split; auto. apply filter_In. split; auto.
      apply negb_true_iff, Z.eqb_neq. intros ->. contradiction.
Qed.

Lemma moving_requests_return servo_manifest address_map ids :
  has_default address_map ->
  (forall x, In x ids ->
     exists servo, dict_get Z.eqb x servo_manifest = Some servo) ->
  forall t, exists reqs,
    mapM (moving_request servo_manifest address_map) ids t = (Ret reqs, t).
Proof.
  intros Hd. induction ids as [|x ids IH]; intros H t; cbn [mapM].
  - eexists; reflexivity.
  - destruct (H x (or_introl eq_refl)) as (servo & Hk).
    destruct (has_default_resolves _ Hd (motor_type servo)) as (addr & Ea).
    destruct (IH (fun y Hy => H y (or_intror Hy)) t) as (reqs & Er).
    eexists.
    erewrite bind_Ret;
      [|unfold moving_request, address_of, manifest_lookup, bind, lift;
        rewrite Hk, Ea; reflexivity].
    erewrite bind_Ret; [|exact Er]. reflexivity.
Qed.

(** One bus, every actuator stopped: the ids filed under the bus leave the
    pending set. *)
Lemma poll_port_removes drv servo_manifest port_handlers address_map
    s port ids t :
  has_default address_map ->
  all_stopped drv ->
  NoDup s ->
  (forall x, In x s -> ready servo_manifest port_handlers x) ->
  (forall x, In x ids ->
     exists servo, dict_get Z.eqb x servo_manifest = Some servo
                   /\ com_port servo = port) ->
  exists evs,
    poll_port drv servo_manifest port_handlers address_map s (port, ids) t
    = (Ret (filter (fun y => negb (mem_Z y ids)) s), t ++ evs).
Proof.
  intros Hd Hstop ND Hready Hids. unfold poll_port.
  set (ids_to_poll := filter (fun x => mem_Z x ids) s).
  assert (Hsame : filter (fun y => negb (mem_Z y ids_to_poll)) s
                  = filter (fun y => negb (mem_Z y ids)) s).
  { apply filter_ext_in. intros y Hy. f_equal.
    destruct (mem_Z y ids) eqn:E1, (mem_Z y ids_to_poll) eqn:E2; auto.
    - assert (In y ids_to_poll) by (apply filter_In; auto).
      apply mem_Z_In in H. congruence.
    - apply mem_Z_In, filter_In in E2. destruct E2. congruence. }
  assert (Hpoll : forall x, In x ids_to_poll ->
            In x s /\ exists servo,
              dict_get Z.eqb x servo_manifest = Some servo).
  { intros x Hx. apply filter_In in Hx. destruct Hx as (Hxs & Hxi).
    split; auto. apply mem_Z_In in Hxi.
    destruct (Hids x Hxi) as (servo & Hk & _). eauto. }
  assert (NDp : NoDup ids_to_poll) by (apply NoDup_filter; auto).
  destruct ids_to_poll as [|i0 rest] eqn:Eids.
  { exists []. rewrite app_nil_r. unfold ret. rewrite <- Hsame.
    f_equal. f_equal. symmetry. apply filter_all. auto. }
  rewrite <- Eids in *.
  assert (Hp : mem_string port port_handlers = true).
  { assert (H0 : In i0 ids_to_poll) by (rewrite Eids; left; auto).
    apply filter_In in H0. destruct H0 as (H0s & H0i).
    apply mem_Z_In in H0i.
    destruct (Hids i0 H0i) as (servo & Hk & <-).
    destruct (Hready i0 H0s) as (servo' & Hk' & Hh).
    apply mem_string_In. congruence. }
  rewrite Hp. cbn [negb].
  destruct (moving_requests_return servo_manifest address_map ids_to_poll Hd
              (fun x Hx => proj2 (Hpoll x Hx)) t) as (reqs & Er).
  rewrite (bind_Ret _ _ _ _ _ Er).
  unfold bind at 1, bulk_read.
  destruct (Hstop t port reqs 0 0 0) as (Hc & _). rewrite Hc. cbn [negb].
  rewrite (poll_servos_remove (txRxPacket drv t port reqs) servo_manifest
             address_map Hd); auto.
  - rewrite Hsame. eexists; reflexivity.
  - intros x a l. destruct (Hstop t port reqs x a l) as (_ & ? & ?). auto.
Qed.

(** A full pass with every actuator stopped: what remains pending is what
    no bus lists. *)
Lemma poll_ports_remove drv servo_manifest port_handlers address_map :
  has_default address_map ->
  all_stopped drv ->
  forall servos_by_port s t,
    NoDup s ->
    (forall x, In x s -> ready servo_manifest port_handlers x) ->
    (forall port ids x, In (port, ids) servos_by_port -> In x ids ->
       exists servo, dict_get Z.eqb x servo_manifest = Some servo
                     /\ com_port servo = port) ->
    exists evs,
      foldM (poll_port drv servo_manifest port_handlers address_map)
            servos_by_port s t
      = (Ret (filter (fun y => negb (listed servos_by_port y)) s), t ++ evs).
Proof.
  intros Hd Hstop.
  induction servos_by_port as [|[port ids] l IH]; intros s t ND Hr G;
    cbn [foldM].
  - exists []. rewrite app_nil_r. unfold ret. f_equal. f_equal.
    symmetry. apply filter_all. auto.
  - destruct (poll_port_removes drv servo_manifest port_handlers address_map
                s port ids t Hd Hstop ND Hr) as (evs1 & E1).
    { intros x Hx. apply (G port ids); auto. left; auto. }
    rewrite (bind_Ret _ _ _ _ _ E1).
    destruct (IH (filter (fun y => negb (mem_Z y ids)) s) (t ++ evs1))
      as (evs2 & E2).
    + apply NoDup_filter; auto.
    + intros x Hx. apply filter_In in Hx. apply Hr; tauto.
    + intros p i x Hin Hx. apply (G p i); auto. right; auto.
    + rewrite E2. exists (evs1 ++ evs2). rewrite app_assoc.
      f_equal. f_equal. rewrite filter_filter. apply filter_ext.
      intros y. unfold listed. cbn [existsb snd]. rewrite negb_orb.
      reflexivity.
Qed.

Lemma dict_set_keeps_other (d : dict string (list Z)) k v k' v' :
  In (k', v') d -> k' <> k -> In (k', v') (dict_set String.eqb k v d).
Proof.
  intros Hin N. induction d as [|[k0 v0] d IH]; cbn; [destruct Hin|].
  destruct (String.eqb_spec k k0) as [->|N0].
  - destruct Hin as [[= <- <-]|Hin]; [contradiction|right; auto].
  - destruct Hin as [Hin|Hin]; [left; auto|right; auto].
Qed.

Lemma dict_get_first (d : dict string (list Z)) k v :
  NoDup (dict_keys d) -> In (k, v) d -> dict_get String.eqb k d = Some v.
Proof.
  induction d as [|[k0 v0] d IH]; cbn; intros ND Hin; [destruct Hin|].
  inversion ND as [|? ? Hk ND']; subst.
  destruct Hin as [[= -> ->]|Hin].
  - rewrite String.eqb_refl. reflexivity.
  - destruct (String.eqb_spec k k0) as [->|N]; auto.
    exfalso. apply Hk. apply in_map_iff. exists (k0, v). auto.
Qed.

Lemma file_id_NoDup servo_manifest d x :
  NoDup (dict_keys d) -> NoDup (dict_keys (file_id servo_manifest d x)).
Proof.
  intros ND. unfold file_id.
  destruct (dict_get Z.eqb x servo_manifest); auto.
  apply dict_set_NoDup; auto. apply Seqb_spec.
Qed.

Lemma file_id_keeps servo_manifest d x y :
  NoDup (dict_keys d) -> listed d y = true ->
  listed (file_id servo_manifest d x) y = true.
Proof.
  intros ND Hy. unfold file_id.
  destruct (dict_get Z.eqb x servo_manifest) as [servo|]; auto.
  apply listed_In in Hy. destruct Hy as (port & ids & Hin & Hy).
  apply listed_In.
  destruct (String.eqb_spec port (com_port servo)) as [->|N].
  - rewrite (dict_get_first _ _ _ ND Hin).
    exists (com_port servo), (ids ++ [x]). split.
    + apply (dict_get_In _ Seqb_spec), (dict_get_set_same _ Seqb_spec).
    + apply in_or_app; auto.
  - exists port, ids. split; auto. apply dict_set_keeps_other; auto.
Qed.

Lemma file_id_lists servo_manifest d x servo :
  dict_get Z.eqb x servo_manifest = Some servo ->
  listed (file_id servo_manifest d x) x = true.
Proof.
  intros Hk. unfold file_id. rewrite Hk. apply listed_In.
  eexists _, _. split.
  - apply (dict_get_In _ Seqb_spec), (dict_get_set_same _ Seqb_spec).
  - apply in_or_app. right; left; auto.
Qed.

(** The grouping loop files every id that the manifest knows. *)
Lemma servos_by_port_of_lists servo_manifest servos_to_check x servo :
  In x servos_to_check ->
  dict_get Z.eqb x servo_manifest = Some servo ->
  listed (servos_by_port_of servo_manifest servos_to_check) x = true.
Proof.
  intros Hin Hk. unfold servos_by_port_of.
  change (listed (fold_left (file_id servo_manifest) servos_to_check []) x
          = true).
  assert (ND : NoDup (dict_keys (@nil (string * list Z)))) by constructor.
  revert ND Hin. generalize (@nil (string * list Z)) as acc.
  assert (Keep : forall l acc, NoDup (dict_keys acc) ->
            listed acc x = true ->
            listed (fold_left (file_id servo_manifest) l acc) x = true).
  { induction l as [|y l IH]; intros acc ND H; cbn [fold_left]; auto.
    apply IH; [apply file_id_NoDup; auto|apply file_id_keeps; auto]. }
  induction servos_to_check as [|y l IH]; intros acc ND Hin;
    [destruct Hin|]. cbn [fold_left].
  destruct Hin as [->|Hin].
  - apply Keep; [apply file_id_NoDup; auto|eapply file_id_lists; eauto].
  - apply IH; auto. apply file_id_NoDup; auto.
Qed.

Lemma poll_loop_nil polls drv servo_manifest port_handlers address_map
    servos_by_port t :
  poll_loop polls drv servo_manifest port_handlers address_map
            servos_by_port [] t = (Ret tt, t).
Proof. destruct polls; reflexivity. Qed.

Lemma poll_loop_returns_when_stopped polls drv servo_manifest port_handlers
    address_map servos_by_port s t :
  has_default address_map ->
  all_stopped drv ->
  NoDup s ->
  (forall x, In x s -> ready servo_manifest port_handlers x) ->
  (forall port ids x, In (port, ids) servos_by_port -> In x ids ->
     exists servo, dict_get Z.eqb x servo_manifest = Some servo
                   /\ com_port servo = port) ->
  (forall x, In x s -> listed servos_by_port x = true) ->
  exists evs,
    poll_loop (S polls) drv servo_manifest port_handlers address_map
              servos_by_port s t = (Ret tt, t ++ evs).
Proof.
  intros Hd Hstop ND Hr G Hl.
  destruct (poll_ports_remove drv servo_manifest port_handlers address_map
              Hd Hstop servos_by_port s t ND Hr G) as (evs & E).
  rewrite filter_none in E
    by (intros y Hy; apply negb_false_iff; auto).
  destruct s as [|x0 s0].
  { exists []. rewrite app_nil_r. reflexivity. }
  cbn [poll_loop]. unfold poll_cycle.
  rewrite (bind_Ret _ _ _ _ _ (bind_Ret _ _ _ _ _ E)).
  exists evs. apply poll_loop_nil.
Qed.

(** With every id of the goal set in the manifest on a handled bus, and
    every actuator stopped, the first cycle empties the pending set and the
    poller returns. *)
Lemma poller_returns_when_stopped polls drv servo_goals servo_manifest
    port_handlers address_map :
  has_default address_map ->
  (forall dxl_id, In dxl_id (dict_keys servo_goals) ->
                  ready servo_manifest port_handlers dxl_id) ->
  all_stopped drv ->
  forall t, exists evs,
    wait_for_move_completion (S polls) drv servo_goals servo_manifest
                             port_handlers address_map t
    = (Ret tt, t ++ evs).
Proof.
  intros Hd Hr Hstop t. unfold wait_for_move_completion.
  assert (Hrs : forall x, In x (servos_to_check_of servo_goals) ->
                          ready servo_manifest port_handlers x).
  { intros x Hx. apply Hr. unfold servos_to_check_of in Hx.
    apply nodup_In in Hx. auto. }
  destruct (servos_by_port_of_grouped servo_manifest
              (servos_to_check_of servo_goals)) as (_ & G).
  destruct (poll_loop_returns_when_stopped polls drv servo_manifest
              port_handlers address_map
              (servos_by_port_of servo_manifest
                 (servos_to_check_of servo_goals))
              (servos_to_check_of servo_goals)
              (t ++ [EvQueuePut MsgWaiting]) Hd Hstop)
    as (evs & E); auto.
  { apply NoDup_nodup. }
  { intros x Hx. destruct (Hrs x Hx) as (servo & Hk & _).
    eapply servos_by_port_of_lists; eauto. }
  unfold bind at 1, queue_put, emit.
  rewrite (bind_Ret _ _ _ _ _ E).
  eexists. rewrite <- !app_assoc. reflexivity.
Qed.

(** An id that is in the goal set but not in the manifest is filed under
    no bus, so no cycle removes it. *)
Lemma unknown_id_stays_pending polls drv servo_manifest port_handlers
    address_map servos_by_port dxl_id :
  (forall port ids, In (port, ids) servos_by_port -> ~ In dxl_id ids) ->
  forall s t u,
    In dxl_id s ->
    poll_loop polls drv servo_manifest port_handlers address_map
              servos_by_port s t <> (Ret tt, u).
Proof.
  intros Hno. induction polls as [|n IH]; intros s t u Hin; cbn.
  - destruct s; [destruct Hin|]. discriminate.
  - destruct s as [|x s]; [destruct Hin|].
    intros H. apply bind_inv_Ret in H. destruct H as (s1 & t1 & H1 & H2).
    apply poll_cycle_shrink in H1. destruct H1 as (_ & K).
    apply (IH s1 t1 u); auto.
Qed.

(** C2. The pending set is seeded from all keys of the goal set, known to
    the manifest or not.  (1) An id that the manifest does not know is
    never removed, so the poller does not return, whatever the number of
    cycles and whatever the actuators report.  (2) When every id of the
    goal set is in the manifest, on a bus with a handler, and every
    actuator reports stopped, the poller returns after its first cycle. *)
Theorem poller_never_returns_with_unknown_id polls drv servo_goals
    servo_manifest port_handlers address_map :
  (forall dxl_id,
     In dxl_id (dict_keys servo_goals) ->
     dict_get Z.eqb dxl_id servo_manifest = None ->
     In dxl_id (servos_to_check_of servo_goals) /\
     forall t u,
       wait_for_move_completion polls drv servo_goals servo_manifest
                                port_handlers address_map t <> (Ret tt, u)) /\
  (has_default address_map ->
   (forall dxl_id, In dxl_id (dict_keys servo_goals) ->
                   ready servo_manifest port_handlers dxl_id) ->
   all_stopped drv ->
   forall t, exists evs,
     wait_for_move_completion (S polls) drv servo_goals servo_manifest
                              port_handlers address_map t
     = (Ret tt, t ++ evs)).
Proof.
  split; [|apply poller_returns_when_stopped].
  intros dxl_id Hk Hm. split.
  { unfold servos_to_check_of. apply nodup_In. auto. }
  intros t u H. unfold wait_for_move_completion in H.
  apply bind_inv_Ret in H. destruct H as (_ & t1 & _ & H).
  apply bind_inv_Ret in H. destruct H as ([] & t2 & H & _).
  refine (unknown_id_stays_pending polls drv servo_manifest port_handlers
            address_map _ dxl_id _ _ t1 t2 _ H).
  - intros port ids Hin Hd.
    destruct (servos_by_port_of_grouped servo_manifest
                (servos_to_check_of servo_goals)) as (_ & G).
    destruct (G _ _ _ Hin Hd) as (sv & Hsv & _). congruence.
  - unfold servos_to_check_of. apply nodup_In. auto.
Qed.

Lemma poller_never_returns_with_unknown_id_witness :
  In 99 (servos_to_check_of stale_goals) /\
  forall t u,
    wait_for_move_completion 1000 demo_driver stale_goals demo_manifest
                             ["COM1"] demo_address_map t <> (Ret tt, u).
Proof.
  apply (proj1 (poller_never_returns_with_unknown_id 1000 demo_driver
                  stale_goals demo_manifest ["COM1"] demo_address_map) 99).
  - vm_compute. left. reflexivity.
  - vm_compute. reflexivity.
Defined.

(** Without any bus to poll, a non-empty pending set exhausts every
    bound. *)
Lemma poll_loop_no_bus polls drv servo_manifest port_handlers address_map
    x s :
  forall t,
    fst (poll_loop polls drv servo_manifest port_handlers address_map
                   [] (x :: s) t) = OutOfFuel.
Proof.
  induction polls as [|n IH]; intros t.
  - reflexivity.
  - cbn. unfold bind. cbn. apply IH.
Qed.

(** The stale goal file on the rig: every bound on the number of cycles is
    exhausted, on every driver. *)
Lemma poller_hangs_on_stale_goals polls drv t :
  fst (wait_for_move_completion polls drv stale_goals demo_manifest
                                ["COM1"] demo_address_map t) = OutOfFuel.
Proof.
  unfold wait_for_move_completion.
  change (servos_to_check_of stale_goals) with [99].
  change (servos_by_port_of demo_manifest [99]) with (@nil (string * list Z)).
  unfold bind at 1. cbn [queue_put emit].
  pose proof (poll_loop_no_bus polls drv demo_manifest ["COM1"]
                demo_address_map 99 [] (t ++ [EvQueuePut MsgWaiting])) as H.
  unfold bind.
  destruct (poll_loop polls drv demo_manifest ["COM1"] demo_address_map []
                      [99] (t ++ [EvQueuePut MsgWaiting])) as [o t1].
  cbn in H. subst o. reflexivity.
Qed.

(** The pose of the rig, whose ids are all in the manifest: the first
    cycle finds every actuator stopped and the poller returns, with one
    grouped read and no sleep. *)
Example poller_returns_on_known_goals :
  wait_for_move_completion 1 demo_driver demo_goals demo_manifest ["COM1"]
                           demo_address_map []
  = (Ret tt,
     [EvQueuePut MsgWaiting;
      EvBulkRead "COM1"
        [{| rq_id := 1; rq_addr := 122; rq_len := 1 |};
         {| rq_id := 2; rq_addr := 122; rq_len := 1 |};
         {| rq_id := 3; rq_addr := 122; rq_len := 1 |}] true;
      EvQueuePut MsgMovementComplete]).
Proof. vm_compute. reflexivity. Qed.

(* ================================================================== *)
(** ** The executor, bus by bus *)

Lemma constant_lift {A} (o : Outcome A) : constant (lift o) o.
Proof. intros t; reflexivity. Qed.

Lemma constant_ret {A} (a : A) : constant (ret a) (Ret a).
Proof. intros t; reflexivity. Qed.

Lemma constant_bind {A B} (m : M A) (k : A -> M B) o (k' : A -> Outcome B) :
  constant m o -> (forall a, constant (k a) (k' a)) ->
  constant (bind m k) (obind o k').
Proof.
  intros Hm Hk t. unfold bind. rewrite Hm.
  destruct o as [a|e|]; cbn; auto. apply Hk.
Qed.

Lemma constant_mapM {A B} (f : A -> M B) (f' : A -> Outcome B) l :
  (forall a, constant (f a) (f' a)) -> constant (mapM f l) (mapO f' l).
Proof.
  intros Hf. induction l as [|a l IH]; cbn [mapM mapO].
  - apply constant_ret.
  - apply constant_bind; auto. intros b.
    apply constant_bind; auto. intros bs. apply constant_ret.
Qed.

Lemma constant_address_of servo_manifest address_map dxl_id :
  constant (address_of servo_manifest address_map dxl_id)
           (address_outcome servo_manifest address_map dxl_id).
Proof.
  apply constant_bind; [apply constant_lift|]. intros; apply constant_lift.
Qed.

(** The characteristic equation of one bus pass. *)
Lemma sync_move_port_eq drv base_velocity servo_manifest port_handlers
    address_map port_name goals t :
  sync_move_port drv base_velocity servo_manifest port_handlers address_map
                 (port_name, goals) t
  = bus_pass drv base_velocity servo_manifest port_handlers address_map
             port_name goals t.
Proof.
  unfold sync_move_port, bus_pass.
  destruct (negb (mem_string port_name port_handlers)); [reflexivity|].
  assert (C1 : constant (mapM (position_request servo_manifest address_map)
                              goals)
                        (position_requests servo_manifest address_map goals)).
  { apply constant_mapM. intros g. apply constant_bind.
    - apply constant_address_of.
    - intros; apply constant_ret. }
  unfold bind at 1. rewrite C1.
  destruct (position_requests servo_manifest address_map goals)
    as [reqs|e|]; auto.
  unfold bind at 1, bulk_read.
  set (res := txRxPacket drv t port_name reqs).
  set (t1 := t ++ [EvBulkRead port_name reqs (comm_success res)]).
  destruct (negb (comm_success res)); [reflexivity|].
  assert (C2 : constant (mapM (travel_of servo_manifest address_map res)
                              goals)
                        (travels_of servo_manifest address_map res goals)).
  { apply constant_mapM. intros g. apply constant_bind.
    - apply constant_address_of.
    - intros; apply constant_ret. }
  unfold bind at 1. rewrite C2.
  destruct (travels_of servo_manifest address_map res goals)
    as [travels|e|]; auto.
  destruct (0 <? max_travel_of travels); [|reflexivity].
  assert (C3 : constant
                 (mapM (move_params servo_manifest address_map travels
                                    (max_travel_of travels) base_velocity)
                       goals)
                 (mapO (move_params_outcome servo_manifest address_map
                          travels (max_travel_of travels) base_velocity)
                       goals)).
  { apply constant_mapM. intros [i g]. unfold move_params.
    apply constant_bind; [apply constant_address_of|]. intros addr.
    apply constant_bind; [apply constant_lift|]. intros travel.
    apply constant_bind; [apply constant_lift|]. intros v.
    apply constant_ret. }
  unfold bind at 1. rewrite C3.
  destruct (mapO _ goals) as [params|e|]; auto.
  unfold bind, bulk_write, emit. rewrite <- app_assoc. reflexivity.
Qed.

Lemma mapO_Forall2 {A B} (f : A -> Outcome B) l bs :
  mapO f l = Ret bs -> Forall2 (fun a b => f a = Ret b) l bs.
Proof.
  revert bs. induction l as [|a l IH]; intros bs; cbn.
  - intros [= <-]. constructor.
  - destruct (f a) as [b|e|] eqn:Ea; cbn; try discriminate.
    destruct (mapO f l) as [bs'|e|]; cbn; try discriminate.
    intros [= <-]. constructor; auto.
Qed.

Lemma mapO_returns {A B} (f : A -> Outcome B) l :
  (forall a, In a l -> exists b, f a = Ret b) -> exists bs, mapO f l = Ret bs.
Proof.
  induction l as [|a l IH]; intros H; cbn.
  - eexists; reflexivity.
  - destruct (H a (or_introl eq_refl)) as (b & ->).
    destruct IH as (bs & ->); [intros; apply H; right; auto|].
    eexists; reflexivity.
Qed.

(** One bus pass appends events of its own bus only, and a write only
    after a successful read whose travels have a positive maximum. *)
Lemma bus_pass_spec drv base_velocity servo_manifest port_handlers
    address_map port_name goals t out t' :
  bus_pass drv base_velocity servo_manifest port_handlers address_map
           port_name goals t = (out, t') ->
  exists evs,
    t' = t ++ evs
    /\ (forall port params, In (EvBulkWrite port params) evs ->
          port = port_name
          /\ exists reqs travels,
               position_requests servo_manifest address_map goals = Ret reqs
               /\ travels_of servo_manifest address_map
                             (txRxPacket drv t port_name reqs) goals
                  = Ret travels
               /\ 0 < max_travel_of travels).
Proof.
  unfold bus_pass.
  destruct (negb (mem_string port_name port_handlers)).
  { intros [= <- <-]. exists []. rewrite app_nil_r. split; auto.
    intros ? ? []. }
  destruct (position_requests servo_manifest address_map goals)
    as [reqs|e|] eqn:Er;
    try (intros [= <- <-]; exists []; rewrite app_nil_r; split; auto;
         intros ? ? []).
  cbv zeta.
  set (res := txRxPacket drv t port_name reqs).
  destruct (negb (comm_success res)).
  { intros [= <- <-]. eexists. split; [reflexivity|].
    intros ? ? [?|[]]; discriminate. }
  destruct (travels_of servo_manifest address_map res goals)
    as [travels|e|] eqn:Et;
    try (intros [= <- <-]; eexists; (split; [reflexivity|]);
         intros ? ? [?|[]]; discriminate).
  destruct (0 <? max_travel_of travels) eqn:Em.
  2:{ intros [= <- <-]. eexists. split; [reflexivity|].
      intros ? ? [?|[]]; discriminate. }
  apply Z.ltb_lt in Em.
  destruct (mapO _ goals) as [params|e|];
    try (intros [= <- <-]; eexists; (split; [reflexivity|]);
         intros ? ? [?|[]]; discriminate).
  intros [= <- <-]. eexists. rewrite <- app_assoc. split; [reflexivity|].
  intros port ps [H|[H|[H|[]]]]; try discriminate.
  - injection H as <- _. split; auto. exists reqs, travels. auto.
  - injection H as <- _. split; auto. exists reqs, travels. auto.
Qed.

(** Every write of the executor is on a bus of the grouping, after the
    read of that bus gave travels with a positive maximum. *)
Lemma sync_move_ports_writes drv base_velocity servo_manifest port_handlers
    address_map moves :
  forall t out t',
    for_each (sync_move_port drv base_velocity servo_manifest port_handlers
                             address_map) moves t = (out, t') ->
    exists evs,
      t' = t ++ evs
      /\ forall port params, In (EvBulkWrite port params) evs ->
           exists goals pre post reqs travels,
             In (port, goals) moves
             /\ evs = pre ++ post
             /\ position_requests servo_manifest address_map goals = Ret reqs
             /\ travels_of servo_manifest address_map
                           (txRxPacket drv (t ++ pre) port reqs) goals
                = Ret travels
             /\ 0 < max_travel_of travels.
Proof.
  induction moves as [|[port_name goals] moves IH]; intros t out t' H;
    cbn [for_each] in H.
  - injection H as <- <-. exists []. rewrite app_nil_r. split; auto.
    intros ? ? [].
  - unfold bind in H. rewrite sync_move_port_eq in H.
    destruct (bus_pass _ _ _ _ _ _ _ _) as [o1 t1] eqn:E1.
    destruct (bus_pass_spec _ _ _ _ _ _ _ _ _ _ E1) as (evs1 & -> & W1).
    assert (Hhead : forall port params, In (EvBulkWrite port params) evs1 ->
              forall evs2,
              exists goals0 pre post reqs travels,
                In (port, goals0) ((port_name, goals) :: moves)
                /\ evs1 ++ evs2 = pre ++ post
                /\ position_requests servo_manifest address_map goals0
                   = Ret reqs
                /\ travels_of servo_manifest address_map
                              (txRxPacket drv (t ++ pre) port reqs) goals0
                   = Ret travels
                /\ 0 < max_travel_of travels).
    { intros port params Hin evs2.
      destruct (W1 _ _ Hin) as (-> & reqs & travels & A & B & C).
      exists goals, [], (evs1 ++ evs2), reqs, travels.
      rewrite app_nil_r. repeat split; auto. left; auto. }
    destruct o1 as [[]|e|].
    + destruct (IH _ _ _ H) as (evs2 & -> & W2).
      exists (evs1 ++ evs2). split; [rewrite app_assoc; reflexivity|].
      intros port params Hin. apply in_app_or in Hin.
      destruct Hin as [Hin|Hin]; [eapply Hhead; eauto|].
      destruct (W2 _ _ Hin)
        as (goals0 & pre & post & reqs & travels & A & -> & B & C & D).
      exists goals0, (evs1 ++ pre), post, reqs, travels.
      rewrite <- !app_assoc in *. repeat split; auto. right; auto.
    + injection H as <- <-. exists evs1. split; auto.
      intros port params Hin.
      destruct (Hhead _ _ Hin []) as (g & pre & post & r & tr & A & B & C).
      rewrite app_nil_r in B. eauto 10.
    + injection H as <- <-. exists evs1. split; auto.
      intros port params Hin.
      destruct (Hhead _ _ Hin []) as (g & pre & post & r & tr & A & B & C).
      rewrite app_nil_r in B. eauto 10.
Qed.

(** C9. When the maximum travel of a bus's sub-goal-set is 0, the executor
    issues no write on that bus.  (1) One bus pass whose travels, from the
    answer to its read, have maximum 0 returns after at most that read.
    (2) In a whole call, every write is on a bus of the partition and
    comes after the read of that bus gave a positive maximum travel. *)
Theorem no_write_without_travel drv base_velocity servo_manifest
    port_handlers address_map :
  (forall port_name goals t reqs travels,
     position_requests servo_manifest address_map goals = Ret reqs ->
     travels_of servo_manifest address_map
                (txRxPacket drv t port_name reqs) goals = Ret travels ->
     max_travel_of travels = 0 ->
     exists evs,
       sync_move_port drv base_velocity servo_manifest port_handlers
                      address_map (port_name, goals) t = (Ret tt, t ++ evs)
       /\ existsb is_write evs = false) /\
  (forall servo_goals t out t',
     execute_sync_move drv servo_goals base_velocity servo_manifest
                       port_handlers address_map t = (out, t') ->
     exists evs,
       t' = t ++ evs
       /\ forall port params, In (EvBulkWrite port params) evs ->
            exists goals pre post reqs travels,
              In (port, goals) (moves_by_port_of servo_manifest servo_goals)
              /\ evs = pre ++ post
              /\ position_requests servo_manifest address_map goals
                 = Ret reqs
              /\ travels_of servo_manifest address_map
                            (txRxPacket drv (t ++ pre) port reqs) goals
                 = Ret travels
              /\ 0 < max_travel_of travels).
Proof.
  split.
  - intros port_name goals t reqs travels Er Et Em.
    rewrite sync_move_port_eq. unfold bus_pass.
    destruct (negb (mem_string port_name port_handlers)).
    { exists []. rewrite app_nil_r. auto. }
    rewrite Er. cbv zeta.
    destruct (negb (comm_success (txRxPacket drv t port_name reqs))).
    { eexists. split; [reflexivity|]. reflexivity. }
    rewrite Et, Em. cbn [Z.ltb Z.compare].
    eexists. split; [reflexivity|]. reflexivity.
  - intros servo_goals t out t' H. unfold execute_sync_move in H.
    unfold bind in H.
    destruct (for_each _ _ t) as [o1 t1] eqn:E1.
    apply sync_move_ports_writes in E1. destruct E1 as (evs & -> & W).
    exists evs. split; auto.
    destruct o1 as [[]|e|]; injection H as _ <-; reflexivity.
Qed.

Lemma no_write_without_travel_witness :
  exists evs,
    sync_move_port demo_driver 150 demo_manifest ["COM1"] demo_address_map
                   ("COM1", [(1, 0); (2, 0)]) [] = (Ret tt, [] ++ evs)
    /\ existsb is_write evs = false.
Proof.
  refine (proj1 (no_write_without_travel demo_driver 150 demo_manifest
                   ["COM1"] demo_address_map)
                "COM1" [(1, 0); (2, 0)] []
                [{| rq_id := 1; rq_addr := 132; rq_len := 4 |};
                 {| rq_id := 2; rq_addr := 132; rq_len := 4 |}]
                [(1, 0); (2, 0)] _ _ _).
  - vm_compute. reflexivity.
  - vm_compute. reflexivity.
  - reflexivity.
Defined.

(* ================================================================== *)
(** ** Travels and their maximum *)

Lemma max_travel_fold_ge travels :
  forall acc,
    acc <= fold_left (fun (max_travel : Z) '((_, travel) : Z * Z) =>
                        if max_travel <? travel then travel else max_travel)
                     travels acc
    /\ forall (i : Z) tr, In (i, tr) travels ->
         tr <= fold_left (fun (max_travel : Z) '((_, travel) : Z * Z) =>
                            if max_travel <? travel then travel
                            else max_travel)
                         travels acc.
Proof.
  induction travels as [|[i0 t0] l IH]; intros acc; cbn [fold_left].
  - split; [lia|]. intros ? ? [].
  - destruct (IH (if acc <? t0 then t0 else acc)) as (A & B).
    destruct (Z.ltb_spec acc t0); split; try lia.
    + intros i tr [[= <- <-]|Hin]; [lia|eauto].
    + intros i tr [[= <- <-]|Hin]; [lia|eauto].
Qed.

Lemma max_travel_of_ge travels i tr :
  In (i, tr) travels -> tr <= max_travel_of travels.
Proof. apply (max_travel_fold_ge travels 0). Qed.

Lemma travels_of_spec servo_manifest address_map res goals travels :
  travels_of servo_manifest address_map res goals = Ret travels ->
  map fst travels = map fst goals
  /\ forall i tr, In (i, tr) travels -> 0 <= tr.
Proof.
  intros H. apply mapO_Forall2 in H.
  induction H as [|g tr goals travels Hg _ IH]; cbn.
  - split; auto. intros ? ? [].
  - destruct (address_outcome servo_manifest address_map (fst g));
      cbn in Hg; try discriminate.
    injection Hg as <-. destruct IH as (A & B). cbn. split; [congruence|].
    intros i tr [[= <- <-]|Hin]; [lia|eauto].
Qed.

Lemma dict_get_of_key (d : dict Z Z) i :
  In i (map fst d) -> exists v, dict_get Z.eqb i d = Some v /\ In (i, v) d.
Proof.
  intros Hin. destruct (dict_get Z.eqb i d) as [v|] eqn:E.
  - exists v. split; auto. apply (dict_get_In _ Zeqb_spec); auto.
  - apply (dict_get_None _ Zeqb_spec) in E. contradiction.
Qed.

Lemma position_requests_addresses servo_manifest address_map goals reqs :
  position_requests servo_manifest address_map goals = Ret reqs ->
  forall g, In g goals ->
    exists addr, address_outcome servo_manifest address_map (fst g) = Ret addr.
Proof.
  intros H. apply mapO_Forall2 in H.
  induction H as [|g0 r goals reqs Hg _ IH]; intros g [].
  - subst. destruct (address_outcome _ _ _); try discriminate. eauto.
  - auto.
Qed.

(** C1 (amended). On a bus whose read succeeds and whose travels have a
    positive maximum, the executor writes, for every actuator of the
    sub-goal-set, the velocity [int(max(1, (travel / max_travel) *
    base_velocity))], computed in doubles and truncated toward zero; every
    written velocity is at least 1; an actuator whose travel is the maximum
    gets [base_velocity] itself when [1 <= base_velocity < 2^53]; travels
    100, 50 and 25 at base velocity 150 give 150, 75 and 37. *)
Theorem synchronized_velocities drv base_velocity servo_manifest
    port_handlers address_map port_name goals t reqs travels f :
  mem_string port_name port_handlers = true ->
  position_requests servo_manifest address_map goals = Ret reqs ->
  comm_success (txRxPacket drv t port_name reqs) = true ->
  travels_of servo_manifest address_map (txRxPacket drv t port_name reqs)
             goals = Ret travels ->
  0 < max_travel_of travels ->
  PyFloat.float_of_int base_velocity = Ret f ->
  (exists params,
     sync_move_port drv base_velocity servo_manifest port_handlers
                    address_map (port_name, goals) t
     = (Ret tt, t ++ [EvBulkRead port_name reqs true;
                      EvBulkWrite port_name (map fst params);
                      EvBulkWrite port_name (map snd params)])
     /\ Forall2
          (fun goal param =>
             exists addr travel velocity,
               address_outcome servo_manifest address_map (fst goal)
               = Ret addr
               /\ dict_get Z.eqb (fst goal) travels = Some travel
               /\ sync_velocity travel (max_travel_of travels) base_velocity
                  = Ret velocity
               /\ 1 <= velocity
               /\ (travel = max_travel_of travels ->
                   1 <= base_velocity < 2 ^ 53 ->
                   velocity = base_velocity)
               /\ fst param
                  = {| wp_id := fst goal;
                       wp_addr := profile_velocity addr;
                       wp_len := len_profile_velocity addr;
                       wp_data := slice_to (len_profile_velocity addr)
                                           (dxl_bytes velocity) |})
          goals params) /\
  sync_velocity 100 100 150 = Ret 150 /\
  sync_velocity 50 100 150 = Ret 75 /\
  sync_velocity 25 100 150 = Ret 37.
Proof.
  intros Hp Er Hc Et Hm Hf.
  split; [|vm_compute; auto].
  destruct (travels_of_spec _ _ _ _ _ Et) as (Keys & Nonneg).
  assert (Hret : exists params,
             mapO (move_params_outcome servo_manifest address_map travels
                     (max_travel_of travels) base_velocity) goals
             = Ret params).
  { apply mapO_returns. intros g Hg. unfold move_params_outcome.
    destruct (position_requests_addresses _ _ _ _ Er g Hg) as (addr & ->).
    cbn [obind].
    destruct (dict_get_of_key travels (fst g)) as (tr & -> & Hin).
    { rewrite Keys. apply in_map; auto. }
    cbn [obind].
    destruct (sync_velocity_returns tr (max_travel_of travels)
                base_velocity f) as (v & ->); auto.
    { split; [eapply Nonneg; eauto|eapply max_travel_of_ge; eauto]. }
    eexists; reflexivity. }
  destruct Hret as (params & Eparams). exists params. split.
  - rewrite sync_move_port_eq. unfold bus_pass.
    rewrite Hp, Er. cbv zeta. rewrite Hc, Et. cbn [negb].
    destruct (Z.ltb_spec 0 (max_travel_of travels)); [|lia].
    rewrite Eparams, <- app_assoc. reflexivity.
  - apply mapO_Forall2 in Eparams.
    eapply Forall2_impl; [|exact Eparams].
    intros g param H. unfold move_params_outcome in H.
    destruct (address_outcome servo_manifest address_map (fst g))
      as [addr|e|]; try discriminate. cbn [obind] in H.
    destruct (dict_get Z.eqb (fst g) travels) as [tr|]; try discriminate.
    cbn [obind] in H.
    destruct (sync_velocity tr (max_travel_of travels) base_velocity)
      as [v|e|] eqn:Ev; try discriminate.
    cbn [obind] in H. injection H as <-.
    exists addr, tr, v. repeat split; auto.
    + eapply sync_velocity_ge_1; eauto.
    + intros -> Hb. rewrite sync_velocity_max in Ev by auto. congruence.
Qed.

Lemma synchronized_velocities_witness :
  (exists params,
     sync_move_port demo_driver 150 demo_manifest ["COM1"] demo_address_map
                    ("COM1", demo_goals) []
     = (Ret tt,
        [] ++ [EvBulkRead "COM1"
                 [{| rq_id := 1; rq_addr := 132; rq_len := 4 |};
                  {| rq_id := 2; rq_addr := 132; rq_len := 4 |};
                  {| rq_id := 3; rq_addr := 132; rq_len := 4 |}] true;
               EvBulkWrite "COM1" (map fst params);
               EvBulkWrite "COM1" (map snd params)])
     /\ Forall2
          (fun goal param =>
             exists addr travel velocity,
               address_outcome demo_manifest demo_address_map (fst goal)
               = Ret addr
               /\ dict_get Z.eqb (fst goal) demo_goals = Some travel
               /\ sync_velocity travel (max_travel_of demo_goals) 150
                  = Ret velocity
               /\ 1 <= velocity
               /\ (travel = max_travel_of demo_goals ->
                   1 <= 150 < 2 ^ 53 -> velocity = 150)
               /\ fst param
                  = {| wp_id := fst goal;
                       wp_addr := profile_velocity addr;
                       wp_len := len_profile_velocity addr;
                       wp_data := slice_to (len_profile_velocity addr)
                                           (dxl_bytes velocity) |})
          demo_goals params) /\
  sync_velocity 100 100 150 = Ret 150 /\
  sync_velocity 50 100 150 = Ret 75 /\
  sync_velocity 25 100 150 = Ret 37.
Proof.
  refine (synchronized_velocities demo_driver 150 demo_manifest ["COM1"]
            demo_address_map "COM1" demo_goals [] _ demo_goals
            (S754_finite false 5277655813324800 (-45)) _ _ _ _ _ _).
  - reflexivity.
  - vm_compute. reflexivity.
  - reflexivity.
  - vm_compute. reflexivity.
  - vm_compute. reflexivity.
  - vm_compute. reflexivity.
Defined.

(** C1 (as stated) fails: the third velocity of the scenario is 37, not
    38; the expression truncates 37.5 where the claim rounds it.  And at
    base velocity 0 the actuator with the maximum travel gets 1, not the
    base velocity. *)
Lemma third_velocity_is_not_rounded :
  sync_velocity 25 100 150 = Ret 37
  /\ spec_sync_velocity 25 100 150 = Ret 38
  /\ sync_velocity 100 100 0 = Ret 1
  /\ snd (execute_sync_move demo_driver demo_goals 150 demo_manifest
                            ["COM1"] demo_address_map [])
     = [EvBulkRead "COM1"
          [{| rq_id := 1; rq_addr := 132; rq_len := 4 |};
           {| rq_id := 2; rq_addr := 132; rq_len := 4 |};
           {| rq_id := 3; rq_addr := 132; rq_len := 4 |}] true;
        EvBulkWrite "COM1"
          [{| wp_id := 1; wp_addr := 112; wp_len := 4;
              wp_data := [150; 0; 0; 0] |};
           {| wp_id := 2; wp_addr := 112; wp_len := 4;
              wp_data := [75; 0; 0; 0] |};
           {| wp_id := 3; wp_addr := 112; wp_len := 4;
              wp_data := [37; 0; 0; 0] |}];
        EvBulkWrite "COM1"
          [{| wp_id := 1; wp_addr := 116; wp_len := 4;
              wp_data := [100; 0; 0; 0] |};
           {| wp_id := 2; wp_addr := 116; wp_len := 4;
              wp_data := [50; 0; 0; 0] |};
           {| wp_id := 3; wp_addr := 116; wp_len := 4;
              wp_data := [25; 0; 0; 0] |}]].
Proof. vm_compute. repeat split. Qed.

(* ================================================================== *)
(** ** The partition by bus *)

Lemma moves_by_port_of_known servo_manifest servo_goals :
  partition_known servo_manifest
                  (moves_by_port_of servo_manifest servo_goals).
Proof.
  unfold moves_by_port_of.
  assert (G : partition_known servo_manifest []) by (intros ? ? ? []).
  revert G. generalize (@nil (string * GoalSet)) as acc.
  induction servo_goals as [|[i g] l IH]; intros acc G; cbn [fold_left]; auto.
  apply IH.
  destruct (dict_get Z.eqb i servo_manifest) as [servo|] eqn:E; auto.
  intros port goals [i0 p0] Hin Hg.
  apply (dict_set_In _ Seqb_spec) in Hin. destruct Hin as [[-> ->]|Hin].
  - apply (dict_set_In _ Zeqb_spec) in Hg. destruct Hg as [[-> _]|Hg].
    + cbn. eauto.
    + destruct (dict_get String.eqb (com_port servo) acc) as [g1|] eqn:E1;
        [|destruct Hg].
      apply (dict_get_In _ Seqb_spec) in E1. eapply G; eauto.
  - eapply G; eauto.
Qed.

Lemma moves_by_port_of_unknown servo_manifest servo_goals :
  (forall i, In i (dict_keys servo_goals) ->
             dict_get Z.eqb i servo_manifest = None) ->
  moves_by_port_of servo_manifest servo_goals = [].
Proof.
  unfold moves_by_port_of. generalize (@nil (string * GoalSet)) as acc.
  induction servo_goals as [|[i g] l IH]; intros acc H; cbn [fold_left].
  - reflexivity.
  - rewrite (H i) by (left; reflexivity).
    apply IH. intros j Hj. apply H. right; auto.
Qed.

(** With every register resolvable and a base velocity that converts to a
    double, a bus pass over known actuators returns. *)
Lemma bus_pass_returns drv base_velocity servo_manifest port_handlers
    address_map port_name goals f t :
  has_default address_map ->
  PyFloat.float_of_int base_velocity = Ret f ->
  (forall g, In g goals ->
     exists servo, dict_get Z.eqb (fst g) servo_manifest = Some servo) ->
  exists evs,
    bus_pass drv base_velocity servo_manifest port_handlers address_map
             port_name goals t = (Ret tt, t ++ evs)
    /\ ((forall tr p reqs, comm_success (txRxPacket drv tr p reqs) = false)
        -> existsb is_write evs = false).
Proof.
  intros Hd Hf Hk.
  assert (Ha : forall g, In g goals ->
             exists addr, address_outcome servo_manifest address_map (fst g)
                          = Ret addr).
  { intros g Hg. destruct (Hk g Hg) as (servo & Es).
    unfold address_outcome, manifest_lookup. rewrite Es. cbn [obind].
    apply has_default_resolves; auto. }
  unfold bus_pass.
  destruct (negb (mem_string port_name port_handlers)).
  { exists []. rewrite app_nil_r. auto. }
  destruct (mapO_returns
              (fun goal =>
                 obind (address_outcome servo_manifest address_map (fst goal))
                       (fun addr =>
                          Ret {| rq_id := fst goal;
                                 rq_addr := present_position addr;
                                 rq_len := len_present_position addr |}))
              goals) as (reqs & Er).
  { intros g Hg. destruct (Ha g Hg) as (addr & ->). eexists; reflexivity. }
  unfold position_requests at 1. rewrite Er. cbv zeta.
  set (res := txRxPacket drv t port_name reqs).
  destruct (comm_success res) eqn:Ec; cbn [negb].
  2:{ eexists. split; [reflexivity|]. reflexivity. }
  destruct (mapO_returns
              (fun goal =>
                 obind (address_outcome servo_manifest address_map (fst goal))
                       (fun addr =>
                          Ret (fst goal,
                               Z.abs (snd goal
                                      - getData res (fst goal)
                                                (present_position addr)
                                                (len_present_position addr)))))
              goals) as (travels & Et).
  { intros g Hg. destruct (Ha g Hg) as (addr & ->). eexists; reflexivity. }
  fold (travels_of servo_manifest address_map res goals) in Et.
  rewrite Et.
  destruct (travels_of_spec _ _ _ _ _ Et) as (Keys & Nonneg).
  destruct (Z.ltb_spec 0 (max_travel_of travels)) as [Hm|Hm].
  2:{ eexists. split; [reflexivity|]. reflexivity. }
  destruct (mapO_returns
              (move_params_outcome servo_manifest address_map travels
                 (max_travel_of travels) base_velocity) goals)
    as (params & Ep).
  { intros g Hg. unfold move_params_outcome.
    destruct (Ha g Hg) as (addr & ->). cbn [obind].
    destruct (dict_get_of_key travels (fst g)) as (tr & -> & Hin).
    { rewrite Keys. apply in_map; auto. }
    cbn [obind].
    destruct (sync_velocity_returns tr (max_travel_of travels)
                base_velocity f) as (v & ->); auto.
    { split; [eapply Nonneg; eauto|eapply max_travel_of_ge; eauto]. }
    eexists; reflexivity. }
  rewrite Ep. eexists. rewrite <- app_assoc. split; [reflexivity|].
  intros Hfail. unfold res in Ec. rewrite Hfail in Ec. discriminate.
Qed.

Lemma sync_move_ports_return drv base_velocity servo_manifest port_handlers
    address_map f moves :
  has_default address_map ->
  PyFloat.float_of_int base_velocity = Ret f ->
  partition_known servo_manifest moves ->
  forall t,
  exists evs,
    for_each (sync_move_port drv base_velocity servo_manifest port_handlers
                             address_map) moves t = (Ret tt, t ++ evs)
    /\ ((forall tr p reqs, comm_success (txRxPacket drv tr p reqs) = false)
        -> existsb is_write evs = false).
Proof.
  intros Hd Hf. induction moves as [|[port_name goals] moves IH];
    intros Hk t; cbn [for_each].
  - exists []. rewrite app_nil_r. auto.
  - destruct (bus_pass_returns drv base_velocity servo_manifest port_handlers
                address_map port_name goals f t Hd Hf) as (evs1 & E1 & W1).
    { intros g Hg. eapply Hk; [left; reflexivity|eauto]. }
    destruct (IH (fun p gs g Hin => Hk p gs g (or_intror Hin)) (t ++ evs1))
      as (evs2 & E2 & W2).
    unfold bind. rewrite sync_move_port_eq, E1, E2.
    exists (evs1 ++ evs2). rewrite app_assoc. split; auto.
    intros Hfail. rewrite existsb_app, W1, W2; auto.
Qed.

(* ================================================================== *)
(** ** Which events each routine can emit *)

Lemma only_address_of P servo_manifest address_map dxl_id :
  only P (address_of servo_manifest address_map dxl_id).
Proof. apply only_of_pure, pure_address_of. Qed.

Lemma check_servos_only res address_map servos :
  only (fun e => is_read_or_message e = true)
       (check_servos res address_map servos).
Proof.
  induction servos as [|servo rest IH]; cbn.
  - apply only_ret.
  - apply only_bind; [apply only_lift|]. intros addr.
    destruct (_ || _)%bool; auto.
    apply only_bind; [apply only_emit; reflexivity|].
    intros; apply only_ret.
Qed.

Lemma check_ports_only drv servo_manifest address_map ports :
  only (fun e => is_read_or_message e = true)
       (check_ports drv servo_manifest address_map ports).
Proof.
  induction ports as [|port rest IH]; cbn.
  - apply only_ret.
  - apply only_bind.
    { apply only_mapM. intros servo. apply only_bind; [apply only_lift|].
      intros; apply only_ret. }
    intros reqs. apply only_bind; [apply only_bulk_read; reflexivity|].
    intros res. destruct (negb _); [apply only_ret|].
    apply only_bind; [apply check_servos_only|].
    intros [|]; [apply IH|apply only_ret].
Qed.

(** The safety gate issues grouped reads and messages, nothing else. *)
Lemma check_torque_status_only drv servo_manifest port_handlers address_map :
  only (fun e => is_read_or_message e = true)
       (check_torque_status drv servo_manifest port_handlers address_map).
Proof.
  unfold check_torque_status.
  apply only_bind; [apply only_emit; reflexivity|]. intros _.
  apply only_bind; [apply check_ports_only|].
  intros [|]; [|apply only_ret].
  apply only_bind; [apply only_emit; reflexivity|].
  intros; apply only_ret.
Qed.

Lemma sync_move_port_only drv base_velocity servo_manifest port_handlers
    address_map port_move :
  only (fun e => is_transaction e = true)
       (sync_move_port drv base_velocity servo_manifest port_handlers
                       address_map port_move).
Proof.
  destruct port_move as [port goals]. unfold sync_move_port.
  destruct (negb _); [apply only_ret|].
  apply only_bind.
  { apply only_mapM. intros g. apply only_bind; [apply only_address_of|].
    intros; apply only_ret. }
  intros reqs. apply only_bind; [apply only_bulk_read; reflexivity|].
  intros res. destruct (negb _); [apply only_ret|].
  apply only_bind.
  { apply only_mapM. intros g. apply only_bind; [apply only_address_of|].
    intros; apply only_ret. }
  intros travels. destruct (0 <? _); [|apply only_ret].
  apply only_bind.
  { apply only_mapM. intros [i g]. cbn.
    apply only_bind; [apply only_address_of|]. intros addr.
    apply only_bind; [apply only_lift|]. intros travel.
    apply only_bind; [apply only_lift|]. intros v. apply only_ret. }
  intros params.
  apply only_bind; [apply only_emit; reflexivity|].
  intros; apply only_emit; reflexivity.
Qed.

(** The executor issues grouped reads and writes, nothing else. *)
Lemma execute_sync_move_only drv servo_goals base_velocity servo_manifest
    port_handlers address_map :
  only (fun e => is_transaction e = true)
       (execute_sync_move drv servo_goals base_velocity servo_manifest
                          port_handlers address_map).
Proof.
  unfold execute_sync_move.
  apply only_bind; [|intros; apply only_ret].
  apply only_for_each. intros; apply sync_move_port_only.
Qed.

Lemma poll_loop_only polls drv servo_manifest port_handlers address_map
    servos_by_port :
  forall s,
    only (fun e => is_poll_event e = true)
         (poll_loop polls drv servo_manifest port_handlers address_map
                    servos_by_port s).
Proof.
  induction polls as [|n IH]; intros s; cbn.
  - destruct s; [apply only_ret|apply only_out_of_fuel].
  - destruct s as [|x s]; [apply only_ret|].
    apply only_bind; [|apply IH].
    unfold poll_cycle. apply only_bind.
    + eapply only_weaken; [|apply poll_ports_only].
      intros e (p & r & o & -> & _). reflexivity.
    + intros [|y r]; [apply only_ret|].
      apply only_bind; [apply only_emit; reflexivity|].
      intros; apply only_ret.
Qed.

(** The poller issues grouped reads, sleeps and messages; it never
    writes. *)
Lemma wait_for_move_completion_only polls drv servo_goals servo_manifest
    port_handlers address_map :
  only (fun e => is_poll_event e = true)
       (wait_for_move_completion polls drv servo_goals servo_manifest
                                 port_handlers address_map).
Proof.
  unfold wait_for_move_completion.
  apply only_bind; [apply only_emit; reflexivity|]. intros _.
  apply only_bind; [apply poll_loop_only|]. intros _.
  apply only_emit; reflexivity.
Qed.

Lemma poll_event_is_motion e :
  is_poll_event e = true ->
  is_motion_event e = true /\ is_write e = false
  /\ is_processing_message e = false.
Proof.
  destruct e as [| | | | | |m]; cbn; try discriminate; auto.
  destruct m; try discriminate; auto.
Qed.

Lemma transaction_is_motion e : is_transaction e = true ->
                                is_motion_event e = true.
Proof. destruct e; cbn; auto. Qed.

Lemma move_and_wait_only polls drv goals base_velocity servo_manifest
    port_handlers address_map :
  only (fun e => is_motion_event e = true
                 /\ is_processing_message e = false)
       (move_and_wait polls drv goals base_velocity servo_manifest
                      port_handlers address_map).
Proof.
  unfold move_and_wait. apply only_bind.
  - eapply only_weaken; [|apply execute_sync_move_only].
    intros e He. split; [apply transaction_is_motion; auto|].
    destruct e; cbn in He; try discriminate; reflexivity.
  - intros [|]; [|apply only_ret].
    eapply only_weaken; [|apply wait_for_move_completion_only].
    intros e He. apply poll_event_is_motion in He. tauto.
Qed.

(** One step of a script: apart from what the nested script emits, only
    motion events that are not the start-of-script message. *)
Lemma process_step_only (P : Event -> Prop) polls recurse drv fs
    servo_manifest port_handlers address_map base_velocity speed_multiplier
    n i step :
  (forall e, is_motion_event e = true ->
             is_processing_message e = false -> P e) ->
  (forall name q,
     position_file step = Some (TStr name) ->
     endswith (lower name) ".toml" = true ->
     nested_speed_of step = Ret q ->
     only P (recurse (path_join "animation" name)
                     (PyFloat.fmul speed_multiplier q))) ->
  only P (process_step polls recurse drv fs servo_manifest port_handlers
                       address_map base_velocity speed_multiplier n
                       (i, step)).
Proof.
  intros HP Hrec. unfold process_step.
  destruct (position_file step) as [pf|] eqn:Epf; [|apply only_ret].
  destruct (negb (truthy pf)); [apply only_ret|].
  apply only_bind; [apply only_emit, HP; reflexivity|]. intros _.
  destruct pf as [z|x|name]; [apply only_raise|apply only_raise|].
  apply only_bind.
  - destruct (endswith (lower name) ".toml") eqn:Et.
    + unfold bind, lift.
      destruct (nested_speed_of step) as [q|e|] eqn:Eq.
      * apply Hrec; auto.
      * apply only_raise.
      * apply only_out_of_fuel.
    + destruct (endswith (lower name) ".json"); [|apply only_ret].
      apply only_try_except.
      * apply only_bind; [apply only_lift|]. intros goals.
        apply only_bind; [apply only_lift|]. intros v.
        eapply only_weaken; [|apply move_and_wait_only].
        intros e [H1 H2]. auto.
      * intros; apply only_emit, HP; reflexivity.
  - intros _. unfold step_delay.
    apply only_bind; [apply only_lift|]. intros delay.
    destruct (PyFloat.gt_int delay 0); [|apply only_ret].
    apply only_bind; [apply only_emit, HP; reflexivity|].
    intros; apply only_sleep, HP; reflexivity.
Qed.

(** The interpreter issues transactions, sleeps and messages: it never
    opens or closes a port. *)
Lemma process_sequence_only depth polls drv fs servo_manifest port_handlers
    address_map :
  forall filepath speed_multiplier,
    only (fun e => is_motion_event e = true)
         (process_sequence depth polls drv fs filepath speed_multiplier
                           servo_manifest port_handlers address_map).
Proof.
  induction depth as [|d IH]; intros filepath mult; cbn.
  - apply only_out_of_fuel.
  - destruct (toml_load fs filepath) as [sd|];
      [|apply only_emit; reflexivity].
    apply only_bind; [apply only_emit; reflexivity|]. intros _.
    apply only_bind; [|intros; apply only_emit; reflexivity].
    apply only_for_each. intros [i step]. apply process_step_only; auto.
Qed.

(* ================================================================== *)
(** ** Connections along a trace *)

Lemma connections_app evs1 evs2 open :
  connections (evs1 ++ evs2) open = connections evs2 (connections evs1 open).
Proof.
  revert open. induction evs1 as [|e evs1 IH]; intros open; cbn; auto.
  destruct e as [p r|p b r|p|p q o|p q|s|m]; auto.
  destruct r as [[|]|]; auto.
Qed.

Lemma connections_motion evs open :
  Forall (fun e => is_motion_event e = true) evs ->
  connections evs open = open.
Proof.
  induction 1 as [|e evs He _ IH]; cbn; auto.
  destruct e; cbn in He; try discriminate; auto.
Qed.

Lemma read_or_message_is_motion e :
  is_read_or_message e = true -> is_motion_event e = true.
Proof. destruct e; cbn; auto. Qed.

Lemma connections_closes hs :
  forall open, incl open hs -> connections (map EvClosePort hs) open = [].
Proof.
  induction hs as [|p hs IH]; intros open Hincl; cbn.
  - destruct open as [|q open]; auto. destruct (Hincl q); left; auto.
  - apply IH. intros q Hq. unfold remove_port in Hq.
    apply filter_In in Hq. destruct Hq as (Hq & Hne).
    destruct (Hincl q Hq) as [<-|]; auto.
    rewrite String.eqb_refl in Hne. discriminate.
Qed.

Lemma close_all_spec hs t :
  close_all hs t = (Ret tt, t ++ map EvClosePort hs).
Proof.
  unfold close_all. revert t. induction hs as [|p hs IH]; intros t; cbn.
  - rewrite app_nil_r. reflexivity.
  - unfold bind, close_port, emit. rewrite IH, <- app_assoc. reflexivity.
Qed.

Lemma existsb_false_Forall {A} (f : A -> bool) l :
  existsb f l = false <-> Forall (fun x => f x = false) l.
Proof.
  induction l as [|a l IH]; cbn.
  - split; auto.
  - rewrite orb_false_iff, IH. split.
    + intros [? ?]; auto.
    + intros H; inversion H; auto.
Qed.

Lemma existsb_closes (f : Event -> bool) hs :
  (forall p, f (EvClosePort p) = false) ->
  existsb f (map EvClosePort hs) = false.
Proof.
  intros H. induction hs as [|p hs IH]; cbn; auto. rewrite H, IH. auto.
Qed.

(* ================================================================== *)
(** ** Open ports along a trace *)

Lemma open_ports_app evs1 evs2 open :
  open_ports (evs1 ++ evs2) open = open_ports evs2 (open_ports evs1 open).
Proof.
  revert open. induction evs1 as [|e evs1 IH]; intros open; cbn; auto.
  destruct e as [p r|p b r|p|p q o|p q|s|m]; auto.
  destruct r as [[|]|]; auto.
Qed.

Lemma open_ports_motion evs open :
  Forall (fun e => is_motion_event e = true) evs ->
  open_ports evs open = open.
Proof.
  induction 1 as [|e evs He _ IH]; cbn; auto.
  destruct e; cbn in He; try discriminate; auto.
Qed.

Lemma remove_port_In p q l : In q (remove_port p l) <-> In q l /\ q <> p.
Proof.
  unfold remove_port. rewrite filter_In, negb_true_iff, String.eqb_neq.
  reflexivity.
Qed.

(** Closing the handlers [hs] leaves open only ports that are not among
    them. *)
Lemma open_ports_closes hs :
  forall open q,
    In q (open_ports (map EvClosePort hs) open) -> In q open /\ ~ In q hs.
Proof.
  induction hs as [|p hs IH]; intros open q; cbn.
  - auto.
  - intros H. apply IH in H. destruct H as (H & Hn).
    apply remove_port_In in H. destruct H as (H & Hne).
    split; auto. intros [->|]; auto.
Qed.

Lemma link_speed_failed_app port evs1 evs2 :
  link_speed_failed port evs1 \/ link_speed_failed port evs2 ->
  link_speed_failed port (evs1 ++ evs2).
Proof.
  intros [(b & r & H & Hr)|(b & r & H & Hr)]; exists b, r; split; auto;
    apply in_or_app; auto.
Qed.

(** A trace without a failed attempt has no failed link speed. *)
Lemma no_failure_no_link_speed_failed port evs :
  existsb is_failed_acquisition evs = false -> ~ link_speed_failed port evs.
Proof.
  intros H (b & r & Hin & Hr).
  apply existsb_false_Forall in H. rewrite Forall_forall in H.
  specialize (H _ Hin). destruct r as [[|]|]; cbn in H; congruence.
Qed.

(* ================================================================== *)
(** ** Bus acquisition *)

Lemma handlers_add_length p hs :
  (List.length (handlers_add p hs) <= S (List.length hs))%nat.
Proof.
  unfold handlers_add. destruct (mem_string p hs); [lia|].
  rewrite length_app. cbn. lia.
Qed.

Lemma handlers_add_incl p hs : incl hs (handlers_add p hs).
Proof.
  unfold handlers_add. destruct (mem_string p hs); [apply incl_refl|].
  apply incl_appl, incl_refl.
Qed.

Lemma handlers_add_In p hs : In p (handlers_add p hs).
Proof.
  unfold handlers_add. destruct (mem_string p hs) eqn:E.
  - apply mem_string_In; auto.
  - apply in_or_app. right; left; auto.
Qed.

Lemma handlers_add_inv p q hs : In q (handlers_add p hs) -> q = p \/ In q hs.
Proof.
  unfold handlers_add. destruct (mem_string p hs); auto.
  intros H. apply in_app_or in H. destruct H as [H|[H|[]]]; auto.
Qed.

(** One bus: either both calls succeed and the handler is stored, or the
    attempt is recorded as failed and nothing is stored; in the second case
    the port stays open when it is the link speed that failed. *)
Lemma open_connection_cases drv hs p b t :
  open_connection drv hs (p, b) t
  = (Ret (handlers_add p hs),
     t ++ [EvOpenPort p (Some true); EvSetBaudRate p b (Some true)])
  \/ exists evs,
       open_connection drv hs (p, b) t = (Ret hs, t ++ evs)
       /\ existsb is_failed_acquisition evs = true
       /\ forallb is_acquisition_event evs = true
       /\ (forall open, connections evs open = open)
       /\ (forall open q, In q (open_ports evs open) ->
                          In q open \/ link_speed_failed q evs).
Proof.
  unfold open_connection, bind, drv_open, drv_set_baud, queue_put, emit, ret.
  destruct (openPort drv t p) as [[|]|] eqn:Eo.
  - destruct (setBaudRate drv (t ++ [EvOpenPort p (Some true)]) p b)
      as [[|]|] eqn:Eb.
    + left. rewrite <- app_assoc. reflexivity.
    + right. eexists [_; _; _]. repeat rewrite <- app_assoc. cbn.
      repeat split; auto.
      intros open q H. apply handlers_add_inv in H. destruct H as [->|H]; auto.
      right. exists b, (Some false). split; [right; left; auto|discriminate].
    + right. eexists [_; _; _]. repeat rewrite <- app_assoc. cbn.
      repeat split; auto.
      intros open q H. apply handlers_add_inv in H. destruct H as [->|H]; auto.
      right. exists b, None. split; [right; left; auto|discriminate].
  - right. eexists [_; _]. repeat rewrite <- app_assoc. cbn.
    repeat split; auto.
  - right. eexists [_; _]. repeat rewrite <- app_assoc. cbn.
    repeat split; auto.
Qed.

(** The acquisition loop always returns; the handlers it stores are the
    connections of its trace; it stores one handler per bus exactly when
    no attempt failed. *)
Lemma open_all_spec drv ports :
  forall acc t,
  exists hs evs,
    foldM (open_connection drv) ports acc t = (Ret hs, t ++ evs)
    /\ forallb is_acquisition_event evs = true
    /\ connections evs acc = hs
    /\ incl acc hs
    /\ (List.length hs <= List.length acc + List.length ports)%nat
    /\ (existsb is_failed_acquisition evs = true ->
        (List.length hs < List.length acc + List.length ports)%nat)
    /\ (List.length hs = (List.length acc + List.length ports)%nat ->
        forall p b, In (p, b) ports ->
          In (EvOpenPort p (Some true)) evs
          /\ In (EvSetBaudRate p b (Some true)) evs
          /\ In p hs)
    /\ (forall open q, In q (open_ports evs open) ->
          In q open \/ In q hs \/ link_speed_failed q evs).
Proof.
  induction ports as [|[p b] ports IH]; intros acc t; cbn [foldM].
  - exists acc, []. rewrite app_nil_r. cbn.
    split; [reflexivity|]. split; [reflexivity|]. split; [reflexivity|].
    split; [apply incl_refl|]. split; [lia|].
    split; [discriminate|]. split; [intros _ p b []|auto].
  - destruct (open_connection_cases drv acc p b t)
      as [E|(evs1 & E & F1 & T1 & C1 & O1)].
    + destruct (IH (handlers_add p acc)
                   (t ++ [EvOpenPort p (Some true);
                          EvSetBaudRate p b (Some true)]))
        as (hs & evs2 & E2 & T2 & C2 & I2 & L2 & F2 & A2 & O2).
      exists hs, ([EvOpenPort p (Some true); EvSetBaudRate p b (Some true)]
                  ++ evs2).
      rewrite (bind_Ret _ _ _ _ _ E), E2, <- app_assoc.
      pose proof (handlers_add_length p acc) as Hl.
      pose proof (handlers_add_incl p acc) as Hi.
      split; [reflexivity|]. split; [exact T2|]. split; [exact C2|].
      split; [eapply incl_tran; eauto|].
      cbn [List.length]. split; [lia|]. split.
      * intros Hf. cbn in Hf. specialize (F2 Hf). lia.
      * split.
        -- intros HL q c [[= <- <-]|Hin].
           ++ split; [left; auto|]. split; [right; left; auto|].
              apply I2, handlers_add_In.
           ++ assert (HL' : List.length hs
                            = (List.length (handlers_add p acc)
                               + List.length ports)%nat) by lia.
              destruct (A2 HL' q c Hin) as (A & B & C).
              split; [right; right; auto|].
              split; [right; right; auto|auto].
        -- intros open q H. cbn [app open_ports] in H.
           apply O2 in H. destruct H as [H|[H|H]]; auto.
           ++ apply handlers_add_inv in H. destruct H as [->|H]; auto.
              right; left. apply I2, handlers_add_In.
           ++ right; right.
              apply (link_speed_failed_app q [_; _] evs2). auto.
    + destruct (IH acc (t ++ evs1))
        as (hs & evs2 & E2 & T2 & C2 & I2 & L2 & F2 & A2 & O2).
      exists hs, (evs1 ++ evs2).
      rewrite (bind_Ret _ _ _ _ _ E), E2, <- app_assoc.
      split; [reflexivity|].
      split; [rewrite forallb_app, T1, T2; reflexivity|].
      split; [rewrite connections_app, C1; auto|].
      split; [auto|].
      cbn [List.length]. split; [lia|]. split; [lia|].
      split; [intros HL; exfalso; lia|].
      intros open q H. rewrite open_ports_app in H.
      apply O2 in H. destruct H as [H|[H|H]]; auto.
      * apply O1 in H. destruct H as [H|H]; auto.
        right; right. apply link_speed_failed_app; auto.
      * right; right. apply link_speed_failed_app; auto.
Qed.

(* ================================================================== *)
(** ** The safety gate *)

Lemma get_address_info_default motor_type address_map addr :
  get_address_info motor_type address_map = Ret addr ->
  forall motor_type', exists addr',
    get_address_info motor_type' address_map = Ret addr'.
Proof.
  unfold get_address_info.
  destruct (dict_get String.eqb "default" address_map); [|discriminate].
  intros _ mt. destruct (dict_get String.eqb (str mt) address_map); eauto.
Qed.

Lemma torque_requests_return address_map servos :
  (forall mt, exists addr, get_address_info mt address_map = Ret addr) ->
  forall t, exists reqs,
    mapM (torque_request address_map) servos t = (Ret reqs, t).
Proof.
  intros Hd. induction servos as [|servo rest IH]; intros t; cbn.
  - eexists; reflexivity.
  - destruct (Hd (motor_type servo)) as (addr & Ea).
    destruct (IH t) as (reqs & Er).
    eexists.
    erewrite bind_Ret; [|unfold torque_request, bind, lift; rewrite Ea;
                         reflexivity].
    erewrite bind_Ret; [|exact Er]. reflexivity.
Qed.

Lemma check_servos_returns res address_map servos :
  (forall mt, exists addr, get_address_info mt address_map = Ret addr) ->
  forall t, exists b t', check_servos res address_map servos t = (Ret b, t').
Proof.
  intros Hd. induction servos as [|servo rest IH]; intros t;
    cbn [check_servos].
  - eexists _, _; reflexivity.
  - destruct (Hd (motor_type servo)) as (addr & Ea).
    unfold bind at 1, lift. rewrite Ea.
    destruct (_ || _)%bool; [|apply IH].
    eexists _, _; reflexivity.
Qed.

Lemma check_servos_true res address_map servos :
  forall t t',
    check_servos res address_map servos t = (Ret true, t') ->
    forall servo addr,
      In servo servos ->
      get_address_info (motor_type servo) address_map = Ret addr ->
      isAvailable res (id servo) (torque_enable addr)
                  (len_torque_enable addr) = true
      /\ getData res (id servo) (torque_enable addr)
                 (len_torque_enable addr) = 1.
Proof.
  induction servos as [|s0 rest IH]; intros t t' H servo addr Hin Ea.
  - destruct Hin.
  - cbn [check_servos] in H.
    apply bind_inv_Ret in H. destruct H as (a0 & t1 & H1 & H).
    unfold lift in H1. injection H1 as H1 <-.
    destruct (_ || _)%bool eqn:Eb.
    + cbn in H. discriminate.
    + destruct Hin as [<-|Hin]; [|eapply IH; eauto].
      rewrite Ea in H1. injection H1 as <-.
      apply orb_false_iff in Eb. destruct Eb as (E1 & E2).
      apply negb_false_iff in E1, E2. apply Z.eqb_eq in E2. auto.
Qed.

(** An actuator of a handled bus that every read rejects makes the gate
    return False. *)
Lemma check_ports_rejects drv servo_manifest address_map servo addr :
  In servo (dict_values servo_manifest) ->
  get_address_info (motor_type servo) address_map = Ret addr ->
  (forall tr reqs,
     torque_rejected (txRxPacket drv tr (com_port servo) reqs) servo addr) ->
  forall ports t,
    In (com_port servo) ports ->
    exists t', check_ports drv servo_manifest address_map ports t
               = (Ret false, t').
Proof.
  intros Hs Ea Hrej.
  pose proof (get_address_info_default _ _ _ Ea) as Hd.
  induction ports as [|port rest IH]; intros t Hin; [destruct Hin|].
  cbn [check_ports].
  destruct (torque_requests_return address_map
              (servos_on_port servo_manifest port) Hd t) as (reqs & Er).
  rewrite (bind_Ret _ _ _ _ _ Er).
  unfold bind at 1, bulk_read.
  destruct (comm_success (txRxPacket drv t port reqs)) eqn:Ec; cbn [negb].
  2:{ eexists; reflexivity. }
  destruct (check_servos_returns (txRxPacket drv t port reqs) address_map
              (servos_on_port servo_manifest port) Hd
              (t ++ [EvBulkRead port reqs true])) as (b & t1 & Eb).
  rewrite (bind_Ret _ _ _ _ _ Eb).
  destruct b; [|eexists; reflexivity].
  destruct (String.eqb_spec (com_port servo) port) as [Ep|Np].
  - exfalso. subst port.
    destruct (check_servos_true _ _ _ _ _ Eb servo addr) as (Av & Dt); auto.
    { unfold servos_on_port. apply filter_In. split; auto.
      apply String.eqb_refl. }
    destruct (Hrej t reqs) as [R|[R|R]]; congruence.
  - apply IH. destruct Hin as [E|Hin]; auto. symmetry in E. contradiction.
Qed.

Lemma check_torque_status_rejects drv servo_manifest port_handlers
    address_map servo addr t :
  In servo (dict_values servo_manifest) ->
  In (com_port servo) port_handlers ->
  get_address_info (motor_type servo) address_map = Ret addr ->
  (forall tr reqs,
     torque_rejected (txRxPacket drv tr (com_port servo) reqs) servo addr) ->
  exists t', check_torque_status drv servo_manifest port_handlers
                                 address_map t = (Ret false, t').
Proof.
  intros Hs Hp Ea Hrej. unfold check_torque_status.
  unfold bind at 1, queue_put, emit.
  destruct (check_ports_rejects drv servo_manifest address_map servo addr
              Hs Ea Hrej port_handlers (t ++ [EvQueuePut MsgPreflight]) Hp)
    as (t' & E).
  rewrite (bind_Ret _ _ _ _ _ E). eexists; reflexivity.
Qed.

Lemma unique_ports_fold_keeps port l :
  forall acc : dict string Z,
    (exists b, In (port, b) acc) ->
    exists b, In (port, b)
                 (fold_left (fun d s => dict_set String.eqb (com_port s)
                                                 (baud_rate s) d) l acc).
Proof.
  induction l as [|s l IH]; intros acc Hacc; cbn; auto.
  apply IH. destruct Hacc as (b & Hb).
  destruct (String.eqb_spec (com_port s) port) as [E|N].
  - exists (baud_rate s). rewrite <- E.
    apply (dict_get_In _ Seqb_spec), dict_get_set_same, Seqb_spec.
  - exists b. clear IH.
    induction acc as [|[k v] acc IHa]; [destruct Hb|].
    cbn. destruct Hb as [[= -> ->]|Hb].
    + destruct (String.eqb_spec (com_port s) port);
        [contradiction|left; auto].
    + destruct (String.eqb (com_port s) k); right; auto.
Qed.

(** Every bus of a manifest actuator is a key of [unique_ports]. *)
Lemma unique_ports_of_complete servo_manifest servo :
  In servo (dict_values servo_manifest) ->
  exists b, In (com_port servo, b) (unique_ports_of servo_manifest).
Proof.
  unfold unique_ports_of.
  generalize (dict_values servo_manifest) as l.
  generalize (@nil (string * Z)) as acc. intros acc l. revert acc.
  induction l as [|s l IH]; intros acc Hin; [destruct Hin|].
  destruct Hin as [->|Hin]; cbn.
  - apply unique_ports_fold_keeps. exists (baud_rate servo).
    apply (dict_get_In _ Seqb_spec), dict_get_set_same, Seqb_spec.
  - apply IH; auto.
Qed.

(* ================================================================== *)
(** ** The top-level run *)

Lemma run_animation_eq depth polls drv fs filename items address_map t :
  manifest_file fs = Some items ->
  address_file fs = Some address_map ->
  run_animation depth polls drv fs filename t
  = bind (foldM (open_connection drv)
                (unique_ports_of (manifest_of items)) [])
         (after_acquisition depth polls drv fs filename (manifest_of items)
                            address_map) t.
Proof. intros Hm Ha. unfold run_animation. rewrite Hm, Ha. reflexivity. Qed.

Lemma run_animation_no_config depth polls drv fs filename t :
  manifest_file fs = None \/ address_file fs = None ->
  run_animation depth polls drv fs filename t
  = (Ret tt, t ++ [EvQueuePut MsgFatal]).
Proof.
  unfold run_animation. intros [H|H]; rewrite H.
  - destruct (manifest_file fs); reflexivity.
  - destruct (manifest_file fs); reflexivity.
Qed.

Lemma play_file_only depth polls drv fs filename servo_manifest
    port_handlers address_map :
  only (fun e => is_motion_event e = true)
       (play_file depth polls drv fs filename servo_manifest port_handlers
                  address_map).
Proof.
  unfold play_file.
  destruct (endswith (lower filename) ".toml");
    [apply process_sequence_only|].
  destruct (endswith (lower filename) ".json"); [|apply only_ret].
  apply only_try_except.
  - apply only_bind; [apply only_lift|]. intros.
    eapply only_weaken; [|apply move_and_wait_only]. intros e [H _]; auto.
  - intros; apply only_emit; reflexivity.
Qed.

Lemma close_all_only hs : only (fun e => is_close e = true) (close_all hs).
Proof.
  intros t. exists (map EvClosePort hs). rewrite close_all_spec. split; auto.
  apply Forall_forall. intros e He. apply in_map_iff in He.
  destruct He as (p & <- & _). reflexivity.
Qed.

(** After acquisition the run emits moves' events and port closings. *)
Lemma after_acquisition_only depth polls drv fs filename servo_manifest
    address_map port_handlers :
  only (fun e => is_motion_event e = true \/ is_close e = true)
       (after_acquisition depth polls drv fs filename servo_manifest
                          address_map port_handlers).
Proof.
  assert (Hc : only (fun e => is_motion_event e = true \/ is_close e = true)
                    (close_all port_handlers)).
  { eapply only_weaken; [|apply close_all_only]. auto. }
  unfold after_acquisition. destruct (negb _); auto.
  apply only_bind.
  { eapply only_weaken; [|apply check_torque_status_only].
    intros e He. left. apply read_or_message_is_motion; auto. }
  intros ok. destruct (negb ok).
  - apply only_bind; auto. intros; apply only_emit. left; reflexivity.
  - apply only_bind.
    { eapply only_weaken; [|apply play_file_only]. auto. }
    intros _. apply only_bind; auto.
    intros; apply only_emit. left; reflexivity.
Qed.

(** A failed gate: the handlers are closed, the abort is reported, the
    run returns. *)
Lemma after_acquisition_gate_false depth polls drv fs filename
    servo_manifest address_map port_handlers t0 t1 :
  List.length port_handlers
  = List.length (unique_ports_of servo_manifest) ->
  check_torque_status drv servo_manifest port_handlers address_map t0
  = (Ret false, t1) ->
  after_acquisition depth polls drv fs filename servo_manifest address_map
                    port_handlers t0
  = (Ret tt, t1 ++ map EvClosePort port_handlers ++ [EvQueuePut MsgAborted]).
Proof.
  intros HL Hg. unfold after_acquisition.
  rewrite HL, Nat.eqb_refl. cbn [negb].
  rewrite (bind_Ret _ _ _ _ _ Hg). cbn [negb].
  unfold bind. rewrite close_all_spec. unfold queue_put, emit.
  rewrite <- app_assoc. reflexivity.
Qed.

(** Whenever the rest of the run returns, its events are those of the gate
    and of the moves, the closing of every handler it was given, and a last
    message at most. *)
Lemma after_acquisition_shape depth polls drv fs filename servo_manifest
    address_map port_handlers t0 t' :
  after_acquisition depth polls drv fs filename servo_manifest address_map
                    port_handlers t0 = (Ret tt, t') ->
  exists evs_m tail,
    t' = t0 ++ evs_m ++ map EvClosePort port_handlers ++ tail
    /\ Forall (fun e => is_motion_event e = true) evs_m
    /\ Forall (fun e => is_motion_event e = true) tail.
Proof.
  unfold after_acquisition. destruct (negb _).
  - rewrite close_all_spec. intros [= <-]. exists [], [].
    cbn. rewrite app_nil_r. auto.
  - intros H. apply bind_inv_Ret in H. destruct H as (ok & t1 & Hg & H).
    destruct (check_torque_status_only drv servo_manifest port_handlers
                address_map t0) as (evs_g & Eg & Fg).
    rewrite Hg in Eg. cbn in Eg. subst t1.
    assert (Mg : Forall (fun e => is_motion_event e = true) evs_g).
    { eapply Forall_impl; [|exact Fg]. apply read_or_message_is_motion. }
    destruct ok; cbn [negb] in H.
    + apply bind_inv_Ret in H. destruct H as ([] & t2 & Hp & H).
      destruct (play_file_only depth polls drv fs filename servo_manifest
                  port_handlers address_map (t0 ++ evs_g))
        as (evs_b & Eb & Fb).
      rewrite Hp in Eb. cbn in Eb. subst t2.
      unfold bind in H. rewrite close_all_spec in H.
      unfold queue_put, emit in H. injection H as <-.
      exists (evs_g ++ evs_b), [EvQueuePut (MsgFinished filename)].
      split; [repeat rewrite <- app_assoc; reflexivity|].
      split; [apply Forall_app; auto|auto].
    + unfold bind in H. rewrite close_all_spec in H.
      unfold queue_put, emit in H. injection H as <-.
      exists evs_g, [EvQueuePut MsgAborted].
      split; [repeat rewrite <- app_assoc; reflexivity|auto].
Qed.

(** Moves, then the closing of [hs], then messages: no connection among
    [hs] is left. *)
Lemma connections_closed hs evs_m tail open :
  Forall (fun e => is_motion_event e = true) evs_m ->
  Forall (fun e => is_motion_event e = true) tail ->
  incl open hs ->
  connections (evs_m ++ map EvClosePort hs ++ tail) open = [].
Proof.
  intros Hm Ht Hi. rewrite !connections_app, (connections_motion evs_m); auto.
  rewrite connections_closes; auto. apply connections_motion; auto.
Qed.

(** Acquisition, moves, the closing of the stored handlers, messages: a
    port still open is one whose link speed could not be set. *)
Lemma left_open_failed hs evs_o evs_m tail :
  (forall open q, In q (open_ports evs_o open) ->
                  In q open \/ In q hs \/ link_speed_failed q evs_o) ->
  Forall (fun e => is_motion_event e = true) evs_m ->
  Forall (fun e => is_motion_event e = true) tail ->
  forall q,
    In q (open_ports (evs_o ++ evs_m ++ map EvClosePort hs ++ tail) []) ->
    link_speed_failed q evs_o.
Proof.
  intros OP Hm Ht q H.
  rewrite !open_ports_app, (open_ports_motion tail), (open_ports_motion evs_m)
    in H; auto.
  apply open_ports_closes in H. destruct H as (H & Hn).
  apply OP in H. destruct H as [[]|[H|H]]; auto. contradiction.
Qed.

Lemma no_member_nil {A} (l : list A) : (forall x, ~ In x l) -> l = [].
Proof. destruct l as [|a l]; auto. intros H. destruct (H a). left; auto. Qed.

Lemma acquisition_no_transaction evs :
  forallb is_acquisition_event evs = true ->
  existsb is_transaction evs = false
  /\ existsb is_write evs = false
  /\ ~ In (EvQueuePut MsgPreflight) evs.
Proof.
  induction evs as [|e evs IH]; cbn.
  - auto.
  - intros H. apply andb_true_iff in H. destruct H as (He & H).
    destruct (IH H) as (A & B & C). rewrite A, B.
    destruct e as [| | | | | |m]; cbn in He; try discriminate;
      repeat split; auto; try (intros [?|?]; [discriminate|auto]).
    destruct m; try discriminate. intros [?|?]; [discriminate|auto].
Qed.

Lemma no_failure_after_acquisition evs :
  Forall (fun e => is_motion_event e = true \/ is_close e = true) evs ->
  existsb is_failed_acquisition evs = false.
Proof.
  induction 1 as [|e evs He _ IH]; cbn; auto.
  rewrite IH. destruct e; cbn in He; destruct He; try discriminate; auto.
Qed.

(** C5. Bus acquisition is all-or-nothing.  A connection is a port that
    was opened and set to its link speed, which is what the run stores as
    a handler; a bus whose link speed is refused is a connection that
    failed to open.  Whenever a run records a failed attempt to open a bus
    or to set its link speed, it returns without any transaction, without
    starting the safety check, and with every connection it opened closed:
    no connection is left, and a port still open is one whose link speed
    could not be set, which never was a connection.  And whenever a run
    starts the safety check or issues a transaction, every distinct bus of
    the manifest was opened and had its link speed set. *)
Theorem bus_acquisition_all_or_nothing depth polls drv fs filename t out t' :
  run_animation depth polls drv fs filename t = (out, t') ->
  exists evs,
    t' = t ++ evs /\
    (existsb is_failed_acquisition evs = true ->
       out = Ret tt
       /\ existsb is_transaction evs = false
       /\ ~ In (EvQueuePut MsgPreflight) evs
       /\ connections evs [] = []
       /\ forall port, In port (open_ports evs []) ->
                       link_speed_failed port evs) /\
    (existsb is_transaction evs = true \/ In (EvQueuePut MsgPreflight) evs ->
       forall items, manifest_file fs = Some items ->
       forall port baud,
         In (port, baud) (unique_ports_of (manifest_of items)) ->
         In (EvOpenPort port (Some true)) evs
         /\ In (EvSetBaudRate port baud (Some true)) evs).
Proof.
  intros Hrun.
  destruct (manifest_file fs) as [items|] eqn:Hm;
    [destruct (address_file fs) as [address_map|] eqn:Ha|].
  2:{ rewrite run_animation_no_config in Hrun by auto.
      injection Hrun as <- <-. eexists; split; [reflexivity|]. cbn.
      split; [discriminate|]. intros [?|[?|[]]]; discriminate. }
  2:{ rewrite run_animation_no_config in Hrun by auto.
      injection Hrun as <- <-. eexists; split; [reflexivity|]. cbn.
      split; [discriminate|]. intros [?|[?|[]]]; discriminate. }
  rewrite (run_animation_eq _ _ _ _ _ _ _ _ Hm Ha) in Hrun.
  destruct (open_all_spec drv (unique_ports_of (manifest_of items)) [] t)
    as (hs & evs_o & Eo & Fo & Co & _ & Lo & Fail & All & OP).
  rewrite (bind_Ret _ _ _ _ _ Eo) in Hrun.
  destruct (acquisition_no_transaction _ Fo) as (To & _ & Po).
  cbn [List.length Nat.add] in *.
  destruct (Nat.eqb_spec (List.length hs)
              (List.length (unique_ports_of (manifest_of items))))
    as [HL|HL].
  - (* every bus acquired *)
    destruct (after_acquisition_only depth polls drv fs filename
                (manifest_of items) address_map hs (t ++ evs_o))
      as (evs_r & Er & Fr).
    rewrite Hrun in Er. cbn in Er. subst t'.
    exists (evs_o ++ evs_r). split; [rewrite app_assoc; reflexivity|].
    assert (Nf : existsb is_failed_acquisition (evs_o ++ evs_r) = false).
    { rewrite existsb_app, (no_failure_after_acquisition _ Fr).
      destruct (existsb is_failed_acquisition evs_o) eqn:E; auto.
      specialize (Fail eq_refl). lia. }
    split; [rewrite Nf; discriminate|].
    intros _ items' [= <-] port baud Hin.
    destruct (All HL port baud Hin) as (A & B & _).
    split; apply in_or_app; left; auto.
  - (* some bus missing *)
    unfold after_acquisition in Hrun.
    apply Nat.eqb_neq in HL. rewrite HL in Hrun. cbn [negb] in Hrun.
    rewrite close_all_spec in Hrun. injection Hrun as <- <-.
    exists (evs_o ++ map EvClosePort hs).
    split; [rewrite app_assoc; reflexivity|].
    assert (Tc : existsb is_transaction (evs_o ++ map EvClosePort hs)
                 = false).
    { rewrite existsb_app, To, existsb_closes; auto. }
    assert (Pc : ~ In (EvQueuePut MsgPreflight)
                      (evs_o ++ map EvClosePort hs)).
    { intros Hin. apply in_app_or in Hin. destruct Hin as [Hin|Hin]; auto.
      apply in_map_iff in Hin. destruct Hin as (? & ? & _). discriminate. }
    split.
    + intros _. split; [reflexivity|]. split; [exact Tc|].
      split; [exact Pc|]. split.
      * rewrite connections_app, Co. apply connections_closes, incl_refl.
      * intros port Hp. apply link_speed_failed_app. left.
        apply (left_open_failed hs evs_o [] [] OP); auto.
        cbn [app]. rewrite app_nil_r. exact Hp.
    + intros [H|H]; [congruence|contradiction].
Qed.

(** Two buses: [COM1] is acquired, the link speed of [COM2] cannot be set.
    The run closes [COM1] and returns; [COM2] is the port it leaves
    open. *)
Lemma bus_acquisition_all_or_nothing_witness :
  exists evs,
    [EvOpenPort "COM1" (Some true); EvSetBaudRate "COM1" 57600 (Some true);
     EvOpenPort "COM2" (Some true); EvSetBaudRate "COM2" 123456 (Some false);
     EvQueuePut (MsgOpenFailed "COM2"); EvClosePort "COM1"] = [] ++ evs /\
    (existsb is_failed_acquisition evs = true ->
       Ret tt = Ret tt
       /\ existsb is_transaction evs = false
       /\ ~ In (EvQueuePut MsgPreflight) evs
       /\ connections evs [] = []
       /\ forall port, In port (open_ports evs []) ->
                       link_speed_failed port evs) /\
    (existsb is_transaction evs = true \/ In (EvQueuePut MsgPreflight) evs ->
       forall items, manifest_file two_bus_fs = Some items ->
       forall port baud,
         In (port, baud) (unique_ports_of (manifest_of items)) ->
         In (EvOpenPort port (Some true)) evs
         /\ In (EvSetBaudRate port baud (Some true)) evs).
Proof.
  apply (bus_acquisition_all_or_nothing 3 3 picky_driver two_bus_fs
           "pose.json" []).
  vm_compute. reflexivity.
Defined.

(** The same run, port by port: the port of [COM2] opens, its link speed
    is refused, so that it never becomes a connection; the run closes the
    connection of [COM1] and returns, and issues no [closePort] for
    [COM2]. *)
Lemma failed_link_speed_leaves_port_open :
  run_animation 3 3 picky_driver two_bus_fs "pose.json" []
  = (Ret tt,
     [EvOpenPort "COM1" (Some true); EvSetBaudRate "COM1" 57600 (Some true);
      EvOpenPort "COM2" (Some true); EvSetBaudRate "COM2" 123456 (Some false);
      EvQueuePut (MsgOpenFailed "COM2"); EvClosePort "COM1"])
  /\ open_ports (snd (run_animation 3 3 picky_driver two_bus_fs "pose.json"
                                    [])) [] = ["COM2"]
  /\ ~ In (EvClosePort "COM2")
          (snd (run_animation 3 3 picky_driver two_bus_fs "pose.json" [])).
Proof.
  vm_compute. split; [reflexivity|]. split; [reflexivity|].
  intros H. repeat (destruct H as [H|H]; [discriminate|]). exact H.
Qed.

Lemma no_write_in_gate evs :
  Forall (fun e => is_read_or_message e = true) evs ->
  existsb is_write evs = false.
Proof.
  induction 1 as [|e evs He _ IH]; cbn; auto.
  rewrite IH. destruct e; cbn in He; try discriminate; auto.
Qed.

(** Once the gate has returned False, the run consists of what came
    before, the closing of every handler and the abort message. *)
Lemma run_animation_gate_false depth polls drv fs filename items address_map
    t port_handlers t0 t1 :
  manifest_file fs = Some items ->
  address_file fs = Some address_map ->
  foldM (open_connection drv) (unique_ports_of (manifest_of items)) [] t
  = (Ret port_handlers, t0) ->
  List.length port_handlers
  = List.length (unique_ports_of (manifest_of items)) ->
  check_torque_status drv (manifest_of items) port_handlers address_map t0
  = (Ret false, t1) ->
  exists evs,
    run_animation depth polls drv fs filename t = (Ret tt, t ++ evs)
    /\ t ++ evs
       = t1 ++ map EvClosePort port_handlers ++ [EvQueuePut MsgAborted]
    /\ existsb is_write evs = false
    /\ connections evs [] = []
    /\ open_ports evs [] = [].
Proof.
  intros Hm Ha Ho HL Hg.
  rewrite (run_animation_eq _ _ _ _ _ _ _ _ Hm Ha).
  rewrite (bind_Ret _ _ _ _ _ Ho).
  rewrite (after_acquisition_gate_false _ _ _ _ _ _ _ _ _ _ HL Hg).
  destruct (open_all_spec drv (unique_ports_of (manifest_of items)) [] t)
    as (hs & evs_o & Eo & Fo & Co & _ & _ & Fail & _ & OP).
  rewrite Ho in Eo. injection Eo as -> ->.
  destruct (check_torque_status_only drv (manifest_of items) hs address_map
              (t ++ evs_o)) as (evs_g & Eg & Fg).
  rewrite Hg in Eg. cbn in Eg. subst t1.
  assert (Mg : Forall (fun e => is_motion_event e = true) evs_g).
  { eapply Forall_impl; [|exact Fg]. apply read_or_message_is_motion. }
  exists (evs_o ++ evs_g ++ map EvClosePort hs ++ [EvQueuePut MsgAborted]).
  repeat rewrite <- app_assoc. split; [reflexivity|]. split; [reflexivity|].
  destruct (acquisition_no_transaction _ Fo) as (_ & Wo & _).
  split; [|split].
  - rewrite !existsb_app, Wo, (no_write_in_gate _ Fg), existsb_closes; auto.
  - rewrite connections_app, Co.
    apply connections_closed; auto. apply incl_refl.
  - apply no_member_nil. intros q Hq.
    apply (left_open_failed hs evs_o evs_g _ OP) in Hq; auto.
    revert Hq. apply no_failure_no_link_speed_failed.
    destruct (existsb is_failed_acquisition evs_o); auto.
    specialize (Fail eq_refl). cbn [List.length Nat.add] in Fail. lia.
Qed.

(** C4. A failed safety gate is a hard stop.  (1) When the gate returns
    False after a complete acquisition, the run only closes every handler
    and reports the abort: it issues no write at all, leaves no connection
    and no port open.  (2) A manifest actuator whose motion-enable register
    every grouped read reports as unreadable or different from 1 makes the
    run return with no write and no connection left. *)
Theorem failed_gate_stops_run depth polls drv fs filename items address_map
    t :
  manifest_file fs = Some items ->
  address_file fs = Some address_map ->
  (forall port_handlers t0 t1,
     foldM (open_connection drv) (unique_ports_of (manifest_of items)) [] t
     = (Ret port_handlers, t0) ->
     List.length port_handlers
     = List.length (unique_ports_of (manifest_of items)) ->
     check_torque_status drv (manifest_of items) port_handlers address_map
                         t0 = (Ret false, t1) ->
     exists evs,
       run_animation depth polls drv fs filename t = (Ret tt, t ++ evs)
       /\ t ++ evs
          = t1 ++ map EvClosePort port_handlers ++ [EvQueuePut MsgAborted]
       /\ existsb is_write evs = false
       /\ connections evs [] = []
       /\ open_ports evs [] = []) /\
  (forall servo addr,
     In servo (dict_values (manifest_of items)) ->
     get_address_info (motor_type servo) address_map = Ret addr ->
     (forall tr reqs,
        torque_rejected (txRxPacket drv tr (com_port servo) reqs)
                        servo addr) ->
     exists evs,
       run_animation depth polls drv fs filename t = (Ret tt, t ++ evs)
       /\ existsb is_write evs = false
       /\ connections evs [] = []).
Proof.
  intros Hm Ha. split.
  { intros. eapply run_animation_gate_false; eauto. }
  intros servo addr Hs Hi Hrej.
  destruct (open_all_spec drv (unique_ports_of (manifest_of items)) [] t)
    as (hs & evs_o & Eo & Fo & Co & _ & _ & _ & All & _).
  cbn [List.length Nat.add] in All.
  destruct (Nat.eqb_spec (List.length hs)
              (List.length (unique_ports_of (manifest_of items))))
    as [HL|HL].
  - destruct (unique_ports_of_complete _ _ Hs) as (b & Hb).
    destruct (All HL _ _ Hb) as (_ & _ & Hp).
    destruct (check_torque_status_rejects drv (manifest_of items) hs
                address_map servo addr (t ++ evs_o) Hs Hp Hi Hrej)
      as (t1 & Hg).
    destruct (run_animation_gate_false depth polls drv fs filename items
                address_map t hs (t ++ evs_o) t1 Hm Ha Eo HL Hg)
      as (evs & E & _ & W & C & _).
    exists evs. auto.
  - rewrite (run_animation_eq _ _ _ _ _ _ _ _ Hm Ha).
    rewrite (bind_Ret _ _ _ _ _ Eo).
    unfold after_acquisition. apply Nat.eqb_neq in HL. rewrite HL.
    cbn [negb]. rewrite close_all_spec.
    exists (evs_o ++ map EvClosePort hs).
    rewrite app_assoc. split; [reflexivity|].
    destruct (acquisition_no_transaction _ Fo) as (_ & Wo & _).
    split.
    + rewrite existsb_app, Wo, existsb_closes; auto.
    + rewrite connections_app, Co. apply connections_closes, incl_refl.
Qed.

Lemma failed_gate_stops_run_witness :
  exists evs,
    run_animation 3 3 limp_driver demo_fs "pose.json" [] = (Ret tt, [] ++ evs)
    /\ existsb is_write evs = false
    /\ connections evs [] = [].
Proof.
  refine (proj2 (failed_gate_stops_run 3 3 limp_driver demo_fs "pose.json"
                   demo_items demo_address_map [] _ _)
                (demo_servo 2 "COM1") demo_addr _ _ _).
  - reflexivity.
  - reflexivity.
  - vm_compute. right. left. reflexivity.
  - vm_compute. reflexivity.
  - intros tr reqs. right. right. vm_compute. discriminate.
Defined.

(** C3 (amended). Every run that returns has closed every connection it
    established (port opened and link speed set): after normal completion,
    after the abort on a failed bus acquisition or on a failed safety
    check, and after an error caught inside the leaf or pose [try] block.
    The only ports such a run leaves open are those whose link speed could
    not be set.  Nothing is promised for a run that ends in an
    exception. *)
Theorem returned_run_closes_connections depth polls drv fs filename t t' :
  run_animation depth polls drv fs filename t = (Ret tt, t') ->
  exists evs,
    t' = t ++ evs
    /\ connections evs [] = []
    /\ forall port, In port (open_ports evs []) -> link_speed_failed port evs.
Proof.
  intros Hrun.
  destruct (manifest_file fs) as [items|] eqn:Hm;
    [destruct (address_file fs) as [address_map|] eqn:Ha|].
  2:{ rewrite run_animation_no_config in Hrun by auto.
      injection Hrun as <-. eexists; split; [reflexivity|].
      split; [reflexivity|intros port []]. }
  2:{ rewrite run_animation_no_config in Hrun by auto.
      injection Hrun as <-. eexists; split; [reflexivity|].
      split; [reflexivity|intros port []]. }
  rewrite (run_animation_eq _ _ _ _ _ _ _ _ Hm Ha) in Hrun.
  destruct (open_all_spec drv (unique_ports_of (manifest_of items)) [] t)
    as (hs & evs_o & Eo & Fo & Co & _ & _ & _ & _ & OP).
  rewrite (bind_Ret _ _ _ _ _ Eo) in Hrun.
  apply after_acquisition_shape in Hrun.
  destruct Hrun as (evs_m & tail & -> & Hm' & Ht).
  exists (evs_o ++ evs_m ++ map EvClosePort hs ++ tail).
  split; [rewrite <- app_assoc; reflexivity|]. split.
  - rewrite connections_app, Co. apply connections_closed; auto.
    apply incl_refl.
  - intros port Hp. apply link_speed_failed_app. left.
    exact (left_open_failed hs evs_o evs_m tail OP Hm' Ht port Hp).
Qed.

(** The run of [rehearsal.toml], whose goal file is missing: the error is
    caught in the leaf, the run returns and the bus is closed. *)
Lemma returned_run_closes_connections_witness :
  exists evs,
    [EvOpenPort "COM1" (Some true); EvSetBaudRate "COM1" 57600 (Some true);
     EvQueuePut MsgPreflight;
     EvBulkRead "COM1"
       [{| rq_id := 1; rq_addr := 64; rq_len := 1 |};
        {| rq_id := 2; rq_addr := 64; rq_len := 1 |};
        {| rq_id := 3; rq_addr := 64; rq_len := 1 |}] true;
     EvQueuePut MsgTorqueOk;
     EvQueuePut (MsgProcessing "animation/rehearsal.toml" PyFloat.one);
     EvQueuePut (MsgStep 1 1 (TStr "missing.json"));
     EvQueuePut (MsgJsonError "position/missing.json");
     EvQueuePut (MsgSequenceComplete "animation/rehearsal.toml");
     EvClosePort "COM1";
     EvQueuePut (MsgFinished "rehearsal.toml")] = [] ++ evs
    /\ connections evs [] = []
    /\ forall port, In port (open_ports evs []) -> link_speed_failed port evs.
Proof.
  apply (returned_run_closes_connections 3 3 demo_driver demo_fs
           "rehearsal.toml" []).
  vm_compute. reflexivity.
Defined.

(** C3 (as stated) fails twice.  In the run of [broken.toml] the nested
    step's speed is a string, the division raises TypeError outside any
    [try], the exception leaves [run_animation], and the bus it opened is
    still connected.  And in the abort after a failed acquisition, the port
    whose link speed was refused has been opened and is not closed. *)
Lemma exception_leaves_connection_open :
  (fst (run_animation 3 3 demo_driver demo_fs "broken.toml" [])
   = Raise TypeError
   /\ connections (snd (run_animation 3 3 demo_driver demo_fs "broken.toml"
                                      [])) [] = ["COM1"]
   /\ existsb is_close (snd (run_animation 3 3 demo_driver demo_fs
                                           "broken.toml" [])) = false)
  /\ (fst (run_animation 3 3 picky_driver two_bus_fs "broken.toml" [])
      = Ret tt
      /\ open_ports (snd (run_animation 3 3 picky_driver two_bus_fs
                                        "broken.toml" [])) [] = ["COM2"]).
Proof. vm_compute. repeat split. Qed.
(* ================================================================== *)
(** ** The executor at its call sites *)

Lemma mapM_returns_In {A B} (f : A -> M B) l :
  forall t r t',
    mapM f l t = (Ret r, t') ->
    forall a, In a l -> exists t0 b t1, f a t0 = (Ret b, t1).
Proof.
  induction l as [|x l IH]; intros t r t' H a Hin; [destruct Hin|].
  cbn [mapM] in H.
  apply bind_inv_Ret in H. destruct H as (b & t1 & Hf & H).
  apply bind_inv_Ret in H. destruct H as (bs & t2 & Hm & _).
  destruct Hin as [<-|Hin]; eauto.
Qed.

Lemma torque_request_returns address_map servo t req t' :
  torque_request address_map servo t = (Ret req, t') ->
  has_default address_map.
Proof.
  unfold torque_request, bind, lift, get_address_info, has_default, dict_mem.
  destruct (dict_get String.eqb "default" address_map); auto.
  discriminate.
Qed.

(** A gate that returned True has resolved the registers of every actuator
    on the buses it was given: the address map has its default block. *)
Lemma check_ports_true_has_default drv servo_manifest address_map servo :
  In servo (dict_values servo_manifest) ->
  forall ports t t',
    In (com_port servo) ports ->
    check_ports drv servo_manifest address_map ports t = (Ret true, t') ->
    has_default address_map.
Proof.
  intros Hs. induction ports as [|port rest IH]; intros t t' Hin H;
    [destruct Hin|].
  cbn [check_ports] in H.
  apply bind_inv_Ret in H. destruct H as (reqs & t1 & Hr & H).
  destruct (String.eqb_spec (com_port servo) port) as [Ep|Np].
  - destruct (mapM_returns_In _ _ _ _ _ Hr servo) as (t0 & b & t2 & Hb).
    { unfold servos_on_port. apply filter_In. split; auto.
      rewrite Ep. apply String.eqb_refl. }
    eapply torque_request_returns; eauto.
  - apply bind_inv_Ret in H. destruct H as (res & t2 & _ & H).
    destruct (negb (comm_success res)); [discriminate|].
    apply bind_inv_Ret in H. destruct H as (ok & t3 & _ & H).
    destruct ok; [|discriminate].
    eapply IH; eauto. destruct Hin as [E|Hin]; auto.
    symmetry in E. contradiction.
Qed.

Lemma check_torque_status_true_has_default drv servo_manifest port_handlers
    address_map servo t t' :
  In servo (dict_values servo_manifest) ->
  In (com_port servo) port_handlers ->
  check_torque_status drv servo_manifest port_handlers address_map t
  = (Ret true, t') ->
  has_default address_map.
Proof.
  intros Hs Hp H. unfold check_torque_status in H.
  apply bind_inv_Ret in H. destruct H as ([] & t1 & _ & H).
  apply bind_inv_Ret in H. destruct H as (ok & t2 & Hc & H).
  destruct ok; [|discriminate].
  eapply check_ports_true_has_default; eauto.
Qed.

Lemma dict_get_nil_manifest (dxl_id : Z) :
  dict_get Z.eqb dxl_id (@nil (Z * Servo)) = None.
Proof. reflexivity. Qed.

(** With an address map that resolves and a base velocity that converts
    to a double, the executor returns True on every goal set, manifest,
    set of handlers, driver and history. *)
Lemma executor_returns drv servo_goals base_velocity servo_manifest
    port_handlers address_map t :
  has_default address_map ->
  (exists f, PyFloat.float_of_int base_velocity = Ret f) ->
  exists evs,
    execute_sync_move drv servo_goals base_velocity servo_manifest
                      port_handlers address_map t = (Ret true, t ++ evs)
    /\ ((forall tr p reqs,
           comm_success (txRxPacket drv tr p reqs) = false) ->
        existsb is_write evs = false).
Proof.
  intros Hd (f & Hf).
  destruct (sync_move_ports_return drv base_velocity servo_manifest
              port_handlers address_map f
              (moves_by_port_of servo_manifest servo_goals) Hd Hf
              (moves_by_port_of_known servo_manifest servo_goals) t)
    as (evs & E & W).
  exists evs. unfold execute_sync_move, bind. rewrite E. auto.
Qed.

(** The handlers of a complete acquisition cover the manifest. *)
Lemma complete_acquisition_covers drv servo_manifest port_handlers t0 t1 :
  foldM (open_connection drv) (unique_ports_of servo_manifest) [] t0
  = (Ret port_handlers, t1) ->
  List.length port_handlers = List.length (unique_ports_of servo_manifest) ->
  forall servo, In servo (dict_values servo_manifest) ->
                In (com_port servo) port_handlers.
Proof.
  intros Ho HL servo Hs.
  destruct (open_all_spec drv (unique_ports_of servo_manifest) [] t0)
    as (hs & evs & E & _ & _ & _ & _ & _ & All & _).
  rewrite Ho in E. injection E as <- _.
  destruct (unique_ports_of_complete servo_manifest servo Hs) as (b & Hb).
  apply (All HL _ _ Hb).
Qed.

(** In a run whose acquisition was complete and whose gate returned True,
    the executor returns True whatever it is asked, at the default base
    velocity and at any velocity computed by a leaf. *)
Lemma executor_returns_after_gate drv servo_manifest port_handlers
    address_map t0 t1 t2 :
  foldM (open_connection drv) (unique_ports_of servo_manifest) [] t0
  = (Ret port_handlers, t1) ->
  List.length port_handlers = List.length (unique_ports_of servo_manifest) ->
  check_torque_status drv servo_manifest port_handlers address_map t1
  = (Ret true, t2) ->
  forall servo_goals base_velocity t,
    (base_velocity = DEFAULT_BASE_VELOCITY
     \/ exists step_velocity speed_multiplier,
          final_velocity_of step_velocity speed_multiplier
          = Ret base_velocity) ->
    exists evs,
      execute_sync_move drv servo_goals base_velocity servo_manifest
                        port_handlers address_map t = (Ret true, t ++ evs).
Proof.
  intros Ho HL Hg servo_goals base_velocity t Hv.
  destruct servo_manifest as [|[i servo] rest] eqn:Em.
  - exists []. rewrite app_nil_r. unfold execute_sync_move.
    rewrite moves_by_port_of_unknown; [reflexivity|].
    intros; apply dict_get_nil_manifest.
  - rewrite <- Em in *.
    assert (Hs : In servo (dict_values servo_manifest)).
    { rewrite Em. left; reflexivity. }
    destruct (executor_returns drv servo_goals base_velocity servo_manifest
                port_handlers address_map t) as (evs & E & _).
    + eapply check_torque_status_true_has_default; eauto.
      eapply complete_acquisition_covers; eauto.
    + destruct Hv as [->|(sv & mult & Hv)].
      * eexists. vm_compute. reflexivity.
      * eapply final_velocity_converts; eauto.
    + eauto.
Qed.

(** C10 (amended). The executor never returns False: whenever it returns,
    it returns True.  It returns True at once on an empty goal set and on
    a goal set whose ids are all unknown to the manifest; and with an
    address map that has its default block and a base velocity that
    converts to a double it returns True on every goal set, manifest, set
    of handlers and driver, without any write when every read transaction
    fails.  In a run of [run_animation] whose acquisition was complete and
    whose safety gate returned True, both conditions hold: every call of
    the executor returns True, and a pose file that loads is followed by
    the poller. *)
Theorem execute_sync_move_returns_True drv servo_goals base_velocity
    servo_manifest port_handlers address_map t :
  (forall b t',
     execute_sync_move drv servo_goals base_velocity servo_manifest
                       port_handlers address_map t = (Ret b, t') ->
     b = true) /\
  (has_default address_map ->
   (exists f, PyFloat.float_of_int base_velocity = Ret f) ->
   exists evs,
     execute_sync_move drv servo_goals base_velocity servo_manifest
                       port_handlers address_map t = (Ret true, t ++ evs)
     /\ ((forall tr p reqs,
            comm_success (txRxPacket drv tr p reqs) = false) ->
         existsb is_write evs = false)) /\
  (servo_goals = [] ->
   execute_sync_move drv servo_goals base_velocity servo_manifest
                     port_handlers address_map t = (Ret true, t)) /\
  ((forall dxl_id, In dxl_id (dict_keys servo_goals) ->
                   dict_get Z.eqb dxl_id servo_manifest = None) ->
   execute_sync_move drv servo_goals base_velocity servo_manifest
                     port_handlers address_map t = (Ret true, t)) /\
  (forall depth polls fs filename items t0 t1 t2,
     manifest_file fs = Some items ->
     address_file fs = Some address_map ->
     servo_manifest = manifest_of items ->
     foldM (open_connection drv) (unique_ports_of servo_manifest) [] t0
     = (Ret port_handlers, t1) ->
     List.length port_handlers
     = List.length (unique_ports_of servo_manifest) ->
     check_torque_status drv servo_manifest port_handlers address_map t1
     = (Ret true, t2) ->
     ((base_velocity = DEFAULT_BASE_VELOCITY
       \/ exists step_velocity speed_multiplier,
            final_velocity_of step_velocity speed_multiplier
            = Ret base_velocity) ->
      exists evs,
        execute_sync_move drv servo_goals base_velocity servo_manifest
                          port_handlers address_map t
        = (Ret true, t ++ evs)) /\
     (endswith (lower filename) ".toml" = false ->
      endswith (lower filename) ".json" = true ->
      load_goals fs (path_join "position" filename) = Ret servo_goals ->
      exists evs_m,
        execute_sync_move drv servo_goals DEFAULT_BASE_VELOCITY
                          servo_manifest port_handlers address_map t2
        = (Ret true, t2 ++ evs_m)
        /\ run_animation depth polls drv fs filename t0
           = (try_except
                (wait_for_move_completion polls drv servo_goals
                                          servo_manifest port_handlers
                                          address_map)
                (fun _ => queue_put MsgPoseError) ;;;
              close_all port_handlers ;;;
              queue_put (MsgFinished filename)) (t2 ++ evs_m))).
Proof.
  split; [|split; [apply executor_returns|split; [|split]]].
  - intros b t' H. unfold execute_sync_move in H.
    apply bind_inv_Ret in H. destruct H as (_ & t1 & _ & H).
    injection H as <- _. reflexivity.
  - intros ->. reflexivity.
  - intros H. unfold execute_sync_move.
    rewrite (moves_by_port_of_unknown _ _ H). reflexivity.
  - intros depth polls fs filename items t0 t1 t2 Hm Ha -> Ho HL Hg.
    split.
    + apply (executor_returns_after_gate _ _ _ _ _ _ _ Ho HL Hg).
    + intros Htoml Hjson Hload.
      destruct (executor_returns_after_gate _ _ _ _ _ _ _ Ho HL Hg
                  servo_goals DEFAULT_BASE_VELOCITY t2
                  (or_introl eq_refl)) as (evs_m & E).
      exists evs_m. split; [exact E|].
      rewrite (run_animation_eq _ _ _ _ _ _ _ _ Hm Ha).
      rewrite (bind_Ret _ _ _ _ _ Ho). unfold after_acquisition.
      rewrite HL, Nat.eqb_refl. cbn [negb].
      rewrite (bind_Ret _ _ _ _ _ Hg). cbn [negb].
      unfold play_file. rewrite Htoml, Hjson.
      unfold bind at 1. symmetry. unfold bind at 1. symmetry.
      unfold try_except, bind at 1, lift, move_and_wait.
      rewrite Hload. unfold bind at 1. rewrite E. reflexivity.
Qed.

(** On the rig: the executor returns True from the empty history, and the
    run of [pose.json] passes from the executor to the poller. *)
Lemma execute_sync_move_returns_True_witness :
  (exists evs,
      execute_sync_move demo_driver demo_goals 150 demo_manifest ["COM1"]
                        demo_address_map [] = (Ret true, [] ++ evs)
      /\ ((forall tr p reqs,
             comm_success (txRxPacket demo_driver tr p reqs) = false) ->
          existsb is_write evs = false))
  /\ (exists evs_m,
        execute_sync_move demo_driver demo_goals DEFAULT_BASE_VELOCITY
                          demo_manifest ["COM1"] demo_address_map
                          (snd (check_torque_status
                                  demo_driver demo_manifest ["COM1"]
                                  demo_address_map
                                  [EvOpenPort "COM1" (Some true);
                                   EvSetBaudRate "COM1" 57600 (Some true)]))
        = (Ret true,
           snd (check_torque_status
                  demo_driver demo_manifest ["COM1"] demo_address_map
                  [EvOpenPort "COM1" (Some true);
                   EvSetBaudRate "COM1" 57600 (Some true)]) ++ evs_m)
        /\ run_animation 3 3 demo_driver demo_fs "pose.json" []
           = (try_except
                (wait_for_move_completion 3 demo_driver demo_goals
                                          demo_manifest ["COM1"]
                                          demo_address_map)
                (fun _ => queue_put MsgPoseError) ;;;
              close_all ["COM1"] ;;;
              queue_put (MsgFinished "pose.json"))
               (snd (check_torque_status
                       demo_driver demo_manifest ["COM1"] demo_address_map
                       [EvOpenPort "COM1" (Some true);
                        EvSetBaudRate "COM1" 57600 (Some true)])
                  ++ evs_m)).
Proof.
  split.
  - refine (proj1 (proj2 (execute_sync_move_returns_True demo_driver
                            demo_goals 150 demo_manifest ["COM1"]
                            demo_address_map [])) _ _).
    + reflexivity.
    + eexists. vm_compute. reflexivity.
  - refine (proj2 (proj2 (proj2 (proj2 (proj2
              (execute_sync_move_returns_True demo_driver demo_goals 150
                 demo_manifest ["COM1"] demo_address_map []))))
              3%nat 3%nat demo_fs "pose.json" demo_items []
              [EvOpenPort "COM1" (Some true);
               EvSetBaudRate "COM1" 57600 (Some true)]
              _ _ _ _ _ _ _) _ _ _).
    + reflexivity.
    + reflexivity.
    + reflexivity.
    + vm_compute. reflexivity.
    + reflexivity.
    + vm_compute. reflexivity.
    + reflexivity.
    + reflexivity.
    + reflexivity.
Defined.

(** C10 (as stated) fails: the executor does not return True on every
    input.  It resolves the registers of every known goal before the
    read, so with an address map that has no default block it raises
    KeyError, before any transaction, also on a driver whose every read
    would fail; and a base velocity too large for a double raises
    OverflowError after the read. *)
Lemma executor_raises_outside_its_conditions :
  execute_sync_move silent_driver demo_goals 150 demo_manifest ["COM1"]
                    typed_address_map []
  = (Raise KeyError, [])
  /\ (forall tr p reqs,
        comm_success (txRxPacket silent_driver tr p reqs) = false)
  /\ fst (execute_sync_move demo_driver demo_goals (10 ^ 400) demo_manifest
                            ["COM1"] demo_address_map [])
     = Raise OverflowError.
Proof.
  split; [vm_compute; reflexivity|].
  split; [reflexivity|vm_compute; reflexivity].
Qed.

(* ================================================================== *)
(** ** The sequence interpreter *)

Lemma truthy_name name : name <> "" -> negb (truthy (TStr name)) = false.
Proof.
  intros N. cbn. destruct (String.eqb_spec name ""); [contradiction|].
  reflexivity.
Qed.

(** A step that names a script: the nested script is run at the current
    multiplier times the step's speed, then the step's pause follows. *)
Lemma process_step_nested polls recurse drv fs servo_manifest port_handlers
    address_map base_velocity speed_multiplier n i step name q t :
  position_file step = Some (TStr name) ->
  name <> "" ->
  endswith (lower name) ".toml" = true ->
  nested_speed_of step = Ret q ->
  process_step polls recurse drv fs servo_manifest port_handlers address_map
               base_velocity speed_multiplier n (i, step) t
  = (queue_put (MsgStep (i + 1) n (TStr name)) ;;;
     recurse (path_join "animation" name)
             (PyFloat.fmul speed_multiplier q) ;;;
     step_delay step) t.
Proof.
  intros Hpf Hn Ht Hq. unfold process_step.
  rewrite Hpf, (truthy_name _ Hn), Ht.
  apply bind_ext. intros _ t1. rewrite bind_assoc.
  unfold bind at 1, lift. rewrite Hq. reflexivity.
Qed.

(** A step that names a goal file: executor, then poller, with the final
    velocity; errors are caught; then the step's pause follows. *)
Lemma process_step_leaf polls recurse drv fs servo_manifest port_handlers
    address_map base_velocity speed_multiplier n i step name goals
    final_velocity t :
  position_file step = Some (TStr name) ->
  name <> "" ->
  endswith (lower name) ".toml" = false ->
  endswith (lower name) ".json" = true ->
  load_goals fs (path_join "position" name) = Ret goals ->
  final_velocity_of (match velocity step with
                     | Some v => v
                     | None => base_velocity
                     end) speed_multiplier = Ret final_velocity ->
  process_step polls recurse drv fs servo_manifest port_handlers address_map
               base_velocity speed_multiplier n (i, step) t
  = (queue_put (MsgStep (i + 1) n (TStr name)) ;;;
     try_except
       (ok <- execute_sync_move drv goals final_velocity servo_manifest
                                port_handlers address_map ;;
        if ok then wait_for_move_completion polls drv goals servo_manifest
                                            port_handlers address_map
        else ret tt)
       (fun _ => queue_put (MsgJsonError (path_join "position" name))) ;;;
     step_delay step) t.
Proof.
  intros Hpf Hn Ht Hj Hg Hv. unfold process_step.
  rewrite Hpf, (truthy_name _ Hn), Ht, Hj.
  apply bind_ext. intros _ t1.
  unfold bind at 1 3. unfold try_except, bind at 1 2, lift.
  rewrite Hg, Hv. reflexivity.
Qed.

(** Every script a run enters is entered at the multiplier of its nesting
    path. *)
Lemma process_sequence_runs_at depth polls drv fs servo_manifest
    port_handlers address_map root m0 :
  forall filepath m,
    runs_at fs root m0 filepath m ->
    only (fun e => forall path mult,
                     e = EvQueuePut (MsgProcessing path mult) ->
                     runs_at fs root m0 path mult)
         (process_sequence depth polls drv fs filepath m servo_manifest
                           port_handlers address_map).
Proof.
  assert (HP : forall e, is_motion_event e = true ->
                         is_processing_message e = false ->
                         forall path mult,
                           e = EvQueuePut (MsgProcessing path mult) ->
                           runs_at fs root m0 path mult).
  { intros e _ He path mult ->. discriminate. }
  induction depth as [|d IH]; intros filepath m Hr; cbn.
  - apply only_out_of_fuel.
  - destruct (toml_load fs filepath) as [sd|] eqn:Eload.
    { apply only_bind.
      { apply only_emit. intros path mult [= <- <-]. exact Hr. }
      intros _.
      apply only_bind; [|intros; apply only_emit, HP; reflexivity].
      apply only_for_each_In. intros [i step] Hin.
      apply process_step_only; auto.
      intros name q Hpf Ht Hq. apply IH.
      eapply runs_nested; eauto.
      clear - Hin. revert Hin. generalize 0%nat.
      induction (sequence sd) as [|s0 l IHl]; intros k Hin; [destruct Hin|].
      destruct Hin as [[= _ <-]|Hin]; [left; auto|right; eauto]. }
    apply only_emit, HP; reflexivity.
Qed.

(** C7. Speed multipliers of nested scripts compose by multiplication.
    (1) A step that names a script with speed percentage [p] runs it at
    the current multiplier times [p / 100.0].  (2) In any run, every script
    is entered at the product of the speeds along its nesting path
    ([runs_at]).  (3) 50 % inside 50 % is 0.25, and the run of [top.toml]
    on the rig enters [inner.toml] at 0.25. *)
Theorem nested_multipliers_compose depth polls drv fs servo_manifest
    port_handlers address_map :
  (forall recurse base_velocity speed_multiplier n i step name p q t,
     position_file step = Some (TStr name) ->
     name <> "" ->
     endswith (lower name) ".toml" = true ->
     speed step = Some (TInt p) ->
     PyFloat.div_int_float p PyFloat.hundred = Ret q ->
     process_step polls recurse drv fs servo_manifest port_handlers
                  address_map base_velocity speed_multiplier n (i, step) t
     = (queue_put (MsgStep (i + 1) n (TStr name)) ;;;
        recurse (path_join "animation" name)
                (PyFloat.fmul speed_multiplier q) ;;;
        step_delay step) t) /\
  (forall root m0 t out t',
     process_sequence depth polls drv fs root m0 servo_manifest
                      port_handlers address_map t = (out, t') ->
     exists evs,
       t' = t ++ evs /\
       forall path mult,
         In (EvQueuePut (MsgProcessing path mult)) evs ->
         runs_at fs root m0 path mult) /\
  (PyFloat.div_int_float 50 PyFloat.hundred = Ret PyFloat.half
   /\ PyFloat.fmul (PyFloat.fmul PyFloat.one PyFloat.half) PyFloat.half
      = PyFloat.quarter
   /\ In (EvQueuePut (MsgProcessing "animation/inner.toml" PyFloat.quarter))
         (snd (run_animation 3 3 demo_driver demo_fs "top.toml" []))).
Proof.
  split; [|split].
  - intros recurse base_velocity speed_multiplier n i step name p q t
           Hpf Hn Ht Hs Hq.
    apply process_step_nested; auto.
    unfold nested_speed_of. rewrite Hs. exact Hq.
  - intros root m0 t out t' H.
    destruct (process_sequence_runs_at depth polls drv fs servo_manifest
                port_handlers address_map root m0 root m0
                (runs_root fs root m0) t) as (evs & E & F).
    rewrite H in E. cbn in E. exists evs. split; auto.
    intros path mult Hin. rewrite Forall_forall in F.
    apply (F _ Hin). reflexivity.
  - vm_compute. repeat split. do 9 right. left. reflexivity.
Qed.

Lemma nested_multipliers_compose_witness :
  process_step 3 (fun _ _ => ret tt) demo_driver demo_fs demo_manifest
               ["COM1"] demo_address_map (TInt 150) PyFloat.half 1
               (0%nat, nested_step "inner.toml" (TInt 50)) []
  = (queue_put (MsgStep (0 + 1) 1 (TStr "inner.toml")) ;;;
     (fun _ _ => ret tt) (path_join "animation" "inner.toml")
                         (PyFloat.fmul PyFloat.half PyFloat.half) ;;;
     step_delay (nested_step "inner.toml" (TInt 50))) [].
Proof.
  refine (proj1 (nested_multipliers_compose 3 3 demo_driver demo_fs
                   demo_manifest ["COM1"] demo_address_map)
                (fun _ _ => ret tt) (TInt 150) PyFloat.half 1%nat 0%nat
                (nested_step "inner.toml" (TInt 50)) "inner.toml" 50
                PyFloat.half [] _ _ _ _ _).
  - reflexivity.
  - discriminate.
  - vm_compute. reflexivity.
  - reflexivity.
  - vm_compute. reflexivity.
Defined.

(** C6 (amended). For a leaf step the velocity passed to the executor is
    [int((velocity override if present, else base_velocity) *
    speed_multiplier)]: the product is truncated toward zero, not
    rounded. *)
Theorem leaf_velocity_is_truncated polls recurse drv fs servo_manifest
    port_handlers address_map base_velocity speed_multiplier n i step name
    goals final_velocity t :
  let step_velocity :=
    match velocity step with Some v => v | None => base_velocity end in
  position_file step = Some (TStr name) ->
  name <> "" ->
  endswith (lower name) ".toml" = false ->
  endswith (lower name) ".json" = true ->
  load_goals fs (path_join "position" name) = Ret goals ->
  final_velocity_of step_velocity speed_multiplier = Ret final_velocity ->
  (exists x, velocity_product step_velocity speed_multiplier = Ret x
             /\ PyFloat.trunc x = Ret final_velocity) /\
  process_step polls recurse drv fs servo_manifest port_handlers address_map
               base_velocity speed_multiplier n (i, step) t
  = (queue_put (MsgStep (i + 1) n (TStr name)) ;;;
     try_except
       (ok <- execute_sync_move drv goals final_velocity servo_manifest
                                port_handlers address_map ;;
        if ok then wait_for_move_completion polls drv goals servo_manifest
                                            port_handlers address_map
        else ret tt)
       (fun _ => queue_put (MsgJsonError (path_join "position" name))) ;;;
     step_delay step) t.
Proof.
  intros step_velocity Hpf Hn Ht Hj Hg Hf. split.
  - unfold final_velocity_of in Hf.
    destruct (velocity_product step_velocity speed_multiplier) as [x|e|];
      try discriminate.
    exists x. auto.
  - apply process_step_leaf; auto.
Qed.

Lemma leaf_velocity_is_truncated_witness :
  (exists x, velocity_product (TInt 7) PyFloat.quarter = Ret x
             /\ PyFloat.trunc x = Ret 1) /\
  process_step 3 (fun _ _ => ret tt) demo_driver demo_fs demo_manifest
               ["COM1"] demo_address_map (TInt 7) PyFloat.quarter 1
               (0%nat, leaf_step "pose.json") []
  = (queue_put (MsgStep (0 + 1) 1 (TStr "pose.json")) ;;;
     try_except
       (ok <- execute_sync_move demo_driver demo_goals 1 demo_manifest
                                ["COM1"] demo_address_map ;;
        if ok then wait_for_move_completion 3 demo_driver demo_goals
                                            demo_manifest ["COM1"]
                                            demo_address_map
        else ret tt)
       (fun _ => queue_put (MsgJsonError (path_join "position" "pose.json")))
     ;;; step_delay (leaf_step "pose.json")) [].
Proof.
  apply (leaf_velocity_is_truncated 3 (fun _ _ => ret tt) demo_driver
           demo_fs demo_manifest ["COM1"] demo_address_map (TInt 7)
           PyFloat.quarter 1%nat 0%nat (leaf_step "pose.json") "pose.json"
           demo_goals 1 []).
  - reflexivity.
  - discriminate.
  - vm_compute. reflexivity.
  - vm_compute. reflexivity.
  - vm_compute. reflexivity.
  - vm_compute. reflexivity.
Defined.

(** C6 (as stated) fails: 7 at multiplier 0.25 is 1.75; the code passes
    [int(1.75) = 1] where rounding gives 2, and the run of [top.toml] on
    the rig writes velocity 1 to the actuator with the longest travel. *)
Lemma leaf_velocity_is_not_rounded :
  final_velocity_of (TInt 7) PyFloat.quarter = Ret 1
  /\ spec_final_velocity 7 PyFloat.quarter = Ret 2
  /\ In (EvBulkWrite "COM1"
           [{| wp_id := 1; wp_addr := 112; wp_len := 4;
               wp_data := [1; 0; 0; 0] |};
            {| wp_id := 2; wp_addr := 112; wp_len := 4;
               wp_data := [1; 0; 0; 0] |};
            {| wp_id := 3; wp_addr := 112; wp_len := 4;
               wp_data := [1; 0; 0; 0] |}])
        (snd (run_animation 3 3 demo_driver demo_fs "top.toml" [])).
Proof. vm_compute. repeat split. do 12 right. left. reflexivity. Qed.

(* ================================================================== *)
(** ** Parameter bytes *)

Lemma land_255 a : Z.land a 255 = a mod 256.
Proof.
  change 255 with (Z.ones 8). rewrite Z.land_ones by lia. reflexivity.
Qed.

Lemma land_65535 a : Z.land a 65535 = a mod 65536.
Proof.
  change 65535 with (Z.ones 16). rewrite Z.land_ones by lia. reflexivity.
Qed.

Lemma shiftr_8 a : Z.shiftr a 8 = a / 256.
Proof. rewrite Z.shiftr_div_pow2 by lia. reflexivity. Qed.

Lemma shiftr_16 a : Z.shiftr a 16 = a / 65536.
Proof. rewrite Z.shiftr_div_pow2 by lia. reflexivity. Qed.

(** The four bytes are the base-256 digits of the value. *)
Lemma dxl_bytes_digits v :
  dxl_bytes v
  = [v mod 256; v / 256 mod 256; v / 65536 mod 256; v / 16777216 mod 256].
Proof.
  unfold dxl_bytes, DXL_LOBYTE, DXL_HIBYTE, DXL_LOWORD, DXL_HIWORD.
  rewrite !land_255, !land_65535, !shiftr_8, !shiftr_16.
  f_equal; [|f_equal; [|f_equal; [|f_equal]]];
    Z.to_euclidean_division_equations; lia.
Qed.

Lemma slice_digits v n :
  0 <= n <= 4 ->
  List.length (slice_to n (dxl_bytes v)) = Z.to_nat n
  /\ le_value (slice_to n (dxl_bytes v)) = v mod 2 ^ (8 * n).
Proof.
  intros H. rewrite dxl_bytes_digits.
  assert (n = 0 \/ n = 1 \/ n = 2 \/ n = 3 \/ n = 4)
    as [->|[->|[->|[->| ->]]]] by lia;
    unfold slice_to; (split; [reflexivity|]).
  - change (2 ^ (8 * 0)) with 1.
    cbn [Z.leb Z.compare Z.to_nat firstn le_value].
    rewrite Z.mod_1_r. reflexivity.
  - change (2 ^ (8 * 1)) with 256. change (Z.to_nat 1) with 1%nat.
    cbn [Z.leb Z.compare firstn le_value]. lia.
  - change (2 ^ (8 * 2)) with 65536. change (Z.to_nat 2) with 2%nat.
    cbn [Z.leb Z.compare firstn le_value].
    Z.to_euclidean_division_equations; lia.
  - change (2 ^ (8 * 3)) with 16777216. change (Z.to_nat 3) with 3%nat.
    cbn [Z.leb Z.compare firstn le_value].
    Z.to_euclidean_division_equations; lia.
  - change (2 ^ (8 * 4)) with 4294967296. change (Z.to_nat 4) with 4%nat.
    cbn [Z.leb Z.compare firstn le_value].
    Z.to_euclidean_division_equations; lia.
Qed.

(** X1. The parameter bytes built for a velocity or a goal are the
    little-endian base-256 digits of the value modulo [2^32] (two's
    complement for a negative value); cut to a register width [n] of 0 to
    4 bytes they encode the value modulo [2^(8n)]; a width above 4 still
    gets the four bytes only. *)
Theorem param_bytes_little_endian v :
  Forall (fun b => 0 <= b < 256) (dxl_bytes v)
  /\ le_value (dxl_bytes v) = v mod 2 ^ 32
  /\ (forall n, 0 <= n <= 4 ->
        List.length (slice_to n (dxl_bytes v)) = Z.to_nat n
        /\ le_value (slice_to n (dxl_bytes v)) = v mod 2 ^ (8 * n))
  /\ (forall n, 4 <= n -> slice_to n (dxl_bytes v) = dxl_bytes v).
Proof.
  split; [|split; [|split]].
  - rewrite dxl_bytes_digits.
    repeat constructor; Z.to_euclidean_division_equations; lia.
  - destruct (slice_digits v 4) as (_ & H); [lia|].
    unfold slice_to in H. exact H.
  - apply slice_digits.
  - intros n Hn. unfold slice_to.
    destruct (Z.leb_spec 0 n); [|lia].
    apply firstn_all2. cbn. lia.
Qed.

Lemma param_bytes_little_endian_witness :
  List.length (slice_to 2 (dxl_bytes (-2))) = Z.to_nat 2
  /\ le_value (slice_to 2 (dxl_bytes (-2))) = (-2) mod 2 ^ (8 * 2).
Proof.
  apply (proj1 (proj2 (proj2 (param_bytes_little_endian (-2)))) 2). lia.
Defined.

(* ================================================================== *)
(** ** What a passed safety gate has seen *)

Lemma torque_requests_spec address_map servos :
  forall t reqs t',
    mapM (torque_request address_map) servos t = (Ret reqs, t') ->
    t' = t
    /\ Forall2 (fun servo r =>
                  exists addr,
                    get_address_info (motor_type servo) address_map = Ret addr
                    /\ r = {| rq_id := id servo;
                              rq_addr := torque_enable addr;
                              rq_len := len_torque_enable addr |})
               servos reqs.
Proof.
  induction servos as [|servo rest IH]; intros t reqs t' H; cbn [mapM] in H.
  - injection H as <- <-. split; auto.
  - apply bind_inv_Ret in H. destruct H as (r & t1 & H1 & H).
    apply bind_inv_Ret in H. destruct H as (rs & t2 & H2 & H).
    injection H as <- <-.
    unfold torque_request, bind, lift in H1.
    destruct (get_address_info (motor_type servo) address_map)
      as [addr|e|] eqn:Ea; try discriminate.
    injection H1 as <- <-.
    destruct (IH _ _ _ H2) as (-> & F). split; auto.
    constructor; eauto.
Qed.

Lemma Forall2_In_l {A B} (R : A -> B -> Prop) l l' a :
  Forall2 R l l' -> In a l -> exists b, In b l' /\ R a b.
Proof.
  induction 1 as [|x y l l' Hxy _ IH]; intros Hin; [destruct Hin|].
  destruct Hin as [<-|Hin].
  - exists y. split; [left|]; auto.
  - destruct (IH Hin) as (b & Hb & Hr). exists b. split; [right|]; auto.
Qed.

Lemma Forall2_In_r {A B} (R : A -> B -> Prop) l l' b :
  Forall2 R l l' -> In b l' -> exists a, In a l /\ R a b.
Proof.
  induction 1 as [|x y l l' Hxy _ IH]; intros Hin; [destruct Hin|].
  destruct Hin as [<-|Hin].
  - exists x. split; [left|]; auto.
  - destruct (IH Hin) as (a & Ha & Hr). exists a. split; [right|]; auto.
Qed.

(** A pass of the second inner loop that ends in True has put no
    message. *)
Lemma check_servos_true_silent res address_map servos :
  forall t t', check_servos res address_map servos t = (Ret true, t') -> t' = t.
Proof.
  induction servos as [|s0 rest IH]; intros t t' H; cbn [check_servos] in H.
  - injection H as <-. reflexivity.
  - apply bind_inv_Ret in H. destruct H as (a0 & t1 & H1 & H).
    unfold lift in H1. injection H1 as _ <-.
    destruct (_ || _)%bool; [cbn in H; discriminate|eauto].
Qed.

Lemma check_ports_true drv servo_manifest address_map :
  forall ports t t',
    check_ports drv servo_manifest address_map ports t = (Ret true, t') ->
    exists reads,
      t' = t ++ reads
      /\ Forall2 (fun port e => exists reqs, e = EvBulkRead port reqs true)
                 ports reads
      /\ forall servo,
           In servo (dict_values servo_manifest) ->
           In (com_port servo) ports ->
           exists addr pre reqs post,
             get_address_info (motor_type servo) address_map = Ret addr
             /\ reads = pre ++ EvBulkRead (com_port servo) reqs true :: post
             /\ In {| rq_id := id servo; rq_addr := torque_enable addr;
                      rq_len := len_torque_enable addr |} reqs
             /\ isAvailable (txRxPacket drv (t ++ pre) (com_port servo) reqs)
                            (id servo) (torque_enable addr)
                            (len_torque_enable addr) = true
             /\ getData (txRxPacket drv (t ++ pre) (com_port servo) reqs)
                        (id servo) (torque_enable addr)
                        (len_torque_enable addr) = 1.
Proof.
  induction ports as [|port rest IH]; intros t t' H; cbn [check_ports] in H.
  - injection H as <-. exists []. rewrite app_nil_r.
    split; auto. split; [constructor|]. intros ? ? [].
  - apply bind_inv_Ret in H. destruct H as (reqs & t1 & Hr & H).
    destruct (torque_requests_spec _ _ _ _ _ Hr) as (-> & Freq).
    apply bind_inv_Ret in H. destruct H as (res & t2 & Hb & H).
    unfold bulk_read in Hb. injection Hb as <- <-.
    destruct (comm_success (txRxPacket drv t port reqs)) eqn:Ec;
      cbn [negb] in H; [|discriminate].
    apply bind_inv_Ret in H. destruct H as (ok & t3 & Hs & H).
    destruct ok; [|discriminate].
    pose proof (check_servos_true_silent _ _ _ _ _ Hs) as ->.
    destruct (IH _ _ H) as (reads & -> & F & Hall).
    exists (EvBulkRead port reqs true :: reads).
    split; [rewrite <- app_assoc; reflexivity|].
    split; [constructor; eauto|].
    intros servo Hin Hp.
    destruct (String.eqb_spec (com_port servo) port) as [E|N].
    + assert (Hon : In servo (servos_on_port servo_manifest port)).
      { unfold servos_on_port. apply filter_In. split; auto.
        rewrite E. apply String.eqb_refl. }
      destruct (Forall2_In_l _ _ _ _ Freq Hon) as (r & Hr' & addr & Ea & ->).
      destruct (check_servos_true _ _ _ _ _ Hs servo addr Hon Ea)
        as (Av & Dt).
      exists addr, [], reqs, reads. rewrite app_nil_r, E.
      repeat split; auto.
    + destruct Hp as [Hp|Hp]; [symmetry in Hp; contradiction|].
      destruct (Hall servo Hin Hp)
        as (addr & pre & rq & post & Ea & -> & Hrq & Av & Dt).
      exists addr, (EvBulkRead port reqs true :: pre), rq, post.
      rewrite <- app_assoc in Av, Dt. repeat split; auto.
Qed.

(** X2. A safety gate that returns True has put its opening message, made
    exactly one successful grouped read per handled bus, in the order of
    the handlers, and put its closing message; and for every manifest
    actuator on a handled bus, the read of that bus asked for its
    motion-enable register and reported it available with value 1. *)
Theorem passed_gate_saw_every_actuator_enabled drv servo_manifest
    port_handlers address_map t t' :
  check_torque_status drv servo_manifest port_handlers address_map t
  = (Ret true, t') ->
  exists reads,
    t' = t ++ [EvQueuePut MsgPreflight] ++ reads ++ [EvQueuePut MsgTorqueOk]
    /\ Forall2 (fun port e => exists reqs, e = EvBulkRead port reqs true)
               port_handlers reads
    /\ forall servo,
         In servo (dict_values servo_manifest) ->
         In (com_port servo) port_handlers ->
         exists addr pre reqs post,
           get_address_info (motor_type servo) address_map = Ret addr
           /\ reads = pre ++ EvBulkRead (com_port servo) reqs true :: post
           /\ In {| rq_id := id servo; rq_addr := torque_enable addr;
                    rq_len := len_torque_enable addr |} reqs
           /\ isAvailable
                (txRxPacket drv (t ++ [EvQueuePut MsgPreflight] ++ pre)
                            (com_port servo) reqs)
                (id servo) (torque_enable addr) (len_torque_enable addr)
              = true
           /\ getData
                (txRxPacket drv (t ++ [EvQueuePut MsgPreflight] ++ pre)
                            (com_port servo) reqs)
                (id servo) (torque_enable addr) (len_torque_enable addr)
              = 1.
Proof.
  intros H. unfold check_torque_status in H.
  apply bind_inv_Ret in H. destruct H as ([] & t1 & H1 & H).
  unfold queue_put, emit in H1. injection H1 as <-.
  apply bind_inv_Ret in H. destruct H as (ok & t2 & Hc & H).
  destruct ok; [|discriminate].
  unfold bind, queue_put, emit, ret in H. injection H as <-.
  destruct (check_ports_true _ _ _ _ _ _ Hc) as (reads & -> & F & Hall).
  exists reads. split; [repeat rewrite <- app_assoc; reflexivity|].
  split; auto.
  intros servo Hin Hp.
  destruct (Hall servo Hin Hp)
    as (addr & pre & rq & post & Ea & -> & Hrq & Av & Dt).
  exists addr, pre, rq, post. rewrite <- app_assoc in Av, Dt.
  repeat split; auto.
Qed.

Lemma passed_gate_saw_every_actuator_enabled_witness :
  exists reads,
    snd (check_torque_status demo_driver demo_manifest ["COM1"]
                             demo_address_map [])
    = [] ++ [EvQueuePut MsgPreflight] ++ reads ++ [EvQueuePut MsgTorqueOk]
    /\ Forall2 (fun port e => exists reqs, e = EvBulkRead port reqs true)
               ["COM1"] reads
    /\ forall servo,
         In servo (dict_values demo_manifest) ->
         In (com_port servo) ["COM1"] ->
         exists addr pre reqs post,
           get_address_info (motor_type servo) demo_address_map = Ret addr
           /\ reads = pre ++ EvBulkRead (com_port servo) reqs true :: post
           /\ In {| rq_id := id servo; rq_addr := torque_enable addr;
                    rq_len := len_torque_enable addr |} reqs
           /\ isAvailable
                (txRxPacket demo_driver
                            ([] ++ [EvQueuePut MsgPreflight] ++ pre)
                            (com_port servo) reqs)
                (id servo) (torque_enable addr) (len_torque_enable addr)
              = true
           /\ getData
                (txRxPacket demo_driver
                            ([] ++ [EvQueuePut MsgPreflight] ++ pre)
                            (com_port servo) reqs)
                (id servo) (torque_enable addr) (len_torque_enable addr)
              = 1.
Proof.
  apply (passed_gate_saw_every_actuator_enabled demo_driver demo_manifest
           ["COM1"] demo_address_map []).
  vm_compute. reflexivity.
Defined.

(* ================================================================== *)
(** ** The phases of a run *)

Lemma check_torque_status_true_message drv servo_manifest port_handlers
    address_map t t' :
  check_torque_status drv servo_manifest port_handlers address_map t
  = (Ret true, t') ->
  exists evs, t' = t ++ evs ++ [EvQueuePut MsgTorqueOk].
Proof.
  intros H. unfold check_torque_status in H.
  apply bind_inv_Ret in H. destruct H as ([] & t1 & H1 & H).
  apply bind_inv_Ret in H. destruct H as (ok & t2 & Hc & H).
  destruct ok; [|discriminate].
  unfold bind, queue_put, emit, ret in H. injection H as <-.
  assert (Hg : only (fun e => is_read_or_message e = true)
                    (queue_put MsgPreflight ;;;
                     check_ports drv servo_manifest address_map
                                 port_handlers)).
  { apply only_bind; [apply only_emit; reflexivity|].
    intros; apply check_ports_only. }
  destruct (Hg t) as (evs & E & _).
  rewrite (bind_Ret _ _ _ _ _ H1), Hc in E. cbn in E. subst t2.
  exists evs. rewrite <- app_assoc. reflexivity.
Qed.

(** The rest of a run after acquisition, whatever its outcome: the gate's
    reads and messages, then (only after the gate's closing message) the
    events of the moves, then either nothing more or the closing of every
    handler, a last message at most, and a normal return. *)
Lemma after_acquisition_phases depth polls drv fs filename servo_manifest
    address_map port_handlers t0 out t' :
  after_acquisition depth polls drv fs filename servo_manifest address_map
                    port_handlers t0 = (out, t') ->
  exists evs_g evs_m rest,
    t' = t0 ++ evs_g ++ evs_m ++ rest
    /\ Forall (fun e => is_read_or_message e = true) evs_g
    /\ Forall (fun e => is_motion_event e = true) evs_m
    /\ (In (EvQueuePut MsgTorqueOk) evs_g \/ evs_m = [])
    /\ (rest = []
        \/ exists tail,
             rest = map EvClosePort port_handlers ++ tail
             /\ Forall (fun e => is_read_or_message e = true) tail
             /\ out = Ret tt).
Proof.
  unfold after_acquisition. destruct (negb _).
  { rewrite close_all_spec. intros [= <- <-].
    exists [], [], (map EvClosePort port_handlers). cbn [app].
    repeat split; auto. right. exists []. rewrite app_nil_r. auto. }
  intros H. unfold bind at 1 in H.
  destruct (check_torque_status_only drv servo_manifest port_handlers
              address_map t0) as (evs_g & Eg & Fg).
  destruct (check_torque_status drv servo_manifest port_handlers address_map
                                t0) as [og t1] eqn:Hg.
  cbn in Eg. subst t1.
  destruct og as [[|]|e|]; cbn [negb] in H.
  - (* the gate passed *)
    destruct (check_torque_status_true_message _ _ _ _ _ _ Hg) as (l & El).
    apply app_inv_head in El. 
    assert (Hok : In (EvQueuePut MsgTorqueOk) evs_g).
    { rewrite El. apply in_or_app. right; left; auto. }
    unfold bind at 1 in H.
    destruct (play_file_only depth polls drv fs filename servo_manifest
                port_handlers address_map (t0 ++ evs_g))
      as (evs_p & Ep & Fp).
    destruct (play_file depth polls drv fs filename servo_manifest
                        port_handlers address_map (t0 ++ evs_g))
      as [op t2] eqn:Hp.
    cbn in Ep. subst t2.
    destruct op as [[]|e|].
    + unfold bind in H. rewrite close_all_spec in H.
      unfold queue_put, emit in H. injection H as <- <-.
      exists evs_g, evs_p,
        (map EvClosePort port_handlers
           ++ [EvQueuePut (MsgFinished filename)]).
      split; [repeat rewrite <- app_assoc; reflexivity|].
      repeat split; auto. right. eexists. repeat split; auto.
    + injection H as <- <-. exists evs_g, evs_p, [].
      rewrite app_nil_r, <- app_assoc. repeat split; auto.
    + injection H as <- <-. exists evs_g, evs_p, [].
      rewrite app_nil_r, <- app_assoc. repeat split; auto.
  - (* the gate failed *)
    unfold bind in H. rewrite close_all_spec in H.
    unfold queue_put, emit in H. injection H as <- <-.
    exists evs_g, [], (map EvClosePort port_handlers
                         ++ [EvQueuePut MsgAborted]).
    split; [repeat rewrite <- app_assoc; reflexivity|].
    repeat split; auto. right. eexists. repeat split; auto.
  - injection H as <- <-. exists evs_g, [], [].
    rewrite !app_nil_r. repeat split; auto.
  - injection H as <- <-. exists evs_g, [], [].
    rewrite !app_nil_r. repeat split; auto.
Qed.

(** A run with its configuration loaded: the acquisition, then the phases
    above. *)
Lemma run_animation_phases depth polls drv fs filename items address_map
    t out t' :
  manifest_file fs = Some items ->
  address_file fs = Some address_map ->
  run_animation depth polls drv fs filename t = (out, t') ->
  exists port_handlers evs_o evs_g evs_m rest,
    foldM (open_connection drv) (unique_ports_of (manifest_of items)) [] t
    = (Ret port_handlers, t ++ evs_o)
    /\ t' = t ++ evs_o ++ evs_g ++ evs_m ++ rest
    /\ forallb is_acquisition_event evs_o = true
    /\ connections evs_o [] = port_handlers
    /\ Forall (fun e => is_read_or_message e = true) evs_g
    /\ Forall (fun e => is_motion_event e = true) evs_m
    /\ (In (EvQueuePut MsgTorqueOk) evs_g \/ evs_m = [])
    /\ (rest = []
        \/ exists tail,
             rest = map EvClosePort port_handlers ++ tail
             /\ Forall (fun e => is_read_or_message e = true) tail
             /\ out = Ret tt).
Proof.
  intros Hm Ha Hrun.
  rewrite (run_animation_eq _ _ _ _ _ _ _ _ Hm Ha) in Hrun.
  destruct (open_all_spec drv (unique_ports_of (manifest_of items)) [] t)
    as (hs & evs_o & Eo & Fo & Co & _).
  rewrite (bind_Ret _ _ _ _ _ Eo) in Hrun.
  apply after_acquisition_phases in Hrun.
  destruct Hrun as (evs_g & evs_m & rest & -> & Fg & Fm & Hok & Hrest).
  exists hs, evs_o, evs_g, evs_m, rest.
  rewrite <- app_assoc. repeat split; auto.
Qed.

Lemma split_after_prefix {A} (P : A -> bool) l1 :
  forall l2 pre e post,
    l1 ++ l2 = pre ++ e :: post ->
    existsb P l1 = false -> P e = true ->
    exists pre', pre = l1 ++ pre' /\ l2 = pre' ++ e :: post.
Proof.
  induction l1 as [|a l1 IH]; intros l2 pre e post E Hn He; cbn in *.
  - exists pre. auto.
  - apply orb_false_iff in Hn. destruct Hn as (Ha & Hn).
    destruct pre as [|b pre]; cbn in E.
    + injection E as -> _. congruence.
    + injection E as <- E.
      destruct (IH _ _ _ _ E Hn He) as (pre' & -> & ->).
      exists pre'. auto.
Qed.

Lemma existsb_Forall_false {A} (P Q : A -> bool) l :
  (forall x, Q x = true -> P x = false) ->
  Forall (fun x => Q x = true) l -> existsb P l = false.
Proof.
  intros H F. induction F as [|x l Hx _ IH]; cbn; auto.
  rewrite (H x Hx), IH. reflexivity.
Qed.

Lemma no_split {A} (P : A -> bool) l pre e post :
  existsb P l = false -> l = pre ++ e :: post -> P e = true -> False.
Proof.
  intros Hn -> He. rewrite existsb_app in Hn. cbn in Hn. rewrite He in Hn.
  rewrite orb_true_r in Hn. discriminate.
Qed.

(** X3. In every run, whatever its outcome, a grouped write is issued only
    after the safety gate has put its message that the torque check
    passed. *)
Theorem writes_follow_passed_gate depth polls drv fs filename t out t' :
  run_animation depth polls drv fs filename t = (out, t') ->
  exists evs,
    t' = t ++ evs
    /\ forall pre e post,
         evs = pre ++ e :: post -> is_write e = true ->
         In (EvQueuePut MsgTorqueOk) pre.
Proof.
  intros Hrun.
  destruct (manifest_file fs) as [items|] eqn:Hm;
    [destruct (address_file fs) as [address_map|] eqn:Ha|].
  2:{ rewrite run_animation_no_config in Hrun by auto.
      injection Hrun as <- <-. eexists; split; [reflexivity|].
      intros pre e post E He. exfalso.
      eapply (no_split is_write); [|exact E|exact He]. reflexivity. }
  2:{ rewrite run_animation_no_config in Hrun by auto.
      injection Hrun as <- <-. eexists; split; [reflexivity|].
      intros pre e post E He. exfalso.
      eapply (no_split is_write); [|exact E|exact He]. reflexivity. }
  destruct (run_animation_phases _ _ _ _ _ _ _ _ _ _ Hm Ha Hrun)
    as (hs & evs_o & evs_g & evs_m & rest & _ & -> & Fo & _ & Fg & Fm
        & Hok & Hrest).
  eexists; split; [reflexivity|].
  intros pre e post E He.
  destruct (acquisition_no_transaction _ Fo) as (_ & Wo & _).
  pose proof (no_write_in_gate _ Fg) as Wg.
  assert (Wr : existsb is_write rest = false).
  { destruct Hrest as [-> |(tail & -> & Ft & _)]; auto.
    rewrite existsb_app, existsb_closes, (no_write_in_gate _ Ft); auto. }
  destruct Hok as [Hok| ->].
  - rewrite app_assoc in E.
    destruct (split_after_prefix is_write _ _ _ _ _ E) as (pre' & -> & _);
      auto.
    { rewrite existsb_app, Wo, Wg. reflexivity. }
    apply in_or_app. left. apply in_or_app. right. exact Hok.
  - exfalso. eapply (no_split is_write); [|exact E|exact He].
    rewrite !existsb_app, Wo, Wg, Wr. reflexivity.
Qed.

Lemma writes_follow_passed_gate_witness :
  exists evs,
    snd (run_animation 3 3 demo_driver demo_fs "pose.json" []) = [] ++ evs
    /\ forall pre e post,
         evs = pre ++ e :: post -> is_write e = true ->
         In (EvQueuePut MsgTorqueOk) pre.
Proof.
  apply (writes_follow_passed_gate 3 3 demo_driver demo_fs "pose.json" []
           (Ret tt)).
  vm_compute. reflexivity.
Defined.

(* ================================================================== *)
(** ** Dictionary comprehensions *)

Section Comprehension.
Context {A K V : Type}.
Variable eqb : K -> K -> bool.
Hypothesis eqb_spec : forall a b, eqb a b = true <-> a = b.
Variable key : A -> K.
Variable val : A -> V.

Lemma dict_get_unique (d : dict K V) k v :
  NoDup (dict_keys d) -> In (k, v) d -> dict_get eqb k d = Some v.
Proof.
  induction d as [|[k0 v0] d IH]; cbn; intros ND Hin; [destruct Hin|].
  inversion ND as [|? ? Hk ND']; subst.
  destruct Hin as [[= -> ->]|Hin].
  - rewrite (proj2 (eqb_spec k k) eq_refl). reflexivity.
  - destruct (eqb k k0) eqn:E; auto.
    apply eqb_spec in E. subst k0. exfalso. apply Hk.
    apply in_map_iff. exists (k, v). auto.
Qed.

Lemma dict_set_keys k (v : V) d k' :
  In k' (dict_keys (dict_set eqb k v d)) <-> k' = k \/ In k' (dict_keys d).
Proof.
  rewrite (dict_keys_set eqb). unfold dict_mem.
  destruct (dict_get eqb k d) eqn:E.
  - split; auto. intros [->|H]; auto.
    apply (dict_get_In eqb eqb_spec) in E.
    apply in_map_iff. exists (k, v0). auto.
  - rewrite in_app_iff. cbn. intuition.
Qed.

Lemma comprehension_NoDup l :
  forall acc : dict K V,
    NoDup (dict_keys acc) ->
    NoDup (dict_keys
             (fold_left (fun d a => dict_set eqb (key a) (val a) d) l acc)).
Proof.
  induction l as [|a l IH]; intros acc ND; cbn [fold_left]; auto.
  apply IH. apply (dict_set_NoDup eqb eqb_spec). exact ND.
Qed.

Lemma comprehension_keys l :
  forall (acc : dict K V) k,
    In k (dict_keys
            (fold_left (fun d a => dict_set eqb (key a) (val a) d) l acc))
    <-> In k (dict_keys acc) \/ exists a, In a l /\ key a = k.
Proof.
  induction l as [|a l IH]; intros acc k; cbn [fold_left].
  - split; auto. intros [H|(a & [] & _)]; auto.
  - rewrite IH, dict_set_keys. split.
    + intros [[->|H]|(x & Hx & E)]; eauto.
      * right. exists a. split; [left|]; auto.
      * right. exists x. split; [right|]; auto.
    + intros [H|(x & [<-|Hx] & E)]; eauto.
Qed.

Lemma comprehension_get_other k l :
  (forall a, In a l -> key a <> k) ->
  forall acc : dict K V,
    dict_get eqb k
             (fold_left (fun d a => dict_set eqb (key a) (val a) d) l acc)
    = dict_get eqb k acc.
Proof.
  induction l as [|a l IH]; intros H acc; cbn [fold_left]; auto.
  rewrite IH by (intros x Hx; apply H; right; auto).
  apply (dict_get_set_other eqb eqb_spec).
  intros E. apply (H a); [left|]; auto.
Qed.

(** The entry kept for a key is the last one of the list. *)
Lemma comprehension_get_last l pre a post (acc : dict K V) :
  l = pre ++ a :: post ->
  (forall x, In x post -> key x <> key a) ->
  dict_get eqb (key a)
           (fold_left (fun d a => dict_set eqb (key a) (val a) d) l acc)
  = Some (val a).
Proof.
  intros -> H. rewrite fold_left_app. cbn [fold_left].
  rewrite comprehension_get_other by auto.
  apply (dict_get_set_same eqb eqb_spec).
Qed.
End Comprehension.

(* ================================================================== *)
(** ** Ports of a run *)

Lemma opens_of_app evs1 evs2 :
  opens_of (evs1 ++ evs2) = opens_of evs1 ++ opens_of evs2.
Proof.
  induction evs1 as [|e evs1 IH]; cbn; auto.
  destruct e; cbn; rewrite IH; auto.
Qed.

Lemma closes_of_app evs1 evs2 :
  closes_of (evs1 ++ evs2) = closes_of evs1 ++ closes_of evs2.
Proof.
  induction evs1 as [|e evs1 IH]; cbn; auto.
  destruct e; cbn; rewrite IH; auto.
Qed.

Lemma motion_no_ports evs :
  Forall (fun e => is_motion_event e = true) evs ->
  opens_of evs = [] /\ closes_of evs = []
  /\ forall p b r, ~ In (EvSetBaudRate p b r) evs.
Proof.
  induction 1 as [|e evs He _ (IH1 & IH2 & IH3)]; cbn.
  - repeat split; auto.
  - destruct e; cbn in He; try discriminate; repeat split; auto;
      intros p0 b0 r0 [?|?]; try discriminate; eapply IH3; eauto.
Qed.

Lemma closes_no_ports hs :
  opens_of (map EvClosePort hs) = []
  /\ closes_of (map EvClosePort hs) = hs
  /\ forall p b r, ~ In (EvSetBaudRate p b r) (map EvClosePort hs).
Proof.
  induction hs as [|h hs (IH1 & IH2 & IH3)]; cbn.
  - repeat split; auto.
  - rewrite IH2. repeat split; auto.
    intros p b r [?|?]; [discriminate|eapply IH3; eauto].
Qed.

Lemma open_connection_ports drv hs p b t :
  exists hs' evs,
    open_connection drv hs (p, b) t = (Ret hs', t ++ evs)
    /\ opens_of evs = [p]
    /\ closes_of evs = []
    /\ forall q c r, In (EvSetBaudRate q c r) evs -> q = p /\ c = b.
Proof.
  assert (B : forall l q c r,
            In (EvSetBaudRate q c r) l ->
            Forall (fun e => forall q c r, e = EvSetBaudRate q c r ->
                                           q = p /\ c = b) l ->
            q = p /\ c = b).
  { intros l q c r Hin F. rewrite Forall_forall in F. eapply F; eauto. }
  unfold open_connection, bind, drv_open, drv_set_baud, queue_put, emit, ret.
  destruct (openPort drv t p) as [[|]|];
    [destruct (setBaudRate drv (t ++ [EvOpenPort p (Some true)]) p b)
       as [[|]|]| |];
    repeat rewrite <- app_assoc; eexists _, _;
    (split; [reflexivity|]); cbn [opens_of closes_of app];
    (split; [reflexivity|]); (split; [reflexivity|]);
    intros q c r H; apply (B _ _ _ _ H);
    repeat (apply Forall_cons;
            [intros ? ? ? E; try discriminate;
             try (injection E as <- <- _; auto)|]);
    apply Forall_nil.
Qed.

(** The acquisition loop asks once for each bus, in order, and closes
    nothing. *)
Lemma open_all_ports drv ports :
  forall acc t,
  exists hs evs,
    foldM (open_connection drv) ports acc t = (Ret hs, t ++ evs)
    /\ opens_of evs = map fst ports
    /\ closes_of evs = []
    /\ forall q c r, In (EvSetBaudRate q c r) evs -> In (q, c) ports.
Proof.
  induction ports as [|[p b] ports IH]; intros acc t; cbn [foldM].
  - exists acc, []. rewrite app_nil_r. repeat split; auto.
  - destruct (open_connection_ports drv acc p b t)
      as (hs1 & evs1 & E1 & O1 & C1 & B1).
    destruct (IH hs1 (t ++ evs1)) as (hs & evs2 & E2 & O2 & C2 & B2).
    exists hs, (evs1 ++ evs2).
    rewrite (bind_Ret _ _ _ _ _ E1), E2, <- app_assoc.
    rewrite opens_of_app, closes_of_app, O1, O2, C1, C2.
    repeat split; auto.
    intros q c r H. apply in_app_or in H. destruct H as [H|H].
    + destruct (B1 _ _ _ H) as (-> & ->). left; auto.
    + right. eapply B2; eauto.
Qed.

Lemma handlers_add_NoDup p hs : NoDup hs -> NoDup (handlers_add p hs).
Proof.
  intros ND. unfold handlers_add. destruct (mem_string p hs) eqn:E; auto.
  apply NoDup_app; [auto|repeat constructor; auto|].
  intros x Hx [<-|[]]. apply mem_string_In in Hx. congruence.
Qed.

Lemma connections_NoDup evs :
  forall open, NoDup open -> NoDup (connections evs open).
Proof.
  induction evs as [|e evs IH]; intros open ND; cbn; auto.
  destruct e as [p r|p b r|p|p q o|p q|s|m]; auto.
  - destruct r as [[|]|]; auto. apply IH, handlers_add_NoDup; auto.
  - apply IH. unfold remove_port. apply NoDup_filter; auto.
Qed.

Lemma connections_In_baud evs :
  forall open p,
    In p (connections evs open) ->
    In p open \/ exists b, In (EvSetBaudRate p b (Some true)) evs.
Proof.
  induction evs as [|e evs IH]; intros open p H; cbn in H; auto.
  destruct e as [q r|q b r|q|q w o|q w|s|m];
    try (destruct (IH _ _ H) as [?|(b0 & ?)]; [auto|right; exists b0; right; auto]; fail).
  - destruct r as [[|]|];
      try (destruct (IH _ _ H) as [?|(b0 & ?)];
           [auto|right; exists b0; right; auto]; fail).
    destruct (IH _ _ H) as [Hin|(b0 & ?)].
    + apply handlers_add_inv in Hin. destruct Hin as [->|?]; auto.
      right. exists b. left; auto.
    + right; exists b0; right; auto.
  - destruct (IH _ _ H) as [Hin|(b0 & ?)].
    + apply remove_port_In in Hin. tauto.
    + right; exists b0; right; auto.
Qed.

Lemma read_or_message_no_ports evs :
  Forall (fun e => is_read_or_message e = true) evs ->
  opens_of evs = [] /\ closes_of evs = []
  /\ forall p b r, ~ In (EvSetBaudRate p b r) evs.
Proof.
  intros F. apply motion_no_ports.
  eapply Forall_impl; [|exact F]. apply read_or_message_is_motion.
Qed.

Lemma unique_ports_keys_NoDup servo_manifest :
  NoDup (dict_keys (unique_ports_of servo_manifest)).
Proof.
  unfold unique_ports_of.
  apply (comprehension_NoDup String.eqb Seqb_spec com_port baud_rate).
  constructor.
Qed.

(** What a run with its configuration does to ports. *)
Lemma run_ports depth polls drv fs filename items address_map t out t' :
  manifest_file fs = Some items ->
  address_file fs = Some address_map ->
  run_animation depth polls drv fs filename t = (out, t') ->
  exists evs,
    t' = t ++ evs
    /\ opens_of evs = dict_keys (unique_ports_of (manifest_of items))
    /\ NoDup (closes_of evs)
    /\ (forall pre p post,
          evs = pre ++ EvClosePort p :: post ->
          exists b, In (EvSetBaudRate p b (Some true)) pre)
    /\ (forall p b r,
          In (EvSetBaudRate p b r) evs ->
          In (p, b) (unique_ports_of (manifest_of items))).
Proof.
  intros Hm Ha Hrun.
  destruct (run_animation_phases _ _ _ _ _ _ _ _ _ _ Hm Ha Hrun)
    as (hs & evs_o & evs_g & evs_m & rest & Eo & -> & Fo & Co & Fg & Fm
        & _ & Hrest).
  destruct (open_all_ports drv (unique_ports_of (manifest_of items)) [] t)
    as (hs' & evs' & E' & O' & C' & B').
  rewrite Eo in E'. injection E' as <- E'. apply app_inv_head in E'.
  subst evs'.
  destruct (read_or_message_no_ports _ Fg) as (Og & Cg & Bg).
  destruct (motion_no_ports _ Fm) as (Om & Cm & Bm).
  assert (Hr : opens_of rest = []
               /\ (closes_of rest = [] \/ closes_of rest = hs)
               /\ (forall p b r, ~ In (EvSetBaudRate p b r) rest)
               /\ (forall p, In (EvClosePort p) rest -> In p hs)).
  { destruct Hrest as [-> |(tail & -> & Ft & _)].
    - repeat split; auto. intros p [].
    - destruct (closes_no_ports hs) as (Oc & Cc & Bc).
      destruct (read_or_message_no_ports _ Ft) as (Ot & Ct & Bt).
      rewrite opens_of_app, closes_of_app, Oc, Cc, Ot, Ct.
      split; [reflexivity|]. split; [right; apply app_nil_r|]. split.
      + intros p b r H. apply in_app_or in H. destruct H as [H|H].
        * eapply Bc; eauto.
        * eapply Bt; eauto.
      + intros p H. apply in_app_or in H. destruct H as [H|H].
        * apply in_map_iff in H. destruct H as (q & [= ->] & ?). auto.
        * rewrite Forall_forall in Ft. specialize (Ft _ H). discriminate. }
  destruct Hr as (Or & Cr & Br & Hcl).
  assert (NDhs : NoDup hs).
  { rewrite <- Co. apply connections_NoDup. constructor. }
  eexists; split; [reflexivity|].
  rewrite !opens_of_app, !closes_of_app, O', Og, Om, Or, C', Cg, Cm.
  rewrite !app_nil_r. cbn [app].
  split; [reflexivity|]. split.
  { destruct Cr as [-> | ->]; auto. constructor. }
  split.
  - intros pre p post E.
    assert (Nc : existsb is_close (evs_o ++ evs_g ++ evs_m) = false).
    { rewrite !existsb_app.
      rewrite (existsb_Forall_false is_close is_acquisition_event evs_o);
        [|intros [] H; cbn in *; congruence
         |apply Forall_forall; rewrite forallb_forall in Fo; auto].
      rewrite (existsb_Forall_false is_close is_read_or_message evs_g);
        [|intros [] H; cbn in *; congruence|auto].
      rewrite (existsb_Forall_false is_close is_motion_event evs_m);
        [|intros [] H; cbn in *; congruence|auto].
      reflexivity. }
    replace (evs_o ++ evs_g ++ evs_m ++ rest)
      with ((evs_o ++ evs_g ++ evs_m) ++ rest) in E
      by (repeat rewrite <- app_assoc; reflexivity).
    destruct (split_after_prefix is_close _ _ _ _ _ E Nc eq_refl)
      as (pre' & -> & Er).
    assert (Hp : In p hs).
    { apply Hcl. rewrite Er. apply in_or_app. right; left; auto. }
    rewrite <- Co in Hp. apply connections_In_baud in Hp.
    destruct Hp as [[]|(b & Hb)].
    exists b. apply in_or_app. left. apply in_or_app. left; auto.
  - intros p b r H.
    apply in_app_or in H. destruct H as [H|H]; [eapply B'; eauto|].
    apply in_app_or in H. destruct H as [H|H]; [destruct (Bg _ _ _ H)|].
    apply in_app_or in H. destruct H as [H|H]; [destruct (Bm _ _ _ H)|].
    destruct (Br _ _ _ H).
Qed.

(** X4. A run asks to open each distinct bus of the manifest exactly once,
    in the order of the buses' first manifest entries; it closes no port
    twice, and closes a port only after that port was opened and set to
    its link speed in the same run. *)
Theorem run_port_discipline depth polls drv fs filename t out t' :
  run_animation depth polls drv fs filename t = (out, t') ->
  exists evs,
    t' = t ++ evs
    /\ NoDup (opens_of evs)
    /\ (forall items address_map,
          manifest_file fs = Some items ->
          address_file fs = Some address_map ->
          opens_of evs = dict_keys (unique_ports_of (manifest_of items)))
    /\ NoDup (closes_of evs)
    /\ (forall pre p post,
          evs = pre ++ EvClosePort p :: post ->
          exists b, In (EvSetBaudRate p b (Some true)) pre).
Proof.
  intros Hrun.
  destruct (manifest_file fs) as [items|] eqn:Hm;
    [destruct (address_file fs) as [address_map|] eqn:Ha|].
  2:{ rewrite run_animation_no_config in Hrun by auto.
      injection Hrun as <- <-. eexists; split; [reflexivity|]. cbn.
      split; [constructor|]. split; [discriminate|].
      split; [constructor|]. intros [|? pre] p post E; [discriminate|].
      destruct pre; discriminate. }
  2:{ rewrite run_animation_no_config in Hrun by auto.
      injection Hrun as <- <-. eexists; split; [reflexivity|]. cbn.
      split; [constructor|]. split; [discriminate|].
      split; [constructor|]. intros [|? pre] p post E; [discriminate|].
      destruct pre; discriminate. }
  destruct (run_ports _ _ _ _ _ _ _ _ _ _ Hm Ha Hrun)
    as (evs & -> & Ho & NDc & Hc & _).
  exists evs. split; auto. split.
  { rewrite Ho. apply unique_ports_keys_NoDup. }
  split; [intros ? ? [= <-] _; exact Ho|]. split; auto.
Qed.

Lemma run_port_discipline_witness :
  exists evs,
    snd (run_animation 3 3 picky_driver two_bus_fs "pose.json" [])
    = [] ++ evs
    /\ NoDup (opens_of evs)
    /\ (forall items address_map,
          manifest_file two_bus_fs = Some items ->
          address_file two_bus_fs = Some address_map ->
          opens_of evs = dict_keys (unique_ports_of (manifest_of items)))
    /\ NoDup (closes_of evs)
    /\ (forall pre p post,
          evs = pre ++ EvClosePort p :: post ->
          exists b, In (EvSetBaudRate p b (Some true)) pre).
Proof.
  apply (run_port_discipline 3 3 picky_driver two_bus_fs "pose.json" []
           (Ret tt)).
  vm_compute. reflexivity.
Defined.

(** X5. The dictionary of buses has one entry per distinct [com_port] of
    the manifest, and the link speed it keeps for a bus is the
    [baud_rate] of the LAST manifest entry on that bus; every
    [setBaudRate] of a run uses that link speed. *)
Theorem bus_link_speed_is_last_entry servo_manifest :
  NoDup (dict_keys (unique_ports_of servo_manifest))
  /\ (forall port,
        In port (dict_keys (unique_ports_of servo_manifest))
        <-> exists servo, In servo (dict_values servo_manifest)
                          /\ com_port servo = port)
  /\ (forall pre servo post,
        dict_values servo_manifest = pre ++ servo :: post ->
        (forall s, In s post -> com_port s <> com_port servo) ->
        dict_get String.eqb (com_port servo) (unique_ports_of servo_manifest)
        = Some (baud_rate servo))
  /\ (forall depth polls drv fs filename items address_map t out t',
        manifest_file fs = Some items ->
        address_file fs = Some address_map ->
        servo_manifest = manifest_of items ->
        run_animation depth polls drv fs filename t = (out, t') ->
        exists evs,
          t' = t ++ evs
          /\ forall p b r,
               In (EvSetBaudRate p b r) evs ->
               dict_get String.eqb p (unique_ports_of servo_manifest)
               = Some b).
Proof.
  split; [apply unique_ports_keys_NoDup|]. split; [|split].
  - intros port. unfold unique_ports_of.
    rewrite (comprehension_keys String.eqb Seqb_spec com_port baud_rate).
    split.
    + intros [[]|H]; auto.
    + auto.
  - intros pre servo post E H. unfold unique_ports_of.
    apply (comprehension_get_last String.eqb Seqb_spec com_port baud_rate
             _ pre servo post); auto.
  - intros depth polls drv fs filename items address_map t out t' Hm Ha ->
           Hrun.
    destruct (run_ports _ _ _ _ _ _ _ _ _ _ Hm Ha Hrun)
      as (evs & -> & _ & _ & _ & Hb).
    exists evs. split; auto. intros p b r H.
    apply (dict_get_unique String.eqb Seqb_spec).
    + apply unique_ports_keys_NoDup.
    + eapply Hb; eauto.
Qed.

(** Two manifest entries on [COM1] with different link speeds: the second
    one's is used. *)
Lemma bus_link_speed_is_last_entry_witness :
  dict_get String.eqb "COM1"
           (unique_ports_of
              [(1, demo_servo 1 "COM1");
               (2, {| id := 2; com_port := "COM1"; baud_rate := 115200;
                      motor_type := 1060 |})])
  = Some 115200.
Proof.
  apply (proj1 (proj2 (proj2 (bus_link_speed_is_last_entry
           [(1, demo_servo 1 "COM1");
            (2, {| id := 2; com_port := "COM1"; baud_rate := 115200;
                   motor_type := 1060 |})])))
           [demo_servo 1 "COM1"]
           {| id := 2; com_port := "COM1"; baud_rate := 115200;
              motor_type := 1060 |} []).
  - reflexivity.
  - intros s [].
Defined.

(* ================================================================== *)
(** ** Duplicate ids in the files *)

Lemma fold_left_ext_eq {A B} (f g : A -> B -> A) l :
  (forall a b, f a b = g a b) ->
  forall a, fold_left f l a = fold_left g l a.
Proof.
  intros H. induction l as [|b l IH]; intros a; cbn; auto.
  rewrite H. apply IH.
Qed.

(** X6. The dictionary comprehensions keep one entry per id, the LAST of
    the file: the manifest built from [session_servos.json] maps an id to
    its last record, and the goal set built from a position file maps an
    id to its last position; a position file that cannot be loaded raises
    inside the caller's [try]. *)
Theorem duplicate_ids_keep_last_entry :
  (forall items,
     NoDup (dict_keys (manifest_of items))
     /\ (forall i, In i (dict_keys (manifest_of items))
                   <-> exists s, In s items /\ id s = i)
     /\ (forall pre s post,
           items = pre ++ s :: post ->
           (forall x, In x post -> id x <> id s) ->
           dict_get Z.eqb (id s) (manifest_of items) = Some s)) /\
  (forall fs filepath,
     json_load fs filepath = None ->
     load_goals fs filepath = Raise OSError) /\
  (forall fs filepath items,
     json_load fs filepath = Some items ->
     exists goals,
       load_goals fs filepath = Ret goals
       /\ NoDup (dict_keys goals)
       /\ (forall i, In i (dict_keys goals) <-> In i (map fst items))
       /\ (forall pre i g post,
             items = pre ++ (i, g) :: post ->
             (forall x, In x post -> fst x <> i) ->
             dict_get Z.eqb i goals = Some g)).
Proof.
  split; [|split].
  - intros items. unfold manifest_of. split; [|split].
    + apply (comprehension_NoDup Z.eqb Zeqb_spec id (fun s => s)).
      constructor.
    + intros i.
      rewrite (comprehension_keys Z.eqb Zeqb_spec id (fun s => s)).
      split; [intros [[]|H]; auto|auto].
    + intros pre s post E H.
      apply (comprehension_get_last Z.eqb Zeqb_spec id (fun s => s)
               _ pre s post); auto.
  - intros fs filepath H. unfold load_goals. rewrite H. reflexivity.
  - intros fs filepath items H. unfold load_goals. rewrite H.
    eexists. split; [reflexivity|].
    rewrite (fold_left_ext_eq _
               (fun d a => dict_set Z.eqb (fst a) (snd a) d))
      by (intros d [k v]; reflexivity).
    split; [|split].
    + apply (comprehension_NoDup Z.eqb Zeqb_spec fst snd). constructor.
    + intros i. rewrite (comprehension_keys Z.eqb Zeqb_spec fst snd).
      rewrite in_map_iff. split.
      * intros [[]|(a & Ha & E)]. exists a. auto.
      * intros (a & E & Ha). right. exists a. auto.
    + intros pre i g post E Hp.
      apply (comprehension_get_last Z.eqb Zeqb_spec fst snd
               _ pre (i, g) post); auto.
Qed.

Lemma duplicate_ids_keep_last_entry_witness :
  dict_get Z.eqb 1 (manifest_of [demo_servo 1 "COM1"; demo_servo 1 "COM2"])
  = Some (demo_servo 1 "COM2").
Proof.
  apply (proj2 (proj2 (proj1 duplicate_ids_keep_last_entry
                         [demo_servo 1 "COM1"; demo_servo 1 "COM2"]))
           [demo_servo 1 "COM1"] (demo_servo 1 "COM2") []).
  - reflexivity.
  - intros x [].
Defined.

(* ================================================================== *)
(** ** The executor and the goal set *)

Lemma moves_by_port_of_known_goals servo_manifest servo_goals :
  moves_by_port_of servo_manifest servo_goals
  = moves_by_port_of servo_manifest (known_goals servo_manifest servo_goals).
Proof.
  unfold moves_by_port_of, known_goals, dict_mem.
  generalize (@nil (string * GoalSet)) as acc.
  induction servo_goals as [|[i g] l IH]; intros acc; cbn [fold_left filter];
    auto.
  cbn [fst]. destruct (dict_get Z.eqb i servo_manifest) as [servo|] eqn:E.
  - cbn [fold_left]. rewrite E. apply IH.
  - apply IH.
Qed.

(** Every goal filed under a bus is an entry of the goal set. *)
Lemma moves_by_port_of_subset servo_manifest servo_goals port goals g :
  In (port, goals) (moves_by_port_of servo_manifest servo_goals) ->
  In g goals -> In g servo_goals.
Proof.
  unfold moves_by_port_of.
  assert (G : forall l (acc : dict string GoalSet),
            (forall p gs x, In (p, gs) acc -> In x gs -> In x servo_goals) ->
            incl l servo_goals ->
            forall p gs x,
              In (p, gs)
                 (fold_left
                    (fun (moves_by_port : dict string GoalSet)
                         '(dxl_id, goal_pos) =>
                       match dict_get Z.eqb dxl_id servo_manifest with
                       | None => moves_by_port
                       | Some servo =>
                           let port_name := com_port servo in
                           let goals :=
                             match dict_get String.eqb port_name
                                            moves_by_port with
                             | Some g => g
                             | None => []
                             end in
                           dict_set String.eqb port_name
                                    (dict_set Z.eqb dxl_id goal_pos goals)
                                    moves_by_port
                       end) l acc) ->
              In x gs -> In x servo_goals).
  { induction l as [|[i gp] l IH]; intros acc Hacc Hl; cbn [fold_left];
      auto.
    apply IH; [|intros y Hy; apply Hl; right; auto].
    destruct (dict_get Z.eqb i servo_manifest) as [servo|]; auto.
    intros p gs x Hin Hx.
    apply (dict_set_In _ Seqb_spec) in Hin. destruct Hin as [[-> ->]|Hin].
    - destruct x as [xi xg].
      apply (dict_set_In _ Zeqb_spec) in Hx. destruct Hx as [[-> ->]|Hx].
      + apply Hl. left; auto.
      + destruct (dict_get String.eqb (com_port servo) acc) as [g0|] eqn:E0;
          [|contradiction].
        apply (dict_get_In _ Seqb_spec) in E0. eapply Hacc; eauto.
    - eapply Hacc; eauto. }
  apply (G servo_goals []); [intros ? ? ? []|apply incl_refl].
Qed.

Lemma max_travel_of_zero travels :
  (forall i tr, In (i, tr) travels -> tr = 0) -> max_travel_of travels = 0.
Proof.
  unfold max_travel_of.
  induction travels as [|[i tr] l IH]; intros Hl; cbn [fold_left]; auto.
  rewrite (Hl i tr) by (left; auto). cbn. apply IH.
  intros j t0 Hj. eapply Hl. right; eauto.
Qed.

Lemma no_write_events evs :
  (forall port params, ~ In (EvBulkWrite port params) evs) ->
  existsb is_write evs = false.
Proof.
  intros H. induction evs as [|e evs IH]; cbn; auto.
  rewrite IH by (intros p ps Hin; apply (H p ps); right; auto).
  destruct e; auto. exfalso. eapply H. left; reflexivity.
Qed.

(** X7. Goal entries whose id the manifest does not know have no effect on
    a synchronized move: the executor does on a goal set exactly what it
    does on the goal set without them. *)
Theorem executor_ignores_unknown_ids drv servo_goals base_velocity
    servo_manifest port_handlers address_map t :
  execute_sync_move drv servo_goals base_velocity servo_manifest
                    port_handlers address_map t
  = execute_sync_move drv (known_goals servo_manifest servo_goals)
                      base_velocity servo_manifest port_handlers address_map
                      t
  /\ forall g, In g (known_goals servo_manifest servo_goals) <->
               In g servo_goals
               /\ exists servo,
                    dict_get Z.eqb (fst g) servo_manifest = Some servo.
Proof.
  split.
  - unfold execute_sync_move.
    rewrite <- moves_by_port_of_known_goals. reflexivity.
  - intros g. unfold known_goals, dict_mem. rewrite filter_In.
    destruct (dict_get Z.eqb (fst g) servo_manifest) as [servo|].
    + split; [intros [? _]; eauto|tauto].
    + split; [intros [_ ?]; discriminate|intros [_ (? & ?)]; discriminate].
Qed.

(** X8. A rig already at its goals is left alone: when every grouped read
    reports, for each actuator of the goal set, the very position the goal
    set asks for, the executor issues no write at all. *)
Theorem no_write_when_already_at_goal drv servo_goals base_velocity
    servo_manifest port_handlers address_map t out t' :
  (forall i g addr,
     In (i, g) servo_goals ->
     address_outcome servo_manifest address_map i = Ret addr ->
     forall tr port reqs,
       getData (txRxPacket drv tr port reqs) i (present_position addr)
               (len_present_position addr) = g) ->
  execute_sync_move drv servo_goals base_velocity servo_manifest
                    port_handlers address_map t = (out, t') ->
  exists evs, t' = t ++ evs /\ existsb is_write evs = false.
Proof.
  intros Hrest H. unfold execute_sync_move, bind in H.
  destruct (for_each _ _ t) as [o t1] eqn:E.
  destruct (sync_move_ports_writes _ _ _ _ _ _ _ _ _ E) as (evs & -> & W).
  assert (t' = t ++ evs) as ->.
  { destruct o as [[]|e|]; injection H as _ <-; reflexivity. }
  exists evs. split; auto. apply no_write_events.
  intros port params Hin.
  destruct (W _ _ Hin)
    as (goals & pre & post & reqs & travels & Hg & _ & _ & Ht & Hmax).
  rewrite max_travel_of_zero in Hmax; [lia|].
  intros i tr Hi. apply mapO_Forall2 in Ht.
  destruct (Forall2_In_r _ _ _ _ Ht Hi) as (g & Hgin & Eg).
  destruct (address_outcome servo_manifest address_map (fst g))
    as [addr| |] eqn:Ea; cbn in Eg; try discriminate.
  injection Eg as <- <-.
  destruct g as [gi gp]. cbn [fst snd] in *.
  rewrite (Hrest gi gp addr); auto; [lia|].
  eapply moves_by_port_of_subset; eauto.
Qed.

Lemma no_write_when_already_at_goal_witness :
  exists evs,
    snd (execute_sync_move demo_driver [(1, 0); (2, 0)] 150 demo_manifest
                           ["COM1"] demo_address_map [])
    = [] ++ evs
    /\ existsb is_write evs = false.
Proof.
  apply (no_write_when_already_at_goal demo_driver [(1, 0); (2, 0)] 150
           demo_manifest ["COM1"] demo_address_map [] (Ret true)).
  - intros i g addr [[= <- <-]|[[= <- <-]|[]]] Ha tr port reqs;
      vm_compute in Ha; injection Ha as <-; reflexivity.
  - vm_compute. reflexivity.
Defined.

(* ================================================================== *)
(** ** The two writes of a bus *)

Lemma Forall2_map_r {A B C} (R : A -> C -> Prop) (f : B -> C) l l' :
  Forall2 (fun a b => R a (f b)) l l' -> Forall2 R l (map f l').
Proof. induction 1; cbn; constructor; auto. Qed.

(** X9. One bus pass either issues no write, or returns after exactly one
    successful read followed by two writes on the same bus: first the
    velocities, then the goals.  Both writes list the actuators of the
    bus's sub-goal-set, in its order.  The velocity parameter of an
    actuator is addressed to its [profile_velocity] register and carries
    the bytes of [int(max(1, (travel / max_travel) * base_velocity))], cut
    to the register's width, where the travels are those of the read just
    made and their maximum is positive; its goal parameter is addressed to
    its [goal_position] register and carries the bytes of its goal, cut to
    that register's width. *)
Theorem bus_writes_velocities_then_goals drv base_velocity servo_manifest
    port_handlers address_map port_name goals t out t' :
  sync_move_port drv base_velocity servo_manifest port_handlers address_map
                 (port_name, goals) t = (out, t') ->
  exists evs,
    t' = t ++ evs
    /\ (existsb is_write evs = false
        \/ exists reqs travels velocities positions,
             evs = [EvBulkRead port_name reqs true;
                    EvBulkWrite port_name velocities;
                    EvBulkWrite port_name positions]
             /\ out = Ret tt
             /\ position_requests servo_manifest address_map goals
                = Ret reqs
             /\ travels_of servo_manifest address_map
                           (txRxPacket drv t port_name reqs) goals
                = Ret travels
             /\ 0 < max_travel_of travels
             /\ map wp_id velocities = map fst goals
             /\ Forall2
                  (fun goal w =>
                     exists addr travel velocity,
                       address_outcome servo_manifest address_map (fst goal)
                       = Ret addr
                       /\ dict_get Z.eqb (fst goal) travels = Some travel
                       /\ sync_velocity travel (max_travel_of travels)
                                        base_velocity = Ret velocity
                       /\ w = {| wp_id := fst goal;
                                 wp_addr := profile_velocity addr;
                                 wp_len := len_profile_velocity addr;
                                 wp_data :=
                                   slice_to (len_profile_velocity addr)
                                            (dxl_bytes velocity) |})
                  goals velocities
             /\ Forall2
                  (fun goal w =>
                     exists addr,
                       address_outcome servo_manifest address_map (fst goal)
                       = Ret addr
                       /\ w = {| wp_id := fst goal;
                                 wp_addr := goal_position addr;
                                 wp_len := len_goal_position addr;
                                 wp_data :=
                                   slice_to (len_goal_position addr)
                                            (dxl_bytes (snd goal)) |})
                  goals positions).
Proof.
  rewrite sync_move_port_eq. unfold bus_pass.
  destruct (negb (mem_string port_name port_handlers)).
  { intros [= <- <-]. exists []. rewrite app_nil_r. auto. }
  destruct (position_requests servo_manifest address_map goals)
    as [reqs|e|] eqn:Er;
    try (intros [= <- <-]; exists []; rewrite app_nil_r; auto).
  cbv zeta.
  set (res := txRxPacket drv t port_name reqs).
  destruct (comm_success res) eqn:Ec; cbn [negb].
  2:{ intros [= <- <-]. eexists. split; [reflexivity|]. left; reflexivity. }
  destruct (travels_of servo_manifest address_map res goals)
    as [travels|e|] eqn:Et;
    try (intros [= <- <-]; eexists; (split; [reflexivity|]);
         left; reflexivity).
  destruct (Z.ltb_spec 0 (max_travel_of travels)) as [Hmax|Hmax].
  2:{ intros [= <- <-]. eexists. split; [reflexivity|]. left; reflexivity. }
  destruct (mapO _ goals) as [params|e|] eqn:Ep;
    try (intros [= <- <-]; eexists; (split; [reflexivity|]);
         left; reflexivity).
  intros [= <- <-]. eexists. rewrite <- app_assoc.
  split; [reflexivity|]. right.
  exists reqs, travels, (map fst params), (map snd params).
  split; [reflexivity|]. split; [reflexivity|]. split; [reflexivity|].
  split; [exact Et|]. split; [exact Hmax|].
  apply mapO_Forall2 in Ep.
  assert (F : Forall2
                (fun goal p =>
                   exists addr travel velocity,
                     address_outcome servo_manifest address_map (fst goal)
                     = Ret addr
                     /\ dict_get Z.eqb (fst goal) travels = Some travel
                     /\ sync_velocity travel (max_travel_of travels)
                                      base_velocity = Ret velocity
                     /\ fst p
                        = {| wp_id := fst goal;
                             wp_addr := profile_velocity addr;
                             wp_len := len_profile_velocity addr;
                             wp_data :=
                               slice_to (len_profile_velocity addr)
                                        (dxl_bytes velocity) |}
                     /\ snd p
                        = {| wp_id := fst goal;
                             wp_addr := goal_position addr;
                             wp_len := len_goal_position addr;
                             wp_data :=
                               slice_to (len_goal_position addr)
                                        (dxl_bytes (snd goal)) |})
                goals params).
  { eapply Forall2_impl; [|exact Ep].
    intros g p Hp. unfold move_params_outcome in Hp.
    destruct (address_outcome servo_manifest address_map (fst g))
      as [addr| |]; cbn [obind] in Hp; try discriminate.
    destruct (dict_get Z.eqb (fst g) travels) as [travel|];
      cbn [obind] in Hp; try discriminate.
    destruct (sync_velocity travel (max_travel_of travels) base_velocity)
      as [velocity| |] eqn:Ev; cbn [obind] in Hp; try discriminate.
    injection Hp as <-. exists addr, travel, velocity. cbn. auto. }
  split; [|split].
  - clear Ep Er Et.
    induction F as [|g p gs ps (a & tr & v & _ & _ & _ & Hv & _) _ IH];
      cbn; auto.
    rewrite Hv, IH. reflexivity.
  - apply Forall2_map_r. eapply Forall2_impl; [|exact F].
    intros g p (a & tr & v & Ha & Ht & Hv & Hf & _).
    exists a, tr, v. auto.
  - apply Forall2_map_r. eapply Forall2_impl; [|exact F].
    intros g p (a & tr & v & Ha & _ & _ & _ & Hs). exists a. auto.
Qed.

(** The rig at travels 100, 50 and 25: velocities 150, 75 and 37, then the
    goals. *)
Lemma bus_writes_velocities_then_goals_witness :
  exists evs,
    snd (sync_move_port demo_driver 150 demo_manifest ["COM1"]
                        demo_address_map ("COM1", demo_goals) [])
    = [] ++ evs
    /\ (existsb is_write evs = false
        \/ exists reqs travels velocities positions,
             evs = [EvBulkRead "COM1" reqs true;
                    EvBulkWrite "COM1" velocities;
                    EvBulkWrite "COM1" positions]
             /\ Ret tt = Ret tt
             /\ position_requests demo_manifest demo_address_map demo_goals
                = Ret reqs
             /\ travels_of demo_manifest demo_address_map
                           (txRxPacket demo_driver [] "COM1" reqs) demo_goals
                = Ret travels
             /\ 0 < max_travel_of travels
             /\ map wp_id velocities = map fst demo_goals
             /\ Forall2
                  (fun goal w =>
                     exists addr travel velocity,
                       address_outcome demo_manifest demo_address_map
                                       (fst goal) = Ret addr
                       /\ dict_get Z.eqb (fst goal) travels = Some travel
                       /\ sync_velocity travel (max_travel_of travels) 150
                          = Ret velocity
                       /\ w = {| wp_id := fst goal;
                                 wp_addr := profile_velocity addr;
                                 wp_len := len_profile_velocity addr;
                                 wp_data :=
                                   slice_to (len_profile_velocity addr)
                                            (dxl_bytes velocity) |})
                  demo_goals velocities
             /\ Forall2
                  (fun goal w =>
                     exists addr,
                       address_outcome demo_manifest demo_address_map
                                       (fst goal) = Ret addr
                       /\ w = {| wp_id := fst goal;
                                 wp_addr := goal_position addr;
                                 wp_len := len_goal_position addr;
                                 wp_data :=
                                   slice_to (len_goal_position addr)
                                            (dxl_bytes (snd goal)) |})
                  demo_goals positions).
Proof.
  apply (bus_writes_velocities_then_goals demo_driver 150 demo_manifest
           ["COM1"] demo_address_map "COM1" demo_goals [] (Ret tt)).
  vm_compute. reflexivity.
Defined.

(* ================================================================== *)
(** ** Steps that are skipped *)

Lemma skipped_step_does_nothing polls recurse drv fs servo_manifest
    port_handlers address_map base_velocity speed_multiplier n i step t :
  skipped step ->
  process_step polls recurse drv fs servo_manifest port_handlers address_map
               base_velocity speed_multiplier n (i, step) t = (Ret tt, t).
Proof.
  unfold skipped, process_step.
  destruct (position_file step) as [pf|]; [|reflexivity].
  intros ->. reflexivity.
Qed.

Lemma skipped_steps_do_nothing polls recurse drv fs servo_manifest
    port_handlers address_map base_velocity speed_multiplier n steps :
  Forall skipped steps ->
  forall i t,
    for_each (process_step polls recurse drv fs servo_manifest port_handlers
                           address_map base_velocity speed_multiplier n)
             (enumerate_from i steps) t = (Ret tt, t).
Proof.
  induction 1 as [|step steps Hs _ IH]; intros i t;
    cbn [enumerate_from for_each]; [reflexivity|].
  unfold bind. rewrite skipped_step_does_nothing by auto. apply IH.
Qed.

(** X10. A step without [position_file] (or with an empty one) is skipped
    as a whole, its [delay_ms] pause included: a script made of such
    steps only puts its first and last message and returns, whatever the
    steps' [delay_ms], [velocity] and [speed] hold. *)
Theorem skipped_steps_skip_their_pause depth polls drv fs filepath script
    speed_multiplier servo_manifest port_handlers address_map t :
  toml_load fs filepath = Some script ->
  Forall skipped (sequence script) ->
  process_sequence (S depth) polls drv fs filepath speed_multiplier
                   servo_manifest port_handlers address_map t
  = (Ret tt,
     t ++ [EvQueuePut (MsgProcessing filepath speed_multiplier);
           EvQueuePut (MsgSequenceComplete filepath)]).
Proof.
  intros Hl Hs. cbn [process_sequence]. rewrite Hl.
  unfold bind at 1, queue_put at 1, emit.
  unfold bind at 1. rewrite skipped_steps_do_nothing by auto.
  unfold queue_put, emit. rewrite <- app_assoc. reflexivity.
Qed.

Lemma skipped_steps_skip_their_pause_witness :
  process_sequence 1 0 demo_driver pause_only_fs "animation/pause.toml"
                   PyFloat.one demo_manifest ["COM1"] demo_address_map []
  = (Ret tt,
     [] ++ [EvQueuePut (MsgProcessing "animation/pause.toml" PyFloat.one);
            EvQueuePut (MsgSequenceComplete "animation/pause.toml")]).
Proof.
  apply (skipped_steps_skip_their_pause 0 0 demo_driver pause_only_fs
           "animation/pause.toml"
           {| base_velocity := None;
              sequence := [{| position_file := None; velocity := None;
                              speed := None;
                              delay_ms := Some (TInt 5000) |};
                           {| position_file := Some (TStr "");
                              velocity := None; speed := None;
                              delay_ms := Some (TStr "long") |}] |}).
  - reflexivity.
  - repeat constructor.
Defined.

(* ================================================================== *)
(** ** An address map without its default block *)

Lemma handlers_add_fresh p hs :
  ~ In p hs -> handlers_add p hs = hs ++ [p].
Proof.
  intros H. unfold handlers_add. destruct (mem_string p hs) eqn:E; auto.
  apply mem_string_In in E. contradiction.
Qed.

(** With a driver that accepts every call, every bus is acquired. *)
Lemma open_all_succeeds drv ports :
  (forall tr p, openPort drv tr p = Some true) ->
  (forall tr p b, setBaudRate drv tr p b = Some true) ->
  forall acc t,
    NoDup (acc ++ map fst ports) ->
    exists evs,
      foldM (open_connection drv) ports acc t
      = (Ret (acc ++ map fst ports), t ++ evs).
Proof.
  intros Ho Hb. induction ports as [|[p b] ports IH]; intros acc t ND;
    cbn [foldM map fst].
  - exists []. rewrite !app_nil_r. reflexivity.
  - assert (E : open_connection drv acc (p, b) t
                = (Ret (acc ++ [p]),
                   t ++ [EvOpenPort p (Some true);
                         EvSetBaudRate p b (Some true)])).
    { unfold open_connection, bind, drv_open, drv_set_baud, ret.
      rewrite Ho, Hb, <- app_assoc. f_equal. f_equal.
      apply handlers_add_fresh. intros Hin.
      apply NoDup_remove_2 in ND. apply ND. apply in_or_app; auto. }
    rewrite (bind_Ret _ _ _ _ _ E).
    destruct (IH (acc ++ [p])
                 (t ++ [EvOpenPort p (Some true);
                        EvSetBaudRate p b (Some true)]))
      as (evs & E2).
    { rewrite <- app_assoc. exact ND. }
    rewrite E2. eexists. rewrite <- !app_assoc. reflexivity.
Qed.

Lemma check_ports_without_default drv servo_manifest address_map port rest
    t :
  dict_get String.eqb "default" address_map = None ->
  servos_on_port servo_manifest port <> [] ->
  check_ports drv servo_manifest address_map (port :: rest) t
  = (Raise KeyError, t).
Proof.
  intros Hd Hs. cbn [check_ports].
  destruct (servos_on_port servo_manifest port) as [|servo servos];
    [contradiction|].
  cbn [mapM]. unfold bind, torque_request, lift, get_address_info.
  rewrite Hd. reflexivity.
Qed.

(** X11. An address map without a ["default"] block stops the run at the
    safety gate with a KeyError, even when every motor type of the
    manifest has a block of its own: with a manifest that is not empty and
    buses that all open, the run raises after acquiring every bus, before
    any transaction, and closes none of them. *)
Theorem run_without_default_block_raises depth polls drv fs filename items
    address_map t :
  manifest_file fs = Some items ->
  items <> [] ->
  address_file fs = Some address_map ->
  dict_get String.eqb "default" address_map = None ->
  (forall tr p, openPort drv tr p = Some true) ->
  (forall tr p b, setBaudRate drv tr p b = Some true) ->
  exists evs,
    run_animation depth polls drv fs filename t = (Raise KeyError, t ++ evs)
    /\ existsb is_transaction evs = false
    /\ closes_of evs = []
    /\ connections evs [] = dict_keys (unique_ports_of (manifest_of items))
    /\ connections evs [] <> [].
Proof.
  intros Hm Hne Ha Hd Ho Hb.
  rewrite (run_animation_eq _ _ _ _ _ _ _ _ Hm Ha).
  set (ports := unique_ports_of (manifest_of items)).
  destruct (open_all_spec drv ports [] t)
    as (hs & evs_o & Eo & Fo & Co & _).
  destruct (open_all_succeeds drv ports Ho Hb [] t) as (evs' & E').
  { apply unique_ports_keys_NoDup. }
  rewrite Eo in E'. injection E' as -> E'. clear E' evs'.
  destruct (open_all_ports drv ports [] t) as (hs' & evs' & E' & _ & C' & _).
  rewrite Eo in E'. injection E' as _ E'. apply app_inv_head in E'.
  subst evs'. cbn [app] in *.
  (* the first bus has an actuator *)
  destruct items as [|s0 items0]; [contradiction|].
  assert (Hk : In (id s0) (dict_keys (manifest_of (s0 :: items0)))).
  { unfold manifest_of.
    apply (comprehension_keys Z.eqb Zeqb_spec id (fun s => s)).
    right. exists s0. split; [left|]; auto. }
  apply in_map_iff in Hk. destruct Hk as ([i0 sv] & _ & Hsv).
  assert (Hp : In (com_port sv) (dict_keys ports)).
  { unfold ports, unique_ports_of.
    apply (comprehension_keys String.eqb Seqb_spec com_port baud_rate).
    right. exists sv. split; auto.
    apply in_map_iff. exists (i0, sv). auto. }
  destruct (dict_keys ports) as [|p1 ps] eqn:Ek; [destruct Hp|].
  assert (H1 : servos_on_port (manifest_of (s0 :: items0)) p1 <> []).
  { assert (Hp1 : In p1 (dict_keys ports)) by (rewrite Ek; left; auto).
    unfold ports, unique_ports_of in Hp1.
    apply (comprehension_keys String.eqb Seqb_spec com_port baud_rate)
      in Hp1.
    destruct Hp1 as [[]|(s & Hs & Es)].
    intros E. assert (Hin : In s (servos_on_port
                                    (manifest_of (s0 :: items0)) p1)).
    { unfold servos_on_port. apply filter_In. split; auto.
      rewrite Es. apply String.eqb_refl. }
    rewrite E in Hin. destruct Hin. }
  rewrite (bind_Ret _ _ _ _ _ Eo).
  unfold after_acquisition. fold ports.
  replace (List.length (map fst ports)) with (List.length ports)
    by (symmetry; apply length_map).
  rewrite Nat.eqb_refl. cbn [negb].
  unfold bind at 1, check_torque_status, bind at 1, queue_put, emit.
  unfold bind at 1. unfold dict_keys in Ek. rewrite Ek.
  rewrite check_ports_without_default by auto.
  exists (evs_o ++ [EvQueuePut MsgPreflight]).
  rewrite app_assoc. split; [reflexivity|].
  destruct (acquisition_no_transaction _ Fo) as (To & _ & _).
  rewrite existsb_app, To, closes_of_app, C', connections_app, Co.
  cbn [existsb is_transaction closes_of connections app orb].
  rewrite Ek. repeat split; auto. discriminate.
Qed.

Lemma run_without_default_block_raises_witness :
  exists evs,
    run_animation 3 3 demo_driver no_default_fs "pose.json" []
    = (Raise KeyError, [] ++ evs)
    /\ existsb is_transaction evs = false
    /\ closes_of evs = []
    /\ connections evs []
       = dict_keys (unique_ports_of (manifest_of demo_items))
    /\ connections evs [] <> [].
Proof.
  apply (run_without_default_block_raises 3 3 demo_driver no_default_fs
           "pose.json" demo_items [("1060", demo_addr)] []).
  - reflexivity.
  - discriminate.
  - reflexivity.
  - reflexivity.
  - reflexivity.
  - reflexivity.
Defined.

(* ================================================================== *)
(** ** What the poller puts on the buses *)

Lemma moving_requests_spec servo_manifest address_map ids :
  forall t reqs t',
    mapM (moving_request servo_manifest address_map) ids t = (Ret reqs, t') ->
    Forall2 (fun i r =>
               exists servo addr,
                 dict_get Z.eqb i servo_manifest = Some servo
                 /\ get_address_info (motor_type servo) address_map
                    = Ret addr
                 /\ r = {| rq_id := i; rq_addr := moving addr;
                           rq_len := len_moving addr |})
            ids reqs.
Proof.
  induction ids as [|i ids IH]; intros t reqs t' H; cbn [mapM] in H.
  - injection H as <- _. constructor.
  - apply bind_inv_Ret in H. destruct H as (r & t1 & H1 & H).
    apply bind_inv_Ret in H. destruct H as (rs & t2 & H2 & H).
    injection H as <- _.
    constructor; [|eapply IH; eauto].
    unfold moving_request, address_of, manifest_lookup, bind, lift in H1.
    destruct (dict_get Z.eqb i servo_manifest) as [servo|] eqn:Ek;
      try discriminate.
    destruct (get_address_info (motor_type servo) address_map)
      as [addr|e|] eqn:Ea; try discriminate.
    injection H1 as <- _. exists servo, addr. auto.
Qed.

(** Every id filed under a bus comes from the pending set. *)
Lemma servos_by_port_of_subset servo_manifest servos_to_check port ids x :
  In (port, ids) (servos_by_port_of servo_manifest servos_to_check) ->
  In x ids -> In x servos_to_check.
Proof.
  unfold servos_by_port_of.
  change (In (port, ids)
             (fold_left (file_id servo_manifest) servos_to_check []) ->
          In x ids -> In x servos_to_check).
  assert (G : forall l (acc : dict string (list Z)),
            (forall p l0 y, In (p, l0) acc -> In y l0 ->
                            In y servos_to_check) ->
            incl l servos_to_check ->
            forall p l0 y,
              In (p, l0) (fold_left (file_id servo_manifest) l acc) ->
              In y l0 -> In y servos_to_check).
  { induction l as [|i l IH]; intros acc Hacc Hl; cbn [fold_left]; auto.
    apply IH; [|intros y Hy; apply Hl; right; auto].
    unfold file_id.
    destruct (dict_get Z.eqb i servo_manifest) as [servo|]; auto.
    intros p l0 y Hin Hy.
    apply (dict_set_In _ Seqb_spec) in Hin. destruct Hin as [[-> ->]|Hin].
    - apply in_app_or in Hy. destruct Hy as [Hy|[<-|[]]].
      + destruct (dict_get String.eqb (com_port servo) acc) as [g0|] eqn:E0;
          [|contradiction].
        apply (dict_get_In _ Seqb_spec) in E0. eapply Hacc; eauto.
      + apply Hl. left; auto.
    - eapply Hacc; eauto. }
  apply (G servos_to_check []); [intros ? ? ? []|apply incl_refl].
Qed.

Lemma poll_port_events drv servo_manifest port_handlers address_map
    servo_goals s port ids :
  (forall x, In x ids ->
     In x (dict_keys servo_goals)
     /\ exists servo, dict_get Z.eqb x servo_manifest = Some servo
                      /\ com_port servo = port) ->
  only (poller_event servo_manifest port_handlers address_map servo_goals)
       (poll_port drv servo_manifest port_handlers address_map s (port, ids)).
Proof.
  intros Hids t. unfold poll_port.
  set (ids_to_poll := filter (fun x => mem_Z x ids) s).
  assert (Hsub : forall y, In y ids_to_poll -> In y ids).
  { intros y Hy. apply filter_In in Hy. apply mem_Z_In. tauto. }
  destruct ids_to_poll as [|i0 rest] eqn:Eids.
  { exists []. rewrite app_nil_r. auto. }
  rewrite <- Eids in *.
  destruct (mem_string port port_handlers) eqn:Ep; cbn [negb].
  2:{ exists []. rewrite app_nil_r. auto. }
  unfold bind at 1.
  destruct (mapM (moving_request servo_manifest address_map) ids_to_poll t)
    as [o t1] eqn:Em.
  assert (t1 = t).
  { eapply pure_eq; [|exact Em]. apply pure_mapM.
    intros; apply pure_moving_request. }
  subst t1.
  destruct o as [reqs|e|]; try (exists []; rewrite app_nil_r; auto; fail).
  unfold bind at 1, bulk_read.
  set (res := txRxPacket drv t port reqs).
  assert (Hev : poller_event servo_manifest port_handlers address_map
                             servo_goals
                             (EvBulkRead port reqs (comm_success res))).
  { right; right; right. exists port, reqs, (comm_success res).
    split; auto. split; [apply mem_string_In; auto|].
    apply moving_requests_spec in Em. split.
    - intros ->. rewrite Eids in Em. inversion Em.
    - clear Eids.
      induction Em as [|i r il rl (servo & addr & Hk & Ea & ->) _ IH];
        constructor.
      + destruct (Hids i) as (Hkey & servo' & Hk' & Hport).
        { apply Hsub. left; auto. }
        exists servo, addr. cbn. repeat split; auto. congruence.
      + apply IH. intros y Hy. apply Hsub. right; auto. }
  destruct (comm_success res); cbn [negb].
  - destruct (foldM (poll_servo res servo_manifest address_map) ids_to_poll s
                    (t ++ [EvBulkRead port reqs true])) as [o2 t2] eqn:Ef.
    assert (t2 = t ++ [EvBulkRead port reqs true]).
    { eapply pure_eq; [|exact Ef]. apply pure_foldM.
      intros; apply pure_poll_servo. }
    subst t2. exists [EvBulkRead port reqs true]. split; auto.
  - exists [EvBulkRead port reqs false]. split; auto.
Qed.

Lemma poll_loop_events polls drv servo_manifest port_handlers address_map
    servo_goals servos_by_port :
  (forall port ids x, In (port, ids) servos_by_port -> In x ids ->
     In x (dict_keys servo_goals)
     /\ exists servo, dict_get Z.eqb x servo_manifest = Some servo
                      /\ com_port servo = port) ->
  forall s,
    only (poller_event servo_manifest port_handlers address_map servo_goals)
         (poll_loop polls drv servo_manifest port_handlers address_map
                    servos_by_port s).
Proof.
  intros G. induction polls as [|n IH]; intros s; cbn [poll_loop].
  - destruct s; [apply only_ret|apply only_out_of_fuel].
  - destruct s as [|x s]; [apply only_ret|].
    apply only_bind; [|intros; apply IH].
    unfold poll_cycle. apply only_bind.
    + apply only_foldM_In. intros s0 [port ids] Hin.
      apply poll_port_events. intros y Hy. eapply G; eauto.
    + intros [|y r]; [apply only_ret|].
      apply only_bind; [|intros; apply only_ret].
      apply only_sleep. right; right; left; reflexivity.
Qed.

(** X12. Whatever its outcome, the poller puts on the trace nothing but
    its two messages, sleeps of 0.02 s, and grouped reads; each read is on
    a bus that has a handler, is not empty, and asks only for the
    [moving] register of actuators that are in the goal set and that the
    manifest files under that bus.  It never writes, opens or closes. *)
Theorem poller_only_reads_moving_registers polls drv servo_goals
    servo_manifest port_handlers address_map t out t' :
  wait_for_move_completion polls drv servo_goals servo_manifest
                           port_handlers address_map t = (out, t') ->
  exists evs,
    t' = t ++ evs
    /\ Forall (poller_event servo_manifest port_handlers address_map
                            servo_goals) evs.
Proof.
  intros H.
  assert (O : only (poller_event servo_manifest port_handlers address_map
                                 servo_goals)
                   (wait_for_move_completion polls drv servo_goals
                      servo_manifest port_handlers address_map)).
  { unfold wait_for_move_completion.
    apply only_bind; [apply only_emit; left; reflexivity|]. intros _.
    apply only_bind;
      [|intros; apply only_emit; right; left; reflexivity].
    apply poll_loop_events. intros port ids x Hin Hx.
    destruct (servos_by_port_of_grouped servo_manifest
                (servos_to_check_of servo_goals)) as (_ & G).
    split; [|eapply G; eauto].
    apply (servos_by_port_of_subset _ _ _ _ _ Hin) in Hx.
    unfold servos_to_check_of in Hx. apply nodup_In in Hx. exact Hx. }
  destruct (O t) as (evs & E & F). rewrite H in E. cbn in E.
  exists evs. auto.
Qed.

Lemma poller_only_reads_moving_registers_witness :
  exists evs,
    snd (wait_for_move_completion 3 flaky_driver demo_goals demo_manifest
                                  ["COM1"] demo_address_map [])
    = [] ++ evs
    /\ Forall (poller_event demo_manifest ["COM1"] demo_address_map
                            demo_goals) evs.
Proof.
  apply (poller_only_reads_moving_registers 3 flaky_driver demo_goals
           demo_manifest ["COM1"] demo_address_map []
           (fst (wait_for_move_completion 3 flaky_driver demo_goals
                   demo_manifest ["COM1"] demo_address_map []))).
  vm_compute. reflexivity.
Defined.

(* ================================================================== *)
(** * The maintenance tools *)

(** ** Lists, [find] and the stable sort *)

Lemma find_app {A} (f : A -> bool) l l' :
  find f (l ++ l') = match find f l with Some x => Some x | None => find f l' end.
Proof.
  induction l as [|a l IH]; cbn; auto. destruct (f a); auto.
Qed.

Lemma find_None_filter {A} (f : A -> bool) l :
  find f l = None -> filter f l = [].
Proof.
  induction l as [|a l IH]; cbn; auto. destruct (f a); [discriminate|auto].
Qed.

Lemma on_port_true port servo : on_port port servo = true <-> com_port servo = port.
Proof. unfold on_port. apply Seqb_spec. Qed.

Lemma on_port_false port servo :
  on_port port servo = false <-> com_port servo <> port.
Proof. unfold on_port. apply (eqb_false_neq String.eqb Seqb_spec). Qed.

Lemma insert_sorted_perm {A} (key : A -> Z) x l :
  Permutation (insert_sorted key x l) (x :: l).
Proof.
  induction l as [|y l IH]; cbn; auto.
  destruct (key x <? key y); auto.
  rewrite IH. apply perm_swap.
Qed.

Lemma sorted_by_snoc {A} (key : A -> Z) l x :
  sorted_by key (l ++ [x]) = insert_sorted key x (sorted_by key l).
Proof. unfold sorted_by. rewrite fold_left_app. reflexivity. Qed.

Lemma sorted_by_perm {A} (key : A -> Z) l : Permutation (sorted_by key l) l.
Proof.
  induction l as [|x l IH] using rev_ind; [reflexivity|].
  rewrite sorted_by_snoc, insert_sorted_perm, IH.
  apply Permutation_cons_append.
Qed.

Lemma insert_sorted_sorted {A} (key : A -> Z) x l :
  StronglySorted (fun a b => key a <= key b) l ->
  StronglySorted (fun a b => key a <= key b) (insert_sorted key x l).
Proof.
  induction 1 as [|y l Hs IH Hy]; cbn.
  - constructor; constructor.
  - destruct (key x <? key y) eqn:E.
    + apply Z.ltb_lt in E. constructor; [constructor; auto|].
      constructor; [lia|].
      eapply Forall_impl; [|exact Hy]. cbn. intros; lia.
    + apply Z.ltb_ge in E. constructor; auto.
      eapply Permutation_Forall; [symmetry; apply insert_sorted_perm|].
      constructor; auto.
Qed.

Lemma sorted_by_sorted {A} (key : A -> Z) l :
  StronglySorted (fun a b => key a <= key b) (sorted_by key l).
Proof.
  induction l as [|x l IH] using rev_ind; [constructor|].
  rewrite sorted_by_snoc. apply insert_sorted_sorted, IH.
Qed.

(** The sort is stable: the entries of one key keep their order. *)
Lemma insert_sorted_stable {A} (key : A -> Z) k x l :
  StronglySorted (fun a b => key a <= key b) l ->
  filter (fun a => key a =? k) (insert_sorted key x l)
  = filter (fun a => key a =? k) l ++ (if key x =? k then [x] else []).
Proof.
  induction 1 as [|y l Hs IH Hy]; cbn.
  - destruct (key x =? k); reflexivity.
  - destruct (key x <? key y) eqn:E.
    + apply Z.ltb_lt in E. cbn.
      destruct (key x =? k) eqn:Ex; [|rewrite app_nil_r; reflexivity].
      apply Z.eqb_eq in Ex.
      assert (Ey : (key y =? k) = false) by (apply Z.eqb_neq; lia).
      rewrite Ey.
      replace (filter (fun a => key a =? k) l) with (@nil A); auto.
      symmetry. clear IH Hs. induction Hy as [|z l Hz _ IH]; cbn; auto.
      replace (key z =? k) with false by (symmetry; apply Z.eqb_neq; lia).
      exact IH.
    + cbn. rewrite IH. destruct (key y =? k); reflexivity.
Qed.

Lemma sorted_by_stable {A} (key : A -> Z) k l :
  filter (fun a => key a =? k) (sorted_by key l)
  = filter (fun a => key a =? k) l.
Proof.
  induction l as [|x l IH] using rev_ind; [reflexivity|].
  rewrite sorted_by_snoc, insert_sorted_stable by apply sorted_by_sorted.
  rewrite IH, filter_app. reflexivity.
Qed.

Lemma sorted_by_nil_inv {A} (key : A -> Z) l : sorted_by key l = [] -> l = [].
Proof.
  intros E. apply Permutation_nil. rewrite <- E.
  apply sorted_by_perm.
Qed.

(** ** The grouping by port *)

Lemma tool_servos_by_port_snoc l servo :
  tool_servos_by_port (l ++ [servo])
  = let port := com_port servo in
    let d := tool_servos_by_port l in
    let d' := if dict_mem String.eqb port d then d
              else dict_set String.eqb port (baud_rate servo, []) d in
    match dict_get String.eqb port d' with
    | Some (baud, servos) =>
        dict_set String.eqb port (baud, servos ++ [servo]) d'
    | None => d'
    end.
Proof. unfold tool_servos_by_port. rewrite fold_left_app. reflexivity. Qed.

Lemma tool_groups manifest :
  NoDup (dict_keys (tool_servos_by_port manifest)) /\
  forall port,
    dict_get String.eqb port (tool_servos_by_port manifest)
    = option_map
        (fun first => (baud_rate first, filter (on_port port) manifest))
        (find (on_port port) manifest).
Proof.
  induction manifest as [|s l (ND & IH)] using rev_ind.
  - split; [constructor|reflexivity].
  - rewrite tool_servos_by_port_snoc. cbn zeta.
    set (p := com_port s). set (d := tool_servos_by_port l) in *.
    assert (Hs : on_port p s = true) by (apply on_port_true; reflexivity).
    unfold dict_mem. pose proof (IH p) as Hp.
    destruct (find (on_port p) l) as [first|] eqn:Ef; cbn in Hp; rewrite Hp.
    + rewrite Hp. split; [apply (dict_set_NoDup _ Seqb_spec); exact ND|].
      intros q. rewrite find_app, filter_app. cbn [find filter].
      destruct (String.eqb q p) eqn:E.
      * apply Seqb_spec in E. subst q.
        rewrite (dict_get_set_same _ Seqb_spec), Ef, Hs. reflexivity.
      * apply (eqb_false_neq _ Seqb_spec) in E.
        rewrite (dict_get_set_other _ Seqb_spec) by exact E.
        assert (Hq : on_port q s = false)
          by (apply on_port_false; fold p; congruence).
        rewrite Hq, app_nil_r, IH.
        destruct (find (on_port q) l); reflexivity.
    + rewrite (dict_get_set_same _ Seqb_spec).
      split; [do 2 apply (dict_set_NoDup _ Seqb_spec); exact ND|].
      intros q. rewrite find_app, filter_app. cbn [find filter].
      destruct (String.eqb q p) eqn:E.
      * apply Seqb_spec in E. subst q.
        rewrite (dict_get_set_same _ Seqb_spec), Ef, Hs.
        rewrite (find_None_filter _ _ Ef). reflexivity.
      * apply (eqb_false_neq _ Seqb_spec) in E.
        rewrite !(dict_get_set_other _ Seqb_spec) by exact E.
        assert (Hq : on_port q s = false)
          by (apply on_port_false; fold p; congruence).
        rewrite Hq, app_nil_r, IH.
        destruct (find (on_port q) l); reflexivity.
Qed.

Lemma app_nil_end_eq {A} (t : list A) : t = t ++ [].
Proof. symmetry. apply app_nil_r. Qed.

(** ** torque_control.py *)

Lemma torque_params_spec address_map v servos t :
  v = 0 \/ v = 1 ->
  exists o,
    tmapM (torque_param address_map v) servos t = (o, t) /\
    forall params, o = Ret params ->
                   Forall2 (torque_param_of address_map v) servos params.
Proof.
  intros Hv. induction servos as [|s servos (o & E & IH)]; cbn [tmapM].
  - exists (Ret []). split; [reflexivity|]. intros ? [= <-]. constructor.
  - unfold torque_param at 1. unfold tbind at 1 2, tlift.
    destruct (get_address_info (motor_type s) address_map) as [addr| |] eqn:Ea;
      [|eexists; split; [reflexivity|discriminate]..].
    unfold tret at 1. unfold tbind. rewrite E.
    destruct o as [params| |];
      [|eexists; split; [reflexivity|discriminate]..].
    eexists; split; [reflexivity|]. intros ? [= <-].
    constructor; [|apply IH; reflexivity].
    exists addr. split; [exact Ea|].
    destruct Hv as [-> | ->]; reflexivity.
Qed.

Lemma remove_port_fresh p l : ~ In p l -> remove_port p l = l.
Proof.
  unfold remove_port. induction l as [|q l IH]; cbn; auto.
  intros H. destruct (String.eqb q p) eqn:E; cbn.
  - apply Seqb_spec in E. exfalso. apply H. auto.
  - rewrite IH; auto.
Qed.

Lemma remove_port_last p l : ~ In p l -> remove_port p (l ++ [p]) = l.
Proof.
  intros H. unfold remove_port. rewrite filter_app. cbn.
  rewrite String.eqb_refl. cbn. rewrite app_nil_r.
  apply remove_port_fresh. exact H.
Qed.

Ltac tool_trace :=
  do 2 eexists; split; [rewrite <- ?app_assoc; cbn [app]; reflexivity|].

(** One bus of [set_torque]: what it does, that a normal return has either
    written or reported the bus, and which port it leaves open. *)
Lemma torque_port_spec bench address_map enabling v p b servos t :
  v = 0 \/ v = 1 ->
  exists o evs,
    torque_port bench address_map enabling v (p, (b, servos)) t
    = (o, t ++ evs) /\
    Forall (torque_event address_map v p servos) evs /\
    (o = Ret tt ->
     torque_covered address_map v p servos evs /\
     forall open, ~ In p open ->
                  tool_open_ports evs open
                  = if refused evs p then open ++ [p] else open).
Proof.
  intros Hv. unfold torque_port, tbind, tool_open, tool_set_baud, tput,
    tool_close, temit.
  destruct (bench_openPort bench t p) as [[|]|] eqn:Eo.
  - destruct (bench_setBaudRate bench _ p b) as [[|]|] eqn:Eb.
    + destruct (torque_params_spec address_map v servos
                  (((t ++ [TvOpenPort p (Some true)])
                      ++ [TvSetBaudRate p b (Some true)])
                     ++ [TvPut (TmSending p)]) Hv) as (o & E & Hp).
      rewrite E. destruct o as [params| |].
      * specialize (Hp _ eq_refl).
        destruct (bench_txPacket bench _ p params) eqn:Ew; tool_trace.
        all: split; [repeat constructor; auto|].
        all: intros _; split; [left; exists params; eexists; split;
                                 [cbn; eauto|exact Hp]|].
        all: intros open Hn; cbn.
        all: rewrite (handlers_add_fresh _ _ Hn); apply remove_port_last, Hn.
      * tool_trace. split; [repeat constructor; auto|discriminate].
      * tool_trace. split; [repeat constructor; auto|discriminate].
    + tool_trace. split; [repeat constructor; auto|].
      intros _. split; [right; cbn; auto|].
      intros open Hn. cbn. rewrite String.eqb_refl. cbn.
      apply handlers_add_fresh, Hn.
    + tool_trace. split; [repeat constructor; auto|discriminate].
  - tool_trace. split; [repeat constructor; auto|].
    intros _. split; [right; cbn; auto|].
    intros open Hn. reflexivity.
  - tool_trace. split; [repeat constructor; auto|discriminate].
Qed.

Lemma tool_open_ports_app evs1 evs2 open :
  tool_open_ports (evs1 ++ evs2) open
  = tool_open_ports evs2 (tool_open_ports evs1 open).
Proof.
  revert open. induction evs1 as [|e evs1 IH]; intros open; cbn; auto.
  destruct e as [q [[|]|]|q b r|q| | | | | | |]; auto.
Qed.

Lemma refused_app evs1 evs2 p :
  refused (evs1 ++ evs2) p = (refused evs1 p || refused evs2 p)%bool.
Proof. unfold refused. apply existsb_app. Qed.

Lemma refused_elsewhere ports evs q :
  Forall (on_ports ports) evs -> ~ In q ports -> refused evs q = false.
Proof.
  intros F Hq. unfold refused.
  induction F as [|e evs He _ IH]; cbn; auto. rewrite IH, orb_false_r.
  destruct e as [q' r|q' b [[|]|]|q'| | | | | | |]; auto.
  cbn in He. apply (eqb_false_neq _ Seqb_spec). congruence.
Qed.

Lemma torque_event_on_port address_map v p servos e :
  torque_event address_map v p servos e -> on_ports [p] e.
Proof. destruct e; cbn; auto; tauto. Qed.

Lemma on_ports_weaken ports ports' e :
  (forall q, In q ports -> In q ports') -> on_ports ports e -> on_ports ports' e.
Proof. intros H. destruct e; cbn; auto. Qed.

Lemma torque_covered_app_l address_map v p servos evs1 evs2 :
  torque_covered address_map v p servos evs1 ->
  torque_covered address_map v p servos (evs1 ++ evs2).
Proof.
  intros [(params & ok & H & F)|H]; [left|right].
  - exists params, ok. split; auto. apply in_or_app; auto.
  - apply in_or_app; auto.
Qed.

Lemma torque_covered_app_r address_map v p servos evs1 evs2 :
  torque_covered address_map v p servos evs2 ->
  torque_covered address_map v p servos (evs1 ++ evs2).
Proof.
  intros [(params & ok & H & F)|H]; [left|right].
  - exists params, ok. split; auto. apply in_or_app; auto.
  - apply in_or_app; auto.
Qed.

(** The loop of [set_torque] over the buses. *)
Lemma torque_ports_spec bench address_map enabling v entries :
  v = 0 \/ v = 1 ->
  NoDup (map fst entries) ->
  forall t, exists o evs,
    tfor_each (torque_port bench address_map enabling v) entries t
    = (o, t ++ evs) /\
    Forall (fun e => exists p b servos,
                In (p, (b, servos)) entries /\
                torque_event address_map v p servos e) evs /\
    (o = Ret tt ->
     (forall p b servos,
         In (p, (b, servos)) entries ->
         torque_covered address_map v p servos evs) /\
     forall open,
       (forall p, In p (map fst entries) -> ~ In p open) ->
       tool_open_ports evs open
       = open ++ filter (refused evs) (map fst entries)).
Proof.
  intros Hv. induction entries as [|[p [b servos]] entries IH];
    intros ND t; cbn [tfor_each].
  - exists (Ret tt), []. split; [unfold tret; rewrite app_nil_r; auto|].
    split; [constructor|]. intros _. split; [intros ? ? ? []|].
    intros open _. cbn. rewrite app_nil_r. reflexivity.
  - inversion ND as [|? ? Hp ND']; subst.
    destruct (torque_port_spec bench address_map enabling v p b servos t Hv)
      as (o1 & evs1 & E1 & F1 & H1).
    unfold tbind. rewrite E1. destruct o1 as [[]| |].
    + destruct (IH ND' (t ++ evs1)) as (o2 & evs2 & E2 & F2 & H2).
      rewrite E2. exists o2, (evs1 ++ evs2).
      split; [rewrite app_assoc; reflexivity|].
      split.
      { apply Forall_app. split.
        - eapply Forall_impl; [|exact F1]. intros e He.
          exists p, b, servos. split; [left; reflexivity|exact He].
        - eapply Forall_impl; [|exact F2].
          intros e (q & b' & sv & Hin & He).
          exists q, b', sv. split; [right; exact Hin|exact He]. }
      intros ->. destruct (H1 eq_refl) as (C1 & O1).
      destruct (H2 eq_refl) as (C2 & O2). split.
      { intros q b' sv [[= <- <- <-]|Hin].
        - apply torque_covered_app_l, C1.
        - apply torque_covered_app_r. eapply C2; eauto. }
      intros open Hopen.
      assert (P1 : Forall (on_ports [p]) evs1).
      { eapply Forall_impl; [|exact F1]. intros e.
        apply torque_event_on_port. }
      assert (P2 : Forall (on_ports (map fst entries)) evs2).
      { eapply Forall_impl; [|exact F2].
        intros e (q & b' & sv & Hin & He).
        apply torque_event_on_port in He.
        eapply on_ports_weaken; [|exact He].
        intros q' [<-|[]]. apply in_map_iff. exists (q, (b', sv)). auto. }
      rewrite tool_open_ports_app, O1
        by (apply Hopen; left; reflexivity).
      cbn [map fst filter]. rewrite refused_app.
      rewrite (refused_elsewhere _ _ p P2 Hp), orb_false_r.
      assert (R : filter (refused (evs1 ++ evs2)) (map fst entries)
                  = filter (refused evs2) (map fst entries)).
      { apply filter_ext_in. intros q Hq. rewrite refused_app.
        rewrite (refused_elsewhere [p] evs1 q P1); auto.
        intros [<-|[]]. contradiction. }
      rewrite R. destruct (refused evs1 p).
      * rewrite O2.
        -- rewrite <- app_assoc. reflexivity.
        -- intros q Hq Hin. apply in_app_or in Hin.
           destruct Hin as [Hin|[<-|[]]]; [|contradiction].
           apply (Hopen q); [right; exact Hq|exact Hin].
      * apply O2. intros q Hq. apply Hopen. right. exact Hq.
    + exists (Raise e), evs1. split; auto. split; [|discriminate].
      eapply Forall_impl; [|exact F1]. intros e' He.
      exists p, b, servos. split; [left; reflexivity|exact He].
    + exists OutOfFuel, evs1. split; auto. split; [|discriminate].
      eapply Forall_impl; [|exact F1]. intros e' He.
      exists p, b, servos. split; [left; reflexivity|exact He].
Qed.

Lemma tool_groups_In manifest p b servos :
  In (p, (b, servos)) (tool_servos_by_port manifest) ->
  servos = filter (on_port p) manifest /\
  exists first, find (on_port p) manifest = Some first /\ b = baud_rate first.
Proof.
  intros Hin. destruct (tool_groups manifest) as (ND & Hget).
  apply (dict_get_unique String.eqb Seqb_spec _ _ _ ND) in Hin.
  rewrite Hget in Hin.
  destruct (find (on_port p) manifest) as [first|]; [|discriminate].
  cbn in Hin. injection Hin as <- <-. eauto.
Qed.

Lemma tool_groups_cover manifest servo :
  In servo manifest ->
  exists b,
    In (com_port servo, (b, filter (on_port (com_port servo)) manifest))
       (tool_servos_by_port manifest).
Proof.
  intros Hin. destruct (tool_groups manifest) as (ND & Hget).
  specialize (Hget (com_port servo)).
  destruct (find (on_port (com_port servo)) manifest) as [first|] eqn:Ef.
  - cbn in Hget. exists (baud_rate first).
    apply (dict_get_In String.eqb Seqb_spec). exact Hget.
  - pose proof (find_none _ _ Ef servo Hin) as H.
    apply on_port_false in H. congruence.
Qed.

(** The shape of a run of [set_torque]. *)
Lemma set_torque_spec bench fs state t out t' :
  set_torque bench fs state t = (out, t') ->
  (state <> "on" /\ state <> "off" /\ out = Ret tt /\
   t' = t ++ [TvPut (TmInvalidState state)])
  \/ exists v,
      ((state = "on" /\ v = 1) \/ (state = "off" /\ v = 0)) /\
      ((out = Ret tt /\
        t' = t ++ [TvPut (TmTorqueStart (String.eqb state "on"))] /\
        (manifest_file fs = None \/ manifest_file fs = Some [] \/
         address_file fs = None \/ address_file fs = Some []))
       \/ exists manifest address_map evs,
           manifest_file fs = Some manifest /\
           address_file fs = Some address_map /\
           manifest <> [] /\ address_map <> [] /\
           t' = t ++ TvPut (TmTorqueStart (String.eqb state "on"))
                  :: evs
                  ++ match out with
                     | Ret _ => [TvPut (TmTorqueFinished (upper state))]
                     | _ => []
                     end /\
           Forall (fun e => exists p b servos,
                       In (p, (b, servos)) (tool_servos_by_port manifest) /\
                       torque_event address_map v p servos e) evs /\
           (out = Ret tt ->
            (forall p b servos,
                In (p, (b, servos)) (tool_servos_by_port manifest) ->
                torque_covered address_map v p servos evs) /\
            tool_open_ports evs []
            = filter (refused evs)
                     (dict_keys (tool_servos_by_port manifest)))).
Proof.
  unfold set_torque.
  destruct (String.eqb state "on") eqn:Eon;
    [|destruct (String.eqb state "off") eqn:Eoff].
  3:{ cbn [orb negb]. unfold tput, temit. intros [= <- <-]. left.
      apply (eqb_false_neq _ Seqb_spec) in Eon, Eoff. auto. }
  all: cbn [orb negb]; intros Hrun; right.
  1: exists 1. 2: exists 0.
  all: split;
    [first [left; split; [apply Seqb_spec; assumption|reflexivity]
           |right; split; [apply Seqb_spec; assumption|reflexivity]]|].
  all: revert Hrun; unfold tbind at 1, tput at 1, temit at 1.
  all: destruct (manifest_file fs) as [[|s0 manifest]|] eqn:Em;
    [intros [= <- <-]; left; auto 6| |intros [= <- <-]; left; auto 6].
  all: destruct (address_file fs) as [[|a0 address_map]|] eqn:Ea;
    [intros [= <- <-]; left; auto 6| |intros [= <- <-]; left; auto 6].
  all: unfold tbind.
  all: match goal with
       | |- context [tfor_each (torque_port ?bn ?am ?en ?v) ?l ?tt] =>
           destruct (torque_ports_spec bn am en v l
                       ltac:(unfold TORQUE_ENABLE_VAL, TORQUE_DISABLE_VAL; auto)
                       (proj1 (tool_groups _)) tt)
             as (o & evs & E & F & H); rewrite E
       end.
  all: destruct o as [[]| |]; unfold tput, temit; intros [= <- <-].
  all: right; exists (s0 :: manifest), (a0 :: address_map), evs.
  all: do 4 (split; [congruence|]).
  all: unfold TORQUE_ENABLE_VAL, TORQUE_DISABLE_VAL in *.
  all: split; [rewrite <- ?app_assoc; cbn [app]; rewrite ?app_nil_r;
               reflexivity|].
  all: split; [exact F|]; try discriminate.
  all: intros _; destruct (H eq_refl) as (C & O); split; [exact C|].
  all: rewrite (O []) by (intros ? _ []); reflexivity.
Qed.

(** X13. The tools group the manifest by bus: each bus appears once, its
    record holds every manifest entry of the bus in manifest order, and
    its link speed is the [baud_rate] of the FIRST entry of the bus. *)
Theorem tools_use_first_link_speed_of_a_bus manifest :
  NoDup (dict_keys (tool_servos_by_port manifest)) /\
  (forall port,
      dict_get String.eqb port (tool_servos_by_port manifest)
      = option_map
          (fun first => (baud_rate first, filter (on_port port) manifest))
          (find (on_port port) manifest)) /\
  (forall port,
      In port (dict_keys (tool_servos_by_port manifest))
      <-> exists servo, In servo manifest /\ com_port servo = port).
Proof.
  destruct (tool_groups manifest) as (ND & Hget).
  split; [exact ND|]. split; [exact Hget|].
  intros port. split.
  - intros Hin. apply in_map_iff in Hin.
    destruct Hin as ([p [b servos]] & <- & Hin). cbn.
    apply tool_groups_In in Hin. destruct Hin as (_ & first & Ef & _).
    apply find_some in Ef. destruct Ef as (Hin & Hp).
    exists first. split; [exact Hin|]. apply on_port_true. exact Hp.
  - intros (servo & Hin & <-).
    destruct (tool_groups_cover manifest servo Hin) as (b & Hb).
    apply in_map_iff. eexists. split; [|exact Hb]. reflexivity.
Qed.

Lemma dict_set_fresh {K V} (eqb : K -> K -> bool) k (v : V) d :
  dict_get eqb k d = None -> dict_set eqb k v d = d ++ [(k, v)].
Proof.
  induction d as [|[k0 v0] d IH]; cbn; auto.
  destruct (eqb k k0); [discriminate|]. intros H. rewrite IH; auto.
Qed.

(** A manifest without duplicate ids is kept as it is. *)
Lemma manifest_of_NoDup items :
  NoDup (map id items) ->
  manifest_of items = map (fun s => (id s, s)) items.
Proof.
  induction items as [|s l IH] using rev_ind; intros ND; [reflexivity|].
  rewrite map_app in ND. cbn in ND.
  pose proof (NoDup_remove_2 _ _ _ ND) as Hs. rewrite app_nil_r in Hs.
  pose proof (NoDup_remove_1 _ _ _ ND) as ND'. rewrite app_nil_r in ND'.
  unfold manifest_of in *. rewrite fold_left_app. cbn [fold_left].
  rewrite (IH ND'), map_app. cbn [map].
  apply dict_set_fresh. apply (dict_get_None Z.eqb Zeqb_spec).
  unfold dict_keys. rewrite map_map. cbn. exact Hs.
Qed.

Lemma find_rev_split {A} (f : A -> bool) l a :
  find f (rev l) = Some a ->
  exists pre post,
    l = pre ++ a :: post /\ f a = true /\ forall x, In x post -> f x = false.
Proof.
  induction l as [|x l IH] using rev_ind; [discriminate|].
  rewrite rev_app_distr. cbn. destruct (f x) eqn:E.
  - intros [= <-]. exists l, []. split; [reflexivity|].
    split; [exact E|intros ? []].
  - intros H. destruct (IH H) as (pre & post & -> & Ha & Hp).
    exists pre, (post ++ [x]). split; [rewrite <- app_assoc; reflexivity|].
    split; [exact Ha|]. intros y Hy. apply in_app_or in Hy.
    destruct Hy as [Hy|[<-|[]]]; auto.
Qed.

(** X14. The tools and the sequencer read the same manifest differently:
    for a bus, the tools take the link speed of its first entry, the
    sequencer that of its last entry. *)
Theorem tools_and_sequencer_pick_different_link_speeds manifest port first
    last :
  NoDup (map id manifest) ->
  find (on_port port) manifest = Some first ->
  find (on_port port) (rev manifest) = Some last ->
  dict_get String.eqb port (tool_servos_by_port manifest)
  = Some (baud_rate first, filter (on_port port) manifest)
  /\ dict_get String.eqb port (unique_ports_of (manifest_of manifest))
     = Some (baud_rate last).
Proof.
  intros ND Hf Hl. split.
  - rewrite (proj2 (tool_groups manifest)), Hf. reflexivity.
  - apply find_rev_split in Hl.
    destruct Hl as (pre & post & E & Hp & Hpost).
    apply on_port_true in Hp. subst port.
    unfold unique_ports_of, dict_values.
    rewrite (manifest_of_NoDup _ ND), map_map. cbn. rewrite map_id.
    apply (comprehension_get_last String.eqb Seqb_spec com_port baud_rate
             _ pre last post); [exact E|].
    intros x Hx. apply on_port_false. auto.
Qed.

Lemma tools_and_sequencer_pick_different_link_speeds_witness :
  dict_get String.eqb "COM1" (tool_servos_by_port mixed_speed_items)
  = Some (57600, filter (on_port "COM1") mixed_speed_items)
  /\ dict_get String.eqb "COM1"
              (unique_ports_of (manifest_of mixed_speed_items))
     = Some 115200.
Proof.
  apply (tools_and_sequencer_pick_different_link_speeds mixed_speed_items
           "COM1" (demo_servo 1 "COM1")
           {| id := 2; com_port := "COM1"; baud_rate := 115200;
              motor_type := 1060 |}).
  - vm_compute. constructor; [intros [H|[]]; discriminate H|].
    constructor; [intros []|constructor].
  - reflexivity.
  - reflexivity.
Defined.

(** X15. [set_torque] rejects every state other than the lower-case words
    on and off with one message and no bus traffic.  Otherwise each write
    it sends on a bus carries one parameter per manifest entry of that
    bus, in manifest order: the value 1 (on) or 0 (off), cut to the width
    of the entry's [torque_enable] register, at that register. *)
Theorem torque_command_writes_enable_registers bench fs state t out t' :
  set_torque bench fs state t = (out, t') ->
  exists evs,
    t' = t ++ evs /\
    (state <> "on" -> state <> "off" ->
     out = Ret tt /\ evs = [TvPut (TmInvalidState state)]) /\
    forall port params ok,
      In (TvBulkWrite port params ok) evs ->
      exists manifest address_map v,
        manifest_file fs = Some manifest /\
        address_file fs = Some address_map /\
        ((state = "on" /\ v = 1) \/ (state = "off" /\ v = 0)) /\
        Forall2 (torque_param_of address_map v)
                (filter (on_port port) manifest) params.
Proof.
  intros Hrun. apply set_torque_spec in Hrun.
  destruct Hrun as [(Hon & Hoff & -> & ->)|(v & Hv & Hrun)].
  - eexists. split; [reflexivity|]. split; [auto|].
    intros port params ok [[=]|[]].
  - destruct Hrun as [(-> & -> & _)
                     |(manifest & address_map & evs & Em & Ea & _ & _ & ->
                       & F & _)].
    + eexists. split; [reflexivity|].
      split; [intros Hon Hoff; destruct Hv as [(? & _)|(? & _)]; congruence|].
      intros port params ok [[=]|[]].
    + eexists. split; [reflexivity|].
      split; [intros Hon Hoff; destruct Hv as [(? & _)|(? & _)]; congruence|].
      intros port params ok [[=]|Hin].
      apply in_app_or in Hin. destruct Hin as [Hin|Hin].
      * rewrite Forall_forall in F.
        destruct (F _ Hin) as (p & b & servos & Hg & He).
        cbn in He. destruct He as (-> & He).
        apply tool_groups_In in Hg. destruct Hg as (-> & _).
        exists manifest, address_map, v. auto.
      * destruct out; cbn in Hin; [destruct Hin as [[=]|[]]|destruct Hin..].
Qed.

Lemma torque_command_writes_enable_registers_witness :
  exists evs,
    snd (set_torque demo_bench demo_fs "off" []) = [] ++ evs /\
    ("off" <> "on" -> "off" <> "off" ->
     Ret tt = Ret tt /\ evs = [TvPut (TmInvalidState "off")]) /\
    forall port params ok,
      In (TvBulkWrite port params ok) evs ->
      exists manifest address_map v,
        manifest_file demo_fs = Some manifest /\
        address_file demo_fs = Some address_map /\
        (("off" = "on" /\ v = 1) \/ ("off" = "off" /\ v = 0)) /\
        Forall2 (torque_param_of address_map v)
                (filter (on_port port) manifest) params.
Proof.
  apply (torque_command_writes_enable_registers demo_bench demo_fs "off" []
           (Ret tt)).
  vm_compute. reflexivity.
Defined.

(** X16. When [set_torque] returns normally with a loaded, non-empty
    configuration, every manifest entry was either part of a write sent
    on its bus, or its bus was reported as failed. *)
Theorem torque_command_reaches_or_reports_every_servo bench fs state t
    manifest address_map t' :
  state = "on" \/ state = "off" ->
  manifest_file fs = Some manifest ->
  address_file fs = Some address_map ->
  manifest <> [] -> address_map <> [] ->
  set_torque bench fs state t = (Ret tt, t') ->
  exists evs,
    t' = t ++ evs /\
    last evs (TvPut TmRule) = TvPut (TmTorqueFinished (upper state)) /\
    forall servo,
      In servo manifest ->
      (exists params ok,
          In (TvBulkWrite (com_port servo) params ok) evs /\
          In (id servo) (map wp_id params))
      \/ In (TvPut (TmPortFailed (com_port servo))) evs.
Proof.
  intros Hs Em Ea Nm Na Hrun. apply set_torque_spec in Hrun.
  destruct Hrun as [(Hon & Hoff & _)|(v & Hv & Hrun)];
    [destruct Hs; contradiction|].
  destruct Hrun as [(_ & _ & [H|[H|[H|H]]])
                   |(manifest' & address_map' & evs & Em' & Ea' & _ & _ & ->
                     & F & H)]; try congruence.
  rewrite Em in Em'. rewrite Ea in Ea'.
  injection Em' as <-. injection Ea' as <-.
  destruct (H eq_refl) as (C & _).
  eexists. split; [reflexivity|]. split.
  { change (TvPut (TmTorqueStart (state =? "on")%string)
              :: evs ++ [TvPut (TmTorqueFinished (upper state))])
      with ((TvPut (TmTorqueStart (state =? "on")%string) :: evs)
              ++ [TvPut (TmTorqueFinished (upper state))]).
    apply last_last. }
  intros servo Hin.
  destruct (tool_groups_cover manifest servo Hin) as (b & Hg).
  destruct (C _ _ _ Hg) as [(params & ok & Hw & F2)|Hf].
  - left. exists params, ok. split.
    + right. apply in_or_app. left. exact Hw.
    + assert (Hs' : In servo (filter (on_port (com_port servo)) manifest)).
      { apply filter_In. split; [exact Hin|]. apply on_port_true.
        reflexivity. }
      clear - F2 Hs'.
      induction F2 as [|s w l l' (addr & _ & ->) _ IH]; [destruct Hs'|].
      destruct Hs' as [<-|Hs']; [left; reflexivity|right; auto].
  - right. right. apply in_or_app. left. exact Hf.
Qed.

Lemma torque_command_reaches_or_reports_every_servo_witness :
  exists evs,
    snd (set_torque picky_bench two_bus_fs "on" []) = [] ++ evs /\
    last evs (TvPut TmRule) = TvPut (TmTorqueFinished (upper "on")) /\
    forall servo,
      In servo two_bus_items ->
      (exists params ok,
          In (TvBulkWrite (com_port servo) params ok) evs /\
          In (id servo) (map wp_id params))
      \/ In (TvPut (TmPortFailed (com_port servo))) evs.
Proof.
  apply (torque_command_reaches_or_reports_every_servo picky_bench
           two_bus_fs "on" [] two_bus_items demo_address_map).
  - left. reflexivity.
  - reflexivity.
  - reflexivity.
  - discriminate.
  - discriminate.
  - vm_compute. reflexivity.
Defined.

(** ** position_saver.py *)

Lemma successful_reads_app evs1 evs2 :
  successful_reads (evs1 ++ evs2)
  = successful_reads evs1 ++ successful_reads evs2.
Proof. unfold successful_reads. apply flat_map_app. Qed.

(** One servo of [save_current_positions]. *)
Lemma read_position_spec bench address_map port found servo t :
  exists o evs,
    read_position bench address_map port found servo t = (o, t ++ evs) /\
    Forall (save_event address_map port [servo]) evs /\
    Forall (on_ports []) evs /\
    forall acc, o = Ret acc -> acc = found ++ successful_reads evs.
Proof.
  unfold read_position, tbind, tlift, tput, temit, tret.
  destruct (get_address_info (motor_type servo) address_map)
    as [a| |] eqn:Ea.
  2,3: eexists _, []; rewrite app_nil_r; split; [reflexivity|];
    split; [constructor|split; [constructor|discriminate]].
  destruct (len_present_position a =? 1) eqn:E1;
    [|destruct (len_present_position a =? 2) eqn:E2;
      [|destruct (len_present_position a =? 4) eqn:E4]]; cbn [orb negb].
  4:{ tool_trace. split; [repeat constructor|].
      split; [repeat constructor|].
      intros acc [= <-]. cbn. rewrite app_nil_r. reflexivity. }
  all: destruct (bench_read bench t port (len_present_position a)
                   (id servo) (present_position a))
         as [[pos ok] err] eqn:Er.
  all: assert (Hr : position_read_of address_map port servo port
                      (len_present_position a) (id servo)
                      (present_position a))
    by (split; [reflexivity|]; split; [reflexivity|];
        split; [apply Z.eqb_eq in E1 || apply Z.eqb_eq in E2
                || apply Z.eqb_eq in E4; auto|];
        exists a; auto).
  all: destruct (ok && (err =? 0))%bool eqn:Eok; tool_trace.
  all: split; [constructor; [exists servo; split; [left; reflexivity|exact Hr]
                            |repeat constructor]|].
  all: split; [repeat constructor|].
  all: intros acc [= <-]; cbn; rewrite Eok, ?app_nil_r; reflexivity.
Qed.

(** A loop that extends a list, pass by pass. *)
Lemma tracks_foldM {A B} (R : ToolTrace -> list B -> Prop)
    (P : A -> ToolEvent -> Prop) (f : list B -> A -> T (list B)) l :
  R [] [] ->
  (forall e1 n1 e2 n2, R e1 n1 -> R e2 n2 -> R (e1 ++ e2) (n1 ++ n2)) ->
  (forall acc a, In a l -> tracks R (P a) acc (f acc a)) ->
  forall acc,
    tracks R (fun e => exists a, In a l /\ P a e) acc (tfoldM f l acc).
Proof.
  intros R0 Radd. induction l as [|a l IH]; intros Hf acc t; cbn [tfoldM].
  - exists (Ret acc), []. unfold tret. rewrite app_nil_r.
    split; [reflexivity|]. split; [constructor|].
    intros ? [= <-]. exists []. rewrite app_nil_r. auto.
  - destruct (Hf acc a (or_introl eq_refl) t) as (o1 & evs1 & E1 & F1 & H1).
    unfold tbind. rewrite E1.
    assert (F1' : Forall (fun e => exists a0, In a0 (a :: l) /\ P a0 e) evs1).
    { eapply Forall_impl; [|exact F1]. intros e He. exists a.
      split; [left; reflexivity|exact He]. }
    destruct o1 as [acc1| |].
    + destruct (H1 _ eq_refl) as (new1 & -> & R1).
      destruct (IH (fun acc a Ha => Hf acc a (or_intror Ha))
                   (acc ++ new1) (t ++ evs1))
        as (o2 & evs2 & E2 & F2 & H2).
      rewrite E2. exists o2, (evs1 ++ evs2).
      split; [rewrite app_assoc; reflexivity|]. split.
      * apply Forall_app. split; [exact F1'|].
        eapply Forall_impl; [|exact F2]. intros e (a0 & Ha & He).
        exists a0. split; [right; exact Ha|exact He].
      * intros acc2 ->. destruct (H2 _ eq_refl) as (new2 & -> & R2).
        exists (new1 ++ new2). rewrite app_assoc. auto.
    + exists (Raise e), evs1. split; [reflexivity|].
      split; [exact F1'|discriminate].
    + exists OutOfFuel, evs1. split; [reflexivity|].
      split; [exact F1'|discriminate].
Qed.

Lemma tool_open_ports_quiet evs open :
  Forall (on_ports []) evs -> tool_open_ports evs open = open.
Proof.
  intros F. revert open.
  induction F as [|e evs He _ IH]; intros open; cbn; auto.
  destruct e as [q [[|]|]|q b r|q| | | | | | |]; cbn in He; auto;
    destruct He.
Qed.

Lemma save_event_weaken address_map port servos servos' e :
  (forall s, In s servos -> In s servos') ->
  save_event address_map port servos e ->
  save_event address_map port servos' e.
Proof.
  intros H. destruct e; cbn; auto.
  intros (servo & Hin & Hr). exists servo. auto.
Qed.

(** The loop over the servos of one bus: only reads and messages. *)
Lemma read_positions_spec bench address_map port servos found t :
  exists o evs,
    tfoldM (read_position bench address_map port) servos found t
    = (o, t ++ evs) /\
    Forall (save_event address_map port servos) evs /\
    Forall (on_ports []) evs /\
    forall acc, o = Ret acc -> acc = found ++ successful_reads evs.
Proof.
  destruct (tracks_foldM
              (fun evs new => new = successful_reads evs)
              (fun servo e => save_event address_map port [servo] e
                              /\ on_ports [] e)
              (read_position bench address_map port) servos eq_refl)
    with (acc := found) (t := t) as (o & evs & E & F & H).
  - intros e1 n1 e2 n2 -> ->. symmetry. apply successful_reads_app.
  - intros acc servo _ t0.
    destruct (read_position_spec bench address_map port acc servo t0)
      as (o & evs & E & F & Q & H).
    exists o, evs. split; [exact E|]. split.
    + apply Forall_forall. intros e He. rewrite Forall_forall in F, Q. auto.
    + intros acc' ->. exists (successful_reads evs). auto.
  - exists o, evs. split; [exact E|]. split; [|split].
    + eapply Forall_impl; [|exact F]. intros e (servo & Hin & He & _).
      eapply save_event_weaken; [|exact He]. intros s [<-|[]]. exact Hin.
    + eapply Forall_impl; [|exact F]. intros e (_ & _ & _ & He). exact He.

    + intros acc ->. destruct (H _ eq_refl) as (new & -> & ->). reflexivity.
Qed.

Lemma save_event_on_port address_map p servos e :
  save_event address_map p servos e -> on_ports [p] e.
Proof. destruct e; cbn; auto. Qed.

(** One bus of [save_current_positions]. *)
Lemma save_port_spec bench address_map found p b servos t :
  exists o evs,
    save_port bench address_map found (p, (b, servos)) t = (o, t ++ evs) /\
    Forall (save_event address_map p servos) evs /\
    forall acc,
      o = Ret acc ->
      acc = found ++ successful_reads evs /\
      forall open, ~ In p open ->
                   tool_open_ports evs open
                   = if refused evs p then open ++ [p] else open.
Proof.
  unfold save_port, tbind, tool_open, tool_set_baud, tput, tool_close, temit,
    tret.
  destruct (bench_openPort bench t p) as [[|]|] eqn:Eo; cbn [negb].
  - destruct (bench_setBaudRate bench _ p b) as [[|]|] eqn:Eb; cbn [negb].
    + destruct (read_positions_spec bench address_map p servos found
                  (((t ++ [TvOpenPort p (Some true)])
                      ++ [TvSetBaudRate p b (Some true)])
                     ++ [TvPut (TmReading p)]))
        as (o & evs & E & F & Q & H).
      rewrite E. destruct o as [acc| |].
      * exists (Ret acc),
          ([TvOpenPort p (Some true); TvSetBaudRate p b (Some true);
            TvPut (TmReading p)] ++ evs ++ [TvClosePort p]).
        split; [rewrite <- !app_assoc; reflexivity|]. split.
        { repeat (apply Forall_cons; [cbn; auto|]).
          apply Forall_app. split; [exact F|]. repeat constructor. }
        intros ? [= <-]. split.
        { rewrite successful_reads_app. cbn [successful_reads flat_map app].
          rewrite successful_reads_app. cbn. rewrite app_nil_r.
          apply H. reflexivity. }
        intros open Hn.
        assert (Rf : refused ([TvOpenPort p (Some true);
                               TvSetBaudRate p b (Some true);
                               TvPut (TmReading p)]
                                ++ evs ++ [TvClosePort p]) p = false).
        { rewrite !refused_app, (refused_elsewhere [] evs p Q)
            by (intros []). reflexivity. }
        rewrite Rf. cbn [app tool_open_ports].
        rewrite tool_open_ports_app, (tool_open_ports_quiet _ _ Q). cbn.
        rewrite (handlers_add_fresh _ _ Hn). apply remove_port_last, Hn.
      * exists (Raise e),
          ([TvOpenPort p (Some true); TvSetBaudRate p b (Some true);
            TvPut (TmReading p)] ++ evs).
        split; [rewrite <- !app_assoc; reflexivity|].
        split; [|discriminate].
        repeat (apply Forall_cons; [cbn; auto|]). exact F.
      * exists OutOfFuel,
          ([TvOpenPort p (Some true); TvSetBaudRate p b (Some true);
            TvPut (TmReading p)] ++ evs).
        split; [rewrite <- !app_assoc; reflexivity|].
        split; [|discriminate].
        repeat (apply Forall_cons; [cbn; auto|]). exact F.
    + tool_trace. split; [repeat constructor; auto|].
      intros ? [= <-]. split; [cbn; rewrite app_nil_r; reflexivity|].
      intros open Hn. cbn. rewrite String.eqb_refl. cbn.
      apply handlers_add_fresh, Hn.
    + tool_trace. split; [repeat constructor; auto|discriminate].
  - tool_trace. split; [repeat constructor; auto|].
    intros ? [= <-]. split; [cbn; rewrite app_nil_r; reflexivity|].
    intros open Hn. reflexivity.
  - tool_trace. split; [repeat constructor; auto|discriminate].
Qed.

(** A loop over buses, each taken once. *)
Lemma port_loop {A B} (port_of : A -> string)
    (R : ToolTrace -> list B -> Prop) (P : A -> ToolEvent -> Prop)
    (f : list B -> A -> T (list B)) l :
  R [] [] ->
  (forall e1 n1 e2 n2, R e1 n1 -> R e2 n2 -> R (e1 ++ e2) (n1 ++ n2)) ->
  NoDup (map port_of l) ->
  (forall acc a t,
      In a l ->
      exists o evs,
        f acc a t = (o, t ++ evs) /\
        Forall (P a) evs /\ Forall (on_ports [port_of a]) evs /\
        forall acc',
          o = Ret acc' ->
          (exists new, acc' = acc ++ new /\ R evs new) /\
          forall open,
            ~ In (port_of a) open ->
            tool_open_ports evs open
            = if refused evs (port_of a) then open ++ [port_of a]
              else open) ->
  forall acc t,
  exists o evs,
    tfoldM f l acc t = (o, t ++ evs) /\
    Forall (fun e => exists a, In a l /\ P a e) evs /\
    Forall (on_ports (map port_of l)) evs /\
    forall acc',
      o = Ret acc' ->
      (exists new, acc' = acc ++ new /\ R evs new) /\
      forall open,
        (forall p, In p (map port_of l) -> ~ In p open) ->
        tool_open_ports evs open
        = open ++ filter (refused evs) (map port_of l).
Proof.
  intros R0 Radd. induction l as [|a l IH]; intros ND Hf acc t;
    cbn [tfoldM].
  - exists (Ret acc), []. unfold tret. rewrite app_nil_r.
    split; [reflexivity|]. split; [constructor|]. split; [constructor|].
    intros ? [= <-]. split; [exists []; rewrite app_nil_r; auto|].
    intros open _. cbn. rewrite app_nil_r. reflexivity.
  - inversion ND as [|? ? Hp ND']; subst.
    destruct (Hf acc a t (or_introl eq_refl))
      as (o1 & evs1 & E1 & F1 & P1 & H1).
    unfold tbind. rewrite E1.
    assert (F1' : Forall (fun e => exists a0, In a0 (a :: l) /\ P a0 e) evs1).
    { eapply Forall_impl; [|exact F1]. intros e He. exists a.
      split; [left; reflexivity|exact He]. }
    assert (P1' : Forall (on_ports (map port_of (a :: l))) evs1).
    { eapply Forall_impl; [|exact P1]. intros e.
      apply on_ports_weaken. intros q [<-|[]]. left. reflexivity. }
    destruct o1 as [acc1| |].
    + destruct (H1 _ eq_refl) as ((new1 & -> & R1) & O1).
      destruct (IH ND' (fun acc a t Ha => Hf acc a t (or_intror Ha))
                   (acc ++ new1) (t ++ evs1))
        as (o2 & evs2 & E2 & F2 & P2 & H2).
      rewrite E2. exists o2, (evs1 ++ evs2).
      split; [rewrite app_assoc; reflexivity|]. split; [|split].
      * apply Forall_app. split; [exact F1'|].
        eapply Forall_impl; [|exact F2]. intros e (a0 & Ha & He).
        exists a0. split; [right; exact Ha|exact He].
      * apply Forall_app. split; [exact P1'|].
        eapply Forall_impl; [|exact P2]. intros e.
        apply on_ports_weaken. intros q Hq. right. exact Hq.
      * intros acc2 ->. destruct (H2 _ eq_refl) as ((new2 & -> & R2) & O2).
        split; [exists (new1 ++ new2); rewrite app_assoc; auto|].
        intros open Hopen.
        rewrite tool_open_ports_app, O1
          by (apply Hopen; left; reflexivity).
        cbn [map filter]. rewrite refused_app.
        rewrite (refused_elsewhere _ _ (port_of a) P2 Hp), orb_false_r.
        assert (Rq : filter (refused (evs1 ++ evs2)) (map port_of l)
                    = filter (refused evs2) (map port_of l)).
        { apply filter_ext_in. intros q Hq. rewrite refused_app.
          rewrite (refused_elsewhere [port_of a] evs1 q P1); auto.
          intros [<-|[]]. contradiction. }
        rewrite Rq. destruct (refused evs1 (port_of a)).
        -- rewrite O2; [rewrite <- app_assoc; reflexivity|].
           intros q Hq Hin. apply in_app_or in Hin.
           destruct Hin as [Hin|[<-|[]]]; [|contradiction].
           apply (Hopen q); [right; exact Hq|exact Hin].
        -- apply O2. intros q Hq. apply Hopen. right. exact Hq.
    + exists (Raise e), evs1. split; [reflexivity|].
      split; [exact F1'|]. split; [exact P1'|discriminate].
    + exists OutOfFuel, evs1. split; [reflexivity|].
      split; [exact F1'|]. split; [exact P1'|discriminate].
Qed.

(** The loop of [save_current_positions] over the buses. *)
Lemma save_ports_spec bench address_map manifest t :
  exists o evs,
    tfoldM (save_port bench address_map) (tool_servos_by_port manifest) [] t
    = (o, t ++ evs) /\
    Forall (fun e => exists p b servos,
                In (p, (b, servos)) (tool_servos_by_port manifest) /\
                save_event address_map p servos e) evs /\
    forall found,
      o = Ret found ->
      found = successful_reads evs /\
      tool_open_ports evs []
      = filter (refused evs) (dict_keys (tool_servos_by_port manifest)).
Proof.
  destruct (port_loop
              (fst : string * (Z * list Servo) -> string)
              (fun evs new => new = successful_reads evs)
              (fun entry e =>
                 save_event address_map (fst entry) (snd (snd entry)) e)
              (save_port bench address_map)
              (tool_servos_by_port manifest) eq_refl)
    with (acc := @nil (Z * Z)) (t := t) as (o & evs & E & F & _ & H).
  - intros e1 n1 e2 n2 -> ->. symmetry. apply successful_reads_app.
  - apply (proj1 (tool_groups manifest)).
  - intros acc [p [b servos]] t0 _.
    destruct (save_port_spec bench address_map acc p b servos t0)
      as (o & evs & E & F & H).
    exists o, evs. split; [exact E|]. split; [exact F|]. split.
    + eapply Forall_impl; [|exact F]. intros e. apply save_event_on_port.
    + intros acc' ->. destruct (H _ eq_refl) as (-> & O).
      split; [eauto|exact O].
  - exists o, evs. split; [exact E|]. split.
    + eapply Forall_impl; [|exact F]. intros e ([p [b servos]] & Hin & He).
      exists p, b, servos. auto.
    + intros found ->. destruct (H _ eq_refl) as ((new & -> & ->) & O).
      split; [reflexivity|]. apply (O []). intros ? _ [].
Qed.

(** The shape of a run of [save_current_positions]. *)
Lemma save_spec bench fs output_filepath t out t' :
  save_current_positions bench fs output_filepath t = (out, t') ->
  (out = Ret tt /\ t' = t /\
   (manifest_file fs = None \/ manifest_file fs = Some [] \/
    address_file fs = None \/ address_file fs = Some []))
  \/ exists manifest address_map evs,
      manifest_file fs = Some manifest /\
      address_file fs = Some address_map /\
      manifest <> [] /\ address_map <> [] /\
      Forall (fun e => exists p b servos,
                  In (p, (b, servos)) (tool_servos_by_port manifest) /\
                  save_event address_map p servos e) evs /\
      ((out <> Ret tt /\ t' = t ++ evs)
       \/ (out = Ret tt /\
           tool_open_ports evs []
           = filter (refused evs) (dict_keys (tool_servos_by_port manifest))
           /\ ((successful_reads evs = [] /\
                t' = t ++ evs ++ [TvPut TmNothingRead])
               \/ (successful_reads evs <> [] /\
                   exists ok,
                     t' = t ++ evs
                            ++ [TvPut (TmSaving
                                         (List.length (successful_reads evs)));
                                TvSavePositions
                                  output_filepath
                                  (sorted_by fst (successful_reads evs)) ok;
                                TvPut (if ok then TmSaved output_filepath
                                       else TmWriteFailed)])))).
Proof.
  unfold save_current_positions.
  destruct (manifest_file fs) as [[|s0 manifest]|] eqn:Em;
    [intros [= <- <-]; left; auto 6| |intros [= <- <-]; left; auto 6].
  destruct (address_file fs) as [[|a0 address_map]|] eqn:Ea;
    [intros [= <- <-]; left; auto 6| |intros [= <- <-]; left; auto 6].
  intros Hrun. right.
  exists (s0 :: manifest), (a0 :: address_map).
  destruct (save_ports_spec bench (a0 :: address_map) (s0 :: manifest) t)
    as (o & evs & E & F & H).
  exists evs. do 4 (split; [congruence|]). split; [exact F|].
  revert Hrun. unfold tbind at 1. rewrite E.
  destruct o as [found| |]; [|intros [= <- <-]; left; split;
                                [discriminate|reflexivity]..].
  destruct (H _ eq_refl) as (-> & O).
  destruct (successful_reads evs) as [|r rs] eqn:Er.
  - unfold tput, temit. intros [= <- <-]. right. split; [reflexivity|].
    split; [exact O|]. left. split; [reflexivity|].
    rewrite app_assoc. reflexivity.
  - unfold write_positions, tbind, tput, temit.
    destruct (bench_write bench _ output_filepath) eqn:Ew;
      intros [= <- <-]; right; (split; [reflexivity|]);
      (split; [exact O|]); right; (split; [discriminate|]).
    + exists true. rewrite <- !app_assoc. reflexivity.
    + exists false. rewrite <- !app_assoc. reflexivity.
Qed.

Lemma save_events_no_save address_map manifest evs :
  Forall (fun e => exists p b servos,
              In (p, (b, servos)) (tool_servos_by_port manifest) /\
              save_event address_map p servos e) evs ->
  existsb is_save evs = false.
Proof.
  induction 1 as [|e evs (p & b & servos & _ & He) _ IH]; cbn; auto.
  rewrite IH, orb_false_r. destruct e; cbn in *; auto; destruct He.
Qed.

Lemma save_run_facts bench fs output_filepath t out t' :
  save_current_positions bench fs output_filepath t = (out, t') ->
  exists evs,
    t' = t ++ evs /\
    (forall pre fp content ok post,
        evs = pre ++ TvSavePositions fp content ok :: post ->
        out = Ret tt /\ fp = output_filepath /\
        content = sorted_by fst (successful_reads pre) /\
        content <> [] /\
        StronglySorted (fun a b => fst a <= fst b) content /\
        Permutation content (successful_reads pre) /\
        (forall i, filter (fun r => fst r =? i) content
                   = filter (fun r => fst r =? i) (successful_reads pre)) /\
        post = [TvPut (if ok then TmSaved fp else TmWriteFailed)]) /\
    (out = Ret tt -> successful_reads evs <> [] ->
     exists pre fp content ok post,
       evs = pre ++ TvSavePositions fp content ok :: post).
Proof.
  intros Hrun. apply save_spec in Hrun.
  destruct Hrun as [(-> & -> & _)
                   |(manifest & address_map & evs & _ & _ & _ & _ & F & Hrun)].
  - exists []. split; [rewrite app_nil_r; reflexivity|]. split.
    + intros [|? ?] ? ? ? ? [=].
    + intros _ H. exfalso. apply H. reflexivity.
  - pose proof (save_events_no_save _ _ _ F) as Hn.
    destruct Hrun as [(Ho & ->)|(-> & _ & [(Hr & ->)|(Hr & ok & ->)])].
    + exists evs. split; [reflexivity|]. split.
      * intros pre fp content ok post E. exfalso.
        eapply (no_split is_save); [exact Hn|exact E|reflexivity].
      * intros H. contradiction.
    + eexists. split; [reflexivity|]. split.
      * intros pre fp content ok post E. exfalso.
        eapply (no_split is_save); [|exact E|reflexivity].
        rewrite existsb_app, Hn. reflexivity.
      * intros _ H. exfalso. apply H. rewrite successful_reads_app, Hr.
        reflexivity.
    + eexists. split; [reflexivity|]. split.
      * intros pre fp content ok' post E.
        change (evs ++ [TvPut (TmSaving (List.length (successful_reads evs)));
                        TvSavePositions output_filepath
                          (sorted_by fst (successful_reads evs)) ok;
                        TvPut (if ok then TmSaved output_filepath
                               else TmWriteFailed)])
          with (evs ++ [TvPut (TmSaving
                                 (List.length (successful_reads evs)))]
                    ++ [TvSavePositions output_filepath
                          (sorted_by fst (successful_reads evs)) ok;
                        TvPut (if ok then TmSaved output_filepath
                               else TmWriteFailed)]) in E.
        rewrite app_assoc in E.
        apply (split_after_prefix is_save) in E;
          [|rewrite existsb_app, Hn; reflexivity|reflexivity].
        destruct E as (pre' & -> & E).
        destruct pre' as [|e0 pre']; cbn in E.
        2:{ injection E as <- E. destruct pre' as [|? ?]; [|destruct pre'];
            discriminate E. }
        injection E as <- <- <- <-.
        rewrite !successful_reads_app. cbn [successful_reads flat_map].
        rewrite !app_nil_r.
        split; [reflexivity|]. split; [reflexivity|].
        split; [reflexivity|].
        split; [intros H; apply sorted_by_nil_inv in H; contradiction|].
        split; [apply sorted_by_sorted|].
        split; [apply sorted_by_perm|].
        split; [intros i; apply sorted_by_stable|reflexivity].
      * intros _ _. eexists (evs ++ [_]), _, _, _, _.
        rewrite <- app_assoc. reflexivity.
Qed.

(** X17. The file that [save_current_positions] writes holds exactly the
    positions that were read successfully, sorted by id (entries of one
    id in reading order); it is written once, to the path asked for,
    whenever the tool returns with at least one position read, and never
    empty.  The message after it tells whether the write succeeded. *)
Theorem saved_positions_are_the_sorted_successful_reads bench fs
    output_filepath t out t' :
  save_current_positions bench fs output_filepath t = (out, t') ->
  exists evs,
    t' = t ++ evs /\
    (forall pre fp content ok post,
        evs = pre ++ TvSavePositions fp content ok :: post ->
        out = Ret tt /\ fp = output_filepath /\
        content = sorted_by fst (successful_reads pre) /\
        content <> [] /\
        StronglySorted (fun a b => fst a <= fst b) content /\
        Permutation content (successful_reads pre) /\
        (forall i, filter (fun r => fst r =? i) content
                   = filter (fun r => fst r =? i) (successful_reads pre)) /\
        post = [TvPut (if ok then TmSaved fp else TmWriteFailed)]) /\
    (out = Ret tt -> successful_reads evs <> [] ->
     exists pre fp content ok post,
       evs = pre ++ TvSavePositions fp content ok :: post).
Proof. apply save_run_facts. Qed.

Lemma saved_positions_are_the_sorted_successful_reads_witness :
  exists evs,
    snd (save_current_positions demo_bench shuffled_fs "position/rest.json"
                                [])
    = [] ++ evs /\
    (forall pre fp content ok post,
        evs = pre ++ TvSavePositions fp content ok :: post ->
        Ret tt = Ret tt /\ fp = "position/rest.json" /\
        content = sorted_by fst (successful_reads pre) /\
        content <> [] /\
        StronglySorted (fun a b => fst a <= fst b) content /\
        Permutation content (successful_reads pre) /\
        (forall i, filter (fun r => fst r =? i) content
                   = filter (fun r => fst r =? i) (successful_reads pre)) /\
        post = [TvPut (if ok then TmSaved fp else TmWriteFailed)]) /\
    (Ret tt = Ret tt -> successful_reads evs <> [] ->
     exists pre fp content ok post,
       evs = pre ++ TvSavePositions fp content ok :: post).
Proof.
  apply (saved_positions_are_the_sorted_successful_reads demo_bench
           shuffled_fs "position/rest.json" [] (Ret tt)).
  vm_compute. reflexivity.
Defined.

(** X18. [save_current_positions] never writes to a bus, and each of its
    reads asks one manifest entry, on that entry's bus, for the
    [present_position] register of its address block, at a width of 1, 2
    or 4 bytes: an entry whose block gives another width is skipped
    without any bus traffic. *)
Theorem position_saver_reads_present_positions_only bench fs
    output_filepath t out t' :
  save_current_positions bench fs output_filepath t = (out, t') ->
  exists evs,
    t' = t ++ evs /\
    (forall port params ok, ~ In (TvBulkWrite port params ok) evs) /\
    forall port len dxl_id addr pos ok err,
      In (TvRead port len dxl_id addr pos ok err) evs ->
      exists manifest address_map servo,
        manifest_file fs = Some manifest /\
        address_file fs = Some address_map /\
        In servo manifest /\ com_port servo = port /\
        position_read_of address_map port servo port len dxl_id addr.
Proof.
  intros Hrun. apply save_spec in Hrun.
  destruct Hrun as [(-> & -> & _)
                   |(manifest & address_map & evs & Em & Ea & _ & _ & F
                     & Hrun)].
  - exists []. split; [rewrite app_nil_r; reflexivity|].
    split; [intros ? ? ? []|intros ? ? ? ? ? ? ? []].
  - assert (W : forall port params ok, ~ In (TvBulkWrite port params ok) evs).
    { intros port params ok Hin. rewrite Forall_forall in F.
      destruct (F _ Hin) as (? & ? & ? & _ & []). }
    assert (Rd : forall port len dxl_id addr pos ok err,
               In (TvRead port len dxl_id addr pos ok err) evs ->
               exists manifest0 address_map0 servo,
                 manifest_file fs = Some manifest0 /\
                 address_file fs = Some address_map0 /\
                 In servo manifest0 /\ com_port servo = port /\
                 position_read_of address_map0 port servo port len dxl_id
                                  addr).
    { intros port len dxl_id addr pos ok err Hin. rewrite Forall_forall in F.
      destruct (F _ Hin) as (p & b & servos & Hg & servo & Hs & Hr).
      apply tool_groups_In in Hg. destruct Hg as (-> & _).
      apply filter_In in Hs. destruct Hs as (Hs & Hp).
      apply on_port_true in Hp.
      pose proof Hr as (-> & _).
      exists manifest, address_map, servo. auto 6. }
    destruct Hrun as [(Ho & ->)|(-> & _ & [(Hr & ->)|(Hr & ok & ->)])].
    + exists evs. auto.
    + eexists. split; [reflexivity|]. split.
      * intros port params ok Hin. apply in_app_or in Hin.
        destruct Hin as [Hin|[[=]|[]]]. eapply W; eauto.
      * intros port len dxl_id addr pos ok err Hin. apply in_app_or in Hin.
        destruct Hin as [Hin|[[=]|[]]]. eapply Rd; eauto.
    + eexists. split; [reflexivity|]. split.
      * intros port params ok' Hin. apply in_app_or in Hin.
        destruct Hin as [Hin|[[=]|[[=]|[[=]|[]]]]]. eapply W; eauto.
      * intros port len dxl_id addr pos ok' err Hin. apply in_app_or in Hin.
        destruct Hin as [Hin|[[=]|[[=]|[[=]|[]]]]]. eapply Rd; eauto.
Qed.

Lemma position_saver_reads_present_positions_only_witness :
  exists evs,
    snd (save_current_positions demo_bench demo_fs "position/rest.json" [])
    = [] ++ evs /\
    (forall port params ok, ~ In (TvBulkWrite port params ok) evs) /\
    forall port len dxl_id addr pos ok err,
      In (TvRead port len dxl_id addr pos ok err) evs ->
      exists manifest address_map servo,
        manifest_file demo_fs = Some manifest /\
        address_file demo_fs = Some address_map /\
        In servo manifest /\ com_port servo = port /\
        position_read_of address_map port servo port len dxl_id addr.
Proof.
  apply (position_saver_reads_present_positions_only demo_bench demo_fs
           "position/rest.json" [] (Ret tt)).
  vm_compute. reflexivity.
Defined.

Lemma find_rev_filter {A} (f : A -> bool) l :
  find f (rev l) = hd_error (rev (filter f l)).
Proof.
  induction l as [|x l IH] using rev_ind; [reflexivity|].
  rewrite rev_app_distr, filter_app. cbn.
  destruct (f x); cbn.
  - rewrite rev_app_distr. reflexivity.
  - rewrite app_nil_r. exact IH.
Qed.

(** A dictionary comprehension maps a key to the last entry that has
    it. *)
Lemma comprehension_get_find {A V} (key : A -> Z) (val : A -> V) l k :
  dict_get Z.eqb k
           (fold_left (fun d a => dict_set Z.eqb (key a) (val a) d) l [])
  = option_map val (find (fun a => key a =? k) (rev l)).
Proof.
  induction l as [|a l IH] using rev_ind; [reflexivity|].
  rewrite fold_left_app, rev_app_distr. cbn.
  destruct (key a =? k) eqn:E.
  - apply Z.eqb_eq in E. subst k.
    apply (dict_get_set_same Z.eqb Zeqb_spec).
  - apply Z.eqb_neq in E.
    rewrite (dict_get_set_other Z.eqb Zeqb_spec) by congruence. exact IH.
Qed.

(** X19. A position file written by [save_current_positions] loads in the
    sequencer as a goal set in which every actuator read has one goal,
    the position read LAST for its id, and no other actuator has a
    goal. *)
Theorem saved_positions_load_as_goals bench fs output_filepath t out pre
    content post fs' :
  save_current_positions bench fs output_filepath t
  = (out, t ++ pre ++ TvSavePositions output_filepath content true :: post) ->
  json_load fs' output_filepath = Some content ->
  exists goals,
    load_goals fs' output_filepath = Ret goals /\
    NoDup (dict_keys goals) /\
    forall i,
      dict_get Z.eqb i goals
      = option_map snd
          (find (fun r => fst r =? i) (rev (successful_reads pre))).
Proof.
  intros Hrun Hload.
  destruct (save_run_facts _ _ _ _ _ _ Hrun) as (evs & E & H & _).
  apply app_inv_head in E. symmetry in E.
  destruct (H _ _ _ _ _ E) as (_ & _ & _ & _ & _ & _ & Hst & _).
  unfold load_goals. rewrite Hload. eexists. split; [reflexivity|].
  rewrite (fold_left_ext_eq _ (fun d a => dict_set Z.eqb (fst a) (snd a) d))
    by (intros d [k v]; reflexivity).
  split.
  - apply (comprehension_NoDup Z.eqb Zeqb_spec fst snd). constructor.
  - intros i. rewrite comprehension_get_find, !find_rev_filter, Hst.
    reflexivity.
Qed.

Lemma saved_positions_load_as_goals_witness :
  exists goals,
    load_goals (fs_with_positions "position/rest.json"
                                  [(1, 2001); (2, 2002); (3, 2003)])
               "position/rest.json" = Ret goals /\
    NoDup (dict_keys goals) /\
    forall i,
      dict_get Z.eqb i goals
      = option_map snd
          (find (fun r => fst r =? i)
                (rev (successful_reads
                        [TvOpenPort "COM1" (Some true);
                         TvSetBaudRate "COM1" 57600 (Some true);
                         TvPut (TmReading "COM1");
                         TvRead "COM1" 4 3 132 2003 true 0;
                         TvPut (TmRead 3 2003);
                         TvRead "COM1" 4 2 132 2002 true 0;
                         TvPut (TmRead 2 2002);
                         TvClosePort "COM1"; TvOpenPort "COM2" (Some true);
                         TvSetBaudRate "COM2" 57600 (Some true);
                         TvPut (TmReading "COM2");
                         TvRead "COM2" 4 1 132 2001 true 0;
                         TvPut (TmRead 1 2001);
                         TvClosePort "COM2"; TvPut (TmSaving 3)]))).
Proof.
  apply (saved_positions_load_as_goals demo_bench shuffled_fs
           "position/rest.json" [] (Ret tt) _
           [(1, 2001); (2, 2002); (3, 2003)]
           [TvPut (TmSaved "position/rest.json")]).
  - vm_compute. reflexivity.
  - vm_compute. reflexivity.
Defined.

(** ** scanner.py *)

Lemma DXL_ID_RANGE_spec i : In i DXL_ID_RANGE <-> 0 <= i <= 100.
Proof.
  unfold DXL_ID_RANGE. rewrite in_map_iff. split.
  - intros (n & <- & Hn). apply in_seq in Hn. lia.
  - intros H. exists (Z.to_nat i). split; [lia|]. apply in_seq. lia.
Qed.

Lemma answered_pings_app evs1 evs2 :
  answered_pings (evs1 ++ evs2) = answered_pings evs1 ++ answered_pings evs2.
Proof. unfold answered_pings. apply flat_map_app. Qed.

Lemma scanned_nil ports : scanned ports [] [].
Proof. split; [reflexivity|constructor]. Qed.

Lemma scanned_app ports e1 n1 e2 n2 :
  scanned ports e1 n1 -> scanned ports e2 n2 ->
  scanned ports (e1 ++ e2) (n1 ++ n2).
Proof.
  intros (M1 & F1) (M2 & F2). split.
  - rewrite map_app, answered_pings_app, M1, M2. reflexivity.
  - apply Forall_app. split.
    + eapply Forall_impl; [|exact F1]. intros s (? & ? & ? & H).
      repeat split; auto. apply in_or_app. auto.
    + eapply Forall_impl; [|exact F2]. intros s (? & ? & ? & H).
      repeat split; auto. apply in_or_app. auto.
Qed.

(** One ping. *)
Lemma scan_id_spec bench port baud found dxl_id t :
  In dxl_id DXL_ID_RANGE ->
  exists o evs,
    scan_id bench port baud found dxl_id t = (o, t ++ evs) /\
    Forall (fun e => scan_event [port] e /\ on_ports [] e) evs /\
    forall acc,
      o = Ret acc ->
      exists new,
        acc = found ++ new /\
        map servo_key new = answered_pings evs /\
        Forall (fun s => com_port s = port /\ baud_rate s = baud /\
                         In (id s) DXL_ID_RANGE) new.
Proof.
  intros Hi. unfold scan_id, tbind, tput, temit, tret.
  destruct (bench_ping bench t port dxl_id) as [[model ok] err] eqn:Ep.
  destruct (ok && (err =? 0))%bool eqn:Eok; tool_trace.
  - split; [repeat (apply Forall_cons;
                      [cbn [scan_event on_ports In]; auto|]);
            apply Forall_nil|].
    intros acc [= <-]. eexists. split; [reflexivity|].
    split; [cbn; rewrite Eok; reflexivity|].
    apply Forall_cons; [|apply Forall_nil]. cbn [com_port baud_rate id]. auto.
  - split; [repeat (apply Forall_cons;
                      [cbn [scan_event on_ports In]; auto|]);
            apply Forall_nil|].
    intros acc [= <-]. exists []. rewrite app_nil_r. split; [reflexivity|].
    split; [cbn; rewrite Eok; reflexivity|constructor].
Qed.

(** The pings of one link speed. *)
Lemma scan_ids_spec bench port baud found t :
  exists o evs,
    tfoldM (scan_id bench port baud) DXL_ID_RANGE found t = (o, t ++ evs) /\
    Forall (fun e => scan_event [port] e /\ on_ports [] e) evs /\
    forall acc,
      o = Ret acc ->
      exists new,
        acc = found ++ new /\
        map servo_key new = answered_pings evs /\
        Forall (fun s => com_port s = port /\ baud_rate s = baud /\
                         In (id s) DXL_ID_RANGE) new.
Proof.
  destruct (tracks_foldM
              (fun evs new =>
                 map servo_key new = answered_pings evs /\
                 Forall (fun s => com_port s = port /\ baud_rate s = baud /\
                                  In (id s) DXL_ID_RANGE) new)
              (fun (_ : Z) e => scan_event [port] e /\ on_ports [] e)
              (scan_id bench port baud) DXL_ID_RANGE)
    with (acc := found) (t := t) as (o & evs & E & F & H).
  - split; [reflexivity|constructor].
  - intros e1 n1 e2 n2 (M1 & F1) (M2 & F2). split.
    + rewrite map_app, answered_pings_app, M1, M2. reflexivity.
    + apply Forall_app. auto.
  - intros acc i Hi t0.
    destruct (scan_id_spec bench port baud acc i t0 Hi)
      as (o & evs & E & F & H).
    exists o, evs. auto.
  - exists o, evs. split; [exact E|]. split; [|exact H].
    eapply Forall_impl; [|exact F]. intros e (_ & _ & He). exact He.
Qed.

(** One link speed of one port. *)
Lemma scan_baud_spec bench port found baud t :
  In baud BAUDRATES ->
  exists o evs,
    scan_baud bench port found baud t = (o, t ++ evs) /\
    Forall (fun e => scan_event [port] e
                     /\ match e with
                        | TvOpenPort _ _ | TvClosePort _ => False
                        | _ => True
                        end) evs /\
    forall acc,
      o = Ret acc ->
      exists new, acc = found ++ new /\ scanned [port] evs new.
Proof.
  intros Hb. unfold scan_baud, tbind, tool_set_baud, tput, temit, tret.
  destruct (bench_setBaudRate bench t port baud) as [[|]|] eqn:Eb;
    cbn [negb].
  - destruct (scan_ids_spec bench port baud found
                ((t ++ [TvSetBaudRate port baud (Some true)])
                   ++ [TvPut (TmScanning port baud)]))
      as (o & evs & E & F & H).
    rewrite E.
    exists o, ([TvSetBaudRate port baud (Some true);
                TvPut (TmScanning port baud)] ++ evs).
    split; [rewrite <- !app_assoc; reflexivity|]. split.
    + repeat (apply Forall_cons; [cbn [scan_event In]; auto|]).
      eapply Forall_impl; [|exact F]. intros e (He & Hq).
      split; [exact He|]. destruct e; cbn [on_ports In] in Hq; auto.
    + intros acc ->. destruct (H _ eq_refl) as (new & -> & M & Fn).
      exists new. split; [reflexivity|]. split; [exact M|].
      eapply Forall_impl; [|exact Fn]. intros s (-> & -> & Hi).
      split; [left; reflexivity|]. split; [exact Hb|]. split; [exact Hi|].
      left. reflexivity.
  - tool_trace.
    split; [repeat (apply Forall_cons; [cbn [scan_event In]; auto|]);
            apply Forall_nil|].
    intros acc [= <-]. exists []. rewrite app_nil_r.
    split; [reflexivity|]. split; [reflexivity|constructor].
  - tool_trace.
    split; [repeat (apply Forall_cons; [cbn [scan_event In]; auto|]);
            apply Forall_nil|discriminate].
Qed.

Lemma tool_open_ports_no_open evs open :
  Forall (fun e => match e with
                   | TvOpenPort _ _ | TvClosePort _ => False
                   | _ => True
                   end) evs ->
  tool_open_ports evs open = open.
Proof.
  intros F. revert open.
  induction F as [|e evs He _ IH]; intros open; cbn; auto.
  destruct e as [q [[|]|]|q b r|q| | | | | | |]; auto; destruct He.
Qed.

(** One port of the scan: whatever the link speeds do, the port is closed
    again. *)
Lemma scan_port_spec bench found port t :
  exists o evs,
    scan_port bench found port t = (o, t ++ evs) /\
    Forall (scan_event [port]) evs /\
    forall acc,
      o = Ret acc ->
      exists new,
        acc = found ++ new /\ scanned [port] evs new /\
        tool_open_ports evs [] = [].
Proof.
  unfold scan_port, tbind, tool_open, tool_close, temit, tret.
  destruct (bench_openPort bench t port) as [[|]|] eqn:Eo; cbn [negb].
  - destruct (tracks_foldM
                (scanned [port])
                (fun (_ : Z) e =>
                   scan_event [port] e
                   /\ match e with
                      | TvOpenPort _ _ | TvClosePort _ => False
                      | _ => True
                      end)
                (scan_baud bench port) BAUDRATES (scanned_nil _)
                (scanned_app _))
      with (acc := found) (t := t ++ [TvOpenPort port (Some true)])
      as (o & evs & E & F & H).
    { intros acc baud Hb t0.
      destruct (scan_baud_spec bench port acc baud t0 Hb)
        as (o & evs & E & F & H).
      exists o, evs. auto. }
    rewrite E.
    assert (F1 : Forall (scan_event [port]) evs).
    { eapply Forall_impl; [|exact F]. intros e (_ & _ & He & _). exact He. }
    assert (F2 : Forall (fun e => match e with
                                  | TvOpenPort _ _ | TvClosePort _ => False
                                  | _ => True
                                  end) evs).
    { eapply Forall_impl; [|exact F]. intros e (_ & _ & _ & He). exact He. }
    destruct o as [acc| |].
    + destruct (H _ eq_refl) as (new & -> & Sc).
      exists (Ret (found ++ new)),
        ([TvOpenPort port (Some true)] ++ evs ++ [TvClosePort port]).
      split; [rewrite <- !app_assoc; reflexivity|]. split.
      * apply Forall_cons; [cbn; auto|]. apply Forall_app.
        split; [exact F1|]. apply Forall_cons; [cbn; auto|apply Forall_nil].
      * intros ? [= <-]. exists new. split; [reflexivity|]. split.
        -- assert (So : scanned [port] [TvOpenPort port (Some true)] [])
             by (split; [reflexivity|constructor]).
           assert (Sl : scanned [port] [TvClosePort port] [])
             by (split; [reflexivity|constructor]).
           pose proof (scanned_app _ _ _ _ _ So
                         (scanned_app _ _ _ _ _ Sc Sl)) as S.
           cbn [app] in S. rewrite app_nil_r in S. exact S.
        -- cbn [app tool_open_ports].
           rewrite tool_open_ports_app, (tool_open_ports_no_open _ _ F2).
           cbn. rewrite String.eqb_refl. reflexivity.
    + exists (Raise e), ([TvOpenPort port (Some true)] ++ evs).
      split; [rewrite <- !app_assoc; reflexivity|].
      split; [|discriminate]. apply Forall_cons; [cbn; auto|exact F1].
    + exists OutOfFuel, ([TvOpenPort port (Some true)] ++ evs).
      split; [rewrite <- !app_assoc; reflexivity|].
      split; [|discriminate]. apply Forall_cons; [cbn; auto|exact F1].
  - tool_trace.
    split; [apply Forall_cons; [cbn; auto|apply Forall_nil]|].
    intros acc [= <-]. exists []. rewrite app_nil_r.
    split; [reflexivity|]. split; [split; [reflexivity|constructor]|].
    reflexivity.
  - tool_trace.
    split; [apply Forall_cons; [cbn; auto|apply Forall_nil]|discriminate].
Qed.

Lemma scan_event_weaken ports ports' e :
  (forall q, In q ports -> In q ports') ->
  scan_event ports e -> scan_event ports' e.
Proof. intros H. destruct e; cbn; auto; intros (? & ?); auto. Qed.

Lemma scanned_weaken ports ports' evs new :
  (forall q, In q ports -> In q ports') ->
  scanned ports evs new -> scanned ports' evs new.
Proof.
  intros H (M & F). split; [exact M|].
  eapply Forall_impl; [|exact F]. intros s (? & ? & ? & ?). auto.
Qed.

(** The loop of [run_scan] over the ports. *)
Lemma scan_ports_spec bench ports t :
  exists o evs,
    tfoldM (scan_port bench) ports [] t = (o, t ++ evs) /\
    Forall (scan_event ports) evs /\
    forall found,
      o = Ret found ->
      scanned ports evs found /\ tool_open_ports evs [] = [].
Proof.
  destruct (tracks_foldM
              (fun evs new => scanned ports evs new
                              /\ tool_open_ports evs [] = [])
              (fun port e => scan_event [port] e)
              (scan_port bench) ports)
    with (acc := @nil Servo) (t := t) as (o & evs & E & F & H).
  - split; [apply scanned_nil|reflexivity].
  - intros e1 n1 e2 n2 (S1 & O1) (S2 & O2).
    split; [apply scanned_app; assumption|].
    rewrite tool_open_ports_app, O1. exact O2.
  - intros acc port Hp t0.
    destruct (scan_port_spec bench acc port t0) as (o & evs & E & F & H).
    exists o, evs. split; [exact E|]. split; [exact F|].
    intros acc' ->. destruct (H _ eq_refl) as (new & -> & Sc & O).
    exists new. split; [reflexivity|]. split; [|exact O].
    eapply scanned_weaken; [|exact Sc]. intros q [<-|[]]. exact Hp.
  - exists o, evs. split; [exact E|]. split.
    + eapply Forall_impl; [|exact F]. intros e (port & Hp & He).
      eapply scan_event_weaken; [|exact He]. intros q [<-|[]]. exact Hp.
    + intros found ->. destruct (H _ eq_refl) as (new & -> & S & O).
      auto.
Qed.

(** The shape of a run of [run_scan]. *)
Lemma scan_spec bench success_message t out t' :
  run_scan bench success_message t = (out, t') ->
  exists ok_dir evs tail,
    t' = t ++ [TvPut TmRule; TvPut TmScanTitle; TvPut TmRule;
               TvMakeDirs OUTPUT_DIR ok_dir] ++ evs ++ tail /\
    Forall (scan_event (bench_comports bench)) evs /\
    ((out <> Ret tt /\ tail = []) \/
     (out = Ret tt /\ bench_comports bench = [] /\ evs = [] /\
      tail = [TvPut TmNoPorts]) \/
     (out = Ret tt /\ bench_comports bench <> [] /\
      tool_open_ports evs [] = [] /\
      exists found,
        scanned (bench_comports bench) evs found /\
        ((found = [] /\ tail = [TvPut TmNoServos]) \/
         (found <> [] /\
          exists ok,
            tail = [TvPut (TmScanComplete (List.length found));
                    TvPut TmSavingManifest;
                    TvSaveManifest (sorted_by id found) ok;
                    TvPut (if ok then TmManifestSaved else TmManifestFailed);
                    TvPut (TmText success_message)])))).
Proof.
  unfold run_scan, tbind, tput, temit.
  destruct (bench_makedirs bench OUTPUT_DIR) eqn:Ed.
  2:{ intros [= <- <-]. exists false, [], [].
      split; [rewrite <- !app_assoc; reflexivity|].
      split; [constructor|]. left. split; [discriminate|reflexivity]. }
  destruct (bench_comports bench) as [|p0 ports] eqn:Ec.
  { intros [= <- <-]. exists true, [], [TvPut TmNoPorts].
    split; [rewrite <- !app_assoc; reflexivity|].
    split; [constructor|]. right. left. auto. }
  destruct (scan_ports_spec bench (p0 :: ports)
              ((((t ++ [TvPut TmRule]) ++ [TvPut TmScanTitle])
                  ++ [TvPut TmRule]) ++ [TvMakeDirs OUTPUT_DIR true]))
    as (o & evs & E & F & H).
  rewrite E. destruct o as [found| |].
  2,3: intros [= <- <-]; exists true, evs, [];
    (split; [rewrite <- !app_assoc, app_nil_r; reflexivity|]);
    (split; [exact F|]); left; split; [discriminate|reflexivity].
  destruct (H _ eq_refl) as (Sc & O).
  destruct found as [|s found].
  - intros [= <- <-]. exists true, evs, [TvPut TmNoServos].
    split; [rewrite <- !app_assoc; reflexivity|]. split; [exact F|].
    right. right. split; [reflexivity|]. split; [discriminate|].
    split; [exact O|]. exists []. split; [exact Sc|]. left. auto.
  - destruct (bench_write bench _ OUTPUT_FILENAME) eqn:Ew;
      intros [= <- <-]; exists true, evs; eexists;
      (split; [rewrite <- !app_assoc; cbn [app]; reflexivity|]);
      (split; [exact F|]); right; right; (split; [reflexivity|]);
      (split; [discriminate|]); (split; [exact O|]);
      exists (s :: found); (split; [exact Sc|]); right;
      (split; [discriminate|]);
      [exists true|exists false]; reflexivity.
Qed.

Lemma scan_events_no_save ports evs :
  Forall (scan_event ports) evs -> existsb is_save evs = false.
Proof.
  induction 1 as [|e evs He _ IH]; cbn; auto.
  rewrite IH, orb_false_r. destruct e; cbn in *; auto; destruct He.
Qed.

Lemma scan_run_facts bench success_message t out t' :
  run_scan bench success_message t = (out, t') ->
  exists evs,
    t' = t ++ evs /\
    (forall pre content ok post,
        evs = pre ++ TvSaveManifest content ok :: post ->
        out = Ret tt /\ content <> [] /\
        (exists found,
            content = sorted_by id found /\
            map servo_key found = answered_pings pre) /\
        StronglySorted (fun a b => id a <= id b) content /\
        Forall (fun s =>
                  In (com_port s) (bench_comports bench) /\
                  In (baud_rate s) BAUDRATES /\ 0 <= id s <= 100 /\
                  In (TvSetBaudRate (com_port s) (baud_rate s) (Some true))
                     pre) content /\
        post = [TvPut (if ok then TmManifestSaved else TmManifestFailed);
                TvPut (TmText success_message)]) /\
    (out = Ret tt -> answered_pings evs <> [] ->
     exists pre content ok post,
       evs = pre ++ TvSaveManifest content ok :: post) /\
    (out = Ret tt -> tool_open_ports evs [] = []).
Proof.
  intros Hrun. apply scan_spec in Hrun.
  destruct Hrun as (ok_dir & evs & tail & -> & F & Hrun).
  pose proof (scan_events_no_save _ _ F) as Hn.
  set (head := [TvPut TmRule; TvPut TmScanTitle; TvPut TmRule;
                TvMakeDirs OUTPUT_DIR ok_dir]).
  assert (Hh : existsb is_save (head ++ evs) = false)
    by (rewrite existsb_app, Hn; reflexivity).
  assert (Ah : forall l, answered_pings (head ++ l) = answered_pings l)
    by reflexivity.
  assert (Oh : forall l, tool_open_ports (head ++ l) [] = tool_open_ports l [])
    by reflexivity.
  exists (head ++ evs ++ tail). split; [reflexivity|].
  destruct Hrun as [(Ho & ->)
                   |[(-> & Ec & -> & ->)
                    |(-> & Ec & O & found & Sc & Hf)]].
  - rewrite app_nil_r. split; [|split; intros; contradiction].
    intros pre content ok post E. exfalso.
    refine (no_split is_save _ _ _ _ _ E eq_refl). exact Hh.
  - split; [|split].
    + intros pre content ok post E. exfalso.
      refine (no_split is_save _ _ _ _ _ E eq_refl). reflexivity.
    + intros _ H. exfalso. apply H. reflexivity.
    + reflexivity.
  - destruct Sc as (M & Fs).
    destruct Hf as [(-> & ->)|(Hne & ok & ->)].
    + split; [|split].
      * intros pre content ok post E. exfalso.
        refine (no_split is_save _ _ _ _ _ E eq_refl).
        rewrite app_assoc, existsb_app, Hh. reflexivity.
      * intros _ H. exfalso. apply H.
        rewrite Ah, answered_pings_app, <- M. reflexivity.
      * intros _. rewrite Oh, tool_open_ports_app, O. reflexivity.
    + split; [|split].
      * intros pre content ok' post E.
        change (head ++ evs ++
                  [TvPut (TmScanComplete (List.length found));
                   TvPut TmSavingManifest;
                   TvSaveManifest (sorted_by id found) ok;
                   TvPut (if ok then TmManifestSaved else TmManifestFailed);
                   TvPut (TmText success_message)])
          with (head ++ evs ++
                  [TvPut (TmScanComplete (List.length found));
                   TvPut TmSavingManifest] ++
                  [TvSaveManifest (sorted_by id found) ok;
                   TvPut (if ok then TmManifestSaved else TmManifestFailed);
                   TvPut (TmText success_message)]) in E.
        rewrite !app_assoc in E.
        apply (split_after_prefix is_save) in E;
          [|rewrite existsb_app, Hh; reflexivity|reflexivity].
        destruct E as (pre' & -> & E).
        destruct pre' as [|e0 pre']; cbn in E.
        2:{ injection E as <- E.
            destruct pre' as [|? pre']; [discriminate E|].
            injection E as <- E.
            destruct pre' as [|? pre']; [discriminate E|].
            injection E as <- E. destruct pre'; discriminate E. }
        injection E as <- <- <-. rewrite app_nil_r.
        split; [reflexivity|].
        split; [intros H; apply sorted_by_nil_inv in H; contradiction|].
        split.
        { exists found. split; [reflexivity|].
          rewrite <- !app_assoc, Ah, answered_pings_app, M. cbn.
          rewrite app_nil_r. reflexivity. }
        split; [apply sorted_by_sorted|]. split; [|reflexivity].
        eapply Permutation_Forall; [symmetry; apply sorted_by_perm|].
        eapply Forall_impl; [|exact Fs]. intros s (Hp & Hb & Hi & Hs).
        split; [exact Hp|]. split; [exact Hb|].
        split; [apply DXL_ID_RANGE_spec; exact Hi|].
        apply in_or_app. left. apply in_or_app. right. exact Hs.
      * intros _ _. eexists ((head ++ evs) ++ [_; _]), _, _, _.
        rewrite <- !app_assoc. reflexivity.
      * intros _. rewrite Oh, tool_open_ports_app, O. reflexivity.
Qed.

(** X20. The manifest that [run_scan] writes is written once, when at
    least one ping was answered, and holds one record per answered ping,
    sorted by id: its port is one of the ports found, its link speed one
    of the five of the table and one that this port accepted, its id
    between 0 and 100.  The closing message is put after it whether the
    write succeeded or not. *)
Theorem scan_manifest_lists_the_answered_pings bench success_message t out
    t' :
  run_scan bench success_message t = (out, t') ->
  exists evs,
    t' = t ++ evs /\
    (forall pre content ok post,
        evs = pre ++ TvSaveManifest content ok :: post ->
        out = Ret tt /\ content <> [] /\
        (exists found,
            content = sorted_by id found /\
            map servo_key found = answered_pings pre) /\
        StronglySorted (fun a b => id a <= id b) content /\
        Forall (fun s =>
                  In (com_port s) (bench_comports bench) /\
                  In (baud_rate s) BAUDRATES /\ 0 <= id s <= 100 /\
                  In (TvSetBaudRate (com_port s) (baud_rate s) (Some true))
                     pre) content /\
        post = [TvPut (if ok then TmManifestSaved else TmManifestFailed);
                TvPut (TmText success_message)]) /\
    (out = Ret tt -> answered_pings evs <> [] ->
     exists pre content ok post,
       evs = pre ++ TvSaveManifest content ok :: post).
Proof.
  intros Hrun.
  destruct (scan_run_facts _ _ _ _ _ Hrun) as (evs & E & H1 & H2 & _).
  exists evs. auto.
Qed.

Lemma scan_manifest_lists_the_answered_pings_witness :
  exists evs,
    snd (run_scan picky_bench "Scan finished." []) = [] ++ evs /\
    (forall pre content ok post,
        evs = pre ++ TvSaveManifest content ok :: post ->
        Ret tt = Ret tt /\ content <> [] /\
        (exists found,
            content = sorted_by id found /\
            map servo_key found = answered_pings pre) /\
        StronglySorted (fun a b => id a <= id b) content /\
        Forall (fun s =>
                  In (com_port s) (bench_comports picky_bench) /\
                  In (baud_rate s) BAUDRATES /\ 0 <= id s <= 100 /\
                  In (TvSetBaudRate (com_port s) (baud_rate s) (Some true))
                     pre) content /\
        post = [TvPut (if ok then TmManifestSaved else TmManifestFailed);
                TvPut (TmText "Scan finished.")]) /\
    (Ret tt = Ret tt -> answered_pings evs <> [] ->
     exists pre content ok post,
       evs = pre ++ TvSaveManifest content ok :: post).
Proof.
  apply (scan_manifest_lists_the_answered_pings picky_bench "Scan finished."
           [] (Ret tt)).
  vm_compute. reflexivity.
Defined.

Lemma leaked_iff ports evs :
  Forall (on_ports ports) evs ->
  tool_open_ports evs [] = filter (refused evs) ports ->
  forall p, In p (tool_open_ports evs []) <-> refused evs p = true.
Proof.
  intros F E p. rewrite E, filter_In. split; [tauto|].
  intros H. split; [|exact H].
  destruct (in_dec string_dec p ports) as [Hin|Hn]; [exact Hin|].
  rewrite (refused_elsewhere _ _ _ F Hn) in H. discriminate.
Qed.

(** X21. When [set_torque] returns normally, the ports it leaves open are
    exactly those that opened and then refused the link speed: it closes
    a port only after it sent the write. *)
Theorem torque_command_leaves_refused_ports_open bench fs state t evs :
  set_torque bench fs state t = (Ret tt, t ++ evs) ->
  forall p, In p (tool_open_ports evs []) <-> refused evs p = true.
Proof.
  intros Hrun. apply set_torque_spec in Hrun.
  destruct Hrun as [(_ & _ & _ & E)|(v & _ & Hrun)].
  { apply app_inv_head in E. subst evs. intros p. cbn.
    split; [intros []|discriminate]. }
  destruct Hrun as [(_ & E & _)
                   |(manifest & address_map & evs' & _ & _ & _ & _ & E & F
                     & H)].
  { apply app_inv_head in E. subst evs. intros p. cbn.
    split; [intros []|discriminate]. }
  apply app_inv_head in E. subst evs. destruct (H eq_refl) as (_ & O).
  assert (Fp : Forall (on_ports (dict_keys (tool_servos_by_port manifest)))
                      evs').
  { eapply Forall_impl; [|exact F]. intros e (q & b & servos & Hin & He).
    apply torque_event_on_port in He.
    eapply on_ports_weaken; [|exact He]. intros q' [<-|[]].
    apply in_map_iff. exists (q, (b, servos)). auto. }
  intros p.
  assert (E1 : tool_open_ports
                 (TvPut (TmTorqueStart (state =? "on")%string)
                    :: evs' ++ [TvPut (TmTorqueFinished (upper state))]) []
               = tool_open_ports evs' []).
  { cbn [tool_open_ports]. rewrite tool_open_ports_app. reflexivity. }
  assert (E2 : refused
                 (TvPut (TmTorqueStart (state =? "on")%string)
                    :: evs' ++ [TvPut (TmTorqueFinished (upper state))]) p
               = refused evs' p).
  { change (refused (TvPut ?m :: ?l) p) with (refused l p).
    rewrite refused_app. apply orb_false_r. }
  rewrite E1, E2. apply (leaked_iff _ _ Fp O).
Qed.

(** On the two-bus rig [COM2] refuses its link speed and stays open. *)
Lemma torque_command_leaves_refused_ports_open_witness :
  refused (snd (set_torque picky_bench two_bus_fs "off" [])) "COM2" = true
  /\ In "COM2" (tool_open_ports
                  (snd (set_torque picky_bench two_bus_fs "off" [])) []).
Proof.
  split; [vm_compute; reflexivity|].
  apply (proj2 (torque_command_leaves_refused_ports_open picky_bench
                  two_bus_fs "off" []
                  (snd (set_torque picky_bench two_bus_fs "off" []))
                  ltac:(vm_compute; reflexivity) "COM2")).
  vm_compute. reflexivity.
Defined.

(** X22. When [save_current_positions] returns normally, the ports it
    leaves open are exactly those that opened and then refused the link
    speed: it closes a port only after it read its servos. *)
Theorem position_saver_leaves_refused_ports_open bench fs output_filepath t
    evs :
  save_current_positions bench fs output_filepath t = (Ret tt, t ++ evs) ->
  forall p, In p (tool_open_ports evs []) <-> refused evs p = true.
Proof.
  intros Hrun. apply save_spec in Hrun.
  destruct Hrun as [(_ & E & _)
                   |(manifest & address_map & evs' & _ & _ & _ & _ & F
                     & Hrun)].
  { rewrite (app_nil_end_eq t) in E at 2. apply app_inv_head in E.
    subst evs. intros p. cbn. split; [intros []|discriminate]. }
  assert (Fp : Forall (on_ports (dict_keys (tool_servos_by_port manifest)))
                      evs').
  { eapply Forall_impl; [|exact F]. intros e (q & b & servos & Hin & He).
    apply save_event_on_port in He.
    eapply on_ports_weaken; [|exact He]. intros q' [<-|[]].
    apply in_map_iff. exists (q, (b, servos)). auto. }
  destruct Hrun as [(Ho & _)|(_ & O & [(_ & E)|(_ & ok & E)])];
    [contradiction| |].
  all: apply app_inv_head in E; subst evs; intros p.
  all: rewrite tool_open_ports_app, refused_app.
  all: cbn [tool_open_ports refused existsb]; rewrite orb_false_r.
  all: apply (leaked_iff _ _ Fp O).
Qed.

Lemma position_saver_leaves_refused_ports_open_witness :
  refused (snd (save_current_positions picky_bench two_bus_fs
                                       "position/rest.json" [])) "COM2"
  = true
  /\ In "COM2" (tool_open_ports
                  (snd (save_current_positions picky_bench two_bus_fs
                                               "position/rest.json" [])) []).
Proof.
  split; [vm_compute; reflexivity|].
  apply (proj2 (position_saver_leaves_refused_ports_open picky_bench
                  two_bus_fs "position/rest.json" []
                  (snd (save_current_positions picky_bench two_bus_fs
                                               "position/rest.json" []))
                  ltac:(vm_compute; reflexivity) "COM2")).
  vm_compute. reflexivity.
Defined.

(** X23. [run_scan] pings only the ids 0 to 100 on the ports found, sets
    only the five link speeds of its table, and when it returns normally
    it has closed every port it opened, whichever link speeds were
    refused. *)
Theorem scan_stays_in_range_and_closes_its_ports bench success_message t out
    evs :
  run_scan bench success_message t = (out, t ++ evs) ->
  (forall q dxl_id model ok err,
      In (TvPing q dxl_id model ok err) evs ->
      In q (bench_comports bench) /\ 0 <= dxl_id <= 100) /\
  (forall q b r,
      In (TvSetBaudRate q b r) evs ->
      In q (bench_comports bench) /\ In b BAUDRATES) /\
  (forall q r, In (TvOpenPort q r) evs -> In q (bench_comports bench)) /\
  (out = Ret tt -> tool_open_ports evs [] = []).
Proof.
  intros Hrun.
  destruct (scan_run_facts _ _ _ _ _ Hrun) as (evs0 & E0 & _ & _ & O).
  apply app_inv_head in E0. subst evs0.
  apply scan_spec in Hrun.
  destruct Hrun as (ok_dir & evs' & tail & E & F & Hrun).
  apply app_inv_head in E. subst evs.
  assert (Ht : forall e,
             In e tail ->
             match e with
             | TvPing _ _ _ _ _ | TvSetBaudRate _ _ _ | TvOpenPort _ _ =>
                 False
             | _ => True
             end).
  { destruct Hrun as [(_ & ->)
                     |[(_ & _ & _ & ->)
                      |(_ & _ & _ & found & _
                        & [(_ & ->)|(_ & ok & ->)])]];
      intros e He; cbn in He;
      repeat (destruct He as [<-|He]; [exact I|]); destruct He. }
  assert (Hin : forall e,
             In e ([TvPut TmRule; TvPut TmScanTitle; TvPut TmRule;
                    TvMakeDirs OUTPUT_DIR ok_dir] ++ evs' ++ tail) ->
             match e with
             | TvPing _ _ _ _ _ | TvSetBaudRate _ _ _ | TvOpenPort _ _ =>
                 scan_event (bench_comports bench) e
             | _ => True
             end).
  { intros e He. cbn [app In] in He.
    repeat (destruct He as [<-|He]; [exact I|]).
    apply in_app_or in He. destruct He as [He|He].
    - rewrite Forall_forall in F. specialize (F _ He).
      destruct e; auto.
    - specialize (Ht _ He). destruct e; auto; destruct Ht. }
  split; [|split; [|split]].
  - intros q dxl_id model ok err H. destruct (Hin _ H) as (Hq & Hi).
    split; [exact Hq|]. apply DXL_ID_RANGE_spec. exact Hi.
  - intros q b r H. exact (Hin _ H).
  - intros q r H. exact (Hin _ H).
  - exact O.
Qed.

Lemma scan_stays_in_range_and_closes_its_ports_witness :
  (forall q dxl_id model ok err,
      In (TvPing q dxl_id model ok err)
         (snd (run_scan picky_bench "Scan finished." [])) ->
      In q (bench_comports picky_bench) /\ 0 <= dxl_id <= 100) /\
  (forall q b r,
      In (TvSetBaudRate q b r)
         (snd (run_scan picky_bench "Scan finished." [])) ->
      In q (bench_comports picky_bench) /\ In b BAUDRATES) /\
  (forall q r,
      In (TvOpenPort q r) (snd (run_scan picky_bench "Scan finished." [])) ->
      In q (bench_comports picky_bench)) /\
  (Ret tt = Ret tt ->
   tool_open_ports (snd (run_scan picky_bench "Scan finished." [])) [] = []).
Proof.
  apply (scan_stays_in_range_and_closes_its_ports picky_bench
           "Scan finished." [] (Ret tt)).
  vm_compute. reflexivity.
Defined.
